(* ===== verification/_CoqProject ===== *)
-Q . S2P
Prelude.v
GoStrings.v
Base64.v
Json.v
Protocol.v
Framing.v
GoTime.v
Replay.v
Auth.v
Regexp.v
ConfigTypes.v
GoNet.v
GoPath.v
Paths.v
CredCache.v
CacheSteps.v
CacheLaws.v
CacheLive.v
Sources.v
Fetch.v
Resolve.v
ResolveLaws.v
ArgsPolicy.v
Interpolate.v
Redactor.v
World.v
OutputBuffer.v
Config.v
Settings.v
ConfigLaws.v
PathRules.v
HttpProxy.v
HttpProxyLaws.v
SecretFile.v
Env.v
Runtime.v
AuditLog.v
AuditFile.v
Executor.v
Drain.v
Daemon.v
Service.v
CaManager.v
Cli.v
Wrapper.v
ExecutorLaws.v
RunLaws.v
RunSafety.v
StreamLaws.v
DrainLaws.v
DaemonLaws.v
PeerDarwin.v
WrapperLaws.v
SessionLaws.v
InputLaws.v
EndToEnd.v
CaLaws.v
CliLaws.v
CliMain.v
ReloadLaws.v
Backends.v
ServiceLaws.v
Witnesses.v
ServiceWitnesses.v
ClientWitnesses.v
LifeWitnesses.v
