(* ===== verification/Prelude.v ===== *)
(** * claw-wrap: a verified model of its credential wrapper

    [claw-wrap] (sources under [src/]) lets a user run configured command-line tools
    with credentials the user never sees. A symbolic link named after a tool runs
    the _client_ ([internal/wrapper]); it signs a request with a shared secret
    ([internal/auth]) and sends it over a Unix socket ([internal/framing],
    [internal/protocol]) to the _daemon_ ([internal/daemon]). The daemon checks the
    caller's executable, the signature, its freshness and the tool's policy
    ([internal/config]), fetches the credentials ([internal/credentials]), runs the
    tool with them in its environment, and sends back its output with the secrets
    redacted. An _HTTP proxy_ ([internal/httpproxy]) injects credentials into
    requests to configured hosts, with a certificate authority of its own. Runs are
    recorded in an audit log ([internal/audit]). [cmd/claw-wrap] is the command line.

    ** Method

    Every function of the program that decides or changes something is a definition
    with the source's name and branches, executable wherever its parameters are. Go's
    [error] is the type [error] of this file (a sentinel, a formatted or a wrapped
    error, so that [errors.Is] can be decided) and a function that may fail returns
    [result]. Bytes are [list ascii], strings Rocq's [string], machine integers [Z]
    with their wrap-around written out, maps [gmap]; the order of a [range] over a map
    is any order ([MapRange]). State is passed explicitly. Concurrency is what happens
    between the steps of one goroutine: a list of events ([Executor.schedule],
    [Wrapper.choice], [Daemon.accept_event]), and a theorem that holds for every list
    holds for every interleaving; [Service] and [CacheSteps] have the steps of all
    goroutines. Whatever the operating system may refuse consults a list of faults,
    and a theorem that holds for every list holds whatever fails.

    ** Files

    _Go's library_, as far as it is called: [GoStrings] (UTF-8, strings, numbers),
    [Base64], [Json] (strings and string lists byte for byte; structs through the
    interface [Codec]), [GoTime], [GoNet], [GoPath], [Regexp] (the engine is an
    interface; [RegexpLaws] states what the program relies on, and the engine
    [simple_regexp] satisfies it).

    _Protocol and authentication_: [Protocol] (protocol.go), [Framing] (framing.go),
    [Auth] (auth.go), [Replay] (replay.go), [SecretFile] (auth.go and daemon.go: the
    secret's and the token's files).

    _Configuration_: [ConfigTypes], [Config], [Settings] (config.go), [ArgsPolicy]
    (args_rules.go, args_policy.go), [Interpolate] (interpolate.go), [Paths]
    (paths.go); properties in [ConfigLaws] and [PathRules].

    _Credentials_: [CredCache] (cache.go as one caller sees it), [CacheSteps] (the
    same under concurrent calls, with its sweepers and shared fetches; properties in
    [CacheLaws] and [CacheLive]), [Sources], [Fetch], [Resolve] (the other
    files of internal/credentials) as computations of a state and error monad that
    records every command run; properties in [ResolveLaws]. [Backends] (the settings
    the daemon hands over, and what a reload does not reach).

    _Running a tool_: [World] (files and messages), [Redactor] (output_redactor.go),
    [OutputBuffer] (outputbuf.go), [Env] and [Executor] (executor.go), [Drain] (the
    same file: the deadlines after a tool's exit), [AuditLog] and
    [AuditFile] (audit.go, syslog.go), [Runtime] (runtime_modes.go, preview.go, templates);
    properties in [ExecutorLaws], [RunLaws], [RunSafety], [StreamLaws] and [DrainLaws].

    _Services_: [Daemon] (daemon.go, peercred_linux.go) with [DaemonLaws] and
    [ReloadLaws]; [Service] (the loops of [Run]: the life of a daemon as a sequence of
    events of its goroutines) with [ServiceLaws]; [PeerDarwin] (peercred_darwin.go,
    peercred_unsupported.go); [HttpProxy] (proxy.go, inject.go, security.go, ssrf.go) with
    [HttpProxyLaws]; [CaManager] (ca.go) with [CaLaws].

    _The user's side_: [Wrapper] (wrapper.go) with [WrapperLaws]; [Cli] (main.go,
    sudo_unix.go) with [CliLaws]; [CliMain] (the rest of cmd/claw-wrap).
    [SessionLaws], [InputLaws] and [EndToEnd] put the client and the daemon together.

    [Witnesses], [ServiceWitnesses], [ClientWitnesses] and [LifeWitnesses] evaluate
    the theorems on concrete inputs, with instances of every interface.

    ** What is proved

    - _Who may do what_: a connection runs a tool exactly when its caller and its
      request pass every check ([DaemonLaws.tool_run_iff]); previews of credentials,
      the proxy's injection and its tunnels are guarded likewise
      ([admin_check_guarded], [injection_guarded], [proxy_authenticated]); a signature
      shared by two requests is a collision of the MAC ([signature_binds_request]).
      Over a whole life, with reloads in between, every run was admitted
      ([every_run_admitted]) and none is a second run of one signature
      ([no_second_run]).
    - _What a run does_: what it launches ([Run_launches]), that it tries to report
      its end exactly once ([Run_one_terminal]), that it closes, removes and kills
      what it made, whatever else is refused ([Run_cleans_up]), that it is audited
      ([Run_audited]), and that a request cannot change what the administrator
      protects ([request_env_noninterference]).
    - _What the user sees_: redaction does not depend on how output is cut
      ([redact_chunk_independent]) and a run's output arrives at the client's terminal
      whole, in order and without the secrets ([Run_output], [output_end_to_end]),
      also what the tool wrote last, to a client that takes it in time
      ([prompt_run_output]; [drain_cut_off] for one that does not); what the user
      types arrives at the tool in order ([input_end_to_end]); the client relays and
      ends ([client_relays], [client_terminates]).
    - _State over time_: what a reload installs, and what one that fails leaves at
      each place ([reload_outcome]), a daemon with its connections,
      signals and reloads ([service_invariant], [shutdown_final], [slots_return]), the
      credential cache, whose concurrent calls take effect one by one
      ([cache_linearizable]), return what is fresh ([concurrent_fetch_fresh]) and
      never block ([cache_calls_return]), secret files replaced atomically, the
      certificate authority over starts, failures and reloads
      ([served_certificate_valid], [ca_lifecycle], [ca_repaired]), the whole command
      that installs the links ([install_conservative]).
    - _Formats_: frames, lines, the audit log ([audit_file_read_back]), credential
      sources, path rules (for paths on one line) and host patterns mean what they
      say ([Decode_Encode_stream], [ParseSource_text], [compilePathRule_exact]).
    - _Where the code falls short_: theorems that exhibit it, such as [replay_bypass],
      [reload_half_applied], [reload_drops_audit], [encoder_error_stays],
      [request_env_bypass], [path_rule_gaps], [canWriteDir_probe],
      [idle_cuts_control] and [first_read_decides].

    ** Bounds and fuel

    Scanners over text ([rune_segs], [redact_tokens], [Interpolate]) recurse on fuel
    given by the length of the text, with lemmas that this is enough. Loops over
    events recurse on the list of events. The retries of the Bitwarden backend recurse
    on the list of delays; the pumper of [Drain] on the list of its writes. Lengths
    that Go keeps in [int64] appear as hypotheses ([max_int64]) where a counter could
    wrap.

    ** Interfaces

    [Regexp], [UnicodeCase], [DurationParser], [Codec], [OS], [Host], [Hash],
    [Singleflight], [Terminal], [Peers], [Files], [Libraries], [GitHubLib],
    [UrlHostname], [X509] and [Install] stand for libraries and for the operating
    system. Their laws are documented facts, stated with the class: a codec reads back
    what it wrote and writes no line break (its [marshal] may refuse a value:
    [encoding/json] does not read back a string that is not UTF-8); a certificate just
    made parses with the fields of its template and makes a pair with its key; a fetch
    group has one call in flight for a key, whose result all its callers receive.

    ** Not modelled

    The bytes of X.509, RSA, TLS and age; goproxy's handling of connections, dialers
    and transports; sockets, their deadlines, procfs and fsnotify, which are
    arguments; process groups beyond the signals sent; the transport of the system
    log beyond its losing and making its connection; log lines and help texts; YAML parsing; panics of a fetch under the fetch
    group. The goroutine that reads responses is
    merged with the case of the loop that takes them. The monotonic clock is not
    distinguished from the wall clock.

    Some steps of the code are one step here. A refused write to a temporary file
    of a run writes nothing, where a short write could leave part ([World]; the
    audit file has short writes). Between the steps of [finalizeOutput], and during
    and after the cleanup of a run, no pumper acts; in the program one that was given
    up on may still write. A generation of the certificate authority reads back the
    two files it has just written as one step: if another process replaced them in
    between, the program would serve its pair unchecked. The helper of [exec-json:]
    is checked and run as one view of its path, which the program opens twice. *)

From Stdlib Require Export ZArith Lia Ascii.
From stdpp Require Export base list strings gmap sorting.

(** ** Bytes and strings

    A Go [string] is a Rocq [string] (a sequence of 8-bit [ascii]), a Go
    [[]byte] is a [list ascii]; the conversions [string(b)] and [[]byte(s)] are
    [b2s] and [s2b]. *)
Abbreviation bytes := (list ascii).

Definition s2b (s : string) : bytes := String.list_ascii_of_string s.
Definition b2s (b : bytes) : string := String.string_of_list_ascii b.

Lemma b2s_s2b s : b2s (s2b s) = s.
Proof. apply String.string_of_list_ascii_of_string. Qed.

Lemma s2b_b2s b : s2b (b2s b) = b.
Proof. apply String.list_ascii_of_string_of_list_ascii. Qed.

#[export] Instance s2b_inj : Inj (=) (=) s2b.
Proof. intros x y H. by rewrite <- (b2s_s2b x), H, b2s_s2b. Qed.

#[export] Instance b2s_inj : Inj (=) (=) b2s.
Proof. intros x y H. by rewrite <- (s2b_b2s x), H, s2b_b2s. Qed.

Lemma s2b_app s t : s2b (s +:+ t) = s2b s ++ s2b t.
Proof. induction s as [|c s IH]; [done|]. unfold s2b in *; simpl. by f_equal. Qed.

Lemma b2s_app a b : b2s (a ++ b) = b2s a +:+ b2s b.
Proof. apply (inj s2b). by rewrite s2b_app, !s2b_b2s. Qed.

Lemma s2b_nil_iff s : s2b s = [] ↔ s = "".
Proof. split; [|by intros ->]. intros H. by apply (inj s2b). Qed.

(** [len(s)] in bytes. *)
Definition slen (s : string) : Z := Z.of_nat (String.length s).
Definition blen (b : bytes) : Z := Z.of_nat (length b).

Lemma s2b_length s : length (s2b s) = String.length s.
Proof. induction s; [done|]. unfold s2b in *; simpl; by f_equal. Qed.

(** The code of a byte, and the byte of a code. *)
Definition code (c : ascii) : Z := Z.of_N (N_of_ascii c).
Definition byte_of (z : Z) : ascii := ascii_of_N (Z.to_N (z mod 256)).

Lemma code_range c : (0 ≤ code c < 256)%Z.
Proof. unfold code. pose proof (N_ascii_bounded c). lia. Qed.

Lemma byte_of_code c : byte_of (code c) = c.
Proof.
  unfold byte_of, code. rewrite Z.mod_small by apply code_range.
  by rewrite N2Z.id, ascii_N_embedding.
Qed.

Lemma code_byte_of z : code (byte_of z) = (z mod 256)%Z.
Proof.
  unfold code, byte_of. pose proof (Z.mod_pos_bound z 256).
  rewrite N_ascii_embedding by lia. lia.
Qed.

#[export] Instance code_inj : Inj (=) (=) code.
Proof. intros a b H. by rewrite <- (byte_of_code a), H, byte_of_code. Qed.

(** ** Machine integers: Go's [int64] ([int] on the 64-bit targets), [uint32],
    [uint16], with wrap-around on overflow. *)
Definition int64 (z : Z) : Z := ((z + 2^63) mod 2^64 - 2^63)%Z.
Definition uint32 (z : Z) : Z := (z mod 2^32)%Z.
Definition uint16 (z : Z) : Z := (z mod 2^16)%Z.
Definition min_int64 : Z := (- 2^63)%Z.
Definition max_int64 : Z := (2^63 - 1)%Z.

Lemma int64_range z : (min_int64 ≤ int64 z ≤ max_int64)%Z.
Proof.
  unfold int64, min_int64, max_int64.
  pose proof (Z.mod_pos_bound (z + 2^63) (2^64)). lia.
Qed.

Lemma int64_id z : (min_int64 ≤ z ≤ max_int64)%Z → int64 z = z.
Proof.
  unfold int64, min_int64, max_int64. intros. rewrite Z.mod_small by lia. lia.
Qed.

(** ** Errors

    An error is a package-level sentinel (compared by identity, as
    [errors.Is] does), an [fmt.Errorf] message kept as its format and arguments,
    an [fmt.Errorf] with a [%w] operand, or an [errors.Join] of two. *)
Inductive farg := FS (s : string) | FZ (z : Z).

Inductive error :=
  | Sentinel (name : string)
  | Errorf (format : string) (args : list farg)
  | Wrapf (format : string) (args : list farg) (inner : error)
  | Joined (e1 e2 : error).

#[export] Instance farg_eq_dec : EqDecision farg.
Proof. solve_decision. Defined.
#[export] Instance error_eq_dec : EqDecision error.
Proof. solve_decision. Defined.

(** [errors.Is(e, target)] for a sentinel target. *)
Fixpoint errors_is (e : error) (target : string) : bool :=
  match e with
  | Sentinel n => String.eqb n target
  | Errorf _ _ => false
  | Wrapf _ _ i => errors_is i target
  | Joined a b => errors_is a target || errors_is b target
  end.

Definition io_EOF : error := Sentinel "io.EOF".
Definition io_ErrUnexpectedEOF : error := Sentinel "io.ErrUnexpectedEOF".

(** ** Results: a Go [(T, error)] pair of which exactly one part is meaningful. *)
Inductive result (A : Type) :=
  | Ok (a : A)
  | Err (e : error).
Arguments Ok {_} _.
Arguments Err {_} _.

#[export] Instance result_ret : MRet result := λ A, Ok.
#[export] Instance result_bind : MBind result := λ A B f r,
  match r with Ok a => f a | Err e => Err e end.
#[export] Instance result_fmap : FMap result := λ A B f r,
  match r with Ok a => Ok (f a) | Err e => Err e end.

Definition is_ok {A} (r : result A) : bool :=
  match r with Ok _ => true | Err _ => false end.

(** [fmt.Errorf(format, args..., err)]: wrap the error of a failed call. *)
Definition wrap_err {A} (format : string) (args : list farg) (r : result A) : result A :=
  match r with Ok a => Ok a | Err e => Err (Wrapf format args e) end.

(** A guard: [if bad { return err }]. *)
Definition guard_err (bad : bool) (e : error) : result unit :=
  if bad then Err e else Ok tt.

(** A loop that returns at its first error. *)
Fixpoint for_each {A} (f : A → result unit) (l : list A) : result unit :=
  match l with
  | [] => Ok tt
  | x :: l => f x ≫= λ _, for_each f l
  end.

Lemma bind_Ok {A B} (r : result A) (f : A → result B) b :
  r ≫= f = Ok b ↔ ∃ a, r = Ok a ∧ f a = Ok b.
Proof. destruct r; naive_solver. Qed.

Lemma wrap_err_Ok {A} fmt args (r : result A) a :
  wrap_err fmt args r = Ok a ↔ r = Ok a.
Proof. destruct r; naive_solver. Qed.

Lemma guard_err_Ok bad e u : guard_err bad e = Ok u ↔ bad = false.
Proof. destruct bad, u; naive_solver. Qed.

Lemma for_each_Ok {A} (f : A → result unit) l u :
  for_each f l = Ok u ↔ Forall (λ x, f x = Ok tt) l.
Proof.
  destruct u. induction l as [|x l IH]; simpl.
  - split; [constructor|done].
  - rewrite bind_Ok, Forall_cons. split.
    + intros ([] & ? & ?). naive_solver.
    + intros [? ?]. exists tt. naive_solver.
Qed.

(** ** Map iteration

    Go visits the entries of a map in an unspecified order. A loop
    [for k, v := range m] folds over [range m], and every theorem holds for every
    order, since [range] is a parameter of which only the law below is known. *)
Class MapRange := {
  range : ∀ {A : Type}, gmap string A → list (string * A);
  range_perm : ∀ {A : Type} (m : gmap string A), range m ≡ₚ map_to_list m;
}.

(** One admissible order, used by the witnesses. *)
#[export] Instance range_to_list : MapRange | 100 :=
  { range A m := map_to_list m; range_perm A m := reflexivity _ }.

Section map_range.
Context `{MapRange} {A : Type}.
Implicit Types m : gmap string A.

Lemma elem_of_range m k x : (k, x) ∈ range m ↔ m !! k = Some x.
Proof. by rewrite range_perm, elem_of_map_to_list. Qed.

Lemma range_NoDup_fst m : NoDup (range m).*1.
Proof. rewrite range_perm. apply NoDup_fst_map_to_list. Qed.

Lemma length_range m : length (range m) = size m.
Proof. by rewrite range_perm, length_map_to_list. Qed.

Lemma Forall_range (P : string * A → Prop) m :
  Forall P (range m) ↔ ∀ k x, m !! k = Some x → P (k, x).
Proof.
  rewrite Forall_forall. split.
  - intros HP k x Hk. apply HP. by apply elem_of_range.
  - intros HP [k x] Hk. apply HP. by apply elem_of_range.
Qed.
End map_range.

(** ** Automation shared by the components *)

Create HintDb claw discriminated.
#[export] Hint Resolve code_range int64_range : claw.
#[export] Hint Rewrite @bind_Ok @wrap_err_Ok guard_err_Ok @for_each_Ok b2s_s2b s2b_b2s : claw.

(** Invert a successful run: split every bind, guard and wrapped call. *)
Ltac inv_ok :=
  repeat match goal with
  | H : context [Ok _ ≫= _] |- _ => progress simpl in H
  | H : _ ≫= _ = Ok _ |- _ => apply bind_Ok in H; destruct H as (? & ? & ?)
  | H : wrap_err _ _ _ = Ok _ |- _ => apply wrap_err_Ok in H
  | H : guard_err _ _ = Ok _ |- _ => apply guard_err_Ok in H
  | H : for_each _ _ = Ok _ |- _ => apply for_each_Ok in H
  | H : Err _ = Ok _ |- _ => discriminate H
  | H : Ok _ = Ok _ |- _ => injection H as H
  | H : unit |- _ => destruct H
  | H : mret _ = Ok _ |- _ => unfold mret, result_ret in H
  end; subst.

(** Case analysis on the scrutinee of a [match] of a hypothesis or the goal. *)
Ltac case_in H :=
  match type of H with
  | context [match ?x with _ => _ end] => let E := fresh "E" in destruct x eqn:E
  end.
Ltac case_goal :=
  match goal with
  | |- context [match ?x with _ => _ end] => let E := fresh "E" in destruct x eqn:E
  end.

(** Case analysis on the first [bool_decide] of the goal. *)
Ltac goal_decide H :=
  match goal with
  | |- context [bool_decide ?P] => destruct (bool_decide_reflect P) as [H|H]
  end.

(** Refute a decidable closed proposition by evaluation. *)
Ltac decide_not := apply (proj1 (bool_decide_eq_false _)); vm_compute; reflexivity.

(** ** Generic list lemmas *)

Lemma prefix_app_inv_length {A} (l1 l2 k : list A) :
  l1 `prefix_of` l2 ++ k → length l1 ≤ length l2 → l1 `prefix_of` l2.
Proof.
  intros [x Hx] Hlen. exists (drop (length l1) l2).
  assert (take (length l1) (l2 ++ k) = take (length l1) (l1 ++ x)) as Ht by by rewrite Hx.
  rewrite take_app_le, take_app_length in Ht by done.
  by rewrite <- Ht at 1; rewrite take_drop.
Qed.

Lemma prefix_comparable {A} (l1 l2 l : list A) :
  l1 `prefix_of` l → l2 `prefix_of` l → l1 `prefix_of` l2 ∨ l2 `prefix_of` l1.
Proof.
  intros H1 [k ->]. destruct (decide (length l1 ≤ length l2)).
  - left. by eapply prefix_app_inv_length.
  - right. destruct H1 as [x Hx]. apply (prefix_app_inv_length _ _ x).
    + rewrite <- Hx. by exists k.
    + lia.
Qed.

Lemma fold_left_app_acc {A B} (f : B → list A) l acc :
  fold_left (λ out x, out ++ f x) l acc = acc ++ concat (f <$> l).
Proof.
  revert acc. induction l as [|x l IH]; intros acc; simpl.
  - by rewrite app_nil_r.
  - by rewrite IH, <- app_assoc.
Qed.

Lemma filter_Forall_id {A} (P : A → Prop) `{∀ x, Decision (P x)} (l : list A) :
  Forall P l → filter P l = l.
Proof. induction 1; [done|]. rewrite filter_cons_True by done. by f_equal. Qed.

Lemma size_insert_le {A} (m : gmap string A) k x : (size (<[k := x]> m) ≤ S (size m))%nat.
Proof. rewrite map_size_insert. destruct (m !! k); simpl; lia. Qed.
