(* ===== verification/GoStrings.v ===== *)
(** The parts of Go's [unicode/utf8], [strings], [bytes] and [strconv] packages
    the program calls, on byte strings.

    Functions on [[]byte] work on [bytes]; the versions on [string] convert.
    Case mapping outside ASCII needs Unicode's tables and is a parameter
    ([UnicodeCase]); everything else is concrete. *)

From S2P Require Import Prelude.
Local Open Scope Z_scope.

(** ** UTF-8 (package unicode/utf8) *)

Definition rune_error : Z := 0xFFFD.

Definition in_rng (lo hi z : Z) : bool := (lo <=? z) && (z <=? hi).

(** The accepted two, three and four byte forms (no surrogates, no overlong
    forms, at most U+10FFFF). *)
Definition valid2 (c0 c1 : ascii) : bool :=
  in_rng 0xC2 0xDF (code c0) && in_rng 0x80 0xBF (code c1).
Definition valid3 (c0 c1 c2 : ascii) : bool :=
  ((code c0 =? 0xE0) && in_rng 0xA0 0xBF (code c1)
   || (in_rng 0xE1 0xEC (code c0) || in_rng 0xEE 0xEF (code c0)) && in_rng 0x80 0xBF (code c1)
   || (code c0 =? 0xED) && in_rng 0x80 0x9F (code c1))
  && in_rng 0x80 0xBF (code c2).
Definition valid4 (c0 c1 c2 c3 : ascii) : bool :=
  ((code c0 =? 0xF0) && in_rng 0x90 0xBF (code c1)
   || in_rng 0xF1 0xF3 (code c0) && in_rng 0x80 0xBF (code c1)
   || (code c0 =? 0xF4) && in_rng 0x80 0x8F (code c1))
  && in_rng 0x80 0xBF (code c2) && in_rng 0x80 0xBF (code c3).

Definition rune2 (c0 c1 : ascii) : Z := (code c0 - 0xC0) * 64 + (code c1 - 0x80).
Definition rune3 (c0 c1 c2 : ascii) : Z :=
  (code c0 - 0xE0) * 4096 + (code c1 - 0x80) * 64 + (code c2 - 0x80).
Definition rune4 (c0 c1 c2 c3 : ascii) : Z :=
  (code c0 - 0xF0) * 262144 + (code c1 - 0x80) * 4096 + (code c2 - 0x80) * 64 + (code c3 - 0x80).

(** [utf8.DecodeRune] on a non-empty input: the rune, the bytes it came from and
    the remaining input; an invalid byte yields U+FFFD and consumes one byte. *)
Definition decode_rune (c0 : ascii) (r0 : bytes) : Z * bytes * bytes :=
  let one := (if code c0 <? 0x80 then code c0 else rune_error, [c0], r0) in
  match r0 with
  | c1 :: r1 =>
    if valid2 c0 c1 then (rune2 c0 c1, [c0; c1], r1) else
    match r1 with
    | c2 :: r2 =>
      if valid3 c0 c1 c2 then (rune3 c0 c1 c2, [c0; c1; c2], r2) else
      match r2 with
      | c3 :: r3 =>
        if valid4 c0 c1 c2 c3 then (rune4 c0 c1 c2 c3, [c0; c1; c2; c3], r3) else one
      | [] => one
      end
    | [] => one
    end
  | [] => one
  end.

(** [for _, r := range s]: the runes of a string with the bytes each one came
    from. Every rune takes at least a byte, so the length is enough fuel. *)
Fixpoint rune_segs_fuel (fuel : nat) (b : bytes) : list (Z * bytes) :=
  match fuel, b with
  | S fuel, c0 :: r0 =>
    let '(r, raw, rest) := decode_rune c0 r0 in (r, raw) :: rune_segs_fuel fuel rest
  | _, _ => []
  end.
Definition rune_segs (b : bytes) : list (Z * bytes) := rune_segs_fuel (length b) b.

(** [[]rune(s)]. *)
Definition runes (s : string) : list Z := (rune_segs (s2b s)).*1.

(** The bytes of one rune ([utf8.AppendRune]): U+FFFD for a surrogate or a value
    out of range. *)
Definition encode_rune (r : Z) : bytes :=
  if (r <? 0) || (r >? 0x10FFFF) || in_rng 0xD800 0xDFFF r then
    byte_of <$> [0xEF; 0xBF; 0xBD]
  else if r <? 0x80 then [byte_of r]
  else if r <? 0x800 then byte_of <$> [0xC0 + r / 64; 0x80 + r mod 64]
  else if r <? 0x10000 then
    byte_of <$> [0xE0 + r / 4096; 0x80 + (r / 64) mod 64; 0x80 + r mod 64]
  else
    byte_of <$> [0xF0 + r / 262144; 0x80 + (r / 4096) mod 64; 0x80 + (r / 64) mod 64; 0x80 + r mod 64].

(** [string(rs)] for a [[]rune]. *)
Definition string_of_runes (rs : list Z) : string := b2s (rs ≫= encode_rune).

(** [unicode.IsSpace]: the White_Space property. *)
Definition is_space (r : Z) : bool :=
  in_rng 9 13 r || (r =? 32) || (r =? 0x85) || (r =? 0xA0) || (r =? 0x1680)
  || in_rng 0x2000 0x200A r || in_rng 0x2028 0x2029 r || (r =? 0x202F) || (r =? 0x205F)
  || (r =? 0x3000).

(** ** Prefixes, search, trimming (packages strings and bytes) *)

Fixpoint has_prefix (b p : bytes) {struct p} : bool :=
  match p, b with
  | [], _ => true
  | _ :: _, [] => false
  | c :: p, d :: b => bool_decide (c = d) && has_prefix b p
  end.

Definition has_suffix (b p : bytes) : bool := has_prefix (reverse b) (reverse p).

Definition trim_prefix (b p : bytes) : bytes := if has_prefix b p then drop (length p) b else b.
Definition trim_suffix (b p : bytes) : bytes :=
  if has_suffix b p then take (length b - length p) b else b.

(** Position of the first occurrence of [sub]. *)
Fixpoint index_of (b sub : bytes) : option nat :=
  if has_prefix b sub then Some 0%nat
  else match b with [] => None | _ :: b => S <$> index_of b sub end.

Fixpoint drop_while {A} (p : A → bool) (l : list A) : list A :=
  match l with [] => [] | x :: l' => if p x then drop_while p l' else l end.

Definition drop_while_end {A} (p : A → bool) (l : list A) : list A :=
  reverse (drop_while p (reverse l)).

(** [bytes.TrimSpace]: leading and trailing White_Space runes. *)
Definition trim_space (b : bytes) : bytes :=
  let sp := λ s : Z * bytes, is_space s.1 in
  mjoin (drop_while_end sp (drop_while sp (rune_segs b))).*2.

Fixpoint split_char (c : ascii) (b : bytes) : list bytes :=
  match b with
  | [] => [[]]
  | d :: b =>
    if bool_decide (c = d) then [] :: split_char c b
    else match split_char c b with [] => [[d]] | w :: ws => (d :: w) :: ws end
  end.

(** [ReplaceAll] with a non-empty [old]; the fuel bounds the scan and the length
    of the input is enough. *)
Fixpoint replace_fuel (fuel : nat) (b old new : bytes) : bytes :=
  match fuel with
  | O => b
  | S fuel =>
    match b with
    | [] => []
    | c :: b' =>
      if has_prefix b old then new ++ replace_fuel fuel (drop (length old) b) old new
      else c :: replace_fuel fuel b' old new
    end
  end.

Definition HasPrefix (s p : string) : bool := has_prefix (s2b s) (s2b p).
Definition HasSuffix (s p : string) : bool := has_suffix (s2b s) (s2b p).
Definition TrimPrefix (s p : string) : string := b2s (trim_prefix (s2b s) (s2b p)).
Definition TrimSuffix (s p : string) : string := b2s (trim_suffix (s2b s) (s2b p)).
Definition Index (s sub : string) : option nat := index_of (s2b s) (s2b sub).
Definition Contains (s sub : string) : bool := bool_decide (is_Some (Index s sub)).
Definition TrimSpace (s : string) : string := b2s (trim_space (s2b s)).
Definition TrimRight (s cutset : string) : string :=
  b2s (drop_while_end (λ c, bool_decide (c ∈ s2b cutset)) (s2b s)).
Definition Split (s : string) (c : ascii) : list string := b2s <$> split_char c (s2b s).
Definition ReplaceAll (s old new : string) : string :=
  b2s (replace_fuel (String.length s) (s2b s) (s2b old) (s2b new)).
Definition SliceFrom (s : string) (n : nat) : string := b2s (drop n (s2b s)).
Definition SliceTo (s : string) (n : nat) : string := b2s (take n (s2b s)).

(** [strings.Cut(s, sep)]: before, after, found. *)
Definition Cut (s sep : string) : string * string * bool :=
  match Index s sep with
  | Some i => (SliceTo s i, SliceFrom s (i + String.length sep), true)
  | None => (s, "", false)
  end.

(** [strings.SplitN(s, sep, 2)]. *)
Definition SplitN2 (s sep : string) : list string :=
  match Cut s sep with (a, b, true) => [a; b] | _ => [s] end.

Fixpoint Join (l : list string) (sep : string) : string :=
  match l with
  | [] => ""
  | [x] => x
  | x :: l => x +:+ sep +:+ Join l sep
  end.

(** [strings.ContainsAny(s, chars)] for ASCII [chars]. *)
Definition ContainsAny (s chars : string) : bool :=
  existsb (λ c, bool_decide (c ∈ s2b chars)) (s2b s).

(** ** Case mapping *)

Class UnicodeCase := { lower_rune : Z → Z; upper_rune : Z → Z }.

#[export] Instance ascii_case_only : UnicodeCase | 100 := { lower_rune := id; upper_rune := id }.

Definition lower_ascii (z : Z) : Z := if in_rng 65 90 z then z + 32 else z.
Definition upper_ascii (z : Z) : Z := if in_rng 97 122 z then z - 32 else z.
Definition is_ascii (s : string) : bool := forallb (λ c, code c <? 128) (s2b s).

Section case_mapping.
Context `{UnicodeCase}.

Definition map_case (f g : Z → Z) (s : string) : string :=
  if is_ascii s then b2s ((λ c, byte_of (f (code c))) <$> s2b s)
  else string_of_runes ((λ r, if r <? 128 then f r else g r) <$> runes s).

Definition ToLower (s : string) : string := map_case lower_ascii lower_rune s.
Definition ToUpper (s : string) : string := map_case upper_ascii upper_rune s.
End case_mapping.

(** [strings.EqualFold(s, t)] for a [t] in ASCII: simple folding equates a rune
    with an ASCII letter when their lower cases agree, and U+017F with [s],
    U+212A with [k]. *)
Definition fold_ascii (r : Z) : Z :=
  if r =? 0x17F then 115 else if r =? 0x212A then 107 else lower_ascii r.
Definition EqualFold (s t : string) : bool :=
  bool_decide ((fold_ascii <$> runes s) = (fold_ascii <$> runes t)).

(** ** strconv *)

Definition digit_of (base : Z) (c : ascii) : option Z :=
  let d := code c - 48 in
  if (0 <=? d) && (d <? base) && (d <? 10) then Some d else None.

Fixpoint digits_val (base : Z) (acc : Z) (b : bytes) : option Z :=
  match b with
  | [] => Some acc
  | c :: b => match digit_of base c with Some d => digits_val base (acc * base + d) b | None => None end
  end.

(** [strconv.ParseUint(s, base, bits)] for a base of at most ten. *)
Definition parse_uint (base bits : Z) (b : bytes) : option Z :=
  match b with
  | [] => None
  | _ => v ← digits_val base 0 b; if v <? 2 ^ bits then Some v else None
  end.
Definition ParseUint (s : string) (base bits : Z) : option Z := parse_uint base bits (s2b s).

(** [strconv.ParseInt(s, 10, 64)]; [None] is any error. *)
Definition ParseInt64 (s : string) : option Z :=
  let '(neg, ds) :=
    match s2b s with
    | c :: r => if bool_decide (c = "-"%char) then (true, r)
                else if bool_decide (c = "+"%char) then (false, r) else (false, c :: r)
    | [] => (false, [])
    end in
  match ds with
  | [] => None
  | _ =>
    v ← digits_val 10 0 ds;
    let n := if neg then - v else v in
    if (min_int64 <=? n) && (n <=? max_int64) then Some n else None
  end.

(** [strconv.FormatInt(n, 10)]; the fuel covers the digits of a 64-bit value. *)
Fixpoint format_nonneg (fuel : nat) (n : Z) (acc : bytes) : bytes :=
  match fuel with
  | O => acc
  | S fuel =>
    let acc := byte_of (48 + n mod 10) :: acc in
    if n <? 10 then acc else format_nonneg fuel (n / 10) acc
  end.
Definition FormatInt (n : Z) : string :=
  b2s (if n <? 0 then "-"%char :: format_nonneg 20 (- n) [] else format_nonneg 20 n []).

(** ** Lemmas *)

Lemma has_prefix_spec b p : has_prefix b p = true ↔ p `prefix_of` b.
Proof.
  revert b. induction p as [|c p IH]; intros [|d b]; simpl.
  - split; [intros _; apply prefix_nil|done].
  - split; [intros _; apply prefix_nil|done].
  - split; [done|]. intros [x Hx]. discriminate.
  - rewrite andb_true_iff, bool_decide_eq_true, IH. split.
    + intros [-> Hp]. by apply prefix_cons.
    + intros Hp. split; [by eapply prefix_cons_inv_1|by eapply prefix_cons_inv_2].
Qed.

Lemma has_prefix_false b p : has_prefix b p = false ↔ ¬ p `prefix_of` b.
Proof. rewrite <- has_prefix_spec. by destruct (has_prefix b p). Qed.

Lemma has_prefix_app p k : has_prefix (p ++ k) p = true.
Proof. apply has_prefix_spec. by exists k. Qed.

#[export] Hint Resolve has_prefix_app : claw.

Lemma HasPrefix_spec s p : HasPrefix s p = true ↔ ∃ t, s = p +:+ t.
Proof.
  unfold HasPrefix. rewrite has_prefix_spec. split.
  - intros [k Hk]. exists (b2s k). apply (inj s2b). by rewrite s2b_app, s2b_b2s.
  - intros [t ->]. exists (s2b t). apply s2b_app.
Qed.

Lemma index_of_spec b sub n :
  index_of b sub = Some n → sub `prefix_of` drop n b ∧ ∀ m, (m < n)%nat → ¬ sub `prefix_of` drop m b.
Proof.
  revert n. induction b as [|c b IH]; intros n; cbn -[has_prefix].
  - destruct (has_prefix [] sub) eqn:E; [|done]. intros [= <-].
    split; [by apply has_prefix_spec|lia].
  - destruct (has_prefix (c :: b) sub) eqn:E.
    + intros [= <-]. split; [by apply has_prefix_spec|lia].
    + destruct (index_of b sub) as [k|] eqn:Ek; [|done]. intros [= <-].
      destruct (IH k eq_refl) as [H1 H2]. split; [done|].
      intros [|m] Hm; [by apply has_prefix_false|]. apply H2. lia.
Qed.

Lemma index_of_None b sub n : index_of b sub = None → ¬ sub `prefix_of` drop n b.
Proof.
  revert n. induction b as [|c b IH]; intros n; cbn -[has_prefix].
  - destruct (has_prefix [] sub) eqn:E; [done|]. intros _.
    rewrite drop_nil. by apply has_prefix_false.
  - destruct (has_prefix (c :: b) sub) eqn:E; [done|].
    destruct (index_of b sub); [done|]. intros _.
    destruct n; [by apply has_prefix_false|]. by apply IH.
Qed.

Lemma elem_of_drop_while {A} (p : A → bool) l x : x ∈ drop_while p l → x ∈ l.
Proof.
  induction l as [|y l IH]; simpl; [done|]. destruct (p y); [|done].
  intros. right. auto.
Qed.

(** Go's [Split] and [Join] on a single byte are inverse. *)
Lemma split_char_not_nil c b : split_char c b ≠ [].
Proof. destruct b; simpl; [done|]. by repeat case_match. Qed.

Lemma split_char_no_sep c b : Forall (λ w, c ∉ w) (split_char c b).
Proof.
  induction b as [|d b IH]; simpl.
  - constructor; [by apply not_elem_of_nil|done].
  - case_bool_decide as E.
    + constructor; [by apply not_elem_of_nil|done].
    + destruct (split_char c b) as [|w ws]; inversion IH; subst.
      * constructor; [|done]. by rewrite list_elem_of_singleton.
      * constructor; [|done]. rewrite elem_of_cons. naive_solver.
Qed.

(** The shapes of a decoded rune. *)
Inductive rune_shape : Z → bytes → Prop :=
  | shape_ascii c : code c < 0x80 → rune_shape (code c) [c]
  | shape_bad c : 0x80 ≤ code c → rune_shape rune_error [c]
  | shape2 c0 c1 : valid2 c0 c1 = true → rune_shape (rune2 c0 c1) [c0; c1]
  | shape3 c0 c1 c2 : valid3 c0 c1 c2 = true → rune_shape (rune3 c0 c1 c2) [c0; c1; c2]
  | shape4 c0 c1 c2 c3 : valid4 c0 c1 c2 c3 = true →
      rune_shape (rune4 c0 c1 c2 c3) [c0; c1; c2; c3].

Lemma decode_rune_spec c0 r0 r raw rest :
  decode_rune c0 r0 = (r, raw, rest) →
  c0 :: r0 = raw ++ rest ∧ rune_shape r raw ∧ (length rest ≤ length r0)%nat.
Proof.
  unfold decode_rune. intros H.
  assert ((if code c0 <? 0x80 then code c0 else rune_error, [c0], r0) = (r, raw, rest) →
    c0 :: r0 = raw ++ rest ∧ rune_shape r raw ∧ (length rest ≤ length r0)%nat) as Hone.
  { intros [= <- <- <-]. split; [done|]. split; [|done].
    destruct (Z.ltb_spec (code c0) 0x80); by constructor. }
  destruct r0 as [|c1 r1]; [by apply Hone|].
  destruct (valid2 c0 c1) eqn:V2.
  { injection H as <- <- <-. repeat split; [by constructor|simpl; lia]. }
  destruct r1 as [|c2 r2]; [by apply Hone|].
  destruct (valid3 c0 c1 c2) eqn:V3.
  { injection H as <- <- <-. repeat split; [by constructor|simpl; lia]. }
  destruct r2 as [|c3 r3]; [by apply Hone|].
  destruct (valid4 c0 c1 c2 c3) eqn:V4; [|by apply Hone].
  injection H as <- <- <-. repeat split; [by constructor|simpl; lia].
Qed.

Lemma rune_segs_fuel_concat n b : (length b ≤ n)%nat → mjoin (rune_segs_fuel n b).*2 = b.
Proof.
  revert b. induction n as [|n IH]; intros [|c0 r0] Hle; simpl in *; try (done || lia).
  destruct (decode_rune c0 r0) as [[r raw] rest] eqn:E.
  apply decode_rune_spec in E as (-> & _ & Hl). simpl. by rewrite IH by lia.
Qed.

(** The segments of a string are its bytes. *)
Lemma rune_segs_concat b : mjoin (rune_segs b).*2 = b.
Proof. by apply rune_segs_fuel_concat. Qed.

Lemma rune_segs_shape b : Forall (λ s, rune_shape s.1 s.2) (rune_segs b).
Proof.
  unfold rune_segs. generalize (length b) at 1 as n. intros n. revert b.
  induction n as [|n IH]; intros [|c0 r0]; simpl; try constructor.
  destruct (decode_rune c0 r0) as [[r raw] rest] eqn:E.
  apply decode_rune_spec in E as (_ & Hs & _). by constructor.
Qed.

Lemma runes_nil s : runes s = [] → s = "".
Proof.
  unfold runes. intros H%fmap_nil_inv. apply (inj s2b).
  by rewrite <- (rune_segs_concat (s2b s)), H.
Qed.

(** ** Decimal numbers *)

Lemma digit_of_byte d : 0 ≤ d < 10 → digit_of 10 (byte_of (48 + d)) = Some d.
Proof.
  intros Hd. unfold digit_of. rewrite code_byte_of, Z.mod_small by lia.
  replace (48 + d - 48) with d by lia.
  rewrite (proj2 (Z.leb_le _ _)), (proj2 (Z.ltb_lt _ _)) by lia. done.
Qed.

Lemma digits_val_format fuel n acc :
  0 ≤ n < 10 ^ Z.of_nat fuel → (0 < fuel)%nat → digits_val 10 0 (format_nonneg fuel n acc) = digits_val 10 n acc.
Proof.
  revert n acc. induction fuel as [|fuel IH]; intros n acc Hn Hf; [lia|].
  cbn [format_nonneg]. pose proof (Z.mod_pos_bound n 10 ltac:(lia)) as Hm.
  pose proof (Z.div_mod n 10 ltac:(lia)) as Hdm. destruct (Z.ltb_spec n 10).
  - cbn [digits_val]. rewrite digit_of_byte by done. by rewrite Z.mod_small by lia.
  - assert (0 < fuel)%nat as Hf'.
    { destruct fuel; [|lia]. change (10 ^ Z.of_nat 1) with 10 in Hn. lia. }
    rewrite IH; [|split|done].
    + cbn [digits_val]. rewrite digit_of_byte by done. f_equal. lia.
    + apply Z.div_pos; lia.
    + rewrite Nat2Z.inj_succ, Z.pow_succ_r in Hn by lia. apply Z.div_lt_upper_bound; lia.
Qed.

Lemma format_nonneg_head fuel n acc :
  acc ≠ [] ∧ hd "0"%char acc ≠ "-"%char ∧ hd "0"%char acc ≠ "+"%char ∨ (0 < fuel)%nat →
  ∃ c t, format_nonneg fuel n acc = c :: t ∧ c ≠ "-"%char ∧ c ≠ "+"%char.
Proof.
  revert n acc. induction fuel as [|fuel IH]; intros n acc Hacc.
  - destruct Hacc as [(Hne & H1 & H2)|]; [|lia]. destruct acc as [|c t]; [done|]. by exists c, t.
  - cbn [format_nonneg]. set (c := byte_of (48 + n mod 10)).
    assert (c ≠ "-"%char ∧ c ≠ "+"%char) as [H1 H2].
    { pose proof (Z.mod_pos_bound n 10 ltac:(lia)). assert (code c = 48 + n mod 10) as Hc.
      { unfold c. rewrite code_byte_of. apply Z.mod_small. lia. }
      split; intros E; rewrite E in Hc; [change (code "-") with 45 in Hc|change (code "+") with 43 in Hc]; lia. }
    destruct (n <? 10); [by exists c, acc|]. apply IH. by left.
Qed.

(** Every 64-bit number is read back as it was written. *)
Lemma ParseInt64_FormatInt n : min_int64 ≤ n ≤ max_int64 → ParseInt64 (FormatInt n) = Some n.
Proof.
  intros Hn. unfold ParseInt64, FormatInt.
  assert (∀ m, 0 ≤ m ≤ 2 ^ 63 → digits_val 10 0 (format_nonneg 20 m []) = Some m) as Hd.
  { intros m Hm. rewrite digits_val_format; [done| |lia].
    change (10 ^ Z.of_nat 20) with 100000000000000000000. lia. }
  unfold min_int64, max_int64 in *. destruct (Z.ltb_spec n 0); rewrite s2b_b2s.
  - rewrite bool_decide_eq_true_2 by done. specialize (Hd (- n) ltac:(lia)).
    destruct (format_nonneg_head 20 (- n) [] ltac:(right; lia)) as (c & t & E & _).
    rewrite E in *. cbn [mbind option_bind]. rewrite Hd. cbn. rewrite Z.opp_involutive.
    rewrite (proj2 (Z.leb_le _ _)), (proj2 (Z.leb_le _ _)) by lia. done.
  - specialize (Hd n ltac:(lia)). destruct (format_nonneg_head 20 n [] ltac:(right; lia)) as (c & t & E & H1 & H2).
    rewrite E in *. rewrite !bool_decide_eq_false_2 by done. rewrite Hd. cbn.
    rewrite (proj2 (Z.leb_le _ _)), (proj2 (Z.leb_le _ _)) by lia. done.
Qed.

(** A character of a decimal number, and where a number ends. *)
Definition number_char (c : ascii) : bool := bool_decide (c = "-"%char) || ((48 <=? code c) && (code c <? 58)).

Lemma format_nonneg_chars fuel n acc :
  Forall (λ c, number_char c = true) acc → Forall (λ c, number_char c = true) (format_nonneg fuel n acc).
Proof.
  revert n acc. induction fuel as [|fuel IH]; intros n acc Hacc; cbn [format_nonneg]; [done|].
  assert (number_char (byte_of (48 + n mod 10)) = true) as Hc.
  { unfold number_char. rewrite code_byte_of. pose proof (Z.mod_pos_bound n 10 ltac:(lia)).
    rewrite (Z.mod_small (48 + n mod 10) 256) by lia. apply orb_true_iff. right. apply andb_true_iff. split; [apply Z.leb_le|apply Z.ltb_lt]; lia. }
  destruct (n <? 10); [by constructor|]. apply IH. by constructor.
Qed.

Lemma FormatInt_chars n : Forall (λ c, number_char c = true) (s2b (FormatInt n)).
Proof.
  unfold FormatInt. rewrite s2b_b2s. destruct (n <? 0); [constructor; [done|]|]; by apply format_nonneg_chars.
Qed.

Lemma span_inv {A} (p : A → bool) a b k1 k2 :
  Forall (λ c, p c = true) a → Forall (λ c, p c = true) b →
  match k1 with c :: _ => p c = false | [] => True end → match k2 with c :: _ => p c = false | [] => True end →
  a ++ k1 = b ++ k2 → a = b ∧ k1 = k2.
Proof.
  revert b. induction a as [|c a IH]; intros [|d b] Ha Hb H1 H2 E; cbn in E.
  - done.
  - subst k1. apply Forall_cons in Hb as [Hd _]. congruence.
  - subst k2. apply Forall_cons in Ha as [Hc _]. congruence.
  - injection E as -> E. apply Forall_cons in Ha as [_ Ha], Hb as [_ Hb]. by destruct (IH _ Ha Hb H1 H2 E) as [-> ->].
Qed.

(** A 64-bit number followed by something else determines both. *)
Lemma FormatInt_inv n1 n2 k1 k2 :
  min_int64 ≤ n1 ≤ max_int64 → min_int64 ≤ n2 ≤ max_int64 →
  match k1 with c :: _ => number_char c = false | [] => True end →
  match k2 with c :: _ => number_char c = false | [] => True end →
  s2b (FormatInt n1) ++ k1 = s2b (FormatInt n2) ++ k2 → n1 = n2 ∧ k1 = k2.
Proof.
  intros R1 R2 H1 H2 (E & ->)%(span_inv number_char); try done; try apply FormatInt_chars. split; [|done].
  apply (inj s2b) in E. pose proof (ParseInt64_FormatInt n1 R1) as P1. rewrite E, ParseInt64_FormatInt in P1 by done.
  by injection P1 as ->.
Qed.
