(* ===== verification/Base64.v ===== *)
(** Package [encoding/base64]: [StdEncoding] (padded) and [RawURLEncoding]
    (no padding), with the decoder's leniency (line breaks skipped, trailing bits
    ignored) and the round trip both ends of the protocol rely on. *)

From S2P Require Import Prelude GoStrings.
Local Open Scope Z_scope.

Record encoding := {
  alphabet : list ascii;  (* the 64 digits *)
  padded : bool;
}.

Definition std_alphabet : list ascii :=
  s2b "ABCDEFGHIJKLMNOPQRSTUVWXYZabcdefghijklmnopqrstuvwxyz0123456789+/".
Definition url_alphabet : list ascii :=
  s2b "ABCDEFGHIJKLMNOPQRSTUVWXYZabcdefghijklmnopqrstuvwxyz0123456789-_".

Definition StdEncoding : encoding := {| alphabet := std_alphabet; padded := true |}.
Definition RawURLEncoding : encoding := {| alphabet := url_alphabet; padded := false |}.

Definition pad : ascii := "="%char.

Fixpoint find_digit (l : list ascii) (c : ascii) : option Z :=
  match l with
  | [] => None
  | d :: l => if bool_decide (c = d) then Some 0 else Z.succ <$> find_digit l c
  end.

Definition digit (e : encoding) (v : Z) : ascii := nth (Z.to_nat v) (alphabet e) pad.
Definition undigit (e : encoding) (c : ascii) : option Z := find_digit (alphabet e) c.

Fixpoint encode (e : encoding) (b : bytes) : bytes :=
  match b with
  | [] => []
  | [x] =>
    let n := code x * 16 in
    [digit e (n / 64); digit e (n mod 64)] ++ (if padded e then [pad; pad] else [])
  | [x; y] =>
    let n := (code x * 256 + code y) * 4 in
    [digit e (n / 4096); digit e (n / 64 mod 64); digit e (n mod 64)]
      ++ (if padded e then [pad] else [])
  | x :: y :: z :: b =>
    let n := code x * 65536 + code y * 256 + code z in
    digit e (n / 262144) :: digit e (n / 4096 mod 64) :: digit e (n / 64 mod 64)
      :: digit e (n mod 64) :: encode e b
  end.

Definition two_digits (e : encoding) (c1 c2 : ascii) : option bytes :=
  a ← undigit e c1; b ← undigit e c2; Some [byte_of (a * 4 + b / 16)].
Definition three_digits (e : encoding) (c1 c2 c3 : ascii) : option bytes :=
  a ← undigit e c1; b ← undigit e c2; c ← undigit e c3;
  Some [byte_of (a * 4 + b / 16); byte_of (b * 16 + c / 4)].
Definition four_digits (e : encoding) (c1 c2 c3 c4 : ascii) : option bytes :=
  a ← undigit e c1; b ← undigit e c2; c ← undigit e c3; d ← undigit e c4;
  Some [byte_of (a * 4 + b / 16); byte_of (b * 16 + c / 4); byte_of (c * 64 + d)].

Fixpoint decode_quanta (e : encoding) (b : bytes) : option bytes :=
  match b with
  | [] => Some []
  | [c1; c2] => if padded e then None else two_digits e c1 c2
  | [c1; c2; c3] => if padded e then None else three_digits e c1 c2 c3
  | c1 :: c2 :: c3 :: c4 :: b =>
    if padded e && bool_decide (c4 = pad) then
      match b with
      | [] => if bool_decide (c3 = pad) then two_digits e c1 c2 else three_digits e c1 c2 c3
      | _ => None
      end
    else q ← four_digits e c1 c2 c3 c4; r ← decode_quanta e b; Some (q ++ r)
  | _ => None
  end.

Definition is_newline (c : ascii) : bool :=
  bool_decide (c = "013"%char) || bool_decide (c = "010"%char).

(** [DecodeString]; [None] is a [CorruptInputError]. *)
Definition decode (e : encoding) (b : bytes) : option bytes :=
  decode_quanta e (base.filter (λ c, is_newline c = false) b).

Definition EncodeToString (e : encoding) (b : bytes) : string := b2s (encode e b).
Definition DecodeString (e : encoding) (s : string) : option bytes := decode e (s2b s).

(** ** Round trip *)

Class GoodEncoding (e : encoding) := good_encoding :
  forallb (λ v, bool_decide (undigit e (digit e v) = Some v)
                && negb (bool_decide (digit e v = pad))
                && negb (is_newline (digit e v)))
          (Z.of_nat <$> seq 0 64) = true.

#[export] Instance good_std : GoodEncoding StdEncoding.
Proof. vm_compute. reflexivity. Qed.
#[export] Instance good_url : GoodEncoding RawURLEncoding.
Proof. vm_compute. reflexivity. Qed.

Section roundtrip.
Context (e : encoding) `{!GoodEncoding e}.

Lemma digit_good v : 0 ≤ v < 64 →
  undigit e (digit e v) = Some v ∧ digit e v ≠ pad ∧ is_newline (digit e v) = false.
Proof.
  intros Hv. pose proof good_encoding as Hg. rewrite forallb_forall in Hg.
  specialize (Hg v). rewrite !andb_true_iff, !negb_true_iff in Hg.
  destruct Hg as [[H1 H2] H3].
  { apply list_elem_of_In, list_elem_of_fmap. exists (Z.to_nat v).
    split; [lia|]. apply elem_of_seq. lia. }
  by apply bool_decide_eq_true in H1; apply bool_decide_eq_false in H2.
Qed.

Lemma undigit_digit v : 0 ≤ v < 64 → undigit e (digit e v) = Some v.
Proof. intros. by apply digit_good. Qed.
Lemma digit_not_pad v : 0 ≤ v < 64 → digit e v ≠ pad.
Proof. intros. by apply digit_good. Qed.
Lemma digit_not_newline v : 0 ≤ v < 64 → is_newline (digit e v) = false.
Proof. intros. by apply digit_good. Qed.

Lemma bytes_ind3 (P : bytes → Prop) :
  P [] → (∀ x, P [x]) → (∀ x y, P [x; y]) →
  (∀ x y z b, P b → P (x :: y :: z :: b)) → ∀ b, P b.
Proof.
  intros H0 H1 H2 H3 b.
  enough (P b ∧ (∀ x, P (x :: b)) ∧ (∀ x y, P (x :: y :: b))) by naive_solver.
  induction b; naive_solver.
Qed.

Lemma byte_of_eq u (c : ascii) : u mod 256 = code c mod 256 → byte_of u = c.
Proof. intros Hu. rewrite <- (byte_of_code c). unfold byte_of. by rewrite Hu. Qed.

Ltac byte_bounds :=
  repeat match goal with
  | x : ascii |- _ =>
    lazymatch goal with H : 0 ≤ code x < 256 |- _ => fail | _ => pose proof (code_range x) end
  end.
Ltac side := byte_bounds; Z.div_mod_to_equations; lia.

Lemma encode_no_newline b : Forall (λ c, is_newline c = false) (encode e b).
Proof.
  induction b as [|x|x y|x y z b IH] using bytes_ind3; cbn [encode app].
  - constructor.
  - repeat (constructor; [apply digit_not_newline; side|]).
    destruct (padded e); repeat constructor.
  - repeat (constructor; [apply digit_not_newline; side|]).
    destruct (padded e); repeat constructor.
  - by repeat (constructor; [apply digit_not_newline; side|]).
Qed.

Lemma decode_quanta_encode b : decode_quanta e (encode e b) = Some b.
Proof.
  induction b as [|x|x y|x y z b IH] using bytes_ind3; cbn [encode app]; [done|..].
  - destruct (padded e) eqn:Hp; cbn -[undigit digit]; rewrite ?Hp; cbn -[undigit digit];
      unfold two_digits; rewrite !undigit_digit by side; cbn;
      do 2 f_equal; apply byte_of_eq; side.
  - destruct (padded e) eqn:Hp; cbn -[undigit digit]; rewrite ?Hp; cbn -[undigit digit].
    1: rewrite (bool_decide_eq_true_2 (pad = pad)), bool_decide_eq_false_2
         by (done || (apply digit_not_pad; side)).
    all: unfold three_digits; rewrite !undigit_digit by side; cbn.
    all: repeat f_equal; apply byte_of_eq; side.
  - cbn -[undigit digit]. rewrite bool_decide_eq_false_2 by (apply digit_not_pad; side).
    rewrite andb_false_r. unfold four_digits. rewrite !undigit_digit by side.
    cbn. rewrite IH. cbn. repeat f_equal; apply byte_of_eq; side.
Qed.

(** Decoding inverts encoding. *)
Lemma decode_encode b : decode e (encode e b) = Some b.
Proof.
  unfold decode. rewrite filter_Forall_id; [apply decode_quanta_encode|].
  apply encode_no_newline.
Qed.

Lemma DecodeString_EncodeToString b : DecodeString e (EncodeToString e b) = Some b.
Proof. unfold DecodeString, EncodeToString. by rewrite s2b_b2s, decode_encode. Qed.
End roundtrip.

#[export] Instance EncodeToString_inj e `{!GoodEncoding e} : Inj (=) (=) (EncodeToString e).
Proof.
  intros a b H. apply (f_equal (DecodeString e)) in H.
  rewrite !DecodeString_EncodeToString in H by done. congruence.
Qed.

#[export] Hint Rewrite DecodeString_EncodeToString using apply _ : claw.
