(* ===== verification/Json.v ===== *)
(** Package [encoding/json] as far as the program depends on its exact bytes: the
    encoding of a string and of a [[]string], with the escaping of HTML that
    [Marshal] does and without it, as an [Encoder] after [SetEscapeHTML(false)]; and
    the fact that both encodings can be read back without ambiguity and hold no line
    break.

    Marshalling and unmarshalling of the protocol's structs are an interface
    ([Codec]), with the round trip and the line-freedom [encoding/json] documents. *)

From S2P Require Import Prelude GoStrings.
Local Open Scope Z_scope.

(** ** Strings *)

Definition quote : ascii := "034"%char.
Definition backslash : ascii := "092"%char.
Definition newline : ascii := "010"%char.

Definition hex_digit (z : Z) : ascii := nth (Z.to_nat z) (s2b "0123456789abcdef") "0"%char.

Section escaping.
(** [escapeHTML] *)
Context (esc : bool).

(** [htmlSafeSet] or [safeSet]: bytes written as they are. *)
Definition html_safe (c : ascii) : bool :=
  (0x20 <=? code c) && (code c <? 0x80)
  && negb (bool_decide (c = quote)) && negb (bool_decide (c = backslash))
  && negb (esc && bool_decide (c ∈ s2b "<>&")).

Definition json_ascii (c : ascii) : bytes :=
  if html_safe c then [c]
  else if bool_decide (c = quote) || bool_decide (c = backslash) then [backslash; c]
  else if code c =? 8 then [backslash; "b"%char]
  else if code c =? 12 then [backslash; "f"%char]
  else if code c =? 10 then [backslash; "n"%char]
  else if code c =? 13 then [backslash; "r"%char]
  else if code c =? 9 then [backslash; "t"%char]
  else backslash :: s2b "u00" ++ [hex_digit (code c / 16); hex_digit (code c mod 16)].

Definition json_seg (s : Z * bytes) : bytes :=
  match s.2 with
  | [c] => if code c <? 0x80 then json_ascii c else backslash :: s2b "ufffd"
  | raw =>
    if (s.1 =? 0x2028) || (s.1 =? 0x2029) then
      backslash :: s2b "u202" ++ [hex_digit (Z.land s.1 15)]
    else raw
  end.

Definition json_body (s : string) : bytes := rune_segs (s2b s) ≫= json_seg.
Definition json_qstring (s : string) : bytes := quote :: json_body s ++ [quote].

(** ** Slices of strings; [None] is the nil slice, written [null]. *)

Fixpoint json_qitems (l : list string) : bytes :=
  match l with
  | [] => s2b "]"
  | x :: l => ","%char :: json_qstring x ++ json_qitems l
  end.

Definition json_qstrings (l : option (list string)) : bytes :=
  match l with
  | None => s2b "null"
  | Some [] => s2b "[]"
  | Some (x :: l) => "["%char :: json_qstring x ++ json_qitems l
  end.

End escaping.

(** ** Valid UTF-8: no byte is replaced by U+FFFD. *)

Definition seg_ok (s : Z * bytes) : bool :=
  match s.2 with
  | [c] => (code c <? 0x80) && (s.1 =? code c)
  | [c0; c1] => valid2 c0 c1 && (s.1 =? rune2 c0 c1)
  | [c0; c1; c2] => valid3 c0 c1 c2 && (s.1 =? rune3 c0 c1 c2)
  | [c0; c1; c2; c3] => valid4 c0 c1 c2 c3 && (s.1 =? rune4 c0 c1 c2 c3)
  | _ => false
  end.

(** [utf8.ValidString]. *)
Definition ValidString (s : string) : bool := forallb seg_ok (rune_segs (s2b s)).

(** ** Reading an encoded string back *)

Definition all_ascii : list ascii := ascii_of_nat <$> seq 0 256.

Lemma elem_of_all_ascii c : c ∈ all_ascii.
Proof.
  unfold all_ascii. apply list_elem_of_fmap. exists (nat_of_ascii c).
  rewrite ascii_nat_embedding. split; [done|].
  apply elem_of_seq. pose proof (nat_ascii_bounded c). lia.
Qed.

Lemma forallb_ascii (p : ascii → bool) : forallb p all_ascii = true → ∀ c, p c = true.
Proof.
  rewrite forallb_forall. intros H c. apply H, list_elem_of_In, elem_of_all_ascii.
Qed.

Ltac byte_ranges :=
  repeat match goal with
  | H : context [code ?c] |- _ =>
    lazymatch goal with K : 0 ≤ code c < 256 |- _ => fail | _ => pose proof (code_range c) end
  end.

Ltac seg_arith :=
  unfold valid2, valid3, valid4, in_rng in *;
  rewrite ?andb_true_iff, ?orb_true_iff, ?Z.leb_le, ?Z.eqb_eq, ?Z.ltb_lt in *; byte_ranges; try lia.

Section reading.
Context (esc : bool).
#[local] Notation json_ascii := (json_ascii esc).
#[local] Notation json_seg := (json_seg esc).
#[local] Notation json_body := (json_body esc).
#[local] Notation json_qstring := (json_qstring esc).
#[local] Notation json_qitems := (json_qitems esc).
#[local] Notation json_qstrings := (json_qstrings esc).

(** The encodings of two ASCII bytes are the same or differ before either ends. *)
Lemma json_ascii_prefix c d : json_ascii c `prefix_of` json_ascii d → c = d.
Proof.
  revert d. assert (∀ c, forallb (λ d, implb (has_prefix (json_ascii d) (json_ascii c))
                                      (bool_decide (c = d))) all_ascii = true) as H.
  { apply forallb_ascii. destruct esc; vm_compute; reflexivity. }
  intros d Hp. specialize (H c). pose proof (forallb_ascii _ H d) as Hd.
  cbn beta in Hd. apply has_prefix_spec in Hp. rewrite Hp in Hd.
  by apply bool_decide_eq_true in Hd.
Qed.

(** What the bytes an ASCII byte is written as look like. *)
Lemma json_ascii_facts c :
  match json_ascii c with
  | [] => False
  | d :: r =>
    d ≠ quote ∧ code d < 0x80 ∧ (newline ∉ json_ascii c) ∧
    (∀ v, v = 8 ∨ v = 9 → ¬ json_ascii c `prefix_of` backslash :: s2b "u202" ++ [hex_digit v]) ∧
    (∀ v, v = 8 ∨ v = 9 → ¬ backslash :: s2b "u202" ++ [hex_digit v] `prefix_of` json_ascii c)
  end.
Proof.
  set (ls := [backslash :: s2b "u202" ++ [hex_digit 8]; backslash :: s2b "u202" ++ [hex_digit 9]]).
  assert (∀ c, match json_ascii c with [] => false | d :: r =>
    negb (bool_decide (d = quote)) && (code d <? 0x80)
    && negb (bool_decide (newline ∈ json_ascii c))
    && forallb (λ w, negb (has_prefix w (json_ascii c)) && negb (has_prefix (json_ascii c) w)) ls
    end = true) as H.
  { apply forallb_ascii. destruct esc; vm_compute; reflexivity. }
  specialize (H c). destruct (json_ascii c) as [|d r]; [done|].
  cbn -[has_prefix] in H. rewrite !andb_true_iff, !negb_true_iff in H.
  destruct H as [[[H1%bool_decide_eq_false H2] H3%bool_decide_eq_false]
    [[H4%has_prefix_false H5%has_prefix_false] [[H6%has_prefix_false H7%has_prefix_false] _]]].
  repeat split; [done|lia|done|intros v [->| ->]; done|intros v [->| ->]; done].
Qed.

(** First byte of a well-formed segment of more than one byte. *)
Lemma seg_ok_multi r c0 c1 raw : seg_ok (r, c0 :: c1 :: raw) = true → 0xC2 ≤ code c0.
Proof.
  unfold seg_ok; simpl. destruct raw as [|c2 [|c3 [|]]]; try done;
    rewrite ?andb_true_iff; intros H; seg_arith.
Qed.

(** Well-formed segments are self-delimiting. *)
Lemma seg_ok_prefix r raw r' raw' :
  seg_ok (r, raw) = true → seg_ok (r', raw') = true →
  raw `prefix_of` raw' → (r, raw) = (r', raw').
Proof.
  intros H1 H2 [k ->].
  unfold seg_ok in *; cbn [fst snd] in *.
  destruct raw as [|c0 [|c1 [|c2 [|c3 [|]]]]]; try done;
    destruct k as [|d0 [|d1 [|d2 [|d3 k]]]]; simpl in *; rewrite ?andb_true_iff in *;
    try (f_equal; seg_arith; fail); try (exfalso; seg_arith; fail).
Qed.

Lemma json_seg_multi r c0 c1 raw :
  seg_ok (r, c0 :: c1 :: raw) = true →
  json_seg (r, c0 :: c1 :: raw) = c0 :: c1 :: raw ∧ r ≠ 0x2028 ∧ r ≠ 0x2029
  ∨ (∃ v, (v = 8 ∨ v = 9) ∧ r = 0x2020 + v ∧
     json_seg (r, c0 :: c1 :: raw) = backslash :: s2b "u202" ++ [hex_digit v]).
Proof.
  intros _. unfold json_seg. cbn [fst snd].
  destruct (Z.eqb_spec r 0x2028) as [->|]; [right; exists 8; repeat split; auto|].
  destruct (Z.eqb_spec r 0x2029) as [->|]; [right; exists 9; repeat split; auto|].
  left. done.
Qed.

Lemma json_seg_single r c : seg_ok (r, [c]) = true →
  r = code c ∧ json_seg (r, [c]) = json_ascii c.
Proof.
  unfold seg_ok, json_seg; simpl. rewrite andb_true_iff. intros [-> E]. split; [lia|done].
Qed.

(** The three-byte form of a rune determines its bytes. *)
Lemma seg_ok_202x r raw v : (v = 8 ∨ v = 9) → r = 0x2020 + v → seg_ok (r, raw) = true →
  raw = byte_of <$> [0xE2; 0x80; 0x80 + 0x20 + v].
Proof.
  intros Hv -> H. unfold seg_ok in H; cbn [fst snd] in H.
  destruct raw as [|c0 [|c1 [|c2 [|c3 [|]]]]]; try done; rewrite andb_true_iff in H;
    destruct H as [H1 H2%Z.eqb_eq]; unfold rune2, rune3, rune4 in H2.
  1, 2, 4: exfalso; seg_arith.
  assert (code c0 = 0xE2 ∧ code c1 = 0x80 ∧ code c2 = 0x80 + 0x20 + v) as (E0 & E1 & E2).
  { seg_arith. }
  simpl. rewrite <- (byte_of_code c0), <- (byte_of_code c1), <- (byte_of_code c2), E0, E1, E2.
  done.
Qed.

Lemma json_seg_first s : seg_ok s = true → ∃ d r, json_seg s = d :: r ∧ d ≠ quote.
Proof.
  destruct s as [r [|c0 [|c1 raw]]]; [done|..]; intros H.
  - unfold json_seg, seg_ok in *; simpl in *. apply andb_true_iff in H as [H _]. rewrite H.
    pose proof (json_ascii_facts c0) as F. destruct (json_ascii c0); [done|]. naive_solver.
  - pose proof (seg_ok_multi _ _ _ _ H).
    destruct (json_seg_multi _ _ _ _ H) as [(-> & _)|(v & _ & _ & ->)]; [|by eauto].
    eexists _, _. split; [done|]. intros ->. by vm_compute in H0.
Qed.

(** A one-byte and a longer rune are never encoded alike. *)
Lemma json_ascii_multi c r c0 c1 raw :
  seg_ok (r, c0 :: c1 :: raw) = true →
  ¬ json_ascii c `prefix_of` json_seg (r, c0 :: c1 :: raw)
  ∧ ¬ json_seg (r, c0 :: c1 :: raw) `prefix_of` json_ascii c.
Proof.
  intros H. pose proof (json_ascii_facts c) as F. pose proof (seg_ok_multi _ _ _ _ H).
  destruct (json_seg_multi _ _ _ _ H) as [(-> & _)|(v & Hv & _ & ->)].
  - destruct (json_ascii c) as [|d l]; [done|]. destruct F as (_ & F & _).
    split; intros ->%prefix_cons_inv_1; lia.
  - destruct (json_ascii c); [done|]. naive_solver.
Qed.

(** The encodings of two runes are the same or differ before either ends. *)
Lemma json_seg_prefix s t :
  seg_ok s = true → seg_ok t = true → json_seg s `prefix_of` json_seg t → s = t.
Proof.
  destruct s as [r [|c0 [|c1 raw]]], t as [r' [|d0 [|d1 raw']]]; try done; intros H1 H2 Hp.
  - destruct (json_seg_single _ _ H1) as [-> E1], (json_seg_single _ _ H2) as [-> E2].
    rewrite E1, E2 in Hp. by apply json_ascii_prefix in Hp as ->.
  - destruct (json_seg_single _ _ H1) as [_ E1]. rewrite E1 in Hp.
    by destruct (json_ascii_multi c0 _ _ _ _ H2).
  - destruct (json_seg_single _ _ H2) as [_ E2]. rewrite E2 in Hp.
    by destruct (json_ascii_multi d0 _ _ _ _ H1).
  - destruct (json_seg_multi _ _ _ _ H1) as [(E1 & N1)|(v & Hv & Hr & E1)],
      (json_seg_multi _ _ _ _ H2) as [(E2 & N2)|(w & Hw & Hr' & E2)]; rewrite E1, E2 in Hp.
    + by apply seg_ok_prefix.
    + exfalso. apply prefix_cons_inv_1 in Hp as ->. pose proof (seg_ok_multi _ _ _ _ H1) as Hb.
      by vm_compute in Hb.
    + exfalso. apply prefix_cons_inv_1 in Hp as <-. pose proof (seg_ok_multi _ _ _ _ H2) as Hb.
      by vm_compute in Hb.
    + assert (v = w) as ->.
      { destruct Hv as [->| ->], Hw as [->| ->]; try done; exfalso;
          apply has_prefix_spec in Hp; by vm_compute in Hp. }
      pose proof (seg_ok_202x _ _ _ Hv Hr H1). pose proof (seg_ok_202x _ _ _ Hw Hr' H2). congruence.
Qed.

Lemma json_segs_inv l1 l2 k1 k2 :
  forallb seg_ok l1 = true → forallb seg_ok l2 = true →
  (l1 ≫= json_seg) ++ quote :: k1 = (l2 ≫= json_seg) ++ quote :: k2 → l1 = l2 ∧ k1 = k2.
Proof.
  revert l2. induction l1 as [|s l1 IH]; intros [|t l2]; cbn -[json_seg];
    rewrite ?andb_true_iff; intros H1 H2 H.
  - injection H as ->. done.
  - destruct H2 as [H2 _]. destruct (json_seg_first _ H2) as (d & r & E & Hd).
    rewrite E in H. injection H. naive_solver.
  - destruct H1 as [H1 _]. destruct (json_seg_first _ H1) as (d & r & E & Hd).
    rewrite E in H. injection H. naive_solver.
  - destruct H1 as [H1 H1'], H2 as [H2 H2']. rewrite <- !app_assoc in H.
    assert (s = t) as ->.
    { destruct (prefix_comparable (json_seg s) (json_seg t)
        (json_seg s ++ (l1 ≫= json_seg) ++ quote :: k1)) as [Hp|Hp].
      - by apply prefix_app_r.
      - rewrite H. by apply prefix_app_r.
      - by apply json_seg_prefix.
      - symmetry. by apply json_seg_prefix. }
    apply (inj (app (json_seg t))) in H. apply IH in H as [-> ->]; done.
Qed.

(** A quoted valid string followed by anything determines both. *)
Lemma json_qstring_inv s1 s2 k1 k2 :
  ValidString s1 = true → ValidString s2 = true →
  json_qstring s1 ++ k1 = json_qstring s2 ++ k2 → s1 = s2 ∧ k1 = k2.
Proof.
  unfold ValidString, json_qstring, json_body. intros H1 H2.
  simpl. rewrite <- !app_assoc. simpl. intros [= H].
  apply json_segs_inv in H as [E ->]; [|done..]. split; [|done].
  apply (inj s2b). by rewrite <- (rune_segs_concat (s2b s1)), <- (rune_segs_concat (s2b s2)), E.
Qed.

Lemma json_qitems_inv l1 l2 k1 k2 :
  forallb ValidString l1 = true → forallb ValidString l2 = true →
  json_qitems l1 ++ k1 = json_qitems l2 ++ k2 → l1 = l2 ∧ k1 = k2.
Proof.
  revert l2. induction l1 as [|x l1 IH]; intros [|y l2]; cbn -[json_qstring ValidString];
    rewrite ?andb_true_iff; try naive_solver.
  intros [H1 H1'] [H2 H2'] H%(f_equal tail). cbn -[json_qstring] in H.
  rewrite <- !app_assoc in H.
  apply json_qstring_inv in H as [-> H]; [|done..]. apply IH in H as [-> ->]; done.
Qed.

Definition valid_strings (l : option (list string)) : bool := forallb ValidString (default [] l).

Lemma json_qstrings_inv l1 l2 k1 k2 :
  valid_strings l1 = true → valid_strings l2 = true →
  json_qstrings l1 ++ k1 = json_qstrings l2 ++ k2 → l1 = l2 ∧ k1 = k2.
Proof.
  destruct l1 as [[|x l1]|], l2 as [[|y l2]|]; unfold valid_strings;
    cbn -[json_qstring ValidString]; rewrite ?andb_true_iff; try naive_solver.
  intros [H1 H1'] [H2 H2'] H%(f_equal tail). cbn -[json_qstring] in H.
  rewrite <- !app_assoc in H.
  apply json_qstring_inv in H as [-> H]; [|done..]. apply json_qitems_inv in H as [-> ->]; done.
Qed.

(** ** No line break *)

Lemma rune_segs_multi_bytes b : Forall (λ s, match s.2 with
  | [] => False | [_] => True | raw => Forall (λ c, 0x80 ≤ code c) raw end) (rune_segs b).
Proof.
  eapply Forall_impl; [apply rune_segs_shape|].
  intros [r raw]; simpl. destruct 1; try done; repeat constructor; seg_arith.
Qed.

Lemma json_body_no_newline s : newline ∉ json_body s.
Proof.
  unfold json_body. intros (sg & Hin & Hel)%list_elem_of_bind.
  pose proof (rune_segs_multi_bytes (s2b s)) as HF. rewrite Forall_forall in HF.
  specialize (HF _ Hel). destruct sg as [r [|c0 [|c1 raw]]]; [done|..]; simpl in HF.
  - unfold json_seg in Hin; simpl in Hin. destruct (code c0 <? 0x80).
    + pose proof (json_ascii_facts c0) as F. destruct (json_ascii c0); [done|]. naive_solver.
    + revert Hin. decide_not.
  - unfold json_seg in Hin; cbn [fst snd] in Hin. case_match eqn:E.
    + destruct (Z.eqb_spec r 0x2028) as [->|]; [revert Hin; decide_not|].
      destruct (Z.eqb_spec r 0x2029) as [->|]; [revert Hin; decide_not|].
      done.
    + rewrite Forall_forall in HF. specialize (HF _ Hin). by vm_compute in HF.
Qed.

Lemma json_qstring_no_newline s : newline ∉ json_qstring s.
Proof.
  unfold json_qstring. rewrite elem_of_cons, elem_of_app, list_elem_of_singleton.
  pose proof (json_body_no_newline s). intros [|[|]]; done.
Qed.

Lemma json_qstrings_no_newline l : newline ∉ json_qstrings l.
Proof.
  assert (∀ k, newline ∉ json_qitems k) as Hi.
  { induction k as [|x k IH]; cbn -[json_qstring]; [decide_not|].
    rewrite elem_of_cons, elem_of_app. pose proof (json_qstring_no_newline x). intros [|[|]]; done. }
  destruct l as [[|x l]|]; cbn -[json_qstring]; [decide_not| |decide_not].
  rewrite elem_of_cons, elem_of_app. pose proof (json_qstring_no_newline x).
  intros [|[|]]; try done. by eapply Hi.
Qed.

End reading.

(** With the escaping of HTML. *)
Definition json_string : string → bytes := json_qstring true.
Definition json_strings : option (list string) → bytes := json_qstrings true.

Lemma json_string_inv s1 s2 k1 k2 :
  ValidString s1 = true → ValidString s2 = true →
  json_string s1 ++ k1 = json_string s2 ++ k2 → s1 = s2 ∧ k1 = k2.
Proof. apply json_qstring_inv. Qed.
Lemma json_strings_inv l1 l2 k1 k2 :
  valid_strings l1 = true → valid_strings l2 = true →
  json_strings l1 ++ k1 = json_strings l2 ++ k2 → l1 = l2 ∧ k1 = k2.
Proof. apply json_qstrings_inv. Qed.
Lemma json_string_no_newline s : newline ∉ json_string s.
Proof. apply json_qstring_no_newline. Qed.
Lemma json_strings_no_newline l : newline ∉ json_strings l.
Proof. apply json_qstrings_no_newline. Qed.

(** ** The codec of a message type

    [marshal] is [None] when [json.Marshal] fails and [unmarshal] is [None] when
    [json.Unmarshal] does; a marshalled value reads back, is not empty and holds
    no line break or carriage return (control characters are escaped). A value with
    a string that is not UTF-8, whose bytes [json.Marshal] replaces, is one that
    [marshal] refuses: the theorems speak of messages of valid text. *)
Class Codec (T : Type) := {
  marshal : T → option bytes;
  unmarshal : bytes → option T;
  unmarshal_marshal v b : marshal v = Some b → unmarshal b = Some v;
  marshal_not_nil v b : marshal v = Some b → b ≠ [];
  marshal_no_newline v b : marshal v = Some b → Forall (λ c, c ≠ "010"%char ∧ c ≠ "013"%char) b;
}.
