(* ===== verification/Protocol.v ===== *)
(** Package [internal/protocol]: the messages exchanged by the wrapper and the
    daemon. A nil slice is [None], distinct from the empty slice, because the two
    are signed differently; a nil map reads as the empty map. *)

From S2P Require Import Prelude.
Local Open Scope Z_scope.

Definition ProtocolVersion : Z := 4.

Record WinSize := { ws_rows : Z; ws_cols : Z }.

Record ProxyRequest := {
  pr_version : Z;
  pr_tool : string;
  pr_args : option (list string);
  pr_cwd : string;
  pr_timestamp : string;
  pr_nonce : string;
  pr_hmac : string;
  pr_env : gmap string string;
  pr_use_pty : bool;
  pr_window_size : option WinSize;
}.

(** The zero value of a field is the one [omitempty] drops. *)
Record ResponseMessage := {
  rm_type : string;
  rm_data : string;
  rm_exit_code : Z;
  rm_timeout : bool;
  rm_message : string;
  rm_stream : string;
  rm_path : string;
}.

Record WrapperMessage := {
  wm_type : string;
  wm_data : string;
  wm_eof : bool;
  wm_signal : string;
  wm_files : list string;
  wm_rows : Z;
  wm_cols : Z;
}.

Definition MsgTypeStdout := "stdout".
Definition MsgTypeStderr := "stderr".
Definition MsgTypeDone := "done".
Definition MsgTypeError := "error".
Definition MsgTypeFile := "file".
Definition MsgTypeStdin := "stdin".
Definition MsgTypeSignal := "signal".
Definition MsgTypeCleanup := "cleanup".
Definition MsgTypeWinSize := "winsize".

Definition ValidSignals : gmap string bool :=
  {[ "SIGINT" := true; "SIGTERM" := true; "SIGHUP" := true ]}.

Record AdminRequest := {
  ar_version : Z;
  ar_admin : string;
  ar_timestamp : string;
  ar_nonce : string;
  ar_hmac : string;
}.

Record ToolInfo := { ti_binary : string; ti_mode : string }.

Record AdminListResponse := {
  al_tools : gmap string ToolInfo;
  al_version : string;
}.

Record CredentialInfo := { ci_status : string; ci_preview : string }.

Record HTTPProxyInfo := {
  hi_enabled : bool;
  hi_listen : string;
  hi_ca_cert_path : string;
  hi_auth_token_path : string;
}.

Record AdminCheckResponse := {
  ac_credentials : gmap string CredentialInfo;
  ac_http_proxy : option HTTPProxyInfo;
  ac_version : string;
}.

(** The response messages the daemon builds: the fields it sets, the others zero. *)
Definition output_msg (ty : string) (data : string) : ResponseMessage :=
  {| rm_type := ty; rm_data := data; rm_exit_code := 0; rm_timeout := false;
     rm_message := ""; rm_stream := ""; rm_path := "" |}.
Definition error_msg (message : string) : ResponseMessage :=
  {| rm_type := MsgTypeError; rm_data := ""; rm_exit_code := 0; rm_timeout := false;
     rm_message := message; rm_stream := ""; rm_path := "" |}.
Definition done_msg (exitCode : Z) (timeout : bool) : ResponseMessage :=
  {| rm_type := MsgTypeDone; rm_data := ""; rm_exit_code := exitCode; rm_timeout := timeout;
     rm_message := ""; rm_stream := ""; rm_path := "" |}.

#[export] Instance ResponseMessage_eq_dec : EqDecision ResponseMessage.
Proof. solve_decision. Defined.
#[export] Instance WrapperMessage_eq_dec : EqDecision WrapperMessage.
Proof. solve_decision. Defined.

(** The zero [WrapperMessage]. *)
Definition empty_wrapper_msg : WrapperMessage :=
  {| wm_type := ""; wm_data := ""; wm_eof := false; wm_signal := ""; wm_files := [];
     wm_rows := 0; wm_cols := 0 |}.
