(* ===== verification/Framing.v ===== *)
(** Package [internal/framing]: length-prefixed frames from the daemon to the
    wrapper, newline-delimited JSON from the wrapper to the daemon.

    A writer is any state with a [Write] operation that may fail; a reader is the
    bytes still to come and the error that follows them ([io.EOF] at an orderly
    end). [make]'s allocation is not modelled. *)

From S2P Require Import Prelude GoStrings Json.
Local Open Scope Z_scope.

Definition MaxMessageSize : Z := 16 * 1024 * 1024.
Definition ErrMessageTooLarge : error := Sentinel "ErrMessageTooLarge".
Definition ErrEmptyMessage : error := Sentinel "ErrEmptyMessage".
(** The errors of [json.Marshal], [json.Unmarshal] and [bufio.Scanner]. *)
Definition json_error : error := Sentinel "json".

(** ** Streams *)

(** An [io.Writer]: a write consumes all its bytes or fails. *)
Class Writer (W : Type) := write : W → bytes → W * option error.

(** The writer that never fails: the bytes written so far. *)
#[export] Instance buffer_writer : Writer bytes := λ w b, (w ++ b, None).

Record reader := { rd_data : bytes; rd_fin : error }.

(** [io.ReadFull(r, buf)] for a non-empty [buf] of [n] bytes. *)
Definition ReadFull (r : reader) (n : nat) : result bytes * reader :=
  if (n <=? length (rd_data r))%nat then
    (Ok (take n (rd_data r)), {| rd_data := drop n (rd_data r); rd_fin := rd_fin r |})
  else
    let r' := {| rd_data := []; rd_fin := rd_fin r |} in
    match rd_data r with
    | [] => (Err (rd_fin r), r')
    | _ => (Err (if bool_decide (rd_fin r = io_EOF) then io_ErrUnexpectedEOF else rd_fin r), r')
    end.

(** ** Length-prefixed frames *)

(** [binary.BigEndian.PutUint32] and [Uint32]. *)
Definition PutUint32 (n : Z) : bytes :=
  byte_of <$> [n / 2^24; n / 2^16; n / 2^8; n].
Definition Uint32 (b : bytes) : Z :=
  match b with
  | b0 :: b1 :: b2 :: b3 :: _ =>
    code b0 * 2^24 + code b1 * 2^16 + code b2 * 2^8 + code b3
  | _ => 0
  end.

Section framing.
Context {T : Type} `{Codec T} {W : Type} `{Writer W}.

(** [Encoder.Encode]. *)
Definition Encode (w : W) (v : T) : W * result unit :=
  match marshal v with
  | None => (w, Err (Wrapf "marshal: %w" [] json_error))
  | Some data =>
    if blen data >? MaxMessageSize then (w, Err ErrMessageTooLarge) else
    let lenBuf := PutUint32 (uint32 (blen data)) in
    match write w lenBuf with
    | (w, Some err) => (w, Err (Wrapf "write length: %w" [] err))
    | (w, None) =>
      match write w data with
      | (w, Some err) => (w, Err (Wrapf "write payload: %w" [] err))
      | (w, None) => (w, Ok tt)
      end
    end
  end.

(** [Decoder.Decode]. *)
Definition Decode (r : reader) : result T * reader :=
  match ReadFull r 4 with
  | (Err err, r) =>
    if bool_decide (err = io_EOF) then (Err io_EOF, r)
    else (Err (Wrapf "read length: %w" [] err), r)
  | (Ok lenBuf, r) =>
    let length := Uint32 lenBuf in
    if length =? 0 then (Err ErrEmptyMessage, r)
    else if length >? MaxMessageSize then (Err ErrMessageTooLarge, r)
    else
      match ReadFull r (Z.to_nat length) with
      | (Err err, r) =>
        if bool_decide (err = io_EOF) || bool_decide (err = io_ErrUnexpectedEOF) then
          (Err (Errorf "truncated message: expected %d bytes" [FZ length]), r)
        else (Err (Wrapf "read payload: %w" [] err), r)
      | (Ok data, r) =>
        match unmarshal data with
        | None => (Err (Wrapf "unmarshal: %w" [] json_error), r)
        | Some v => (Ok v, r)
        end
      end
  end.

(** ** Newline-delimited JSON *)

(** [NDJSONWriter.Write]. *)
Definition NDJSONWrite (w : W) (v : T) : W * result unit :=
  match marshal v with
  | None => (w, Err (Wrapf "marshal: %w" [] json_error))
  | Some data =>
    if blen data >? MaxMessageSize then (w, Err ErrMessageTooLarge) else
    match write w data with
    | (w, Some err) => (w, Err (Wrapf "write: %w" [] err))
    | (w, None) =>
      match write w [newline] with
      | (w, Some err) => (w, Err (Wrapf "write newline: %w" [] err))
      | (w, None) => (w, Ok tt)
      end
    end
  end.

(** A [bufio.Scanner] over lines with a token limit. *)
Record NDJSONReader := { nd_max : Z; nd_reader : reader }.

Definition NewNDJSONReaderWithLimit (r : reader) (maxTokenSize : Z) : NDJSONReader :=
  let maxTokenSize :=
    if (maxTokenSize <=? 0) || (maxTokenSize >? MaxMessageSize) then MaxMessageSize
    else maxTokenSize in
  {| nd_max := maxTokenSize; nd_reader := r |}.

Definition NewNDJSONReader (r : reader) : NDJSONReader :=
  NewNDJSONReaderWithLimit r MaxMessageSize.

Definition dropCR (line : bytes) : bytes :=
  match last line with
  | Some c => if bool_decide (c = "013"%char) then take (length line - 1) line else line
  | None => line
  end.

(** [Scan] with [ScanLines]: the unread bytes are held in a buffer of at most
    [nd_max] bytes, so a line and its line break must fit in it together. *)
Inductive scan_result := ScanLine (line : bytes) | ScanTooLong | ScanEnd (err : error).

Definition Scan (n : NDJSONReader) : scan_result * NDJSONReader :=
  let data := rd_data (nd_reader n) in
  let rest d := {| nd_max := nd_max n;
                   nd_reader := {| rd_data := d; rd_fin := rd_fin (nd_reader n) |} |} in
  match index_of data [newline] with
  | Some i =>
    if Z.of_nat i <? nd_max n then (ScanLine (dropCR (take i data)), rest (drop (S i) data))
    else (ScanTooLong, n)
  | None =>
    match data with
    | [] => (ScanEnd (rd_fin (nd_reader n)), n)
    | _ => if blen data <? nd_max n then (ScanLine (dropCR data), rest []) else (ScanTooLong, n)
    end
  end.

(** [NDJSONReader.Read]. *)
Definition NDJSONRead (n : NDJSONReader) : result T * NDJSONReader :=
  match Scan n with
  | (ScanTooLong, n) => (Err ErrMessageTooLarge, n)
  | (ScanEnd err, n) =>
    if bool_decide (err = io_EOF) then (Err io_EOF, n) else (Err (Wrapf "scan: %w" [] err), n)
  | (ScanLine line, n) =>
    match line with
    | [] => (Err ErrEmptyMessage, n)
    | _ =>
      match unmarshal line with
      | None => (Err (Wrapf "unmarshal: %w" [] json_error), n)
      | Some v => (Ok v, n)
      end
    end
  end.
End framing.

(** One frame: the header then the payload. *)
Definition frame (data : bytes) : bytes := PutUint32 (blen data) ++ data.

(** ** Consecutive calls on one stream *)

Section streams.
Context {T : Type} `{Codec T}.

Fixpoint EncodeAll (w : bytes) (vs : list T) : bytes * result unit :=
  match vs with
  | [] => (w, Ok tt)
  | v :: vs => match Encode w v with (w, Ok _) => EncodeAll w vs | bad => bad end
  end.

Fixpoint DecodeMany (n : nat) (r : reader) : list (result T) * reader :=
  match n with
  | O => ([], r)
  | S n => let '(x, r) := Decode r in let '(xs, r) := DecodeMany n r in (x :: xs, r)
  end.

Fixpoint WriteAll (w : bytes) (vs : list T) : bytes * result unit :=
  match vs with
  | [] => (w, Ok tt)
  | v :: vs => match NDJSONWrite w v with (w, Ok _) => WriteAll w vs | bad => bad end
  end.

Fixpoint ReadMany (n : nat) (r : NDJSONReader) : list (result T) * NDJSONReader :=
  match n with
  | O => ([], r)
  | S n => let '(x, r) := NDJSONRead r in let '(xs, r) := ReadMany n r in (x :: xs, r)
  end.
End streams.

(** ** Lemmas on the header and on reading *)

Lemma length_PutUint32 n : length (PutUint32 n) = 4%nat.
Proof. done. Qed.

Lemma Uint32_PutUint32 n : 0 ≤ n < 2^32 → Uint32 (PutUint32 n) = n.
Proof.
  intros Hn. unfold Uint32, PutUint32. cbn [fmap list_fmap]. rewrite !code_byte_of.
  Z.div_mod_to_equations. lia.
Qed.

Lemma Uint32_range b : 0 ≤ Uint32 b < 2^32.
Proof.
  unfold Uint32. destruct b as [|b0 [|b1 [|b2 [|b3 b]]]]; try lia.
  pose proof (code_range b0). pose proof (code_range b1).
  pose proof (code_range b2). pose proof (code_range b3). lia.
Qed.

Lemma ReadFull_app r n a k :
  rd_data r = a ++ k → length a = n →
  ReadFull r n = (Ok a, {| rd_data := k; rd_fin := rd_fin r |}).
Proof.
  intros Hd <-. unfold ReadFull. rewrite Hd, length_app.
  rewrite (proj2 (Nat.leb_le _ _)) by lia.
  by rewrite take_app_length, drop_app_length.
Qed.

Lemma ReadFull_Ok r n a r' :
  ReadFull r n = (Ok a, r') → rd_data r = a ++ rd_data r' ∧ length a = n ∧ rd_fin r' = rd_fin r.
Proof.
  unfold ReadFull. destruct (n <=? _)%nat eqn:E; [|by case_match].
  intros [= <- <-]. apply Nat.leb_le in E. simpl.
  rewrite take_drop, length_take_le by done. done.
Qed.

Lemma ReadFull_short r n :
  rd_fin r = io_EOF → (length (rd_data r) < n)%nat →
  ReadFull r n = (Err (match rd_data r with [] => io_EOF | _ => io_ErrUnexpectedEOF end),
                  {| rd_data := []; rd_fin := io_EOF |}).
Proof.
  intros Hf Hl. unfold ReadFull. rewrite (proj2 (Nat.leb_gt _ _)) by done.
  rewrite Hf. by destruct (rd_data r).
Qed.

Section framing_lemmas.
Context {T : Type} `{Codec T}.

Local Notation Encode_buf := (Encode (T := T) (W := bytes)).

Lemma Encode_buf_Ok w v data :
  marshal v = Some data → blen data ≤ MaxMessageSize → Encode_buf w v = (w ++ frame data, Ok tt).
Proof.
  intros Hm Hl. unfold Encode, frame. rewrite Hm. simpl.
  destruct (Z.gtb_spec (blen data) MaxMessageSize); [lia|].
  unfold uint32, MaxMessageSize in *. rewrite Z.mod_small by (unfold blen in *; lia).
  by rewrite <- app_assoc.
Qed.

Lemma Encode_buf_inv w v w' :
  Encode_buf w v = (w', Ok tt) →
  ∃ data, marshal v = Some data ∧ blen data ≤ MaxMessageSize ∧ w' = w ++ frame data.
Proof.
  intros He. unfold Encode in He. destruct (marshal v) as [data|] eqn:Hm; [|done].
  destruct (Z.gtb_spec (blen data) MaxMessageSize) as [|Hl]; [done|].
  exists data. split; [done|]. split; [lia|].
  assert (Encode_buf w v = (w', Ok tt)) as He'.
  { unfold Encode. rewrite Hm. by destruct (Z.gtb_spec (blen data) MaxMessageSize); [lia|]. }
  rewrite (Encode_buf_Ok _ _ _ Hm) in He' by lia. congruence.
Qed.

(** Reading a frame: the payload decides the outcome, the rest is untouched. *)
Lemma Decode_frame r data k :
  rd_data r = frame data ++ k → 0 < blen data ≤ MaxMessageSize →
  Decode (T := T) r =
    (match unmarshal data with
     | Some v => Ok v | None => Err (Wrapf "unmarshal: %w" [] json_error) end,
     {| rd_data := k; rd_fin := rd_fin r |}).
Proof.
  intros Hr Hl. unfold Decode, frame in *. rewrite <- app_assoc in Hr.
  rewrite (ReadFull_app _ _ _ _ Hr) by done.
  rewrite Uint32_PutUint32 by (unfold MaxMessageSize in Hl; lia).
  rewrite (proj2 (Z.eqb_neq _ _)) by lia.
  destruct (Z.gtb_spec (blen data) MaxMessageSize); [lia|].
  rewrite (ReadFull_app _ _ data k) by (done || (unfold blen; lia)). simpl.
  by destruct (unmarshal data).
Qed.

(** A decoded message is one whole frame of an admissible size. *)
Lemma Decode_Ok_inv r v r' :
  Decode (T := T) r = (Ok v, r') →
  ∃ hdr data, rd_data r = hdr ++ data ++ rd_data r' ∧ length hdr = 4%nat ∧
    Uint32 hdr = blen data ∧ 0 < blen data ≤ MaxMessageSize ∧
    unmarshal data = Some v ∧ rd_fin r' = rd_fin r.
Proof.
  unfold Decode. destruct (ReadFull r 4) as [[hdr|] r1] eqn:E1; [|by case_match].
  apply ReadFull_Ok in E1 as (Hd & Hh & Hf). pose proof (Uint32_range hdr).
  destruct (Z.eqb_spec (Uint32 hdr) 0); [done|].
  destruct (Z.gtb_spec (Uint32 hdr) MaxMessageSize); [done|].
  destruct (ReadFull r1 _) as [[data|] r2] eqn:E2; [|by case_match].
  apply ReadFull_Ok in E2 as (Hd2 & Hl2 & Hf2).
  destruct (unmarshal data) as [v'|] eqn:Hu; [|done]. intros [= <- <-].
  exists hdr, data. rewrite Hd, Hd2. unfold blen. repeat split; try (done || lia || congruence).
Qed.

(** C37: Messages sent with [Encoder.Encode] over one connection arrive at
    [Decoder.Decode] in order and intact, and leave the bytes after them unread:
    every message that encoding accepted decodes to itself. *)
Theorem Decode_Encode_stream vs w out rest fin :
  EncodeAll w vs = (out, Ok tt) →
  ∃ sent, out = w ++ sent ∧
    DecodeMany (length vs) {| rd_data := sent ++ rest; rd_fin := fin |}
    = (Ok <$> vs, {| rd_data := rest; rd_fin := fin |}).
Proof.
  revert w. induction vs as [|v vs IH]; intros w; simpl.
  - intros [= <-]. exists []. by rewrite app_nil_r.
  - destruct (Encode_buf w v) as [w1 [[]|]] eqn:E; [|done]. intros Hvs.
    apply Encode_buf_inv in E as (data & Hm & Hl & ->).
    destruct (IH _ Hvs) as (sent & -> & Hdec).
    exists (frame data ++ sent). split; [by rewrite app_assoc|].
    pose proof (marshal_not_nil _ _ Hm). assert (0 < blen data) by (destruct data; [done|unfold blen; simpl; lia]).
    rewrite (Decode_frame _ data (sent ++ rest)) by (simpl; rewrite ?app_assoc; done || lia).
    rewrite (unmarshal_marshal _ _ Hm). simpl. by rewrite Hdec.
Qed.

(** The header of a frame is its first four bytes. *)
Lemma frame_prefix data p k :
  frame data = p ++ k → (4 ≤ length p)%nat →
  ∃ d, p = PutUint32 (blen data) ++ d ∧ data = d ++ k.
Proof.
  unfold frame. intros Hp Hl. exists (drop 4 p).
  assert (PutUint32 (blen data) = take 4 p) as Ht.
  { apply (f_equal (take 4)) in Hp. by rewrite take_app_length', take_app_le in Hp. }
  split; [by rewrite Ht, take_drop|].
  apply (f_equal (drop 4)) in Hp. by rewrite drop_app_length', drop_app_le in Hp.
Qed.

(** A frame cut short is never mistaken for a message: on every proper
    prefix of a frame followed by end of file, [Decoder.Decode] reports [io.EOF]
    when nothing was read, a read error inside the header and a truncation error
    inside the payload. *)
Theorem Decode_truncated data p k :
  0 < blen data ≤ MaxMessageSize → frame data = p ++ k → k ≠ [] →
  (Decode (T := T) {| rd_data := p; rd_fin := io_EOF |}).1 =
    (if (length p =? 0)%nat then Err io_EOF
     else if (length p <? 4)%nat then Err (Wrapf "read length: %w" [] io_ErrUnexpectedEOF)
     else Err (Errorf "truncated message: expected %d bytes" [FZ (blen data)])).
Proof.
  intros Hl Hp Hk. unfold Decode. destruct (decide (length p < 4)%nat) as [Hs|Hs].
  - rewrite ReadFull_short by done. simpl.
    destruct p as [|c p]; [done|]. simpl length in *.
    by rewrite (proj2 (Nat.ltb_lt _ _)) by lia.
  - destruct (frame_prefix data p k) as (d & -> & Hd); [done|lia|].
    rewrite (ReadFull_app _ _ (PutUint32 (blen data)) d) by done.
    rewrite Uint32_PutUint32 by (unfold MaxMessageSize in Hl; lia).
    rewrite (proj2 (Z.eqb_neq _ _)) by lia.
    destruct (Z.gtb_spec (blen data) MaxMessageSize); [lia|].
    rewrite ReadFull_short.
    + by destruct d.
    + done.
    + simpl. apply (f_equal length) in Hd. rewrite length_app in Hd. unfold blen.
      destruct k; [done|]. simpl in Hd. lia.
Qed.

(** ** Lines *)

Lemma index_of_newline data k :
  Forall (λ c, c ≠ newline) data → index_of (data ++ newline :: k) [newline] = Some (length data).
Proof.
  induction 1 as [|c data Hc _ IH]; [done|]; simpl.
  rewrite bool_decide_eq_false_2 by congruence. simpl. by rewrite IH.
Qed.

Lemma dropCR_id data : Forall (λ c, c ≠ "013"%char) data → dropCR data = data.
Proof.
  intros HF. unfold dropCR. destruct (last data) as [c|] eqn:E; [|done].
  apply last_Some_elem_of in E. rewrite Forall_forall in HF.
  by rewrite bool_decide_eq_false_2 by auto.
Qed.

Lemma NDJSONWrite_buf_inv w v w' :
  NDJSONWrite (T := T) w v = (w', Ok tt) →
  ∃ data, marshal v = Some data ∧ blen data ≤ MaxMessageSize ∧ w' = w ++ data ++ [newline].
Proof.
  unfold NDJSONWrite. destruct (marshal v) as [data|] eqn:Hm; [|done].
  destruct (Z.gtb_spec (blen data) MaxMessageSize) as [|Hl]; [done|]. simpl.
  intros [= <-]. exists data. rewrite app_assoc. split; [done|]. split; [lia|done].
Qed.

Lemma Scan_line n v data k :
  marshal (T := T) v = Some data → rd_data (nd_reader n) = data ++ newline :: k →
  Scan n = (if blen data <? nd_max n then
      (ScanLine data, {| nd_max := nd_max n;
         nd_reader := {| rd_data := k; rd_fin := rd_fin (nd_reader n) |} |})
    else (ScanTooLong, n)).
Proof.
  intros Hm Hd. pose proof (marshal_no_newline _ _ Hm) as [HN HC]%Forall_and.
  unfold Scan. rewrite Hd, index_of_newline by done. unfold blen.
  destruct (_ <? _); [|done].
  rewrite take_app_length, dropCR_id by done. do 3 f_equal.
  by rewrite drop_app_ge, Nat.sub_succ_l, Nat.sub_diag by lia.
Qed.

Lemma NDJSONRead_line n v data k :
  marshal (T := T) v = Some data → rd_data (nd_reader n) = data ++ newline :: k →
  blen data < nd_max n →
  NDJSONRead n = (Ok v, {| nd_max := nd_max n;
    nd_reader := {| rd_data := k; rd_fin := rd_fin (nd_reader n) |} |}).
Proof.
  intros Hm Hd Hl. unfold NDJSONRead. rewrite (Scan_line _ _ _ _ Hm Hd).
  rewrite (proj2 (Z.ltb_lt _ _)) by done. pose proof (marshal_not_nil _ _ Hm).
  destruct data; [done|]. by rewrite (unmarshal_marshal _ _ Hm).
Qed.

(** [NDJSONReader] delivers what [NDJSONWriter] wrote: messages whose line
    and line break fit in the reader's buffer come back in order and intact, and
    the reader then reports [io.EOF]. *)
Theorem NDJSON_roundtrip vs out limit :
  WriteAll [] vs = (out, Ok tt) →
  let r := NewNDJSONReaderWithLimit {| rd_data := out; rd_fin := io_EOF |} limit in
  Forall (λ v, ∀ data, marshal v = Some data → blen data < nd_max r) vs →
  (ReadMany (T := T) (S (length vs)) r).1 = (Ok <$> vs) ++ [Err io_EOF].
Proof.
  intros Hw r. unfold r, NewNDJSONReaderWithLimit. generalize (if (limit <=? 0) || (limit >? MaxMessageSize)
    then MaxMessageSize else limit). clear r limit. intros m.
  assert (∀ w out, WriteAll w vs = (out, Ok tt) →
    ∃ sent, out = w ++ sent ∧ (Forall (λ v, ∀ data, marshal v = Some data → blen data < m) vs →
      (ReadMany (T := T) (S (length vs)) {| nd_max := m; nd_reader :=
         {| rd_data := sent; rd_fin := io_EOF |} |}).1 = (Ok <$> vs) ++ [Err io_EOF])) as Hgen.
  { clear. induction vs as [|v vs IH]; intros w out; simpl.
    - intros [= <-]. exists []. by rewrite app_nil_r.
    - destruct (NDJSONWrite w v) as [w1 [[]|]] eqn:E; [|done]. intros Hvs.
      apply NDJSONWrite_buf_inv in E as (data & Hm & _ & ->).
      destruct (IH _ _ Hvs) as (sent & -> & Hr).
      exists (data ++ newline :: sent). rewrite <- !app_assoc. split; [done|].
      intros [Hv HF]%Forall_cons. rewrite (NDJSONRead_line _ _ data sent) by (simpl; eauto).
      specialize (Hr HF). simpl in *. destruct (NDJSONRead _) as [x r'].
      destruct (ReadMany (length vs) r') as [xs r'']. simpl in *. by rewrite Hr. }
  destruct (Hgen [] out Hw) as (sent & -> & Hr). apply Hr.
Qed.

(** The two sides of the line protocol disagree by one byte: a message whose
    JSON has exactly [MaxMessageSize] bytes is accepted by [NDJSONWriter], and
    every [NDJSONReader] rejects it as too large, since the line break has to fit
    in the reader's buffer as well. *)
Theorem NDJSON_limit_mismatch v data limit :
  marshal (T := T) v = Some data → blen data = MaxMessageSize →
  NDJSONWrite [] v = (data ++ [newline], Ok tt) ∧
  (NDJSONRead (T := T) (NewNDJSONReaderWithLimit
     {| rd_data := data ++ [newline]; rd_fin := io_EOF |} limit)).1 = Err ErrMessageTooLarge.
Proof.
  intros Hm Hl. split.
  - unfold NDJSONWrite. rewrite Hm, Hl. done.
  - unfold NDJSONRead. rewrite (Scan_line _ _ data [] Hm) by done.
    rewrite (proj2 (Z.ltb_ge _ _)); [done|]. unfold NewNDJSONReaderWithLimit. simpl.
    destruct (Z.leb_spec limit 0); [simpl; lia|].
    destruct (Z.gtb_spec limit MaxMessageSize); simpl; lia.
Qed.
End framing_lemmas.
