(* ===== verification/GoTime.v ===== *)
(** Package [time] as far as the program uses it.

    An instant is the number of nanoseconds since January 1 of year 1 UTC, the
    zero [time.Time]; a duration is a number of nanoseconds in an [int64]. There
    is one clock: the monotonic reading Go keeps beside the wall clock is not
    modelled. [ParseDuration] goes through floating point for fractions and is a
    parameter. *)

From S2P Require Import Prelude GoStrings.
Local Open Scope Z_scope.

Abbreviation time := Z (only parsing).
Abbreviation duration := Z (only parsing).

Definition zero_time : time := 0.
Definition IsZero (t : time) : bool := t =? zero_time.

Definition Millisecond : duration := 10^6.
Definition Second : duration := 10^9.
Definition Minute : duration := 60 * Second.

Definition Before (t u : time) : bool := t <? u.
Definition After (t u : time) : bool := t >? u.
Definition Add (t : time) (d : duration) : time := t + d.

(** [t.Sub(u)] saturates at the extreme durations. *)
Definition Sub (t u : time) : duration := Z.max min_int64 (Z.min max_int64 (t - u)).

(** [time.Unix(sec, 0)]: the seconds since year 1 are an [int64] that wraps. *)
Definition unix_to_internal : Z := 62135596800.
Definition Unix (sec : Z) : time := int64 (sec + unix_to_internal) * Second.

(** [t.Unix()]. *)
Definition ToUnix (t : time) : Z := t / Second - unix_to_internal.

(** Negation of a duration wraps: [-d] of the smallest duration is itself. *)
Definition neg_duration (d : duration) : duration := int64 (- d).

Class DurationParser := {
  parse_duration : string → option duration;
  parse_duration_range s d : parse_duration s = Some d → min_int64 ≤ d ≤ max_int64;
}.

(** [t.UTC().Format(time.RFC3339)] for the years 0 to 9999: the civil date of a
    day number, then the fields padded with zeros. *)
Definition civil_from_days (days : Z) : Z * Z * Z :=
  let z := days + 719468 in
  let era := z / 146097 in
  let doe := z mod 146097 in
  let yoe := (doe - doe / 1460 + doe / 36524 - doe / 146096) / 365 in
  let doy := doe - (365 * yoe + yoe / 4 - yoe / 100) in
  let mp := (5 * doy + 2) / 153 in
  let d := doy - (153 * mp + 2) / 5 + 1 in
  let m := if mp <? 10 then mp + 3 else mp - 9 in
  (yoe + era * 400 + (if m <=? 2 then 1 else 0), m, d).

Definition pad2 (n : Z) : string := (if n <? 10 then "0" else "") +:+ FormatInt n.
Definition pad4 (n : Z) : string :=
  (if n <? 10 then "000" else if n <? 100 then "00" else if n <? 1000 then "0" else "") +:+ FormatInt n.

Definition FormatRFC3339 (t : time) : string :=
  let secs := ToUnix t in
  let '(y, m, d) := civil_from_days (secs / 86400) in
  let s := secs mod 86400 in
  pad4 y +:+ "-" +:+ pad2 m +:+ "-" +:+ pad2 d +:+ "T" +:+ pad2 (s / 3600) +:+ ":"
    +:+ pad2 (s / 60 mod 60) +:+ ":" +:+ pad2 (s mod 60) +:+ "Z".

Example FormatRFC3339_audit : FormatRFC3339 (Unix 1770546600) = "2026-02-08T10:30:00Z".
Proof. vm_compute. reflexivity. Qed.
