(* ===== verification/Replay.v ===== *)
(** [internal/auth/replay.go]: the cache of recently seen request signatures.
    The mutex makes every call atomic, so a call is one step on the state. *)

From S2P Require Import Prelude GoTime.
Local Open Scope Z_scope.

Record ReplayCache := {
  rc_ttl : duration;
  rc_maxEntries : Z;
  rc_entries : gmap string time;
}.

(** The clamped settings shared by the constructor and the update. *)
Definition clamp_ttl (ttl : duration) : duration := if ttl <=? 0 then 2 * Minute else ttl.
Definition clamp_max (maxEntries : Z) : Z := if maxEntries <=? 0 then 10000 else maxEntries.

Definition NewReplayCache (ttl : duration) (maxEntries : Z) : ReplayCache :=
  {| rc_ttl := clamp_ttl ttl; rc_maxEntries := clamp_max maxEntries; rc_entries := ∅ |}.

Section replay.
Context `{MapRange}.

Definition evictExpiredLocked (now : time) (entries : gmap string time) : gmap string time :=
  foldl (λ m kv, if After now kv.2 then delete kv.1 m else m) entries (range entries).

(** The scan for the oldest entry; the empty key doubles as "none yet". *)
Definition oldest (l : list (string * time)) : string * time :=
  foldl (λ o kv, if bool_decide (o.1 = "") || Before kv.2 o.2 then kv else o) ("", zero_time) l.

Definition evictOneLocked (entries : gmap string time) : gmap string time :=
  let o := oldest (range entries) in
  if bool_decide (o.1 = "") then entries else delete o.1 entries.

Definition SeenOrStore (c : ReplayCache) (key : string) (now : time) : bool * ReplayCache :=
  let entries := evictExpiredLocked now (rc_entries c) in
  let with_entries e :=
    {| rc_ttl := rc_ttl c; rc_maxEntries := rc_maxEntries c; rc_entries := e |} in
  if match entries !! key with Some exp => Before now exp | None => false end then
    (true, with_entries entries)
  else
    let entries :=
      if rc_maxEntries c <=? Z.of_nat (size entries) then evictOneLocked entries else entries in
    (false, with_entries (<[key := Add now (rc_ttl c)]> entries)).

(** [for len(c.entries) > c.maxEntries { c.evictOneLocked() }]: each round removes
    an entry, so the size is enough fuel. *)
Fixpoint trim (fuel : nat) (maxEntries : Z) (entries : gmap string time) : gmap string time :=
  match fuel with
  | O => entries
  | S fuel =>
    if maxEntries <? Z.of_nat (size entries) then trim fuel maxEntries (evictOneLocked entries)
    else entries
  end.

Definition UpdateSettings (c : ReplayCache) (ttl : duration) (maxEntries : Z) : ReplayCache :=
  {| rc_ttl := clamp_ttl ttl; rc_maxEntries := clamp_max maxEntries;
     rc_entries := trim (size (rc_entries c)) (clamp_max maxEntries) (rc_entries c) |}.

(** A run of requests: the keys and times at which the daemon asks. *)
Fixpoint replay_run (c : ReplayCache) (reqs : list (string * time)) : list bool * ReplayCache :=
  match reqs with
  | [] => ([], c)
  | (k, t) :: reqs =>
    let '(b, c) := SeenOrStore c k t in
    let '(bs, c) := replay_run c reqs in (b :: bs, c)
  end.

(** The representation invariant: bounded, positive settings, no empty key. *)
Definition replay_inv (c : ReplayCache) : Prop :=
  0 < rc_ttl c ∧ 0 < rc_maxEntries c ∧ Z.of_nat (size (rc_entries c)) ≤ rc_maxEntries c ∧
  rc_entries c !! "" = None.

(** ** Lemmas *)

Lemma foldl_delete_Some (p : string * time → bool) l (m : gmap string time) k x :
  foldl (λ m kv, if p kv then delete kv.1 m else m) m l !! k = Some x ↔
  m !! k = Some x ∧ ∀ y, (k, y) ∈ l → p (k, y) = false.
Proof.
  revert m. induction l as [|[k' y'] l IH]; intros m; simpl.
  - split; [|by intros []]. intros Hx. split; [done|]. intros y Hy. by apply not_elem_of_nil in Hy.
  - rewrite IH. setoid_rewrite elem_of_cons. destruct (p (k', y')) eqn:E.
    + rewrite lookup_delete_Some. split.
      * intros [[Hne Hm] HF]. split; [done|]. intros y [[= -> ->]|Hy]; [done|auto].
      * intros [Hm HF]. split; [|by auto]. split; [|done]. intros ->.
        specialize (HF y' (or_introl eq_refl)). congruence.
    + split; intros [Hm HF]; (split; [done|]); [|by auto].
      intros y [[= -> ->]|Hy]; auto.
Qed.

Lemma evictExpired_lookup now m k x :
  evictExpiredLocked now m !! k = Some x ↔ m !! k = Some x ∧ now ≤ x.
Proof.
  unfold evictExpiredLocked.
  rewrite (foldl_delete_Some (λ kv, After now kv.2)). unfold After; simpl.
  split; intros [Hx HF]; (split; [done|]).
  - specialize (HF x (proj2 (elem_of_range _ _ _) Hx)). lia.
  - intros y Hy%elem_of_range. rewrite Hx in Hy. injection Hy as <-. lia.
Qed.

Lemma evictExpired_subseteq now m : evictExpiredLocked now m ⊆ m.
Proof. apply map_subseteq_spec. intros k x Hk. by apply evictExpired_lookup in Hk as [? _]. Qed.

Lemma oldest_spec l o :
  Forall (λ kv, kv.1 ≠ "") l →
  let r := foldl (λ o kv, if bool_decide (o.1 = "") || Before kv.2 o.2 then kv else o) o l in
  (r = o ∨ r ∈ l) ∧ (l ≠ [] → r.1 ≠ "") ∧
  (∀ kv, kv ∈ l → r.2 ≤ kv.2) ∧ (o.1 ≠ "" → r.1 ≠ "" ∧ r.2 ≤ o.2).
Proof.
  revert o. induction l as [|kv l IH]; intros o HF; simpl.
  { split; [by left|]. split; [done|]. split; [intros kv Hkv; by apply not_elem_of_nil in Hkv|]. intros; split; [done|lia]. }
  apply Forall_cons in HF as [Hk HF].
  destruct (IH (if bool_decide (o.1 = "") || Before kv.2 o.2 then kv else o) HF) as (H1 & H2 & H3 & H4).
  set (o' := if bool_decide (o.1 = "") || Before kv.2 o.2 then kv else o) in *.
  assert (o'.1 ≠ "" ∧ (o' = o ∨ o' = kv) ∧ o'.2 ≤ kv.2 ∧ (o.1 ≠ "" → o'.2 ≤ o.2)) as (Ho1 & Ho2 & Ho3 & Ho4).
  { unfold o', Before. case_bool_decide; simpl; [naive_solver lia|].
    destruct (Z.ltb_spec kv.2 o.2); naive_solver lia. }
  destruct (H4 Ho1) as [H5 H6]. split; [|split; [done|split]].
  - destruct H1 as [->|H1]; [|right; by right]. destruct Ho2 as [->| ->]; [by left|right; left].
  - intros kv' [->|Hin]%elem_of_cons; [lia|auto].
  - intros Ho. specialize (Ho4 Ho). split; [done|lia].
Qed.

Lemma evictOne_spec m :
  m !! "" = None → m ≠ ∅ →
  ∃ k x, m !! k = Some x ∧ evictOneLocked m = delete k m ∧ ∀ k' x', m !! k' = Some x' → x ≤ x'.
Proof.
  intros He Hm. unfold evictOneLocked, oldest.
  assert (Forall (λ kv : string * time, kv.1 ≠ "") (range m)) as HF.
  { apply Forall_range. simpl. intros k x Hk Hz. congruence. }
  assert (range m ≠ []) as Hr.
  { intros Hr. apply Hm, map_size_empty_inv. by rewrite <- length_range, Hr. }
  destruct (oldest_spec _ ("", zero_time) HF) as (H1 & H2 & H3 & _).
  specialize (H2 Hr). set (r := foldl _ _ _) in *. rewrite bool_decide_eq_false_2 by done.
  exists r.1, r.2. split; [|split; [done|]].
  - destruct H1 as [E|H1]; [by rewrite E in H2|]. apply elem_of_range. by destruct r.
  - intros k' x' Hk. apply (H3 (k', x')). by apply elem_of_range.
Qed.

Lemma evictOne_size m :
  m !! "" = None → m ≠ ∅ → size (evictOneLocked m) = (size m - 1)%nat.
Proof.
  intros He Hm. destruct (evictOne_spec m He Hm) as (k & x & Hk & -> & _).
  rewrite map_size_delete, Hk. lia.
Qed.

Lemma evictOne_subseteq m : evictOneLocked m ⊆ m.
Proof. unfold evictOneLocked. case_bool_decide; [done|]. apply delete_subseteq. Qed.

Lemma lookup_empty_key (m m' : gmap string time) : m ⊆ m' → m' !! "" = None → m !! "" = None.
Proof. intros Hs He. by eapply lookup_weaken_None. Qed.

Lemma trim_spec fuel mx m :
  0 < mx → m !! "" = None → (size m ≤ fuel + Z.to_nat mx)%nat →
  trim fuel mx m ⊆ m ∧ Z.of_nat (size (trim fuel mx m)) = Z.min (Z.of_nat (size m)) mx.
Proof.
  intros Hmx. revert m. induction fuel as [|fuel IH]; intros m He Hf; simpl.
  { split; [done|]. lia. }
  destruct (Z.ltb_spec mx (Z.of_nat (size m))); [|split; [done|lia]].
  assert (m ≠ ∅) by (intros ->; rewrite map_size_empty in *; lia).
  destruct (IH (evictOneLocked m)) as [Hs Hz].
  - eapply lookup_empty_key; [apply evictOne_subseteq|done].
  - rewrite evictOne_size by done. lia.
  - split; [etrans; [done|apply evictOne_subseteq]|]. rewrite Hz, evictOne_size by done. lia.
Qed.

Lemma clamp_ttl_pos ttl : 0 < clamp_ttl ttl.
Proof. unfold clamp_ttl, Minute, Second. destruct (Z.leb_spec ttl 0); lia. Qed.
Lemma clamp_max_pos mx : 0 < clamp_max mx.
Proof. unfold clamp_max. destruct (Z.leb_spec mx 0); lia. Qed.

(** ** Properties *)

(** The replay cache stays within its bound whatever the daemon asks: a new
    cache satisfies the invariant (positive settings, at most [maxEntries]
    entries), and recording a non-empty signature key or changing the settings
    while the cache is full preserves it. *)
Theorem replay_inv_preserved c key now ttl mx :
  replay_inv (NewReplayCache ttl mx) ∧
  (replay_inv c → key ≠ "" → replay_inv (SeenOrStore c key now).2) ∧
  (replay_inv c → replay_inv (UpdateSettings c ttl mx)).
Proof.
  pose proof (clamp_ttl_pos ttl). pose proof (clamp_max_pos mx).
  split; [|split].
  - unfold replay_inv; simpl. rewrite map_size_empty. naive_solver lia.
  - intros (Ht & Hm & Hs & He) Hk. unfold SeenOrStore.
    pose proof (evictExpired_subseteq now (rc_entries c)) as Hsub.
    set (m := evictExpiredLocked now (rc_entries c)) in *.
    pose proof (lookup_empty_key _ _ Hsub He) as He'.
    pose proof (map_subseteq_size _ _ Hsub) as Hsz.
    case_match; simpl; [unfold replay_inv; simpl; naive_solver lia|].
    split; [done|]. split; [done|]. simpl. split.
    + destruct (Z.leb_spec (rc_maxEntries c) (Z.of_nat (size m))).
      * assert (m ≠ ∅) by (intros E; rewrite E, map_size_empty in *; lia).
        pose proof (evictOne_size m He' ltac:(done)).
        pose proof (size_insert_le (evictOneLocked m) key (Add now (rc_ttl c))). lia.
      * pose proof (size_insert_le m key (Add now (rc_ttl c))). lia.
    + rewrite lookup_insert_ne by done. destruct (_ <=? _); [|done].
      eapply lookup_empty_key; [apply evictOne_subseteq|done].
  - intros (Ht & Hm & Hs & He). unfold UpdateSettings.
    destruct (trim_spec (size (rc_entries c)) (clamp_max mx) (rc_entries c)) as [Hsub Hz]; [done..|lia|].
    unfold replay_inv; simpl. rewrite Hz. split; [done|]. split; [done|]. split; [lia|].
    by eapply lookup_empty_key.
Qed.

Lemma SeenOrStore_keeps c k exp k' t :
  rc_entries c !! k = Some exp → rc_entries c !! "" = None → t < exp → k' ≠ "" →
  (size (dom (rc_entries c) ∪ {[k']}) ≤ Z.to_nat (rc_maxEntries c))%nat →
  let c' := (SeenOrStore c k' t).2 in
  rc_entries c' !! k = Some exp ∧ rc_entries c' !! "" = None ∧
  dom (rc_entries c') ⊆ dom (rc_entries c) ∪ {[k']} ∧ rc_maxEntries c' = rc_maxEntries c.
Proof.
  intros Hk He Ht Hk' Hsz. unfold SeenOrStore.
  pose proof (evictExpired_subseteq t (rc_entries c)) as Hsub.
  assert (evictExpiredLocked t (rc_entries c) !! k = Some exp) as Hk2.
  { apply evictExpired_lookup. split; [done|lia]. }
  assert (∀ x, evictExpiredLocked t (rc_entries c) !! k' = Some x → t ≤ x) as Hx'.
  { intros x Hx. by apply evictExpired_lookup in Hx as [_ ?]. }
  pose proof (lookup_empty_key _ _ Hsub He) as He'.
  pose proof (subseteq_dom _ _ Hsub) as Hdom.
  set (m := evictExpiredLocked t (rc_entries c)) in *. clearbody m.
  destruct (m !! k') as [x|] eqn:Em.
  - destruct (Before t x) eqn:Eb; simpl.
    { repeat split; [done|done|set_solver]. }
    specialize (Hx' _ eq_refl). unfold Before in Eb. assert (x = t) as -> by lia.
    assert (k ≠ k') by (intros ->; rewrite Hk2 in Em; injection Em; lia).
    destruct (_ <=? _).
    + assert (m ≠ ∅) by (intros E; by rewrite E in Hk2).
      destruct (evictOne_spec m He' ltac:(done)) as (j & y & Hj & -> & Hmin).
      assert (j ≠ k) by (intros ->; specialize (Hmin _ _ Em); rewrite Hk2 in Hj; injection Hj; lia).
      rewrite !lookup_insert_ne, !lookup_delete_ne by congruence.
      repeat split; [done|done|rewrite dom_insert_L, dom_delete_L; set_solver].
    + rewrite !lookup_insert_ne by done. repeat split; [done..|rewrite dom_insert_L; set_solver].
  - assert (Z.of_nat (size m) < rc_maxEntries c) as Hlt.
    { assert (S (size m) ≤ size (dom (rc_entries c) ∪ {[k']}))%nat.
      { rewrite <- size_dom. transitivity (size (dom m ∪ {[k']})).
        - rewrite size_union, size_singleton; [lia|]. apply disjoint_singleton_r.
          by apply not_elem_of_dom.
        - apply subseteq_size. set_solver. }
      lia. }
    rewrite (proj2 (Z.leb_gt _ _)) by done. simpl.
    rewrite !lookup_insert_ne by congruence. repeat split; [done..|rewrite dom_insert_L; set_solver].
Qed.

(** No replay within the window. Once the cache has answered "new" for a key
    at time [t0], it answers "seen" for that key at every time before
    [t0 + ttl], after any other requests at such times, as long as the keys it
    holds and the ones requested fit in the cache together. *)
Theorem replay_rejected c k t0 reqs t :
  replay_inv c → k ≠ "" → (SeenOrStore c k t0).1 = false →
  Forall (λ r, r.1 ≠ "" ∧ r.2 < t0 + rc_ttl c) reqs → t < t0 + rc_ttl c →
  (size (dom (rc_entries c) ∪ {[k]} ∪ list_to_set reqs.*1) ≤ Z.to_nat (rc_maxEntries c))%nat →
  (SeenOrStore (replay_run (SeenOrStore c k t0).2 reqs).2 k t).1 = true.
Proof.
  intros (Httl & Hmax & Hsz & He) Hk Hnew HF Ht Hcap.
  set (exp := t0 + rc_ttl c) in *.
  assert (∀ reqs c1, rc_entries c1 !! k = Some exp → rc_entries c1 !! "" = None →
    Forall (λ r : string * time, r.1 ≠ "" ∧ r.2 < exp) reqs →
    (size (dom (rc_entries c1) ∪ list_to_set reqs.*1) ≤ Z.to_nat (rc_maxEntries c1))%nat →
    rc_entries (replay_run c1 reqs).2 !! k = Some exp) as Hrun.
  { clear. induction reqs as [|[k' t'] reqs IH]; intros c1 Hk1 He1 HF Hc; [done|].
    apply Forall_cons in HF as [[Hk' Ht'] HF]. simpl in *.
    destruct (SeenOrStore_keeps c1 k exp k' t') as (H1 & H2 & H3 & H4); try done.
    { etrans; [|done]. apply subseteq_size. set_solver. }
    destruct (SeenOrStore c1 k' t') as [b c2]; simpl in *.
    specialize (IH c2 H1 H2 HF). destruct (replay_run c2 reqs). simpl in *. apply IH.
    rewrite H4. etrans; [|done]. apply subseteq_size. set_solver. }
  assert (rc_entries (SeenOrStore c k t0).2 !! k = Some exp ∧
    rc_entries (SeenOrStore c k t0).2 !! "" = None ∧
    dom (rc_entries (SeenOrStore c k t0).2) ⊆ dom (rc_entries c) ∪ {[k]} ∧
    rc_maxEntries (SeenOrStore c k t0).2 = rc_maxEntries c) as (H1 & H2 & H3 & H4).
  { unfold SeenOrStore in *. case_match; [done|]. simpl.
    rewrite lookup_insert_eq, lookup_insert_ne by done.
    pose proof (evictExpired_subseteq t0 (rc_entries c)) as Hsub.
    assert (∀ m : gmap string time, m ⊆ evictExpiredLocked t0 (rc_entries c) →
      m !! "" = None ∧ dom (<[k:=Add t0 (rc_ttl c)]> m) ⊆ dom (rc_entries c) ∪ {[k]}) as Hm.
    { intros m Hm. split; [eapply lookup_empty_key; [etrans; done|done]|].
      rewrite dom_insert_L. pose proof (subseteq_dom _ _ Hm). pose proof (subseteq_dom _ _ Hsub). set_solver. }
    split; [done|]. destruct (_ <=? _).
    - destruct (Hm (evictOneLocked (evictExpiredLocked t0 (rc_entries c)))); [apply evictOne_subseteq|done].
    - by destruct (Hm (evictExpiredLocked t0 (rc_entries c))). }
  specialize (Hrun reqs _ H1 H2 HF). unfold SeenOrStore at 1.
  assert (evictExpiredLocked t (rc_entries (replay_run (SeenOrStore c k t0).2 reqs).2) !! k = Some exp) as ->.
  { apply evictExpired_lookup. split; [|lia]. apply Hrun. rewrite H4.
    etrans; [|done]. apply subseteq_size. set_solver. }
  unfold Before. by rewrite (proj2 (Z.ltb_lt _ _)) by done.
Qed.
End replay.
