(* ===== verification/Auth.v ===== *)
(** Package [internal/auth], [auth.go]: the request signature and the freshness
    of its timestamp.

    HMAC-SHA256 is a parameter ([hmac_sha256 key message]) of which nothing is
    assumed. The injectivity of the signed message is proved outright, so that a
    signature that fits two requests is a collision of the MAC. The secret's file is in [SecretFile.v]. *)

From S2P Require Import Prelude GoStrings Base64 Json GoTime.
Local Open Scope Z_scope.

Definition MaxTimestampDrift : duration := 5 * Second.
Definition ErrInvalidTimestamp : error := Sentinel "ErrInvalidTimestamp".
Definition ErrInvalidSignature : error := Sentinel "ErrInvalidSignature".

(** [ValidateTimestamp], at the time [now]. *)
Definition ValidateTimestamp (now : time) (timestamp : string) : result unit :=
  match ParseInt64 timestamp with
  | None => Err ErrInvalidTimestamp
  | Some ts =>
    let requestTime := Unix ts in
    let drift := Sub now requestTime in
    let drift := if drift <? 0 then neg_duration drift else drift in
    if drift >? MaxTimestampDrift then Err ErrInvalidTimestamp else Ok tt
  end.

(** [subtle.ConstantTimeCompare(x, y)]. *)
Definition ConstantTimeCompare (x y : bytes) : Z := if bool_decide (x = y) then 1 else 0.

(** [sort.Strings]: bytewise order. *)
Definition string_le (s t : string) : Prop := String.leb s t = true.
#[export] Instance string_le_dec s t : Decision (string_le s t) := decide (String.leb s t = true).
Definition sort_strings (l : list string) : list string := merge_sort string_le l.

(** The loop of [marshalEnvCanonical] over the sorted keys, from index [i] on. *)
Fixpoint env_entries (i : nat) (keys : list string) (env : gmap string string) : bytes :=
  match keys with
  | [] => []
  | k :: keys =>
    (if (0 <? i)%nat then [","%char] else [])
      ++ json_string k ++ ":"%char :: json_string (default "" (env !! k)) ++ env_entries (S i) keys env
  end.

Definition marshalEnvCanonical `{MapRange} (env : gmap string string) : bytes :=
  if (size env =? 0)%nat then s2b "{}"
  else
    let keys := sort_strings (range env).*1 in
    "{"%char :: env_entries 0 keys env ++ ["}"%char].

(** The fields of a request its signature covers. *)
Record signed := {
  sg_timestamp : string;
  sg_tool : string;
  sg_cwd : string;
  sg_args : option (list string);
  sg_env : gmap string string;
  sg_nonce : string;
  sg_pty : bool;
}.

Section auth.
Context `{MapRange} (hmac_sha256 : bytes → bytes → bytes).

(** The message [ComputeHMACWithPTY] signs. *)
Definition signed_message (r : signed) : bytes :=
  let argsJSON := json_strings (sg_args r) in
  let envJSON := marshalEnvCanonical (sg_env r) in
  let ptyFlag := if sg_pty r then "1"%char else "0"%char in
  s2b (sg_timestamp r) ++ newline :: s2b (sg_tool r) ++ newline :: argsJSON ++ newline ::
    s2b (sg_cwd r) ++ newline :: envJSON ++ newline :: s2b (sg_nonce r) ++ newline :: [ptyFlag].

Definition ComputeHMACWithPTY (secret : bytes) (r : signed) : string :=
  EncodeToString StdEncoding (hmac_sha256 secret (signed_message r)).

Definition ComputeHMACWithEnv (secret : bytes) (timestamp tool cwd : string)
    (args : option (list string)) (env : gmap string string) (nonce : string) : string :=
  ComputeHMACWithPTY secret {| sg_timestamp := timestamp; sg_tool := tool; sg_cwd := cwd;
    sg_args := args; sg_env := env; sg_nonce := nonce; sg_pty := false |}.

Definition ComputeHMAC (secret : bytes) (timestamp tool cwd : string)
    (args : option (list string)) (nonce : string) : string :=
  ComputeHMACWithEnv secret timestamp tool cwd args ∅ nonce.

Definition VerifyHMACWithPTY (now : time) (secret : bytes) (r : signed)
    (providedHMAC : string) : result unit :=
  ValidateTimestamp now (sg_timestamp r) ≫= λ _,
  let expectedHMAC := ComputeHMACWithPTY secret r in
  match DecodeString StdEncoding providedHMAC with
  | None => Err ErrInvalidSignature
  | Some provided =>
    match DecodeString StdEncoding expectedHMAC with
    | None => Err (Wrapf "failed to decode expected HMAC: %w" [] (Sentinel "base64"))
    | Some expected =>
      if negb (ConstantTimeCompare provided expected =? 1) then Err ErrInvalidSignature
      else Ok tt
    end
  end.

Definition VerifyHMACWithEnv (now : time) (secret : bytes) (timestamp tool cwd : string)
    (args : option (list string)) (env : gmap string string) (nonce providedHMAC : string) : result unit :=
  VerifyHMACWithPTY now secret {| sg_timestamp := timestamp; sg_tool := tool; sg_cwd := cwd;
    sg_args := args; sg_env := env; sg_nonce := nonce; sg_pty := false |} providedHMAC.

Definition VerifyHMAC (now : time) (secret : bytes) (timestamp tool cwd : string)
    (args : option (list string)) (nonce providedHMAC : string) : result unit :=
  VerifyHMACWithEnv now secret timestamp tool cwd args ∅ nonce providedHMAC.
End auth.

(** ** The order of the keys *)

#[export] Instance string_le_antisymm : AntiSymm (=) string_le.
Proof. intros s t ? ?. by apply String.leb_antisym. Qed.

Lemma string_le_total_or s t : string_le s t ∨ string_le t s.
Proof. unfold string_le. destruct (String.leb_total s t); auto. Qed.

#[export] Instance string_le_total : Total string_le.
Proof. intros s t. apply string_le_total_or. Qed.

Lemma ascii_compare_code a b : Ascii.compare a b = (code a ?= code b).
Proof. unfold Ascii.compare, code. by rewrite N2Z.inj_compare. Qed.

#[export] Instance string_le_trans : Transitive string_le.
Proof.
  unfold string_le, String.leb. intros s. induction s as [|a s IH]; intros [|b t] [|c u]; simpl; try done.
  rewrite !ascii_compare_code. intros H1 H2. specialize (IH t u).
  destruct (Z.compare_spec (code a) (code b)), (Z.compare_spec (code b) (code c)),
    (Z.compare_spec (code a) (code c)); try done; try lia; auto.
Qed.

(** The sorted keys are the same whatever order the map is visited in. *)
Lemma sort_strings_perm l1 l2 : l1 ≡ₚ l2 → sort_strings l1 = sort_strings l2.
Proof.
  intros Hp. apply (StronglySorted_unique string_le).
  - apply (StronglySorted_merge_sort _).
  - apply (StronglySorted_merge_sort _).
  - unfold sort_strings. by rewrite !merge_sort_Permutation.
Qed.

Lemma elem_of_sort_strings x l : x ∈ sort_strings l ↔ x ∈ l.
Proof. unfold sort_strings. by rewrite merge_sort_Permutation. Qed.

Lemma elem_of_range_keys `{MapRange} {A} (m : gmap string A) k : k ∈ (range m).*1 ↔ is_Some (m !! k).
Proof.
  rewrite list_elem_of_fmap. split.
  - intros ([k' x] & -> & Hin). apply elem_of_range in Hin. by exists x.
  - intros [x Hx]. exists (k, x). split; [done|]. by apply elem_of_range.
Qed.

(** ** Reading the message back *)

Lemma newline_cut (a b k1 k2 : bytes) :
  newline ∉ a → newline ∉ b → a ++ newline :: k1 = b ++ newline :: k2 → a = b ∧ k1 = k2.
Proof.
  revert b. induction a as [|c a IH]; intros [|d b]; simpl.
  - intros _ _ [=]. done.
  - intros _ Hb H. injection H as E _. subst d. by destruct Hb; left.
  - intros Ha _ H. injection H as E _. subst c. by destruct Ha; left.
  - intros Ha Hb H. pose proof (f_equal tail H) as Ht. simpl in Ht.
    injection H as -> _. rewrite !not_elem_of_cons in *.
    destruct (IH b) as [-> ->]; [naive_solver..|done].
Qed.

(** The entries of valid UTF-8 strings are unambiguous. *)
Definition valid_env (env : gmap string string) : Prop :=
  ∀ k v, env !! k = Some v → ValidString k = true ∧ ValidString v = true.

Lemma env_entries_inv l1 l2 env1 env2 i k1 k2 :
  valid_env env1 → valid_env env2 →
  Forall (λ k, is_Some (env1 !! k)) l1 → Forall (λ k, is_Some (env2 !! k)) l2 →
  env_entries i l1 env1 ++ "}"%char :: k1 = env_entries i l2 env2 ++ "}"%char :: k2 →
  l1 = l2 ∧ k1 = k2 ∧ Forall (λ k, env1 !! k = env2 !! k) l1.
Proof.
  intros Hv1 Hv2. revert i l2. induction l1 as [|x l1 IH]; intros i [|y l2] HF1 HF2 HE.
  - injection HE as ->. done.
  - exfalso. revert HE. clear. simpl. destruct i; done.
  - exfalso. revert HE. clear. simpl. destruct i; done.
  - apply Forall_cons in HF1 as [[v1 E1] HF1]. apply Forall_cons in HF2 as [[v2 E2] HF2].
    destruct (Hv1 _ _ E1) as [Vx Vv1], (Hv2 _ _ E2) as [Vy Vv2].
    cbn -[json_string] in HE. rewrite E1, E2 in HE. simpl default in HE.
    rewrite <- !app_assoc in HE. apply app_inv_head in HE.
    apply json_string_inv in HE as [-> HE]; [|done..].
    apply (f_equal tail) in HE. cbn -[json_string] in HE. rewrite <- !app_assoc in HE.
    apply json_string_inv in HE as [-> HE]; [|done..].
    apply IH in HE as (-> & -> & HF); [|done..].
    split; [done|]. split; [done|]. constructor; [congruence|done].
Qed.

Lemma sorted_keys_in `{MapRange} (env : gmap string string) k :
  k ∈ sort_strings (range env).*1 ↔ is_Some (env !! k).
Proof. by rewrite elem_of_sort_strings, elem_of_range_keys. Qed.

Lemma marshalEnv_shape `{MapRange} env :
  marshalEnvCanonical env = "{"%char :: env_entries 0 (sort_strings (range env).*1) env ++ ["}"%char].
Proof.
  unfold marshalEnvCanonical. destruct (Nat.eqb_spec (size env) 0) as [E|]; [|done].
  apply map_size_empty_inv in E as ->.
  assert (sort_strings (range (∅ : gmap string string)).*1 = []) as ->; [|done].
  destruct (sort_strings _) as [|k l] eqn:E; [done|].
  assert (k ∈ sort_strings (range (∅ : gmap string string)).*1) as Hk by (rewrite E; left).
  apply sorted_keys_in in Hk as [x Hx]. by rewrite lookup_empty in Hx.
Qed.

Lemma marshalEnv_inv (M1 M2 : MapRange) env1 env2 k1 k2 :
  valid_env env1 → valid_env env2 →
  @marshalEnvCanonical M1 env1 ++ k1 = @marshalEnvCanonical M2 env2 ++ k2 → env1 = env2 ∧ k1 = k2.
Proof.
  intros Hv1 Hv2. rewrite !marshalEnv_shape. intros HE%(f_equal tail). simpl in HE.
  rewrite <- !app_assoc in HE. simpl in HE.
  apply env_entries_inv in HE as (HL & -> & HF); [|done|done|..].
  - split; [|done]. apply map_eq. intros k. rewrite Forall_forall in HF.
    destruct (env1 !! k) as [v|] eqn:E1.
    + rewrite <- E1. apply HF, sorted_keys_in. by exists v.
    + destruct (env2 !! k) as [v|] eqn:E2; [|done].
      assert (is_Some (env1 !! k)) as Hs; [|by rewrite E1 in Hs; destruct Hs].
      apply (@sorted_keys_in M1). rewrite HL. apply sorted_keys_in. by exists v.
  - apply Forall_forall. intros k. by rewrite sorted_keys_in.
  - apply Forall_forall. intros k. by rewrite sorted_keys_in.
Qed.

(** A request whose signed text is unambiguous: the raw fields hold no line
    break and the JSON fields are valid UTF-8. *)
Definition plain (r : signed) : Prop :=
  newline ∉ s2b (sg_timestamp r) ∧ newline ∉ s2b (sg_tool r) ∧ newline ∉ s2b (sg_cwd r) ∧
  newline ∉ s2b (sg_nonce r) ∧ valid_strings (sg_args r) = true ∧ valid_env (sg_env r).

(** A signature does not depend on map order, and determines every field. *)
Lemma signed_message_inv (M1 M2 : MapRange) r1 r2 :
  plain r1 → plain r2 → @signed_message M1 r1 = @signed_message M2 r2 → r1 = r2.
Proof.
  destruct r1 as [t1 n1 c1 a1 e1 o1 p1], r2 as [t2 n2 c2 a2 e2 o2 p2].
  unfold plain, signed_message; cbn [sg_timestamp sg_tool sg_cwd sg_args sg_env sg_nonce sg_pty].
  intros (? & ? & ? & ? & ? & ?) (? & ? & ? & ? & ? & ?) HE.
  apply newline_cut in HE as [->%(inj s2b) HE]; [|done..].
  apply newline_cut in HE as [->%(inj s2b) HE]; [|done..].
  apply json_strings_inv in HE as [-> HE]; [|done..]. apply (f_equal tail) in HE. simpl in HE.
  apply newline_cut in HE as [->%(inj s2b) HE]; [|done..].
  apply marshalEnv_inv in HE as [-> HE]; [|done..]. apply (f_equal tail) in HE. simpl in HE.
  apply newline_cut in HE as [->%(inj s2b) HE]; [|done..].
  destruct p1, p2; done.
Qed.

(** Every outcome of the verification. *)
Lemma VerifyHMAC_cases `{MapRange} hmac now secret r provided :
  (VerifyHMACWithPTY hmac now secret r provided = Ok tt ↔
    ValidateTimestamp now (sg_timestamp r) = Ok tt ∧
    DecodeString StdEncoding provided = Some (hmac secret (signed_message r))) ∧
  VerifyHMACWithPTY hmac now secret r (ComputeHMACWithPTY hmac secret r)
    = ValidateTimestamp now (sg_timestamp r) ∧
  (VerifyHMACWithPTY hmac now secret r provided = Ok tt ∨
   VerifyHMACWithPTY hmac now secret r provided = Err ErrInvalidTimestamp ∨
   VerifyHMACWithPTY hmac now secret r provided = Err ErrInvalidSignature).
Proof.
  unfold VerifyHMACWithPTY, ComputeHMACWithPTY.
  assert (ValidateTimestamp now (sg_timestamp r) = Ok tt ∨
    ValidateTimestamp now (sg_timestamp r) = Err ErrInvalidTimestamp) as [-> | ->].
  { unfold ValidateTimestamp. destruct (ParseInt64 _); [|by right].
    destruct (_ >? _); [by right|by left]. }
  2: { simpl. naive_solver. }
  simpl. rewrite !(DecodeString_EncodeToString StdEncoding). unfold ConstantTimeCompare.
  rewrite bool_decide_eq_true_2 by done. simpl.
  destruct (DecodeString StdEncoding provided) as [p|]; [|naive_solver].
  case_bool_decide; simpl; [subst|]; naive_solver.
Qed.

(** ** Properties *)

(** The canonical environment the signature covers is the same for every
    order in which the maps are visited, on the signing and on the verifying
    side. *)
Theorem marshalEnv_canonical (M1 M2 : MapRange) env :
  @marshalEnvCanonical M1 env = @marshalEnvCanonical M2 env.
Proof.
  rewrite !marshalEnv_shape. do 3 f_equal. apply sort_strings_perm. f_equiv.
  by rewrite !range_perm.
Qed.

(** [VerifyHMACWithPTY] accepts exactly the requests that are fresh and
    whose signature decodes to the MAC of the request's own message; in
    particular what [ComputeHMACWithPTY] signs is accepted while it is fresh.
    Every other outcome is one of the two documented errors. *)
Theorem VerifyHMAC_iff `{MapRange} hmac now secret r provided :
  (VerifyHMACWithPTY hmac now secret r provided = Ok tt ↔
    ValidateTimestamp now (sg_timestamp r) = Ok tt ∧
    DecodeString StdEncoding provided = Some (hmac secret (signed_message r))) ∧
  VerifyHMACWithPTY hmac now secret r (ComputeHMACWithPTY hmac secret r)
    = ValidateTimestamp now (sg_timestamp r) ∧
  (VerifyHMACWithPTY hmac now secret r provided = Ok tt ∨
   VerifyHMACWithPTY hmac now secret r provided = Err ErrInvalidTimestamp ∨
   VerifyHMACWithPTY hmac now secret r provided = Err ErrInvalidSignature).
Proof. apply VerifyHMAC_cases. Qed.

(** C17: A signature binds the whole request, as far as the MAC goes. Of two
    plain requests accepted under one secret with the same signature, whenever they
    are checked, either both are the same request (timestamp, tool, arguments,
    directory, environment, nonce and PTY flag), or their two signed messages are
    different and are a collision of the MAC under that secret. Nothing is assumed
    of the MAC: whoever reuses a signature for another request has found a
    collision of HMAC-SHA256, and the encoding of the message adds no other way. *)
Theorem signature_binds_request `{MapRange} hmac now1 now2 secret r1 r2 provided :
  plain r1 → plain r2 →
  VerifyHMACWithPTY hmac now1 secret r1 provided = Ok tt →
  VerifyHMACWithPTY hmac now2 secret r2 provided = Ok tt →
  r1 = r2 ∨
  signed_message r1 ≠ signed_message r2 ∧ hmac secret (signed_message r1) = hmac secret (signed_message r2).
Proof.
  intros Hp1 Hp2 [_ H1]%VerifyHMAC_cases [_ H2]%VerifyHMAC_cases.
  rewrite H1 in H2. injection H2 as H2. destruct (decide (signed_message r1 = signed_message r2)) as [E|E].
  - left. by eapply signed_message_inv.
  - by right.
Qed.

(** Without that proviso the newlines between the fields do not prevent
    boundary confusion: a directory or a nonce that itself holds a line break
    moves text from one field to the next, and the two requests carry the same
    signature under every MAC. *)
Theorem boundary_confusion `{MapRange} hmac secret :
  let r1 := {| sg_timestamp := "1"; sg_tool := "gh"; sg_args := Some []; sg_cwd := "/w";
               sg_env := ∅; sg_nonce := b2s (s2b "/x" ++ newline :: s2b "{}" ++ newline :: s2b "n");
               sg_pty := false |} in
  let r2 := {| sg_timestamp := "1"; sg_tool := "gh"; sg_args := Some [];
               sg_cwd := b2s (s2b "/w" ++ newline :: s2b "{}" ++ newline :: s2b "/x");
               sg_env := ∅; sg_nonce := "n"; sg_pty := false |} in
  r1 ≠ r2 ∧ ComputeHMACWithPTY hmac secret r1 = ComputeHMACWithPTY hmac secret r2.
Proof. split; [done|]. reflexivity. Qed.

(** Freshness. A timestamp that is accepted, and whose instant is within the
    range of a duration of the current one, is at most five seconds away from
    it, before or after; every such timestamp is accepted. *)
Theorem ValidateTimestamp_fresh now timestamp ts :
  ParseInt64 timestamp = Some ts → min_int64 < now - Unix ts ≤ max_int64 →
  (ValidateTimestamp now timestamp = Ok tt ↔ Z.abs (now - Unix ts) ≤ MaxTimestampDrift).
Proof.
  intros Hp Hr. unfold ValidateTimestamp. rewrite Hp. cbv zeta.
  assert (Sub now (Unix ts) = now - Unix ts) as -> by (unfold Sub; lia).
  assert ((if now - Unix ts <? 0 then neg_duration (now - Unix ts) else now - Unix ts)
    = Z.abs (now - Unix ts)) as ->.
  { destruct (Z.ltb_spec (now - Unix ts) 0); [|lia].
    unfold neg_duration, min_int64, max_int64 in *. rewrite int64_id; unfold min_int64, max_int64; lia. }
  destruct (Z.gtb_spec (Z.abs (now - Unix ts)) MaxTimestampDrift); split; intros; try done; lia.
Qed.

(** Outside that range the check is defeated: the difference saturates at
    the smallest duration, whose negation overflows to itself and is not greater
    than the bound, so a timestamp far in the future (the year 2492, seen in
    the year 2000) is accepted as fresh. *)
Theorem ValidateTimestamp_far_future :
  ParseInt64 "16472692224" = Some 16472692224 ∧
  ValidateTimestamp (Unix 946684800) "16472692224" = Ok tt ∧
  Unix 16472692224 - Unix 946684800 > 490 * 365 * 86400 * Second.
Proof. vm_compute. repeat split. Qed.
