(* ===== verification/Regexp.v ===== *)
(** Package [regexp] as far as the program uses it.

    Patterns written by the operator are arbitrary RE2 expressions: the engine
    is the class [Regexp], and what the program relies on about the patterns it
    builds itself is the class [RegexpLaws]: anchoring a whole expression, and
    patterns made of quoted text and of runs of one negated class. An engine for
    the second kind of pattern ([simple_regexp]) satisfies the laws, and is the
    one the witnesses and examples evaluate. *)

From S2P Require Import Prelude GoStrings Json.
Local Open Scope Z_scope.

Class Regexp := {
  regexp : Type;
  (** [regexp.Compile]; [None] is an error. *)
  Compile : string → option regexp;
  (** [re.MatchString]: some substring matches. *)
  MatchString : regexp → string → bool;
  (** The whole text is a match of the expression. *)
  FullMatch : regexp → string → bool;
  (** [re.ReplaceAll(src, repl)]. *)
  ReplaceAllBytes : regexp → bytes → bytes → bytes;
}.

(** ** Quoting *)

Definition is_meta (c : ascii) : bool :=
  bool_decide (c ∈ "092"%char :: s2b ".+*?()|[]{}^$").

(** [regexp.QuoteMeta]. *)
Definition quote_meta (b : bytes) : bytes := b ≫= λ c, if is_meta c then [backslash; c] else [c].
Definition QuoteMeta (s : string) : string := b2s (quote_meta (s2b s)).

(** ** Patterns built from quoted text and runs

    [TRun true c] is [[^c]+]; [TRun false newline] is [.*]. *)
Inductive token := TText (s : string) | TRun (plus : bool) (excl : ascii).

Definition dot_star : bytes := s2b ".*".
Definition neg_plus (c : ascii) : bytes := "["%char :: "^"%char :: c :: s2b "]+".

Definition render_token (t : token) : bytes :=
  match t with
  | TText s => quote_meta (s2b s)
  | TRun plus excl => if plus then neg_plus excl else dot_star
  end.

(** The anchored pattern of a token list. *)
Definition render (ts : list token) : string := b2s ("^"%char :: (ts ≫= render_token) ++ ["$"%char]).

Definition token_ok (t : token) : bool :=
  match t with
  | TText s => ValidString s
  | TRun true c => (code c <? 128) && negb (bool_decide (c ∈ "092"%char :: s2b "]["))
  | TRun false c => bool_decide (c = newline)
  end.

(** What such a pattern matches, on the runes of the text. *)
Inductive item := ILit (r : Z) | IRun (plus : bool) (excl : Z).

Definition items_of (t : token) : list item :=
  match t with
  | TText s => ILit <$> runes s
  | TRun plus excl => [IRun plus (code excl)]
  end.

Fixpoint run_match (excl : Z) (k : list Z → bool) (rs : list Z) : bool :=
  k rs || match rs with c :: rs => negb (c =? excl) && run_match excl k rs | [] => false end.

Fixpoint items_match (l : list item) (rs : list Z) : bool :=
  match l with
  | [] => match rs with [] => true | _ => false end
  | ILit c :: l => match rs with d :: rs => (c =? d) && items_match l rs | [] => false end
  | IRun false excl :: l => run_match excl (items_match l) rs
  | IRun true excl :: l =>
    match rs with
    | c :: rs => negb (c =? excl) && run_match excl (items_match l) rs
    | [] => false
    end
  end.

Definition tokens_match (ts : list token) (s : string) : bool :=
  items_match (ts ≫= items_of) (runes s).

(** The documented behaviour relied on. *)
Class RegexpLaws `{Regexp} := {
  (** [^(?:p)$] around an expression that compiles on its own. *)
  compile_anchored p re re' :
    Compile p = Some re → Compile ("^(?:" +:+ p +:+ ")$") = Some re' →
    ∀ s, MatchString re' s = FullMatch re s;
  (** Quoted text and runs compile and match as they read. *)
  compile_render ts :
    forallb token_ok ts = true →
    ∃ re, Compile (render ts) = Some re ∧ ∀ s, MatchString re s = tokens_match ts s;
}.

(** ** Runs and literals, as sets of rune strings *)

Lemma run_match_spec excl k rs :
  run_match excl k rs = true ↔ ∃ a b, rs = a ++ b ∧ Forall (λ c, c ≠ excl) a ∧ k b = true.
Proof.
  induction rs as [|c rs IH]; simpl; rewrite orb_true_iff.
  - split.
    + intros [?|?]; [|done]. by exists [], [].
    + intros (a & b & E & _ & Hk). symmetry in E. apply app_nil in E as [-> ->]. by left.
  - rewrite andb_true_iff, negb_true_iff, Z.eqb_neq, IH. split.
    + intros [?|[Hc (a & b & -> & Ha & Hk)]]; [by exists [], (c :: rs)|].
      exists (c :: a), b. split; [done|]. by split; [constructor|].
    + intros ([|d a] & b & E & Ha & Hk); simpl in E; [left; by subst b|].
      injection E as -> ->. inversion Ha; subst. right. split; [done|]. by exists a, b.
Qed.

Lemma items_lit_app l k rs :
  items_match ((ILit <$> l) ++ k) rs = true ↔ ∃ b, rs = l ++ b ∧ items_match k b = true.
Proof.
  revert rs. induction l as [|c l IH]; intros rs; simpl.
  - split; [intros; by exists rs|]. by intros (b & -> & ?).
  - destruct rs as [|d rs].
    { split; [done|]. by intros (b & ? & _). }
    rewrite andb_true_iff, Z.eqb_eq, IH. split.
    + intros [-> (b & -> & ?)]. by exists b.
    + intros (b & E & ?). injection E as -> ->. split; [done|]. by exists b.
Qed.

Lemma items_plus excl k rs :
  items_match (IRun true excl :: k) rs = true ↔
  ∃ a b, rs = a ++ b ∧ a ≠ [] ∧ Forall (λ c, c ≠ excl) a ∧ items_match k b = true.
Proof.
  simpl. destruct rs as [|c rs].
  - split; [done|]. intros (a & b & E & Hn & _). symmetry in E. by apply app_nil in E as [-> _].
  - rewrite andb_true_iff, negb_true_iff, Z.eqb_neq, run_match_spec. split.
    + intros [Hc (a & b & -> & Ha & Hk)]. exists (c :: a), b.
      split; [done|]. split; [done|]. by split; [constructor|].
    + intros ([|d a] & b & E & Hn & Ha & Hk); [done|]. injection E as -> ->.
      inversion Ha; subst. split; [done|]. by exists a, b.
Qed.

(** ** Valid UTF-8 concatenates *)

Lemma rune_segs_fuel_enough n b : (length b ≤ n)%nat → rune_segs_fuel n b = rune_segs b.
Proof.
  unfold rune_segs. revert b. assert (∀ m n b, (length b ≤ m)%nat → (length b ≤ n)%nat →
    rune_segs_fuel m b = rune_segs_fuel n b) as H; [|intros; by apply H].
  intros m. induction m as [|m IH]; intros [|n'] [|c0 r0] Hm Hn; simpl in *; try (done || lia).
  destruct (decode_rune c0 r0) as [[r raw] rest] eqn:E.
  apply decode_rune_spec in E as (_ & _ & Hl). f_equal. apply IH; lia.
Qed.

Lemma rune_segs_cons c0 r0 :
  rune_segs (c0 :: r0) = let '(r, raw, rest) := decode_rune c0 r0 in (r, raw) :: rune_segs rest.
Proof.
  unfold rune_segs at 1. simpl. destruct (decode_rune c0 r0) as [[r raw] rest] eqn:E.
  apply decode_rune_spec in E as (_ & _ & Hl). by rewrite rune_segs_fuel_enough.
Qed.

Lemma decode_rune_ok r c0 raw k :
  seg_ok (r, c0 :: raw) = true → decode_rune c0 (raw ++ k) = (r, c0 :: raw, k).
Proof.
  unfold seg_ok; cbn [fst snd]. intros H.
  assert (∀ c, valid2 c0 c = true → 0xC2 ≤ code c0 ≤ 0xDF) as V2.
  { intros c Hc. seg_arith. }
  assert (∀ c d, valid3 c0 c d = true → 0xE0 ≤ code c0 ≤ 0xEF) as V3.
  { intros c d Hc. seg_arith. }
  assert (∀ c d e, valid4 c0 c d e = true → 0xF0 ≤ code c0 ≤ 0xF4) as V4.
  { intros c d e Hc. seg_arith. }
  destruct raw as [|c1 [|c2 [|c3 [|]]]]; [..|done]; apply andb_true_iff in H as [H1 H2];
    apply Z.eqb_eq in H2 as ->; unfold decode_rune; cbn [app].
  - assert (∀ c, valid2 c0 c = false) as E2.
    { intros c. destruct (valid2 c0 c) eqn:E; [|done]. specialize (V2 _ E). lia. }
    assert (∀ c d, valid3 c0 c d = false) as E3.
    { intros c d. destruct (valid3 c0 c d) eqn:E; [|done]. specialize (V3 _ _ E). lia. }
    assert (∀ c d e, valid4 c0 c d e = false) as E4.
    { intros c d e. destruct (valid4 c0 c d e) eqn:E; [|done]. specialize (V4 _ _ _ E). lia. }
    rewrite H1. destruct k as [|d1 [|d2 [|d3 k]]]; rewrite ?E2, ?E3, ?E4; done.
  - by rewrite H1.
  - assert (valid2 c0 c1 = false) as E2.
    { destruct (valid2 c0 c1) eqn:E; [|done]. specialize (V2 _ E). specialize (V3 _ _ H1). lia. }
    by rewrite E2, H1.
  - assert (valid2 c0 c1 = false) as E2.
    { destruct (valid2 c0 c1) eqn:E; [|done]. specialize (V2 _ E). specialize (V4 _ _ _ H1). lia. }
    assert (valid3 c0 c1 c2 = false) as E3.
    { destruct (valid3 c0 c1 c2) eqn:E; [|done]. specialize (V3 _ _ E). specialize (V4 _ _ _ H1). lia. }
    by rewrite E2, E3, H1.
Qed.

Lemma rune_segs_app a k :
  forallb seg_ok (rune_segs a) = true → rune_segs (a ++ k) = rune_segs a ++ rune_segs k.
Proof.
  intros H. rewrite <- (rune_segs_concat a) at 1. revert H. generalize (rune_segs a) as l.
  induction l as [|[r [|c0 raw]] l IH]; [done| |]; cbn [forallb]; rewrite andb_true_iff; intros [H1 H2].
  - done.
  - cbn [fmap list_fmap snd mjoin list_join app]. rewrite <- app_assoc, rune_segs_cons.
    rewrite (decode_rune_ok _ _ _ _ H1). cbn [app]. f_equal. by apply IH.
Qed.

Lemma runes_app (s t : string) : ValidString s = true → runes (s +:+ t) = runes s ++ runes t.
Proof.
  intros H. unfold runes. by rewrite s2b_app, rune_segs_app, fmap_app.
Qed.

Lemma ValidString_app s t :
  ValidString s = true → ValidString t = true → ValidString (s +:+ t) = true.
Proof.
  unfold ValidString. intros H1 H2. by rewrite s2b_app, rune_segs_app, forallb_app, H1, H2.
Qed.

(** The runes of bytes. *)
Definition brunes (b : bytes) : list Z := (rune_segs b).*1.

Lemma brunes_app a k :
  forallb seg_ok (rune_segs a) = true → brunes (a ++ k) = brunes a ++ brunes k.
Proof. intros H. unfold brunes. by rewrite rune_segs_app, fmap_app. Qed.

Lemma ascii_segs c : code c < 128 → rune_segs [c] = [(code c, [c])].
Proof. intros H. unfold rune_segs; simpl. by rewrite (proj2 (Z.ltb_lt _ _) H). Qed.

Lemma ascii_segs_app c b : code c < 128 → rune_segs (c :: b) = (code c, [c]) :: rune_segs b.
Proof.
  intros H. change (c :: b) with ([c] ++ b). rewrite rune_segs_app; rewrite ascii_segs by done; [done|].
  unfold seg_ok; simpl. rewrite (proj2 (Z.ltb_lt _ _) H), Z.eqb_refl. done.
Qed.

(** ** The engine for literal text and runs *)

Definition bs : Z := code backslash.
Definition is_meta_rune (r : Z) : bool := (r <? 128) && is_meta (byte_of r).

Fixpoint parse_items (rs : list Z) : option (list item) :=
  match rs with
  | [] => Some []
  | 92 :: c :: rs =>
    if is_meta_rune c then l ← parse_items rs; Some (ILit c :: l) else None
  | 91 :: 94 :: c :: 93 :: 43 :: rs =>
    if (c =? 92) || (c =? 93) || (c =? 91) then None
    else l ← parse_items rs; Some (IRun true c :: l)
  | 46 :: 42 :: rs => l ← parse_items rs; Some (IRun false 10 :: l)
  | c :: rs => if is_meta_rune c then None else l ← parse_items rs; Some (ILit c :: l)
  end.

(** The quoted runes of a text. *)
Definition quote_runes (rs : list Z) : list Z :=
  rs ≫= λ r, if is_meta_rune r then [bs; r] else [r].

Record simple_re := { sr_anchored : bool; sr_items : list item }.

(** [^items$] or [^(?:items)$], else the items unanchored. *)
Definition simple_compile (p : string) : option simple_re :=
  if negb (ValidString p) then None else
  match runes p with
  | 94 :: rest =>
    match reverse rest with
    | 36 :: b =>
      match parse_items (reverse b) with
      | Some l => Some {| sr_anchored := true; sr_items := l |}
      | None =>
        match reverse b with
        | 40 :: 63 :: 58 :: inner =>
          match reverse inner with
          | 41 :: c => l ← parse_items (reverse c); Some {| sr_anchored := true; sr_items := l |}
          | _ => None
          end
        | _ => None
        end
      end
    | _ => None
    end
  | rs => l ← parse_items rs; Some {| sr_anchored := false; sr_items := l |}
  end.

Definition somewhere (f : list Z → bool) (rs : list Z) : bool :=
  existsb (λ i, existsb (λ n, f (take n (drop i rs))) (seq 0 (S (length rs)))) (seq 0 (S (length rs))).

Definition simple_match (re : simple_re) (s : string) : bool :=
  if sr_anchored re then items_match (sr_items re) (runes s)
  else somewhere (items_match (sr_items re)) (runes s).

(** The longest match at the start of the text, in runes. *)
Definition longest (l : list item) (rs : list Z) : nat :=
  foldl (λ best n, if items_match l (take n rs) then n else best) 0%nat (seq 1 (length rs)).

Fixpoint simple_replace_from (fuel : nat) (l : list item) (segs : list (Z * bytes)) (repl : bytes) : bytes :=
  match fuel, segs with
  | S fuel, s :: rest =>
    match longest l segs.*1 with
    | O => s.2 ++ simple_replace_from fuel l rest repl
    | n => repl ++ simple_replace_from fuel l (drop n segs) repl
    end
  | _, _ => []
  end.

Definition simple_replace (re : simple_re) (src repl : bytes) : bytes :=
  if sr_anchored re then (if items_match (sr_items re) (brunes src) then repl else src)
  else simple_replace_from (length src) (sr_items re) (rune_segs src) repl.

Definition simple_regexp : Regexp :=
  {| regexp := simple_re; Compile := simple_compile; MatchString := simple_match;
     FullMatch re s := items_match (sr_items re) (runes s); ReplaceAllBytes := simple_replace |}.

(** ** The engine satisfies the laws *)

Lemma parse_items_plain c rs :
  is_meta_rune c = false → parse_items (c :: rs) = l ← parse_items rs; Some (ILit c :: l).
Proof.
  intros H. assert (c ≠ 92 ∧ c ≠ 91 ∧ c ≠ 46) as (H1 & H2 & H3).
  { split; [|split]; intros ->; by vm_compute in H. }
  destruct c as [|p|p]; [done| |cbn [parse_items]; by rewrite H].
  do 7 (try (destruct p as [p|p|]; [| |cbn [parse_items]; first [done|by rewrite H]])).
  all: cbn [parse_items]; by rewrite H.
Qed.

Lemma parse_items_quoted r rs :
  parse_items (bs :: r :: rs) = if is_meta_rune r then l ← parse_items rs; Some (ILit r :: l) else None.
Proof. reflexivity. Qed.

Lemma parse_quote rs k :
  parse_items (quote_runes rs ++ k) = l ← parse_items k; Some ((ILit <$> rs) ++ l).
Proof.
  induction rs as [|r rs IH]; [simpl; by destruct (parse_items k)|].
  unfold quote_runes in *. cbn [mbind list_bind]. rewrite <- app_assoc.
  destruct (is_meta_rune r) eqn:E; cbn [app].
  - rewrite parse_items_quoted, E, IH. by destruct (parse_items k).
  - rewrite parse_items_plain, IH by done. by destruct (parse_items k).
Qed.

Lemma parse_run plus c k :
  token_ok (TRun plus c) = true →
  parse_items (brunes (render_token (TRun plus c)) ++ k) =
    l ← parse_items k; Some (IRun plus (code c) :: l).
Proof.
  unfold token_ok, render_token. destruct plus.
  - rewrite andb_true_iff, negb_true_iff, Z.ltb_lt, bool_decide_eq_false. intros [Hc Hn].
    unfold neg_plus, brunes. rewrite ascii_segs_app by (vm_compute; done).
    rewrite ascii_segs_app by (vm_compute; done). rewrite ascii_segs_app by done.
    replace (rune_segs (s2b "]+")) with [(93, ["]"%char]); (43, ["+"%char])] by (vm_compute; done).
    cbn -[Z.eqb code parse_items]. change (code "["%char) with 91. change (code "^"%char) with 94.
    cbn -[Z.eqb code].
    destruct ((code c =? 92) || (code c =? 93) || (code c =? 91)) eqn:E; [|done].
    exfalso. apply Hn. rewrite !orb_true_iff, !Z.eqb_eq in E.
    destruct E as [[E|E]|E]; rewrite <- (byte_of_code c), E; by apply (bool_decide_eq_true_1 _); vm_compute.
  - rewrite bool_decide_eq_true. intros ->. done.
Qed.

Lemma seg_quote s :
  seg_ok s = true → forallb seg_ok (rune_segs (quote_meta s.2)) = true ∧
  brunes (quote_meta s.2) = (if is_meta_rune s.1 then [bs; s.1] else [s.1]).
Proof.
  destruct s as [r [|c0 [|c1 raw]]]; cbn [fst snd]; intros H; [done|..].
  - assert (code c0 < 128 ∧ r = code c0) as [Hc ->].
    { unfold seg_ok in H; simpl in H. lia. }
    unfold quote_meta, is_meta_rune. simpl. rewrite byte_of_code, (proj2 (Z.ltb_lt _ _) Hc). simpl.
    assert (seg_ok (code c0, [c0]) = true) as Hok.
    { unfold seg_ok; simpl. by rewrite (proj2 (Z.ltb_lt _ _) Hc), Z.eqb_refl. }
    destruct (is_meta c0); simpl.
    + unfold brunes. rewrite !ascii_segs_app by (done || (vm_compute; done)). cbn [forallb fmap list_fmap fst].
      rewrite (proj2 (Z.ltb_lt _ _) Hc), Hok. done.
    + unfold brunes. rewrite ascii_segs by done. cbn [forallb]. by rewrite ?(proj2 (Z.ltb_lt _ _) Hc), Hok.
  - pose proof (seg_ok_multi _ _ _ _ H) as H0.
    assert (Forall (λ c, 0x80 ≤ code c) (c0 :: c1 :: raw)) as HF.
    { unfold seg_ok in H; cbn [fst snd] in H.
      destruct raw as [|c2 [|c3 [|]]]; try done; repeat constructor; seg_arith. }
    assert (quote_meta (c0 :: c1 :: raw) = c0 :: c1 :: raw) as ->.
    { clear H H0. unfold quote_meta. induction HF as [|c l Hc HF IH]; [done|].
      change ((if is_meta c then [backslash; c] else [c])
        ++ (l ≫= λ c, if is_meta c then [backslash; c] else [c]) = c :: l). rewrite IH.
      destruct (is_meta c) eqn:E; [|done]. exfalso. revert c Hc E. clear.
      assert (forallb (λ c, negb (is_meta c && (128 <=? code c))) all_ascii = true) as H by (vm_compute; done).
      intros c Hc E. pose proof (forallb_ascii _ H c) as Hx. simpl in Hx. rewrite E in Hx. simpl in Hx. lia. }
    pose proof (decode_rune_ok r c0 (c1 :: raw) [] H) as Hd. rewrite app_nil_r in Hd.
    unfold brunes. rewrite rune_segs_cons, Hd. split; [by cbn [forallb]; rewrite H|].
    unfold is_meta_rune. destruct (Z.ltb_spec r 128) as [Hr|]; [|done]. exfalso.
    unfold seg_ok in H; cbn [fst snd] in H.
    unfold rune2, rune3, rune4 in *.
    destruct raw as [|c2 [|c3 [|]]]; try done; seg_arith.
Qed.

Lemma quote_meta_app a b : quote_meta (a ++ b) = quote_meta a ++ quote_meta b.
Proof. unfold quote_meta. apply bind_app. Qed.

Lemma brunes_quote b :
  forallb seg_ok (rune_segs b) = true →
  forallb seg_ok (rune_segs (quote_meta b)) = true ∧ brunes (quote_meta b) = quote_runes (brunes b).
Proof.
  intros H. unfold brunes at 2. rewrite <- (rune_segs_concat b) at 1 2. revert H.
  generalize (rune_segs b) as l. induction l as [|s l IH]; [done|].
  cbn [forallb]; rewrite andb_true_iff; intros [H1 H2]. destruct (IH H2) as [IH1 IH2].
  destruct (seg_quote s H1) as [Q1 Q2].
  change (mjoin (s :: l).*2) with (s.2 ++ mjoin l.*2).
  change ((s :: l).*1) with (s.1 :: l.*1). change (quote_runes (s.1 :: l.*1)) with
    ((if is_meta_rune s.1 then [bs; s.1] else [s.1]) ++ quote_runes l.*1).
  rewrite quote_meta_app, rune_segs_app, forallb_app, brunes_app by done.
  rewrite Q1, IH1, Q2, IH2. done.
Qed.

Lemma render_tokens_parse ts k :
  forallb token_ok ts = true →
  forallb seg_ok (rune_segs (ts ≫= render_token)) = true ∧
  parse_items (brunes (ts ≫= render_token) ++ k) = l ← parse_items k; Some ((ts ≫= items_of) ++ l).
Proof.
  induction ts as [|t ts IH]; [intros _; split; [done|]; simpl; by destruct (parse_items k)|].
  cbn [forallb]; rewrite andb_true_iff; intros [Ht Hts]. destruct (IH Hts) as [IH1 IH2].
  change ((t :: ts) ≫= render_token) with (render_token t ++ (ts ≫= render_token)).
  change ((t :: ts) ≫= items_of) with (items_of t ++ (ts ≫= items_of)).
  assert (forallb seg_ok (rune_segs (render_token t)) = true) as Hr.
  { destruct t as [s|[] c].
    - by apply brunes_quote.
    - unfold token_ok in Ht. apply andb_true_iff in Ht as [Hc%Z.ltb_lt _].
      cbn [render_token]. unfold neg_plus.
      rewrite !ascii_segs_app by (done || (vm_compute; done)).
      cbn [forallb]. unfold seg_ok at 3; cbn [fst snd]. rewrite (proj2 (Z.ltb_lt _ _) Hc), Z.eqb_refl. done.
    - done. }
  rewrite rune_segs_app, forallb_app, Hr, IH1 by done. split; [done|].
  rewrite brunes_app, <- app_assoc by done. destruct t as [s|plus c].
  - cbn [render_token items_of]. destruct (brunes_quote (s2b s) Ht) as [_ ->].
    rewrite parse_quote, IH2. destruct (parse_items k); simpl; [|done]. by rewrite <- app_assoc.
  - rewrite parse_run, IH2 by done. by destruct (parse_items k).
Qed.

Lemma simple_compile_spec p re :
  simple_compile p = Some re → ValidString p = true ∧
  (∀ l, parse_items (runes p) = Some l → sr_items re = l).
Proof.
  unfold simple_compile. destruct (ValidString p); [|done]. cbn [negb]. intros H. split; [done|].
  intros l Hl.
  assert ((∃ rest, runes p = 94 :: rest) ∨
    (l' ← parse_items (runes p); Some {| sr_anchored := false; sr_items := l' |}) = Some re) as [[rest E]|E].
  - destruct (runes p) as [|c rest]; [by right|].
    destruct (Z.eq_dec c 94) as [->|Hc]; [left; by eexists|right].
    destruct c as [|q|q]; try done.
    do 7 (try (destruct q as [q|q|]; [| |done])); done.
  - by rewrite E in Hl.
  - rewrite Hl in E. by injection E as <-.
Qed.

#[export] Instance simple_laws : @RegexpLaws simple_regexp.
Proof.
  constructor; simpl.
  - intros p re re' H1 H2 s. apply simple_compile_spec in H1 as [Hv H1].
    unfold simple_compile in H2. destruct (ValidString _) eqn:Hv2 in H2; [|done]. cbn [negb] in H2.
    rewrite !runes_app in H2 by done. change (runes "^(?:") with [94; 40; 63; 58] in H2.
    change (runes ")$") with [41; 36] in H2. cbn [app] in H2.
    change (40 :: 63 :: 58 :: runes p ++ [41; 36])
      with ((40 :: 63 :: 58 :: runes p) ++ [41; 36]) in H2.
    rewrite reverse_app in H2. change (reverse [41; 36]) with [36; 41] in H2.
    cbn [app] in H2. change (41 :: reverse (40 :: 63 :: 58 :: runes p))
      with (reverse [41] ++ reverse (40 :: 63 :: 58 :: runes p)) in H2.
    rewrite <- reverse_app, reverse_involutive in H2. cbn [app] in H2.
    change (parse_items (40 :: 63 :: 58 :: runes p ++ [41])) with (@None (list item)) in H2.
    cbn beta iota in H2. rewrite reverse_app in H2. change (reverse [41]) with [41] in H2.
    cbn [app] in H2. rewrite reverse_involutive in H2.
    destruct (parse_items (runes p)) as [l|]; [|done]. injection H2 as <-.
    unfold simple_match; simpl. by rewrite (H1 l).
  - intros ts Hts. destruct (render_tokens_parse ts [] Hts) as [Hv Hp].
    set (body := ts ≫= render_token) in *. rewrite app_nil_r in Hp.
    assert (s2b (render ts) = "^"%char :: body ++ ["$"%char]) as Hb by apply s2b_b2s.
    assert (ValidString (render ts) = true) as Hv'.
    { unfold ValidString. rewrite Hb, ascii_segs_app by (vm_compute; done).
      rewrite rune_segs_app by done. cbn [forallb]. by rewrite forallb_app, Hv. }
    assert (runes (render ts) = 94 :: brunes body ++ [36]) as Hr.
    { unfold runes. rewrite Hb, ascii_segs_app by (vm_compute; done).
      rewrite rune_segs_app by done. cbn [fmap list_fmap fst]. by rewrite fmap_app. }
    exists {| sr_anchored := true; sr_items := ts ≫= items_of |}. split.
    + unfold simple_compile. rewrite Hv', Hr. cbn [negb]. rewrite reverse_app.
      change (reverse [36]) with [36]. cbn [app]. rewrite reverse_involutive, Hp.
      change (parse_items []) with (Some ([] : list item)). cbn [mbind option_bind].
      by rewrite app_nil_r.
    + done.
Qed.

(** Exact text, and one run before a text. *)
Lemma tokens_text t s : tokens_match [TText t] s = true ↔ runes s = runes t.
Proof.
  unfold tokens_match. cbn [mbind list_bind items_of]. rewrite items_lit_app. split.
  - intros (b & -> & Hb). destruct b; [|done]. by rewrite app_nil_r.
  - intros ->. exists []. by rewrite app_nil_r.
Qed.

Lemma tokens_run_text c t s :
  tokens_match [TRun true c; TText t] s = true ↔
  ∃ a, runes s = a ++ runes t ∧ a ≠ [] ∧ Forall (λ r, r ≠ code c) a.
Proof.
  unfold tokens_match. cbn [mbind list_bind]. cbn [items_of app]. rewrite items_plus. split.
  - intros (a & b & -> & Hn & Ha & Hb). apply items_lit_app in Hb as (b' & -> & Hb).
    destruct b'; [|done]. exists a. by rewrite app_nil_r.
  - intros (a & -> & Hn & Ha). exists a, (runes t). split; [done|]. split; [done|].
    split; [done|]. apply items_lit_app. exists []. by rewrite app_nil_r.
Qed.
