(* ===== verification/ConfigTypes.v ===== *)
(** Package [internal/config], the data of [config.go]: the records a
    configuration file is read into, with the fields [Validate] compiles.

    A pointer is an [option]; a slice is a list, [None] for the nil slice where
    nil and empty differ ([RequestEnv]). *)

From S2P Require Import Prelude GoTime Regexp.
Local Open Scope Z_scope.

Record ProxyConfig := {
  px_Timeout : string;
  px_InlineThreshold : string;
  px_HMACSecretFile : string;
  px_PassBinary : string;
  px_OPBinary : string;
  px_OPTokenFile : string;
  px_BWBinary : string;
  px_AgeIdentityFile : string;
  px_MaxConnections : Z;
  px_ReadHeaderTimeout : string;
  px_ReadMessageTimeout : string;
  px_MaxStdinMessageSize : string;
  px_MaxOutputSize : string;
  px_WriteTimeout : string;
  px_MaxConnectionLifetime : string;
  px_ReplayCacheTTL : string;
  px_ReplayCacheMax : Z;
  px_CredentialCacheTTL : string;
  px_VaultBinary : string;
  px_VaultAddr : string;
  px_VaultSkipVerify : option bool;
  px_VaultCACert : string;
  px_VaultNamespace : string;
  px_VaultTokenFile : string;
}.

Record SecurityConfig := { sc_DenyUnverifiedCallerExe : bool }.

Record CAConfig := {
  ca_Path : string;
  ca_CertFile : string;
  ca_KeyFile : string;
  ca_External : bool;
  ca_ValidityDays : Z;
  ca_Organization : string;
}.

Record InjectSpec := { is_Header : string; is_Value : string }.

Record AuditConfig := {
  au_Enabled : bool;
  au_File : string;
  au_Stdout : bool;
  au_IncludeArgs : option bool;
  au_IncludeOutputHash : option bool;
  au_IncludeDuration : option bool;
  au_Syslog : bool;
  au_SyslogFacility : string;
}.

Record CredentialDef := {
  cd_Source : string;
  cd_Type : string;
  cd_AppID : Z;
  cd_InstallationID : Z;
  cd_PrivateKey : string;
  cd_APIURL : string;
  cd_Permissions : gmap string string;
  cd_Repositories : list string;
}.

Record ConfigFileDef := {
  cf_XDGSubdir : string;
  cf_Filename : string;
  cf_Template : string;
  cf_Credentials : list string;
}.

Section with_regexp.
Context `{Regexp}.

Record PathRule := { rule_Method : string; rule_Pattern : regexp }.

Record ProxyRoute := {
  rt_Host : string;
  rt_Inject : InjectSpec;
  rt_Allow : list string;
  rt_Deny : list string;
  rt_HostRegex : option regexp;
  rt_AllowRules : list PathRule;
  rt_DenyRules : list PathRule;
}.

Record HTTPProxyConfig := {
  hp_Enabled : bool;
  hp_Listen : string;
  hp_RequireAuth : option bool;
  hp_LogLevel : string;
  hp_CA : CAConfig;
  hp_StripResponseHeaders : list string;
  hp_Routes : list ProxyRoute;
}.

Record ToolRedactRule := {
  rr_Pattern : string;
  rr_Replace : string;
  rr_Compiled : option regexp;
}.

Record BlockedArg := {
  ba_Pattern : string;
  ba_Message : string;
  ba_Match : string;
  ba_Argv : list string;
  ba_Compiled : option regexp;
  ba_CompiledArgv : list regexp;
}.

Record ToolDef := {
  td_Binary : string;
  td_Timeout : string;
  td_Env : gmap string string;
  td_ForcedEnv : gmap string string;
  td_Mode : string;
  td_BlockedArgs : list BlockedArg;
  td_AllowedArgs : list BlockedArg;
  td_RedactOutput : list ToolRedactRule;
  td_ConfigFile : option ConfigFileDef;
  td_UseProxy : bool;
  td_UsePTY : option bool;
  td_UseStdin : option bool;
  td_WorkingDir : string;
  td_RequestEnv : option (list string);
}.

Record Config := {
  cfg_Proxy : option ProxyConfig;
  cfg_Security : option SecurityConfig;
  cfg_HTTPProxy : option HTTPProxyConfig;
  cfg_Audit : option AuditConfig;
  cfg_Credentials : gmap string CredentialDef;
  cfg_Tools : gmap string ToolDef;
}.
End with_regexp.

Definition BlockedArgMatchArg := "arg".
Definition BlockedArgMatchCommand := "command".
Definition BlockedArgMatchArgv := "argv".
Definition ToolModeBlocklist := "blocklist".
Definition ToolModeAllowlist := "allowlist".
Definition DefaultRedactReplacement := "[REDACTED]".
Definition maxRedactOutputRulesPerTool : Z := 64.
Definition maxRedactPatternLength : Z := 1024.
Definition maxRedactReplaceLength : Z := 256.
