(* ===== verification/GoNet.v ===== *)
(** The parts of Go's [net], [net/http] and [net/url] packages the HTTP proxy
    calls: IP addresses and networks, host and port, header maps.

    Addresses are parsed and compared as the library does it: an IPv4 address
    and the IPv4-mapped IPv6 address are the same. [url.Parse] of an authority
    is the parameter [UrlHostname]. *)

From S2P Require Import Prelude GoStrings.
Local Open Scope Z_scope.

(** ** Addresses: a [net.IP] is its 16 bytes *)

Definition IP := list Z.

Definition v4_prefix : list Z := [0;0;0;0;0;0;0;0;0;0;0xFF;0xFF].

(** [net.IPv4(a, b, c, d)]. *)
Definition IPv4 (a b c d : Z) : IP := v4_prefix ++ [a; b; c; d].

(** [ip.To4()]. *)
Definition To4 (ip : IP) : option (list Z) :=
  if bool_decide (take 12 ip = v4_prefix) && bool_decide (length ip = 16%nat) then Some (drop 12 ip) else None.

(** A network: the bytes of its address (4 or 16) and the length of its prefix. *)
Record IPNet := { n_IP : list Z; n_ones : Z }.

(** Byte [i] of a mask of [ones] leading one bits ([net.CIDRMask]). *)
Definition mask_byte (ones i : Z) : Z := Z.shiftl 255 (8 - Z.max 0 (Z.min 8 (ones - 8 * i))) mod 256.

Fixpoint masked_equal (ones i : Z) (a b : list Z) : bool :=
  match a, b with
  | x :: a, y :: b =>
    (Z.land x (mask_byte ones i) =? Z.land y (mask_byte ones i)) && masked_equal ones (i + 1) a b
  | _, _ => true
  end.

(** [n.Contains(ip)]. *)
Definition IPNet_Contains (n : IPNet) (ip : IP) : bool :=
  let l := default ip (To4 ip) in
  bool_decide (length l = length (n_IP n)) && masked_equal (n_ones n) 0 (n_IP n) l.

(** [netip.parseIPv4Fields]: four decimal numbers up to 255 without leading
    zeros, separated by dots. *)
Definition ipv4_field (b : bytes) : option Z :=
  match b with
  | [] => None
  | c :: rest =>
    if bool_decide (c = "0"%char) && negb (bool_decide (rest = [])) then None
    else match digits_val 10 0 b with Some v => if v <=? 255 then Some v else None | None => None end
  end.

Definition parseIPv4 (b : bytes) : option (list Z) :=
  match split_char "."%char b with
  | [a; b; c; d] =>
    a ← ipv4_field a; b ← ipv4_field b; c ← ipv4_field c; d ← ipv4_field d; Some [a; b; c; d]
  | _ => None
  end.

Definition hex_digit (c : ascii) : option Z :=
  let z := code c in
  if in_rng 48 57 z then Some (z - 48) else if in_rng 97 102 z then Some (z - 87)
  else if in_rng 65 70 z then Some (z - 55) else None.

(** The hexadecimal digits at the start of a text, at most four. *)
Fixpoint hex_span (n : nat) (acc : Z) (b : bytes) : option (Z * nat * bytes) :=
  match b with
  | c :: b' =>
    match hex_digit c with
    | Some d =>
      match n with
      | O => None
      | S n => '(v, k, r) ← hex_span n (acc * 16 + d) b'; Some (v, S k, r)
      end
    | None => Some (acc, O, b)
    end
  | [] => Some (acc, O, [])
  end.

(** The loop of [netip.parseIPv6]: the bytes so far, where the ellipsis is, the
    rest of the text. Each round consumes a field, eight fields are enough fuel. *)
Fixpoint ipv6_loop (fuel : nat) (out : list Z) (ellipsis : option nat) (s : bytes)
    : option (list Z * option nat * bytes) :=
  match fuel with
  | O => Some (out, ellipsis, s)
  | S fuel =>
    '(acc, off, r) ← hex_span 4 0 s;
    match off with
    | O => None
    | _ =>
      match r with
      | "."%char :: _ =>
        if bool_decide (ellipsis = None) && negb (bool_decide (length out = 12%nat)) then None
        else if (12 <? Z.of_nat (length out)) then None
        else v4 ← parseIPv4 s; Some (out ++ v4, ellipsis, [])
      | _ =>
        let out := out ++ [acc / 256; acc mod 256] in
        match r with
        | [] => Some (out, ellipsis, [])
        | ":"%char :: r =>
          match r with
          | [] => None
          | ":"%char :: r' =>
            match ellipsis with
            | Some _ => None
            | None =>
              match r' with
              | [] => Some (out, Some (length out), [])
              | _ => ipv6_loop fuel out (Some (length out)) r'
              end
            end
          | _ => ipv6_loop fuel out ellipsis r
          end
        | _ => None
        end
      end
    end
  end.

Definition parseIPv6 (b : bytes) : option IP :=
  let '(ellipsis, s) :=
    match b with
    | ":"%char :: ":"%char :: s => (Some O, s)
    | _ => (None, b)
    end in
  match ellipsis, s with
  | Some _, [] => Some (repeat 0 16)
  | _, _ =>
    '(out, ellipsis, s) ← ipv6_loop 8 [] ellipsis s;
    if negb (bool_decide (s = [])) then None
    else if bool_decide (length out = 16%nat) then
      match ellipsis with Some _ => None | None => Some out end
    else
      e ← ellipsis; Some (take e out ++ repeat 0 (16 - length out) ++ drop e out)
  end.

(** [net.ParseIP]: an address with a zone is refused. *)
Definition ParseIP (s : string) : option IP :=
  let b := s2b s in
  match List.find (λ c, bool_decide (c = "."%char) || bool_decide (c = ":"%char) || bool_decide (c = "%"%char)) b with
  | Some "."%char => v4 ← parseIPv4 b; Some (v4_prefix ++ v4)
  | Some ":"%char => if bool_decide ("%"%char ∈ b) then None else parseIPv6 b
  | _ => None
  end.

Example ParseIP_v4 : ParseIP "192.168.0.1" = Some (IPv4 192 168 0 1).
Proof. vm_compute. reflexivity. Qed.
Example ParseIP_mapped : ParseIP "::ffff:10.0.0.1" = Some (IPv4 10 0 0 1).
Proof. vm_compute. reflexivity. Qed.
Example ParseIP_v6 : ParseIP "fe80::1:2" = Some [0xfe;0x80;0;0;0;0;0;0;0;0;0;0;0;1;0;2].
Proof. vm_compute. reflexivity. Qed.
Example ParseIP_bad : ParseIP "010.0.0.1" = None ∧ ParseIP "1.2.3" = None ∧ ParseIP "::1%lo" = None ∧
  ParseIP "1::2::3" = None ∧ ParseIP "::12345" = None ∧ ParseIP "1:2:3:4:5:6:7:8:9" = None ∧
  ParseIP "1:2:3:4:5:6:7::8" = None.
Proof. vm_compute. done. Qed.

(** ** Host and port *)

Fixpoint last_index (c : ascii) (b : bytes) : option nat :=
  match b with
  | [] => None
  | d :: b =>
    match last_index c b with
    | Some i => Some (S i)
    | None => if bool_decide (c = d) then Some O else None
    end
  end.

Definition addr_error : error := Sentinel "net.AddrError".

(** [net.SplitHostPort]. *)
Definition SplitHostPort (hostport : string) : result (string * string) :=
  let b := s2b hostport in
  match last_index ":"%char b with
  | None => Err addr_error
  | Some i =>
    let port := drop (S i) b in
    match b with
    | "["%char :: _ =>
      match index_of b ["]"%char] with
      | None => Err addr_error
      | Some e =>
        if bool_decide (S e = i)
           && negb (bool_decide ("["%char ∈ drop 1 b)) && negb (bool_decide ("]"%char ∈ drop (S e) b))
        then Ok (b2s (take (e - 1) (drop 1 b)), b2s port)
        else Err addr_error
      end
    | _ =>
      let host := take i b in
      if bool_decide (":"%char ∈ host) || bool_decide ("["%char ∈ b) || bool_decide ("]"%char ∈ b)
      then Err addr_error
      else Ok (b2s host, b2s port)
    end
  end.

Example SplitHostPort_examples :
  SplitHostPort "127.0.0.1:8080" = Ok ("127.0.0.1", "8080") ∧ SplitHostPort "[::1]:80" = Ok ("::1", "80") ∧
  SplitHostPort "::1:80" = Err addr_error ∧ SplitHostPort "localhost" = Err addr_error ∧
  SplitHostPort ":80" = Ok ("", "80") ∧ SplitHostPort "[::1]" = Err addr_error.
Proof. vm_compute. done. Qed.

(** [(url.Parse("//" + authority)).Hostname()]; [None] is a parse error. *)
Class UrlHostname := { url_hostname : string → option string }.

(** ** Header maps *)

Definition is_token_char (c : ascii) : bool :=
  let z := code c in
  in_rng 97 122 z || in_rng 65 90 z || in_rng 48 57 z || bool_decide (c ∈ s2b "!#$%&'*+-.^_`|~").

Fixpoint canon_from (upper : bool) (b : bytes) : bytes :=
  match b with
  | [] => []
  | c :: b =>
    byte_of ((if upper then upper_ascii else lower_ascii) (code c)) :: canon_from (bool_decide (c = "-"%char)) b
  end.

(** [textproto.CanonicalMIMEHeaderKey]. *)
Definition CanonicalHeaderKey (s : string) : string :=
  if forallb is_token_char (s2b s) then b2s (canon_from true (s2b s)) else s.

Abbreviation Header := (gmap string (list string)).

Definition Header_Get (h : Header) (key : string) : string :=
  match h !! CanonicalHeaderKey key with Some (v :: _) => v | _ => "" end.
Definition Header_Set (h : Header) (key value : string) : Header := <[CanonicalHeaderKey key := [value]]> h.
Definition Header_Del (h : Header) (key : string) : Header := delete (CanonicalHeaderKey key) h.

Example CanonicalHeaderKey_examples :
  CanonicalHeaderKey "proxy-authorization" = "Proxy-Authorization" ∧
  CanonicalHeaderKey "X-GITHUB-api" = "X-Github-Api" ∧ CanonicalHeaderKey "a b" = "a b".
Proof. vm_compute. done. Qed.

Lemma Header_Get_Set h k v k' :
  Header_Get (Header_Set h k v) k' =
    if bool_decide (CanonicalHeaderKey k = CanonicalHeaderKey k') then v else Header_Get h k'.
Proof.
  unfold Header_Get, Header_Set. destruct (bool_decide_reflect (CanonicalHeaderKey k = CanonicalHeaderKey k')) as [->|H].
  - by rewrite lookup_insert_eq.
  - by rewrite lookup_insert_ne.
Qed.

Lemma Header_Get_Del h k k' :
  Header_Get (Header_Del h k) k' =
    if bool_decide (CanonicalHeaderKey k = CanonicalHeaderKey k') then "" else Header_Get h k'.
Proof.
  unfold Header_Get, Header_Del. destruct (bool_decide_reflect (CanonicalHeaderKey k = CanonicalHeaderKey k')) as [->|H].
  - by rewrite lookup_delete_eq.
  - by rewrite lookup_delete_ne.
Qed.
