(* ===== verification/GoPath.v ===== *)
(** Package [path/filepath] on Unix, as far as the program uses it: [Clean] is
    given by what it does to the components of a path. *)

From S2P Require Import Prelude GoStrings.
Local Open Scope Z_scope.

Definition slash : ascii := "/"%char.
Definition dot : bytes := s2b ".".
Definition dotdot : bytes := s2b "..".

Definition is_abs (p : bytes) : bool := has_prefix p [slash].
Definition IsAbs (p : string) : bool := is_abs (s2b p).

(** One component pushed on the reversed stack of the components kept. *)
Definition clean_step (rooted : bool) (st : list bytes) (c : bytes) : list bytes :=
  if bool_decide (c = []) || bool_decide (c = dot) then st
  else if bool_decide (c = dotdot) then
    match st with
    | top :: st' => if bool_decide (top = dotdot) then dotdot :: st else st'
    | [] => if rooted then [] else [dotdot]
    end
  else c :: st.

Fixpoint join_comps (cs : list bytes) : bytes :=
  match cs with
  | [] => []
  | [c] => c
  | c :: cs => c ++ slash :: join_comps cs
  end.

Definition clean_comps (rooted : bool) (p : bytes) : list bytes :=
  reverse (foldl (clean_step rooted) [] (split_char slash p)).

Definition clean (p : bytes) : bytes :=
  match p with
  | [] => dot
  | _ =>
    let rooted := is_abs p in
    let out := clean_comps rooted p in
    if rooted then slash :: join_comps out
    else match out with [] => dot | _ => join_comps out end
  end.
Definition Clean (p : string) : string := b2s (clean (s2b p)).

(** [filepath.Join]: empty elements before the first non-empty one are ignored. *)
Definition PathJoin (elems : list string) : string :=
  match drop_while (λ e, bool_decide (e = "")) elems with
  | [] => ""
  | elems => Clean (Join elems "/")
  end.

(** The last component, of a path without its trailing slashes. *)
Definition Base (p : string) : string :=
  match s2b p with
  | [] => "."
  | b =>
    match drop_while_end (λ c, bool_decide (c = slash)) b with
    | [] => "/"
    | b => match last (split_char slash b) with Some c => b2s c | None => "" end
    end
  end.

(** [filepath.Dir]: what precedes the last slash, cleaned. *)
Definition Dir (p : string) : string :=
  let cs := split_char slash (s2b p) in
  Clean (b2s (match removelast cs with
              | [] => []
              | init => join_comps init ++ [slash]
              end)).

(** ** Lemmas *)

Lemma split_char_app_sep c a b : c ∉ a → split_char c (a ++ c :: b) = a :: split_char c b.
Proof.
  induction a as [|d a IH]; intros Hn; simpl.
  - by rewrite bool_decide_eq_true_2.
  - rewrite not_elem_of_cons in Hn. destruct Hn as [H1 H2].
    rewrite bool_decide_eq_false_2, (IH H2) by done. done.
Qed.

Lemma split_char_none c a : c ∉ a → split_char c a = [a].
Proof.
  induction a as [|d a IH]; intros Hn; simpl; [done|].
  rewrite not_elem_of_cons in Hn. destruct Hn as [H1 H2].
  by rewrite bool_decide_eq_false_2, (IH H2).
Qed.

Lemma split_join_comps cs :
  cs ≠ [] → Forall (λ w, slash ∉ w) cs → split_char slash (join_comps cs) = cs.
Proof.
  intros Hn HF. induction HF as [|c cs Hc HF IH]; [done|].
  destruct cs as [|d cs]; [by apply split_char_none|].
  change (join_comps (c :: d :: cs)) with (c ++ slash :: join_comps (d :: cs)).
  by rewrite split_char_app_sep, IH.
Qed.

Lemma join_split_comps b : join_comps (split_char slash b) = b.
Proof.
  induction b as [|c b IH]; [done|]. simpl. case_bool_decide as E.
  - subst c. pose proof (split_char_not_nil slash b) as Hn.
    destruct (split_char slash b) as [|w ws]; [done|]. simpl in *. by rewrite IH.
  - pose proof (split_char_not_nil slash b) as Hn.
    destruct (split_char slash b) as [|w ws] eqn:Es; [done|].
    rewrite <- IH. destruct ws; simpl; done.
Qed.

(** A component that stays in a cleaned path. *)
Definition plain_comp (c : bytes) : Prop := c ≠ [] ∧ c ≠ dot ∧ c ≠ dotdot.

Lemma foldl_clean_plain rooted st cs :
  Forall plain_comp cs → foldl (clean_step rooted) st cs = reverse cs ++ st.
Proof.
  intros HF. revert st. induction HF as [|c cs (H1 & H2 & H3) HF IH]; intros st; [done|].
  cbn [foldl]. unfold clean_step at 2. rewrite !bool_decide_eq_false_2 by done. simpl.
  rewrite IH, reverse_cons. by rewrite <- app_assoc.
Qed.

Lemma join_comps_app cs ds :
  cs ≠ [] → ds ≠ [] → join_comps (cs ++ ds) = join_comps cs ++ slash :: join_comps ds.
Proof.
  intros Hc Hd. induction cs as [|c cs IH]; [done|]. destruct cs as [|c' cs].
  - simpl. destruct ds; [done|]. by simpl.
  - change (join_comps ((c :: c' :: cs) ++ ds)) with (c ++ slash :: join_comps ((c' :: cs) ++ ds)).
    rewrite IH by done. change (join_comps (c :: c' :: cs)) with (c ++ slash :: join_comps (c' :: cs)).
    by rewrite <- app_assoc.
Qed.

(** A relative path of plain components is clean, and joining it to an absolute
    directory of plain components appends it. *)
Lemma clean_relative p :
  p ≠ [] → Forall plain_comp (split_char slash p) → clean p = p.
Proof.
  intros Hn HF. unfold clean. destruct p as [|c p'] eqn:Ep; [done|]. rewrite <- Ep in *.
  assert (is_abs p = false) as Ha.
  { destruct (is_abs p) eqn:E; [|done]. unfold is_abs in E. apply has_prefix_spec in E as [k Hk].
    rewrite Hk in HF. simpl in HF. inversion HF as [|? ? (? & _) _]; subst. done. }
  rewrite Ha. unfold clean_comps. rewrite foldl_clean_plain by done.
  rewrite app_nil_r, reverse_involutive.
  destruct (split_char slash p) as [|w ws] eqn:Es; [by destruct (split_char_not_nil slash p)|].
  by rewrite <- Es, join_split_comps.
Qed.

Lemma clean_join_under dir p :
  dir ≠ [] → Forall (λ w, slash ∉ w) dir → Forall plain_comp dir →
  Forall plain_comp (split_char slash p) →
  clean ((slash :: join_comps dir) ++ slash :: p) = (slash :: join_comps dir) ++ slash :: p.
Proof.
  intros Hd Hds Hdp Hp. unfold clean. cbn [app is_abs has_prefix].
  rewrite bool_decide_eq_true_2 by done. cbn [andb]. unfold clean_comps.
  assert (split_char slash (slash :: join_comps dir ++ slash :: p) = [] :: dir ++ split_char slash p) as ->.
  { change (slash :: join_comps dir ++ slash :: p) with ([] ++ slash :: (join_comps dir ++ slash :: p)).
    rewrite split_char_app_sep by apply not_elem_of_nil. f_equal.
    rewrite <- (join_split_comps p) at 1.
    rewrite <- join_comps_app; [|done|apply split_char_not_nil].
    apply split_join_comps; [by destruct dir|]. apply Forall_app. split; [done|].
    apply split_char_no_sep. }
  cbn [foldl]. unfold clean_step at 2. rewrite bool_decide_eq_true_2 by done. cbn [orb].
  rewrite foldl_clean_plain by (by apply Forall_app).
  rewrite app_nil_r, reverse_involutive, join_comps_app; [|done|apply split_char_not_nil].
  by rewrite join_split_comps.
Qed.

(** An absolute path given by its components. *)
Definition root_path (comps : list bytes) : string := b2s (slash :: join_comps comps).
Definition good_comps (comps : list bytes) : Prop :=
  comps ≠ [] ∧ Forall (λ w, slash ∉ w) comps ∧ Forall plain_comp comps.

Lemma PathJoin_under dir value :
  good_comps dir → Forall plain_comp (split_char slash (s2b value)) →
  PathJoin [root_path dir; value] = root_path dir +:+ "/" +:+ value.
Proof.
  intros (Hd & Hds & Hdp) Hp. unfold PathJoin. cbn [drop_while]. rewrite bool_decide_eq_false_2.
  2: { unfold root_path. intros E. apply (f_equal s2b) in E. by rewrite s2b_b2s in E. }
  cbn [Join]. unfold Clean. apply (inj s2b). rewrite s2b_b2s, !s2b_app. unfold root_path. rewrite s2b_b2s.
  change (s2b "/" ++ s2b value) with (slash :: s2b value). by apply clean_join_under.
Qed.

Lemma root_path_app dir value :
  dir ≠ [] → root_path dir +:+ "/" +:+ value = root_path (dir ++ split_char slash (s2b value)).
Proof.
  intros Hd. unfold root_path. apply (inj s2b). rewrite !s2b_app, !s2b_b2s.
  rewrite join_comps_app by (done || apply split_char_not_nil). by rewrite join_split_comps.
Qed.
