(* ===== verification/Paths.v ===== *)
(** Package [internal/paths]: default locations. The platform, the environment and
    the file system the functions consult are the class [OS]. *)

From S2P Require Import Prelude GoStrings GoPath.
Local Open Scope Z_scope.

Class OS := {
  (** [runtime.GOOS == "darwin"] *)
  os_darwin : bool;
  (** the environment of the process *)
  os_env : gmap string string;
  os_TempDir : string;
  (** [os.UserHomeDir()] *)
  os_home : option string;
  (** [os.Stat] finds a file that is not a directory and has an executable bit *)
  os_executable : string → bool;
}.

Section paths.
Context `{OS}.

(** [os.Getenv]: the empty string for an unset variable. *)
Definition Getenv (name : string) : string := default "" (os_env !! name).

Definition RuntimeDirEnv := "CLAW_WRAP_RUNTIME_DIR".

Definition defaultRuntimeDir : string :=
  if os_darwin then PathJoin [os_TempDir; "openclaw"] else "/run/openclaw".

Definition RuntimeDir : string :=
  let dir := Getenv RuntimeDirEnv in
  if negb (bool_decide (dir = "")) && IsAbs dir then Clean dir else defaultRuntimeDir.

Definition ValidateRuntimeDirEnv : result unit :=
  let dir := Getenv RuntimeDirEnv in
  guard_err (negb (bool_decide (dir = "")) && negb (IsAbs dir))
    (Errorf "%s must be an absolute path, got %q" [FS RuntimeDirEnv; FS dir]).

Definition SocketPath : string := PathJoin [RuntimeDir; "secrets.sock"].
Definition AuthPath : string := PathJoin [RuntimeDir; "auth"].
Definition EnvFile : string := PathJoin [defaultRuntimeDir; "env"].
Definition ProxyAuthTokenPath : string := PathJoin [RuntimeDir; "proxy-auth-token"].
Definition ConfigPath : string := "/etc/openclaw/wrappers.yaml".
Definition RestartHint : string :=
  if os_darwin then "launchctl kickstart -k gui/$(id -u)/com.openclaw.claw-wrap"
  else "sudo systemctl restart claw-wrap".
Definition DefaultAgeIdentityFile : string := "/etc/openclaw/age-identity".
Definition DefaultOPTokenFile : string := "/etc/openclaw/1password.token".

Definition CADir : string :=
  if os_darwin then
    match os_home with
    | None => "/tmp/claw-wrap/ca"
    | Some home => PathJoin [home; ".claw-wrap"; "ca"]
    end
  else "/etc/openclaw/ca".

Definition trustedBinaryDirs : list string :=
  ["/usr/bin"; "/usr/local/bin"; "/opt/homebrew/bin"; "/home/linuxbrew/.linuxbrew/bin"].

Fixpoint find_in_dirs (dirs : list string) (file : string) : result string :=
  match dirs with
  | [] => Err (Errorf "%s: not found in trusted locations" [FS file])
  | dir :: dirs =>
    let path := PathJoin [dir; file] in
    if os_executable path then Ok path else find_in_dirs dirs file
  end.

Definition FindTrustedBinary (file : string) : result string :=
  if bool_decide (file = "") then Err (Errorf "empty binary name" [])
  else if Contains file "/" then Err (Errorf "%s: must be a base name" [FS file])
  else find_in_dirs trustedBinaryDirs file.

Definition defaultPassBinaryForPlatform : string :=
  if os_darwin then "/opt/homebrew/bin/pass" else "/usr/bin/pass".

Definition DefaultPassBinary : string :=
  match FindTrustedBinary "pass" with Ok p => p | Err _ => defaultPassBinaryForPlatform end.

Lemma find_in_dirs_Ok dirs file path :
  find_in_dirs dirs file = Ok path → ∃ dir, dir ∈ dirs ∧ path = PathJoin [dir; file] ∧ os_executable path = true.
Proof.
  induction dirs as [|d dirs IH]; [done|]. cbn [find_in_dirs].
  cbv zeta. destruct (os_executable (PathJoin [d; file])) eqn:E.
  - intros [= <-]. exists d. by split; [left|].
  - intros Hok. destruct (IH Hok) as (dir & ? & ?). exists dir. by split; [right|].
Qed.
End paths.
