(* ===== verification/CredCache.v ===== *)
(** Package [internal/credentials], [cache.go]: the cache of fetched credentials.

    The cache is the state a caller holds under its mutex; the calls are the
    steps. The sweeper goroutine is the step [OpSweep], and its channels are the
    interval it was started with. A fetch is that of a caller alone; [CacheSteps]
    has the calls that run at the same time and share a fetch. *)

From S2P Require Import Prelude GoStrings GoTime.
Local Open Scope Z_scope.

Record Credential := { c_Value : string; c_ExpiresAt : time }.

Definition minCredentialCacheSweepInterval : duration := 5 * Second.
Definition maxCredentialCacheSweepInterval : duration := Minute.
Definition credentialEarlyRefreshMargin : duration := 5 * Minute.

Record credentialCacheEntry := {
  ce_value : string;
  ce_refreshAt : time;
  ce_hardExpiresAt : time;
}.

Record credentialCache := {
  cc_ttl : duration;
  cc_entries : gmap string credentialCacheEntry;
  (** the interval of the running sweeper, if one runs *)
  cc_sweeper : option duration;
}.

Definition newCredentialCache : credentialCache := {| cc_ttl := 0; cc_entries := ∅; cc_sweeper := None |}.

Definition set_entries (c : credentialCache) (m : gmap string credentialCacheEntry) : credentialCache :=
  {| cc_ttl := cc_ttl c; cc_entries := m; cc_sweeper := cc_sweeper c |}.

Definition sweepInterval (ttl : duration) : duration :=
  if ttl <=? 0 then 0
  else
    let interval := ttl / 2 in
    let interval := if interval <? minCredentialCacheSweepInterval then minCredentialCacheSweepInterval
                    else interval in
    if interval >? maxCredentialCacheSweepInterval then maxCredentialCacheSweepInterval else interval.

Definition computeRefreshAt (now : time) (ttl : duration) (expiresAt : time) : time :=
  if IsZero expiresAt then Add now ttl
  else
    let early := Add expiresAt (- credentialEarlyRefreshMargin) in
    if ttl <=? 0 then early
    else
      let refreshAt := Add now ttl in
      if Before early refreshAt then early else refreshAt.

Definition dropStaticEntriesLocked (m : gmap string credentialCacheEntry) : gmap string credentialCacheEntry :=
  filter (λ kv, IsZero (ce_hardExpiresAt kv.2) = false) m.

Definition entryExpired (e : credentialCacheEntry) (now : time) : bool :=
  if negb (IsZero (ce_hardExpiresAt e)) then negb (Before now (ce_hardExpiresAt e))
  else negb (Before now (ce_refreshAt e)).

Definition sweepExpiredLocked (now : time) (m : gmap string credentialCacheEntry)
    : gmap string credentialCacheEntry :=
  filter (λ kv, entryExpired kv.2 now = false) m.

Definition startSweeper (c : credentialCache) (interval : duration) : credentialCache :=
  if interval <=? 0 then c
  else if (cc_ttl c <=? 0) || bool_decide (is_Some (cc_sweeper c)) then c
  else {| cc_ttl := cc_ttl c; cc_entries := cc_entries c; cc_sweeper := Some interval |}.

Definition SetTTL (c : credentialCache) (ttl : duration) : credentialCache :=
  if ttl <=? 0 then
    {| cc_ttl := 0; cc_entries := dropStaticEntriesLocked (cc_entries c); cc_sweeper := None |}
  else if negb (ttl =? cc_ttl c) then
    startSweeper {| cc_ttl := ttl; cc_entries := ∅; cc_sweeper := None |} (sweepInterval ttl)
  else
    match cc_sweeper c with
    | None => startSweeper c (sweepInterval ttl)
    | Some _ => c
    end.

(** [Get]; [None] is a miss. *)
Definition Get (c : credentialCache) (key : string) (now : time) : option Credential * credentialCache :=
  match cc_entries c !! key with
  | None => (None, c)
  | Some entry =>
    if (cc_ttl c <=? 0) && IsZero (ce_hardExpiresAt entry) then (None, c)
    else if negb (Before now (ce_refreshAt entry)) then
      if IsZero (ce_hardExpiresAt entry) || negb (Before now (ce_hardExpiresAt entry))
      then (None, set_entries c (delete key (cc_entries c)))
      else (None, c)
    else (Some {| c_Value := ce_value entry; c_ExpiresAt := ce_hardExpiresAt entry |}, c)
  end.

Definition staleEntry (c : credentialCache) (key : string) (now : time) : option credentialCacheEntry :=
  match cc_entries c !! key with
  | None => None
  | Some entry =>
    if IsZero (ce_hardExpiresAt entry) || negb (Before now (ce_hardExpiresAt entry)) then None
    else Some entry
  end.

Definition SetCredential (c : credentialCache) (key : string) (cred : Credential) (now : time)
    : credentialCache :=
  if bool_decide (key = "") || bool_decide (c_Value cred = "") then c
  else if (cc_ttl c <=? 0) && IsZero (c_ExpiresAt cred) then c
  else
    let entries := sweepExpiredLocked now (cc_entries c) in
    set_entries c (<[key := {| ce_value := c_Value cred;
                               ce_refreshAt := computeRefreshAt now (cc_ttl c) (c_ExpiresAt cred);
                               ce_hardExpiresAt := c_ExpiresAt cred |}]> entries).

Definition cache_Set (c : credentialCache) (key value : string) (now : time) : credentialCache :=
  SetCredential c key {| c_Value := value; c_ExpiresAt := zero_time |} now.

(** [fetchCached]; the clock is read on entry ([now]), by the leader ([t1]), when
    the fetched credential is stored ([t2]) and after a failure ([t3]). What the
    fetch acts on is the state [S]. *)
Definition fetchCached {S} (c : credentialCache) (key : string) (now t1 t2 t3 : time)
    (fetch : S → result Credential * S) (s : S) : result Credential * credentialCache * S :=
  match Get c key now with
  | (Some cred, c) => (Ok cred, c, s)
  | (None, c) =>
    let stale := staleEntry c key now in
    match Get c key t1 with
    | (Some cred, c) => (Ok cred, c, s)
    | (None, c) =>
      match fetch s with
      | (Ok cred, s) => (Ok cred, SetCredential c key cred t2, s)
      | (Err err, s) =>
        match stale with
        | Some e =>
          if Before t3 (ce_hardExpiresAt e)
          then (Ok {| c_Value := ce_value e; c_ExpiresAt := ce_hardExpiresAt e |}, c, s)
          else (Err err, c, s)
        | None => (Err err, c, s)
        end
      end
    end
  end.

(** ** Histories of a cache *)

Inductive cache_op :=
  | OpSetTTL (ttl : duration)
  | OpSet (key : string) (cred : Credential) (now : time)
  | OpGet (key : string) (now : time)
  | OpSweep (now : time)
  | OpFetch (key : string) (now t1 t2 t3 : time) (fetch : result Credential).

Definition apply_op (c : credentialCache) (op : cache_op) : credentialCache :=
  match op with
  | OpSetTTL ttl => SetTTL c ttl
  | OpSet key cred now => SetCredential c key cred now
  | OpGet key now => (Get c key now).2
  | OpSweep now => set_entries c (sweepExpiredLocked now (cc_entries c))
  | OpFetch key now t1 t2 t3 fetch => (fetchCached c key now t1 t2 t3 (λ s, (fetch, s)) tt).1.2
  end.

Definition run_ops (ops : list cache_op) : credentialCache := foldl apply_op newCredentialCache ops.

(** The credential a step stores under a key, and when. *)
Definition stores (op : cache_op) (key : string) (cred : Credential) (t0 : time) : Prop :=
  op = OpSet key cred t0 ∨ ∃ now t1 t3, op = OpFetch key now t1 t0 t3 (Ok cred).

Definition stored (ops : list cache_op) (key : string) (cred : Credential) (t0 : time) : Prop :=
  ∃ op, op ∈ ops ∧ stores op key cred t0.

(** ** The invariant: where an entry comes from and how long it may be served *)

Definition served_until (ttl : duration) (t0 : time) (e : credentialCacheEntry) : Prop :=
  if IsZero (ce_hardExpiresAt e) then 0 < ttl ∧ ce_refreshAt e = t0 + ttl
  else ce_refreshAt e ≤ ce_hardExpiresAt e - credentialEarlyRefreshMargin.

Definition entry_ok (ops : list cache_op) (ttl : duration) (key : string) (e : credentialCacheEntry) : Prop :=
  ∃ t0, stored ops key {| c_Value := ce_value e; c_ExpiresAt := ce_hardExpiresAt e |} t0 ∧
    served_until ttl t0 e.

Definition cache_inv (ops : list cache_op) (c : credentialCache) : Prop :=
  0 ≤ cc_ttl c ∧ map_Forall (entry_ok ops (cc_ttl c)) (cc_entries c).

Lemma stored_snoc ops op key cred t0 : stored ops key cred t0 → stored (ops ++ [op]) key cred t0.
Proof. intros (o & Ho & Hs). exists o. split; [|done]. apply elem_of_app. by left. Qed.

Lemma entry_ok_snoc ops op ttl key e : entry_ok ops ttl key e → entry_ok (ops ++ [op]) ttl key e.
Proof. intros (t0 & Hs & Hu). exists t0. split; [by apply stored_snoc|done]. Qed.

Lemma cache_inv_snoc ops op c : cache_inv ops c → cache_inv (ops ++ [op]) c.
Proof.
  intros [Ht He]. split; [done|]. eapply map_Forall_impl; [done|]. intros. by apply entry_ok_snoc.
Qed.

Lemma cache_inv_subset ops c m : m ⊆ cc_entries c → cache_inv ops c → cache_inv ops (set_entries c m).
Proof.
  intros Hm [Ht He]. split; [done|]. intros k e Hk. apply He. by eapply lookup_weaken.
Qed.

Lemma Get_shape c key now : ∃ m, (Get c key now).2 = set_entries c m ∧ m ⊆ cc_entries c.
Proof.
  assert (∃ m, c = set_entries c m ∧ m ⊆ cc_entries c) by (exists (cc_entries c); by destruct c).
  unfold Get. destruct (cc_entries c !! key); [|done]. destruct (_ && _); [done|].
  destruct (negb _); [|done]. destruct (_ || _); [|done].
  exists (delete key (cc_entries c)). split; [done|]. apply delete_subseteq.
Qed.

Lemma computeRefreshAt_static now ttl : computeRefreshAt now ttl zero_time = now + ttl.
Proof. done. Qed.

Lemma computeRefreshAt_expiring now ttl t :
  IsZero t = false → computeRefreshAt now ttl t ≤ t - credentialEarlyRefreshMargin.
Proof.
  intros Ht. unfold computeRefreshAt, Add, Before. rewrite Ht.
  destruct (Z.leb_spec ttl 0); [lia|]. cbv zeta.
  destruct (Z.ltb_spec (t + - credentialEarlyRefreshMargin) (now + ttl)); lia.
Qed.

Lemma SetCredential_inv ops c key cred now op :
  stores op key cred now → cache_inv ops c → cache_inv (ops ++ [op]) (SetCredential c key cred now).
Proof.
  intros Hop Hinv. unfold SetCredential. destruct (_ || _); [by apply cache_inv_snoc|].
  destruct (_ && _) eqn:Es; [by apply cache_inv_snoc|].
  destruct (cache_inv_snoc _ op _ Hinv) as [Ht He]. split; [done|]. cbn [set_entries cc_entries cc_ttl].
  apply map_Forall_insert_2.
  - exists now. split; [exists op; split; [apply elem_of_app; right; by left|by destruct cred]|].
    unfold served_until. cbn [ce_hardExpiresAt ce_refreshAt].
    destruct (IsZero (c_ExpiresAt cred)) eqn:Ez; [|by apply computeRefreshAt_expiring].
    apply andb_false_iff in Es as [Es|Es]; [|done]. split; [lia|].
    unfold computeRefreshAt. by rewrite Ez.
  - intros k e Hk. apply He. eapply lookup_weaken; [done|]. apply map_filter_subseteq.
Qed.

Lemma startSweeper_entries c i :
  cc_entries (startSweeper c i) = cc_entries c ∧ cc_ttl (startSweeper c i) = cc_ttl c.
Proof. unfold startSweeper. destruct (_ <=? _); [done|]. by destruct (_ || _). Qed.

Lemma SetTTL_inv ops c ttl : cache_inv ops c → cache_inv ops (SetTTL c ttl).
Proof.
  intros [Ht He]. unfold SetTTL. destruct (Z.leb_spec ttl 0).
  - split; [done|]. intros k e [Hk Hz]%map_lookup_filter_Some. cbn [snd] in Hz.
    destruct (He _ _ Hk) as (t0 & Hs & Hu). exists t0. split; [done|].
    unfold served_until in *. by rewrite Hz in *.
  - destruct (negb _) eqn:E.
    + destruct (startSweeper_entries {| cc_ttl := ttl; cc_entries := ∅; cc_sweeper := None |}
        (sweepInterval ttl)) as [He' Ht']. split; rewrite Ht'; [cbn; lia|]. rewrite He'. apply map_Forall_empty.
    + destruct (cc_sweeper c); [done|].
      destruct (startSweeper_entries c (sweepInterval ttl)) as [He' Ht']. split; by rewrite Ht', ?He'.
Qed.

Lemma fetchCached_shape {S} c key now t1 t2 t3 fetch (s : S) :
  ∃ m, m ⊆ cc_entries c ∧
    ((fetchCached c key now t1 t2 t3 fetch s).1.2 = set_entries c m ∨
     ∃ cred, (fetch s).1 = Ok cred ∧
      (fetchCached c key now t1 t2 t3 fetch s).1.2 = SetCredential (set_entries c m) key cred t2).
Proof.
  unfold fetchCached. destruct (Get_shape c key now) as (m1 & E1 & H1).
  destruct (Get c key now) as [[cred|] c1]; cbn [snd] in E1; subst c1;
    [exists m1; split; [done|by left]|].
  destruct (Get_shape (set_entries c m1) key t1) as (m2 & E2 & H2).
  destruct (Get (set_entries c m1) key t1) as [[cred|] c2]; cbn [snd] in E2; subst c2;
    [exists m2; split; [by etrans|by left]|].
  exists m2. split; [by etrans|]. destruct (fetch s) as [[cred|e] s'].
  - right. by exists cred.
  - left. destruct (staleEntry _ _ _); [|done]. by destruct (Before _ _).
Qed.

Lemma run_ops_inv ops : cache_inv ops (run_ops ops).
Proof.
  unfold run_ops. induction ops as [|op ops IH] using rev_ind; [split; [done|apply map_Forall_empty]|].
  rewrite foldl_app. cbn [foldl]. set (c := foldl _ _ _) in *. destruct op; cbn [apply_op].
  - apply SetTTL_inv, cache_inv_snoc, IH.
  - apply SetCredential_inv; [by left|done].
  - destruct (Get_shape c key now) as (m & -> & Hm). apply cache_inv_subset; [done|]. by apply cache_inv_snoc.
  - apply cache_inv_subset; [apply map_filter_subseteq|]. by apply cache_inv_snoc.
  - destruct (fetchCached_shape c key now t1 t2 t3 (λ s, (fetch, s)) tt) as (m & Hm & [->|(cred & Ef & ->)]).
    + apply cache_inv_subset; [done|]. by apply cache_inv_snoc.
    + cbn [fst] in Ef. subst fetch. apply SetCredential_inv; [right; by exists now, t1, t3|].
      by apply cache_inv_subset.
Qed.

Lemma Get_served ops key now cred :
  (Get (run_ops ops) key now).1 = Some cred → ∃ t0, stored ops key cred t0 ∧
    if IsZero (c_ExpiresAt cred) then 0 < cc_ttl (run_ops ops) ∧ now < t0 + cc_ttl (run_ops ops)
    else now < c_ExpiresAt cred - credentialEarlyRefreshMargin.
Proof.
  destruct (run_ops_inv ops) as [_ He]. unfold Get.
  destruct (_ !! key) as [e|] eqn:Ek; [|done]. specialize (He _ _ Ek) as (t0 & Hs & Hu).
  destruct (_ && _); [done|]. unfold Before. destruct (Z.ltb_spec now (ce_refreshAt e)); cbn [negb].
  - intros [= <-]. exists t0. split; [done|]. cbn [c_ExpiresAt]. unfold served_until in Hu.
    destruct (IsZero _); [split; lia|lia].
  - by destruct (_ || _).
Qed.

(** ** Properties *)

(** Whatever calls were made before, a credential the cache serves was
    fetched for that key; without an expiry of its own it was fetched less than
    the configured time to live ago, with one it has more than five minutes left,
    and when a refresh fails the old value is served only while it has not
    expired. Otherwise the result is the fetch's own. *)
Theorem fetchCached_fresh {S} ops key now t1 t2 t3 fetch (s : S) cred :
  (fetchCached (run_ops ops) key now t1 t2 t3 fetch s).1.1 = Ok cred →
  (fetch s).1 = Ok cred ∨
  ∃ t0, stored ops key cred t0 ∧
    if IsZero (c_ExpiresAt cred) then
      0 < cc_ttl (run_ops ops) ∧ (now < t0 + cc_ttl (run_ops ops) ∨ t1 < t0 + cc_ttl (run_ops ops))
    else now < c_ExpiresAt cred - credentialEarlyRefreshMargin ∨
         t1 < c_ExpiresAt cred - credentialEarlyRefreshMargin ∨
         is_ok (fetch s).1 = false ∧ now < c_ExpiresAt cred ∧ t3 < c_ExpiresAt cred.
Proof.
  unfold fetchCached. pose proof (Get_served ops key now) as G1.
  destruct (Get_shape (run_ops ops) key now) as (m1 & E1 & H1).
  assert (0 < credentialEarlyRefreshMargin) as Hpos by done.
  destruct (Get (run_ops ops) key now) as [[cr|] c1]; cbn [fst snd] in *; subst c1.
  { intros [= ->]. destruct (G1 _ eq_refl) as (t0 & Hs & Hb). right. exists t0. split; [done|].
    destruct (IsZero _); [|left; lia]. destruct Hb. split; [done|by left]. }
  set (c1 := set_entries (run_ops ops) m1).
  assert (cache_inv ops c1) as [_ He1] by (apply cache_inv_subset; [done|apply run_ops_inv]).
  destruct (Get c1 key t1) as [got c2] eqn:Eg.
  destruct got as [cr|].
  { intros [= ->]. right. unfold Get in Eg. destruct (_ !! key) as [e|] eqn:Ek; [|done].
    specialize (He1 _ _ Ek) as (t0 & Hs & Hu). destruct (_ && _); [done|]. unfold Before in Eg.
    destruct (Z.ltb_spec t1 (ce_refreshAt e)); cbn [negb] in Eg; [|by destruct (_ || _)].
    injection Eg as <- _. exists t0. split; [done|]. cbn [c_ExpiresAt]. unfold served_until in Hu.
    change (cc_ttl c1) with (cc_ttl (run_ops ops)) in Hu.
    destruct (IsZero _); [|right; left; lia]. destruct Hu as [? Hu]. split; [done|right; lia]. }
  destruct (fetch s) as [[cr|err] s']; cbn [fst]; [intros [= ->]; by left|].
  unfold staleEntry. destruct (cc_entries c1 !! key) as [e|] eqn:Ek; [|done].
  specialize (He1 _ _ Ek) as (t0 & Hs & Hu).
  destruct (IsZero (ce_hardExpiresAt e)) eqn:Ez; [done|]. cbn [orb]. unfold Before.
  destruct (Z.ltb_spec now (ce_hardExpiresAt e)); [|done]. cbn [negb].
  destruct (Z.ltb_spec t3 (ce_hardExpiresAt e)); [|done]. intros [= <-]. right. exists t0.
  split; [done|]. cbn [c_ExpiresAt]. rewrite Ez. by right; right.
Qed.

(** Turning the cache off takes effect at once: no credential without an
    expiry is kept or served, and the sweeper is stopped. *)
Theorem SetTTL_off ops ttl key now cred :
  ttl ≤ 0 → let c := SetTTL (run_ops ops) ttl in
  cc_sweeper c = None ∧ ((Get c key now).1 = Some cred → IsZero (c_ExpiresAt cred) = false).
Proof.
  intros Ht c. split.
  - unfold c, SetTTL. by rewrite (proj2 (Z.leb_le _ _) Ht).
  - change c with (apply_op (run_ops ops) (OpSetTTL ttl)).
    intros Hg. assert (apply_op (run_ops ops) (OpSetTTL ttl) = run_ops (ops ++ [OpSetTTL ttl])) as E.
    { unfold run_ops. by rewrite foldl_app. }
    rewrite E in Hg. destruct (Get_served _ _ _ _ Hg) as (t0 & _ & Hb). rewrite <- E in Hb.
    destruct (IsZero _); [|done]. cbn [apply_op] in Hb. unfold SetTTL in Hb.
    rewrite (proj2 (Z.leb_le _ _) Ht) in Hb. cbn [cc_ttl] in Hb. lia.
Qed.
