(* ===== verification/CacheSteps.v ===== *)
(** Package [internal/credentials], [cache.go]: the cache under concurrent calls.

    [CredCache] is the cache as one caller sees it. Here any number of calls of
    [SetTTL] and [fetchCached] and the sweepers' goroutines take turns. A step is
    what a goroutine does under one acquisition of the mutex, one operation on a
    channel or one action of the fetch group; a reading of the clock is joined to
    the step that uses it, which loses nothing as the time is arbitrary. Every
    step says in a log what it did. The fetch group is an interface that states
    what [singleflight] documents. *)

From S2P Require Import Prelude GoStrings GoTime CredCache.
Local Open Scope Z_scope.

(** ** [singleflight.Group]

    One call is in flight for a key at a time; callers that come while it is
    wait for it and receive its results. A call is named by its first caller. *)
Class Singleflight (R : Type) := {
  group : Type;
  zero_group : group;
  running : group → string → option nat;
  outcome : group → nat → option R;
  begin_call : group → string → nat → group;
  end_call : group → string → R → group;
  running_zero k : running zero_group k = None;
  outcome_zero i : outcome zero_group i = None;
  running_begin g k i k' : running (begin_call g k i) k' = if decide (k = k') then Some i else running g k';
  outcome_begin g k i j : outcome (begin_call g k i) j = outcome g j;
  running_end g k r k' : running (end_call g k r) k' = if decide (k = k') then None else running g k';
  outcome_end g k r i j : running g k = Some i →
    outcome (end_call g k r) j = if decide (i = j) then Some r else outcome g j;
}.

(** ** The parts of the calls *)

(** What [Get] does under the read lock, and what it does, when the entry has
    expired, under the lock it takes then: it looks again. *)
Inductive get_result := GotHit (cred : Credential) | GotMiss | GotExpired.

Definition Get_read (c : credentialCache) (key : string) (now : time) : get_result :=
  match cc_entries c !! key with
  | None => GotMiss
  | Some entry =>
    if (cc_ttl c <=? 0) && IsZero (ce_hardExpiresAt entry) then GotMiss
    else if negb (Before now (ce_refreshAt entry)) then
      if IsZero (ce_hardExpiresAt entry) || negb (Before now (ce_hardExpiresAt entry)) then GotExpired else GotMiss
    else GotHit {| c_Value := ce_value entry; c_ExpiresAt := ce_hardExpiresAt entry |}
  end.

Definition Get_evict (c : credentialCache) (key : string) (now : time) : credentialCache :=
  match cc_entries c !! key with
  | Some current =>
    if negb (Before now (ce_refreshAt current)) &&
       (IsZero (ce_hardExpiresAt current) || negb (Before now (ce_hardExpiresAt current)))
    then set_entries c (delete key (cc_entries c))
    else c
  | None => c
  end.

Definition sweep (c : credentialCache) (now : time) : credentialCache :=
  set_entries c (sweepExpiredLocked now (cc_entries c)).

(** A sweeper: its stop channel, and where its goroutine is; its other channel is
    closed when the goroutine has ended. *)
Inductive sweeper_pc := SwNew | SwLooping | SwExited.
Record sweeper := { sw_stopped : bool; sw_pc : sweeper_pc }.

(** Where a call is. *)
Inductive call :=
  (** [SetTTL] *)
  | TTLCalled (ttl : duration)
  | TTLStopping (old : option nat) (start : option duration)
  | TTLWaiting (old : nat) (start : option duration)
  | TTLStarting (interval : duration)
  | TTLSpawning (w : nat)
  | TTLReturned
  | TTLPanicked
  (** [fetchCached] *)
  | FetchCalled (key : string) (now : time)
  | FetchEvict (key : string) (now : time)
  | FetchStale (key : string) (now : time)
  | FetchJoin (key : string) (stale : option credentialCacheEntry)
  | FetchInner (key : string) (stale : option credentialCacheEntry)
  | FetchInnerEvict (key : string) (stale : option credentialCacheEntry) (innerNow : time)
  | FetchRunning (key : string) (stale : option credentialCacheEntry)
  | FetchStoring (key : string) (stale : option credentialCacheEntry) (cred : Credential)
  | FetchEnding (key : string) (stale : option credentialCacheEntry) (r : result Credential)
  | FetchWaiting (key : string) (stale : option credentialCacheEntry) (j : nat)
  | FetchGot (key : string) (stale : option credentialCacheEntry) (r : result Credential)
  | FetchReturned (key : string) (r : result Credential).

(** What a step did, and for which call. *)
Inductive log_entry :=
  | LSetTTL (i : nat) (ttl : duration)
  | LHit (i : nat) (key : string) (t : time) (cred : Credential)
  | LMiss (i : nat) (key : string) (t : time)
  | LEvict (i : nat) (key : string) (t : time)
  | LStale (i : nat) (key : string) (t : time) (e : option credentialCacheEntry)
  | LBegin (i : nat) (key : string)
  | LJoin (i : nat) (key : string) (j : nat)
  | LFetch (i : nat) (key : string) (r : result Credential)
  | LStore (i : nat) (key : string) (cred : Credential) (t : time)
  | LEnd (i : nat) (key : string) (r : result Credential)
  | LServeStale (i : nat) (key : string) (t : time) (cred : Credential)
  | LSweep (t : time).

Section steps.
Context `{SF : Singleflight (result Credential)}.

Record caching := {
  cg_cache : credentialCache;
  (** whose channels the cache holds *)
  cg_chans : option nat;
  cg_sweepers : list sweeper;
  cg_group : group;
  cg_calls : list call;
}.

Definition start_caching : caching :=
  {| cg_cache := newCredentialCache; cg_chans := None; cg_sweepers := []; cg_group := zero_group; cg_calls := [] |}.

Definition with_cache (s : caching) (c : credentialCache) : caching :=
  {| cg_cache := c; cg_chans := cg_chans s; cg_sweepers := cg_sweepers s; cg_group := cg_group s; cg_calls := cg_calls s |}.
Definition with_sweepers (s : caching) (l : list sweeper) : caching :=
  {| cg_cache := cg_cache s; cg_chans := cg_chans s; cg_sweepers := l; cg_group := cg_group s; cg_calls := cg_calls s |}.
Definition with_group (s : caching) (g : group) : caching :=
  {| cg_cache := cg_cache s; cg_chans := cg_chans s; cg_sweepers := cg_sweepers s; cg_group := g; cg_calls := cg_calls s |}.
Definition goto (s : caching) (i : nat) (pc : call) : caching :=
  {| cg_cache := cg_cache s; cg_chans := cg_chans s; cg_sweepers := cg_sweepers s; cg_group := cg_group s;
     cg_calls := <[i := pc]> (cg_calls s) |}.

Definition detachSweeperLocked (s : caching) : option nat * caching :=
  (cg_chans s,
   {| cg_cache := {| cc_ttl := cc_ttl (cg_cache s); cc_entries := cc_entries (cg_cache s); cc_sweeper := None |};
      cg_chans := None; cg_sweepers := cg_sweepers s; cg_group := cg_group s; cg_calls := cg_calls s |}).

(** [SetTTL] under the mutex: the sweeper to stop, the interval of the one to start. *)
Definition SetTTL_locked (s : caching) (ttl : duration) : option nat * option duration * caching :=
  if ttl <=? 0 then
    let s := with_cache s {| cc_ttl := 0; cc_entries := dropStaticEntriesLocked (cc_entries (cg_cache s));
                             cc_sweeper := cc_sweeper (cg_cache s) |} in
    let '(old, s) := detachSweeperLocked s in (old, None, s)
  else if negb (ttl =? cc_ttl (cg_cache s)) then
    let s := with_cache s {| cc_ttl := ttl; cc_entries := ∅; cc_sweeper := cc_sweeper (cg_cache s) |} in
    let '(old, s) := detachSweeperLocked s in (old, Some (sweepInterval ttl), s)
  else
    match cg_chans s with
    | None => (None, Some (sweepInterval ttl), s)
    | Some _ => (None, None, s)
    end.

(** [startSweeper] under the mutex: the channels of the sweeper it made. *)
Definition startSweeper_locked (s : caching) (interval : duration) : option nat * caching :=
  if (cc_ttl (cg_cache s) <=? 0) || bool_decide (is_Some (cg_chans s)) then (None, s)
  else
    (Some (length (cg_sweepers s)),
     {| cg_cache := {| cc_ttl := cc_ttl (cg_cache s); cc_entries := cc_entries (cg_cache s);
                       cc_sweeper := Some interval |};
        cg_chans := Some (length (cg_sweepers s));
        cg_sweepers := cg_sweepers s ++ [{| sw_stopped := false; sw_pc := SwNew |}];
        cg_group := cg_group s; cg_calls := cg_calls s |}).

(** After [c.mu.Unlock] and the stopping of the old sweeper. *)
Definition after_stop (start : option duration) : call :=
  match start with
  | Some interval => if interval <=? 0 then TTLReturned else TTLStarting interval
  | None => TTLReturned
  end.

(** [close(stopCh)]; closing a channel a second time panics. The wait for
    [doneCh] is the step after it. *)
Definition stopCredentialCacheSweeper (s : caching) (i : nat) (old : option nat) (start : option duration)
    : option (list log_entry * caching) :=
  match old with
  | None => Some ([], goto s i (after_stop start))
  | Some w =>
    match cg_sweepers s !! w with
    | Some sw =>
      if sw_stopped sw then Some ([], goto s i TTLPanicked)
      else
        let l := <[w := {| sw_stopped := true; sw_pc := sw_pc sw |}]> (cg_sweepers s) in
        Some ([], goto (with_sweepers s l) i (TTLWaiting w start))
    | None => None
    end
  end.

Definition ttl_step (s : caching) (i : nat) (pc : call) : option (list log_entry * caching) :=
  match pc with
  | TTLCalled ttl =>
    let '(old, start, s) := SetTTL_locked s ttl in Some ([LSetTTL i ttl], goto s i (TTLStopping old start))
  | TTLStopping old start => stopCredentialCacheSweeper s i old start
  | TTLWaiting w start =>
    match cg_sweepers s !! w with
    | Some {| sw_pc := SwExited |} => Some ([], goto s i (after_stop start))
    | _ => None
    end
  | TTLStarting interval =>
    match startSweeper_locked s interval with
    | (Some w, s) => Some ([], goto s i (TTLSpawning w))
    | (None, s) => Some ([], goto s i TTLReturned)
    end
  | TTLSpawning w =>
    match cg_sweepers s !! w with
    | Some sw =>
      let l := <[w := {| sw_stopped := sw_stopped sw; sw_pc := SwLooping |}]> (cg_sweepers s) in
      Some ([], goto (with_sweepers s l) i TTLReturned)
    | None => None
    end
  | _ => None
  end.

(** [fetchCached]; [t] is the clock, [fetched] what [fetch] returns. *)
Definition fetch_step (s : caching) (i : nat) (pc : call) (t : time) (fetched : result Credential)
    : option (list log_entry * caching) :=
  match pc with
  | FetchCalled key now =>
    Some match Get_read (cg_cache s) key now with
         | GotHit cred => ([LHit i key now cred], goto s i (FetchReturned key (Ok cred)))
         | GotMiss => ([LMiss i key now], goto s i (FetchStale key now))
         | GotExpired => ([LMiss i key now], goto s i (FetchEvict key now))
         end
  | FetchEvict key now =>
    Some ([LEvict i key now], goto (with_cache s (Get_evict (cg_cache s) key now)) i (FetchStale key now))
  | FetchStale key now =>
    let stale := staleEntry (cg_cache s) key now in Some ([LStale i key now stale], goto s i (FetchJoin key stale))
  | FetchJoin key stale =>
    Some match running (cg_group s) key with
         | Some j => ([LJoin i key j], goto s i (FetchWaiting key stale j))
         | None => ([LBegin i key], goto (with_group s (begin_call (cg_group s) key i)) i (FetchInner key stale))
         end
  | FetchInner key stale =>
    Some match Get_read (cg_cache s) key t with
         | GotHit cred => ([LHit i key t cred], goto s i (FetchEnding key stale (Ok cred)))
         | GotMiss => ([LMiss i key t], goto s i (FetchRunning key stale))
         | GotExpired => ([LMiss i key t], goto s i (FetchInnerEvict key stale t))
         end
  | FetchInnerEvict key stale innerNow =>
    Some ([LEvict i key innerNow],
          goto (with_cache s (Get_evict (cg_cache s) key innerNow)) i (FetchRunning key stale))
  | FetchRunning key stale =>
    Some ([LFetch i key fetched],
          goto s i match fetched with
                   | Ok cred => FetchStoring key stale cred
                   | Err err => FetchEnding key stale (Err err)
                   end)
  | FetchStoring key stale cred =>
    Some ([LStore i key cred t],
          goto (with_cache s (SetCredential (cg_cache s) key cred t)) i (FetchEnding key stale (Ok cred)))
  | FetchEnding key stale r =>
    Some ([LEnd i key r], goto (with_group s (end_call (cg_group s) key r)) i (FetchGot key stale r))
  | FetchWaiting key stale j =>
    match outcome (cg_group s) j with
    | Some r => Some ([], goto s i (FetchGot key stale r))
    | None => None
    end
  | FetchGot key stale r =>
    Some match r, stale with
         | Err _, Some e =>
           if Before t (ce_hardExpiresAt e) then
             let cred := {| c_Value := ce_value e; c_ExpiresAt := ce_hardExpiresAt e |} in
             ([LServeStale i key t cred], goto s i (FetchReturned key (Ok cred)))
           else ([], goto s i (FetchReturned key r))
         | _, _ => ([], goto s i (FetchReturned key r))
         end
  | _ => None
  end.

Inductive cache_event :=
  (** a call is made *)
  | EvSetTTL (ttl : duration)
  | EvFetch (key : string) (now : time)
  (** a call takes its next step *)
  | EvStep (i : nat) (t : time) (fetched : result Credential)
  (** a sweeper takes a tick, or finds its channel closed *)
  | EvTick (w : nat) (t : time)
  | EvHalt (w : nat).

Definition add_call (s : caching) (pc : call) : caching :=
  {| cg_cache := cg_cache s; cg_chans := cg_chans s; cg_sweepers := cg_sweepers s; cg_group := cg_group s;
     cg_calls := cg_calls s ++ [pc] |}.

Definition is_ttl_call (pc : call) : bool :=
  match pc with
  | TTLCalled _ | TTLStopping _ _ | TTLWaiting _ _ | TTLStarting _ | TTLSpawning _ | TTLReturned | TTLPanicked => true
  | _ => false
  end.

Definition cache_step (s : caching) (ev : cache_event) : option (list log_entry * caching) :=
  match ev with
  | EvSetTTL ttl => Some ([], add_call s (TTLCalled ttl))
  | EvFetch key now => Some ([], add_call s (FetchCalled key now))
  | EvStep i t fetched =>
    pc ← cg_calls s !! i;
    if is_ttl_call pc then ttl_step s i pc else fetch_step s i pc t fetched
  | EvTick w t =>
    match cg_sweepers s !! w with
    | Some {| sw_pc := SwLooping |} => Some ([LSweep t], with_cache s (sweep (cg_cache s) t))
    | _ => None
    end
  | EvHalt w =>
    match cg_sweepers s !! w with
    | Some {| sw_stopped := true; sw_pc := SwLooping |} =>
      Some ([], with_sweepers s (<[w := {| sw_stopped := true; sw_pc := SwExited |}]> (cg_sweepers s)))
    | _ => None
    end
  end.

Fixpoint cache_run (s : caching) (evs : list cache_event) : option (list log_entry * caching) :=
  match evs with
  | [] => Some ([], s)
  | ev :: evs =>
    '(log, s) ← cache_step s ev;
    '(log', s) ← cache_run s evs;
    Some (log ++ log', s)
  end.
End steps.

(** ** The group with maps, to run the model *)

#[export, refine] Instance map_group R : Singleflight R := {
  group := gmap string nat * gmap nat R;
  zero_group := (∅, ∅);
  running g k := g.1 !! k;
  outcome g i := g.2 !! i;
  begin_call g k i := (<[k := i]> g.1, g.2);
  end_call g k r := match g.1 !! k with
                    | Some i => (delete k g.1, <[i := r]> g.2)
                    | None => g
                    end;
}.
Proof.
  all: intros; cbn [fst snd]; rewrite ?lookup_empty, ?lookup_insert; try done.
  - destruct (g.1 !! k) eqn:E; cbn [fst]; [by rewrite lookup_delete|]. by destruct (decide (k = k')) as [<-|].
  - rewrite H. cbn [snd]. by rewrite lookup_insert.
Defined.
