(* ===== verification/CacheLive.v ===== *)
(** Progress of the credential cache under concurrent calls: no channel is closed
    twice, no call waits for ever, and when the calls are over just one sweeper
    runs, or none if the cache is off. *)

From S2P Require Import Prelude GoStrings GoTime CredCache CacheSteps CacheLaws.
Local Open Scope Z_scope.

(** ** What the calls owe the sweepers *)

Definition stops (pc : call) : option nat := match pc with TTLStopping old _ => old | _ => None end.
Definition waits (pc : call) : option nat := match pc with TTLWaiting w _ => Some w | _ => None end.
Definition spawns (pc : call) : option nat := match pc with TTLSpawning w => Some w | _ => None end.
Definition starts (pc : call) : bool :=
  match pc with
  | TTLStopping _ (Some interval) | TTLWaiting _ (Some interval) | TTLStarting interval => 0 <? interval
  | _ => false
  end.

(** Some call of a list is so. *)
Definition some_call (l : list call) (P : call → Prop) : Prop := ∃ i pc, l !! i = Some pc ∧ P pc.

Lemma some_call_set l i x y (P : call → Prop) :
  l !! i = Some x → (P x → P y) → some_call l P → some_call (<[i := y]> l) P.
Proof.
  intros Hi HP (j & q & Hj & Hq). destruct (decide (i = j)) as [<-|Hn].
  - exists i, y. rewrite (lookup_set _ _ _ _ _ Hi), decide_True by done. split; [done|]. apply HP. congruence.
  - exists j, q. by rewrite (lookup_set _ _ _ _ _ Hi), decide_False.
Qed.

Lemma some_call_here l i x y (P : call → Prop) : l !! i = Some x → P y → some_call (<[i := y]> l) P.
Proof. intros Hi HP. exists i, y. by rewrite (lookup_set _ _ _ _ _ Hi), decide_True. Qed.

Lemma some_call_app l l' (P : call → Prop) : some_call l P → some_call (l ++ l') P.
Proof. intros (i & q & Hi & Hq). exists i, q. split; [by apply lookup_app_l_Some|done]. Qed.

Lemma after_stop_none start :
  stops (after_stop start) = None ∧ waits (after_stop start) = None ∧ spawns (after_stop start) = None ∧
  after_stop start ≠ TTLPanicked ∧
  starts (after_stop start) = match start with Some interval => 0 <? interval | None => false end.
Proof.
  destruct start as [iv|]; [|done]. unfold after_stop. destruct (Z.leb_spec iv 0); [|done].
  split_and!; try done. cbn. symmetry. by apply Z.ltb_ge.
Qed.

Lemma sweepInterval_pos ttl : 0 < ttl → 0 < sweepInterval ttl.
Proof.
  intros Ht. unfold sweepInterval. destruct (Z.leb_spec ttl 0); [lia|]. cbv zeta.
  assert (0 < minCredentialCacheSweepInterval) by done. assert (0 < maxCredentialCacheSweepInterval) by done.
  destruct (ttl / 2 <? minCredentialCacheSweepInterval) eqn:E1; destruct (_ >? _); try done.
  apply Z.ltb_ge in E1. lia.
Qed.

(** The sweepers, the channels the cache holds and the calls under way. *)
Record sweepers_ok (ttl : duration) (chans : option nat) (sws : list sweeper) (calls : list call) : Prop := {
  so_held w : chans = Some w → 0 < ttl ∧ ∃ sw, sws !! w = Some sw ∧ sw_stopped sw = false;
  so_open w sw : sws !! w = Some sw → sw_stopped sw = false →
    sw_pc sw ≠ SwExited ∧ (chans = Some w ∨ some_call calls (λ pc, stops pc = Some w));
  so_closed w sw : sws !! w = Some sw → sw_stopped sw = true →
    sw_pc sw = SwExited ∨ some_call calls (λ pc, waits pc = Some w);
  so_new w sw : sws !! w = Some sw → sw_pc sw = SwNew → some_call calls (λ pc, spawns pc = Some w);
  so_stops i pc w : calls !! i = Some pc → stops pc = Some w →
    chans ≠ Some w ∧ ∃ sw, sws !! w = Some sw ∧ sw_stopped sw = false;
  so_stops_once i j pc pc' w : calls !! i = Some pc → calls !! j = Some pc' →
    stops pc = Some w → stops pc' = Some w → i = j;
  so_waits i pc w : calls !! i = Some pc → waits pc = Some w → ∃ sw, sws !! w = Some sw ∧ sw_stopped sw = true;
  so_spawns i pc w : calls !! i = Some pc → spawns pc = Some w → ∃ sw, sws !! w = Some sw ∧ sw_pc sw = SwNew;
  so_spawns_once i j pc pc' w : calls !! i = Some pc → calls !! j = Some pc' →
    spawns pc = Some w → spawns pc' = Some w → i = j;
  so_started : 0 < ttl → is_Some chans ∨ some_call calls (λ pc, starts pc = true);
  so_calm i pc : calls !! i = Some pc → pc ≠ TTLPanicked;
}.

(** A call moves and the sweepers stay. *)
Lemma sweepers_ok_move ttl chans sws calls i pc pc' :
  sweepers_ok ttl chans sws calls → calls !! i = Some pc →
  stops pc' = stops pc → waits pc' = None → waits pc = None ∨ (∃ w sw, waits pc = Some w ∧ sws !! w = Some sw ∧ sw_pc sw = SwExited) →
  spawns pc' = spawns pc → starts pc' = starts pc ∨ is_Some chans ∨ ttl ≤ 0 → pc' ≠ TTLPanicked →
  sweepers_ok ttl chans sws (<[i := pc']> calls).
Proof.
  intros [] Hi E1 E2 E3 E4 E5 E6.
  split; try setoid_rewrite (lookup_set _ _ _ _ _ Hi); try done.
  - intros w sw Hw Hs. destruct (so_open0 w sw Hw Hs) as [? [?|?]]; split; auto. right.
    eapply some_call_set; [done| |done]. cbn. congruence.
  - intros w sw Hw Hs. destruct (so_closed0 w sw Hw Hs) as [?|(j & q & Hj & Hq)]; [by left|].
    destruct (decide (i = j)) as [<-|Hn].
    + left. rewrite Hi in Hj. injection Hj as <-. destruct E3 as [E3|(w' & sw' & E3 & E & ?)]; congruence.
    + right. exists j, q. by rewrite (lookup_set _ _ _ _ _ Hi), decide_False.
  - intros w sw Hw Hs. eapply some_call_set; [done| |by eapply so_new0]. cbn. congruence.
  - intros j q w. case_decide; [intros [= <-]; rewrite E1; subst|]; by eauto.
  - intros j k q q' w. do 2 case_decide; intros Hq Hq' Es Es'; simplify_eq; rewrite ?E1 in *; by eauto.
  - intros j q w. case_decide; [intros [= <-]; congruence|]; by eauto.
  - intros j q w. case_decide; [intros [= <-]; rewrite E4; subst|]; by eauto.
  - intros j k q q' w. do 2 case_decide; intros Hq Hq' Es Es'; simplify_eq; rewrite ?E4 in *; by eauto.
  - intros Ht. destruct E5 as [E5|[E5|E5]]; [|by left|lia]. destruct (so_started0 Ht) as [?|?]; [by left|right].
    eapply some_call_set; [done| |done]. cbn. congruence.
  - intros j q. case_decide; [congruence|]. by eauto.
Qed.

Lemma sweepers_ok_add ttl chans sws calls pc :
  sweepers_ok ttl chans sws calls → stops pc = None → waits pc = None → spawns pc = None → pc ≠ TTLPanicked →
  sweepers_ok ttl chans sws (calls ++ [pc]).
Proof.
  intros [] E1 E2 E3 E4.
  assert (∀ i q, (calls ++ [pc]) !! i = Some q → calls !! i = Some q ∨ q = pc) as Hl.
  { intros i q [H|[_ H]]%lookup_app_Some; [by left|right]. apply list_elem_of_lookup_2 in H.
    by apply list_elem_of_singleton in H. }
  split; try done.
  - intros w sw Hw Hs. destruct (so_open0 w sw Hw Hs) as [? [?|?]]; split; auto using some_call_app.
  - intros w sw Hw Hs. destruct (so_closed0 w sw Hw Hs); auto using some_call_app.
  - intros w sw Hw Hs. eauto using some_call_app.
  - intros i q w [Hi| ->]%Hl; [by eauto|congruence].
  - intros i j q q' w [Hi| ->]%Hl [Hj| ->]%Hl; [by eauto|congruence..].
  - intros i q w [Hi| ->]%Hl; [by eauto|congruence].
  - intros i q w [Hi| ->]%Hl; [by eauto|congruence].
  - intros i j q q' w [Hi| ->]%Hl [Hj| ->]%Hl; [by eauto|congruence..].
  - intros Ht. destruct (so_started0 Ht); auto using some_call_app.
  - intros i q [Hi| ->]%Hl; [by eauto|done].
Qed.

(** [SetTTL] detaches the sweeper and owes it the stop. *)
Lemma sweepers_ok_detach ttl ttl' chans sws calls i pc start :
  sweepers_ok ttl chans sws calls → calls !! i = Some pc →
  stops pc = None → waits pc = None → spawns pc = None → starts pc = false →
  (0 < ttl' → starts (TTLStopping chans start) = true) →
  sweepers_ok ttl' None sws (<[i := TTLStopping chans start]> calls).
Proof.
  intros [] Hi E1 E2 E3 E4 E5.
  split; try setoid_rewrite (lookup_set _ _ _ _ _ Hi); try done.
  - intros w sw Hw Hs. destruct (so_open0 w sw Hw Hs) as [? [->|?]]; (split; [done|]; right).
    + by eapply some_call_here.
    + eapply some_call_set; [done| |done]. cbn. congruence.
  - intros w sw Hw Hs. destruct (so_closed0 w sw Hw Hs) as [?|?]; [by left|right].
    eapply some_call_set; [done| |done]. cbn. congruence.
  - intros w sw Hw Hs. eapply some_call_set; [done| |by eapply so_new0]. cbn. congruence.
  - intros j q w. case_decide.
    + intros [= <-] Ew. split; [done|]. by apply so_held0.
    + intros Hq Ew. split; [done|]. by eapply so_stops0.
  - intros j k q q' w. do 2 case_decide; intros Hq Hq' Es Es'; simplify_eq; [done| | |by eauto].
    + cbn in Es. destruct (so_stops0 _ _ _ Hq' Es') as [Hn _]. congruence.
    + cbn in Es'. destruct (so_stops0 _ _ _ Hq Es) as [Hn _]. congruence.
  - intros j q w. case_decide; [by intros [= <-]|]; by eauto.
  - intros j q w. case_decide; [by intros [= <-]|]; by eauto.
  - intros j k q q' w. do 2 case_decide; intros Hq Hq' Es Es'; simplify_eq; by eauto.
  - intros Ht. right. eapply some_call_here; [done|]. by apply E5.
  - intros j q. case_decide; [congruence|]. by eauto.
Qed.

(** The call closes the channel it owes. *)
Lemma sweepers_ok_close ttl chans sws calls i w sw start :
  sweepers_ok ttl chans sws calls → calls !! i = Some (TTLStopping (Some w) start) → sws !! w = Some sw →
  sweepers_ok ttl chans (<[w := {| sw_stopped := true; sw_pc := sw_pc sw |}]> sws) (<[i := TTLWaiting w start]> calls).
Proof.
  intros [] Hi Hw. destruct (so_stops0 _ _ w Hi eq_refl) as [Hc (sw' & Hw' & Ho)].
  rewrite Hw in Hw'. injection Hw' as <-.
  split; try setoid_rewrite (lookup_set _ _ _ _ _ Hi); try setoid_rewrite (lookup_set _ _ _ _ _ Hw); try done.
  - intros w' Hw'. destruct (so_held0 w' Hw') as (? & sw' & ? & ?). split; [done|]. exists sw'.
    by rewrite decide_False by congruence.
  - intros w' sw'. case_decide; [by intros [= <-]|]. intros Hw' Hs.
    destruct (so_open0 w' sw' Hw' Hs) as [? [?|?]]; split; auto. right.
    eapply some_call_set; [done| |done]. cbn. congruence.
  - intros w' sw'. case_decide.
    + intros _ _. right. subst w'. by eapply some_call_here.
    + intros Hw' Hs. destruct (so_closed0 w' sw' Hw' Hs) as [?|?]; [by left|right].
      eapply some_call_set; [done| |done]. cbn. congruence.
  - intros w' sw' Hw' Hs. eapply some_call_set; [done|done|]. case_decide; [subst w'|by eapply so_new0].
    injection Hw' as <-. by eapply so_new0.
  - intros j q w'. case_decide; [by intros [= <-]|]. intros Hq Es. destruct (so_stops0 _ _ _ Hq Es) as [? (sw' & ? & ?)].
    split; [done|]. exists sw'. case_decide; [|done]. subst w'. by destruct (so_stops_once0 _ _ _ _ w Hi Hq eq_refl Es).
  - intros j k q q' w'. do 2 case_decide; intros Hq Hq' Es Es'; simplify_eq; by eauto.
  - intros j q w'. case_decide.
    + intros [= <-] [= <-]. eexists. by rewrite decide_True.
    + intros Hq Es. destruct (so_waits0 _ _ _ Hq Es) as (sw' & ? & ?). case_decide; eauto.
  - intros j q w'. case_decide; [by intros [= <-]|]. intros Hq Es. destruct (so_spawns0 _ _ _ Hq Es) as (sw' & ? & ?).
    case_decide; [subst w'; eexists; split; [done|]; cbn; congruence|by eauto].
  - intros j k q q' w'. do 2 case_decide; intros Hq Hq' Es Es'; simplify_eq; by eauto.
  - intros Ht. destruct (so_started0 Ht) as [?|?]; [by left|right]. by eapply some_call_set.
  - intros j q. case_decide; [congruence|]. by eauto.
Qed.

(** A new sweeper is registered; its goroutine is owed. *)
Lemma sweepers_ok_register ttl sws calls i interval :
  sweepers_ok ttl None sws calls → 0 < ttl → calls !! i = Some (TTLStarting interval) →
  sweepers_ok ttl (Some (length sws)) (sws ++ [{| sw_stopped := false; sw_pc := SwNew |}])
    (<[i := TTLSpawning (length sws)]> calls).
Proof.
  intros [] Ht Hi. set (new := {| sw_stopped := false; sw_pc := SwNew |}).
  assert (∀ w sw, (sws ++ [new]) !! w = Some sw → sws !! w = Some sw ∨ w = length sws ∧ sw = new) as Hl.
  { intros w sw [H|[Hle H]]%lookup_app_Some; [by left|right]. apply list_lookup_singleton_Some in H as [? <-].
    split; [lia|done]. }
  assert (∀ w sw, sws !! w = Some sw → (sws ++ [new]) !! w = Some sw) as Hk by (intros; by apply lookup_app_l_Some).
  assert ((sws ++ [new]) !! length sws = Some new) as Hn by apply list_lookup_middle, eq_refl.
  assert (∀ w sw, sws !! w = Some sw → w ≠ length sws) as Hne by (intros w sw H%lookup_lt_Some; lia).
  split; try setoid_rewrite (lookup_set _ _ _ _ _ Hi); try done.
  - intros w [= <-]. eauto.
  - intros w sw [Hw|[-> ->]]%Hl Hs; [|by split; [|left]].
    destruct (so_open0 w sw Hw Hs) as [? [?|?]]; [done|]. split; [done|]. right. by eapply some_call_set.
  - intros w sw [Hw|[-> ->]]%Hl Hs; [|done]. destruct (so_closed0 w sw Hw Hs) as [?|?]; [by left|right].
    by eapply some_call_set.
  - intros w sw [Hw|[-> ->]]%Hl Hs; [|by eapply some_call_here].
    eapply some_call_set; [done| |by eapply so_new0]. done.
  - intros j q w. case_decide; [by intros [= <-]|]. intros Hq Es.
    destruct (so_stops0 _ _ _ Hq Es) as [? (sw & ? & ?)]. split; [|by eauto]. intros [= E]. by eapply Hne.
  - intros j k q q' w. do 2 case_decide; intros Hq Hq' Es Es'; simplify_eq; by eauto.
  - intros j q w. case_decide; [by intros [= <-]|]. intros Hq Es. destruct (so_waits0 _ _ _ Hq Es) as (? & ? & ?). eauto.
  - intros j q w. case_decide; [intros [= <-] [= <-]; by eauto|]. intros Hq Es.
    destruct (so_spawns0 _ _ _ Hq Es) as (? & ? & ?). eauto.
  - assert (∀ j q, calls !! j = Some q → spawns q = Some (length sws) → False) as Hno.
    { intros j q Hq Es. destruct (so_spawns0 _ _ _ Hq Es) as (? & H & _). by eapply Hne. }
    intros j k q q' w. do 2 case_decide; intros Hq Hq' Es Es'; simplify_eq; [done| | |by eauto];
      [injection Es as <-|injection Es' as <-]; by edestruct Hno.
  - by left.
  - intros j q. case_decide; [congruence|]. by eauto.
Qed.

(** The goroutine starts. *)
Lemma sweepers_ok_spawn ttl chans sws calls i w sw :
  sweepers_ok ttl chans sws calls → calls !! i = Some (TTLSpawning w) → sws !! w = Some sw →
  sweepers_ok ttl chans (<[w := {| sw_stopped := sw_stopped sw; sw_pc := SwLooping |}]> sws) (<[i := TTLReturned]> calls).
Proof.
  intros [] Hi Hw.
  split; try setoid_rewrite (lookup_set _ _ _ _ _ Hi); try setoid_rewrite (lookup_set _ _ _ _ _ Hw); try done.
  - intros w' Hw'. destruct (so_held0 w' Hw') as (? & sw' & ? & ?). split; [done|]. case_decide; [|by eauto].
    subst w'. eexists. split; [done|]. cbn. congruence.
  - intros w' sw'. case_decide; intros Hw' Hs.
    + injection Hw' as <-. subst w'. destruct (so_open0 w sw Hw Hs) as [? [?|?]]; (split; [done|]); [by left|right].
      by eapply some_call_set.
    + destruct (so_open0 w' sw' Hw' Hs) as [? [?|?]]; split; auto. right. by eapply some_call_set.
  - intros w' sw'. case_decide; intros Hw' Hs.
    + injection Hw' as <-. subst w'. destruct (so_closed0 w sw Hw Hs) as [?|?]; [|right; by eapply some_call_set].
      destruct (so_spawns0 _ _ w Hi eq_refl) as (? & ? & ?). congruence.
    + destruct (so_closed0 w' sw' Hw' Hs) as [?|?]; [by left|right]. by eapply some_call_set.
  - intros w' sw'. case_decide; intros Hw' Hs; [by injection Hw' as <-|].
    eapply some_call_set; [done| |by eapply so_new0]. cbn. congruence.
  - intros j q w'. case_decide; [by intros [= <-]|]. intros Hq Es. destruct (so_stops0 _ _ _ Hq Es) as [? (sw' & ? & ?)].
    split; [done|]. case_decide; [|by eauto]. subst w'. eexists. split; [done|]. cbn. congruence.
  - intros j k q q' w'. do 2 case_decide; intros Hq Hq' Es Es'; simplify_eq; by eauto.
  - intros j q w'. case_decide; [by intros [= <-]|]. intros Hq Es. destruct (so_waits0 _ _ _ Hq Es) as (sw' & ? & ?).
    case_decide; [|by eauto]. subst w'. eexists. split; [done|]. cbn. congruence.
  - intros j q w'. case_decide; [by intros [= <-]|]. intros Hq Es. destruct (so_spawns0 _ _ _ Hq Es) as (sw' & ? & ?).
    case_decide; [|by eauto]. subst w'. by destruct (so_spawns_once0 _ _ _ _ w Hi Hq eq_refl Es).
  - intros j k q q' w'. do 2 case_decide; intros Hq Hq' Es Es'; simplify_eq; by eauto.
  - intros Ht. destruct (so_started0 Ht) as [?|?]; [by left|right]. by eapply some_call_set.
  - intros j q. case_decide; [congruence|]. by eauto.
Qed.

(** A sweeper whose channel is closed ends. *)
Lemma sweepers_ok_halt ttl chans sws calls w :
  sweepers_ok ttl chans sws calls → sws !! w = Some {| sw_stopped := true; sw_pc := SwLooping |} →
  sweepers_ok ttl chans (<[w := {| sw_stopped := true; sw_pc := SwExited |}]> sws) calls.
Proof.
  intros [] Hw. split; try setoid_rewrite (lookup_set _ _ _ _ _ Hw); try done.
  - intros w' Hw'. destruct (so_held0 w' Hw') as (? & sw' & ? & ?). split; [done|]. case_decide; [|by eauto].
    subst w'. simplify_eq.
  - intros w' sw'. case_decide; [by intros [= <-]|]. by apply so_open0.
  - intros w' sw'. case_decide; [intros [= <-]; by left|]. by apply so_closed0.
  - intros w' sw'. case_decide; [by intros [= <-]|]. by apply so_new0.
  - intros j q w' Hq Es. destruct (so_stops0 _ _ _ Hq Es) as [? (sw' & ? & ?)]. split; [done|].
    case_decide; [|by eauto]. subst w'. simplify_eq.
  - intros j q w' Hq Es. destruct (so_waits0 _ _ _ Hq Es) as (sw' & ? & ?). case_decide; eauto.
  - intros j q w' Hq Es. destruct (so_spawns0 _ _ _ Hq Es) as (sw' & ? & ?). case_decide; [|by eauto].
    subst w'. simplify_eq.
Qed.

Section progress.
Context `{SF : Singleflight (result Credential)}.
Implicit Types (s : caching).

Definition tidy (s : caching) : Prop :=
  sweepers_ok (cc_ttl (cg_cache s)) (cg_chans s) (cg_sweepers s) (cg_calls s).

Lemma tidy_start : tidy start_caching.
Proof. by split. Qed.

Lemma tidy_ttl s i pc new s' :
  tidy s → cg_calls s !! i = Some pc → is_ttl_call pc = true → ttl_step s i pc = Some (new, s') → tidy s'.
Proof.
  unfold tidy. intros Hok Hi Hp. destruct pc; try done; unfold ttl_step, stopCredentialCacheSweeper.
  - unfold SetTTL_locked. destruct (Z.leb_spec ttl 0).
    { intros [= <- <-]. by eapply sweepers_ok_detach. }
    destruct (negb _) eqn:En.
    { intros [= <- <-]. eapply sweepers_ok_detach; try done. intros _. cbn.
      assert (0 <? sweepInterval ttl = true) as -> by (apply Z.ltb_lt, sweepInterval_pos; lia).
      by destruct (cg_chans s). }
    destruct (cg_chans s) as [w|] eqn:Ec; intros [= <- <-]; cbn; rewrite Ec.
    + eapply sweepers_ok_move; try done; by left.
    + eapply sweepers_ok_detach; try done. intros _. apply Z.ltb_lt, sweepInterval_pos. lia.
  - destruct (after_stop_none start) as (E1 & E2 & E3 & E4 & E5). destruct old as [w|].
    + destruct (cg_sweepers s !! w) as [sw|] eqn:Ew; [|done]. destruct (sw_stopped sw) eqn:Es; intros [= <- <-].
      * destruct (so_stops _ _ _ _ Hok _ _ w Hi eq_refl) as [_ (sw' & ? & ?)]. congruence.
      * by eapply sweepers_ok_close.
    + intros [= <- <-]. eapply sweepers_ok_move; try done; left; rewrite ?E5; done.
  - destruct (after_stop_none start) as (E1 & E2 & E3 & E4 & E5).
    destruct (cg_sweepers s !! old) as [[? []]|] eqn:Ew; try done. intros [= <- <-].
    eapply sweepers_ok_move; try done; [|left; by rewrite E5]. right. by eexists old, _.
  - unfold startSweeper_locked. destruct (Z.leb_spec (cc_ttl (cg_cache s)) 0); cbn [orb].
    { intros [= <- <-]. eapply sweepers_ok_move; try done; [by left|by right; right]. }
    case_bool_decide as Ec.
    { intros [= <- <-]. eapply sweepers_ok_move; try done; [by left|by right; left]. }
    intros [= <- <-]. cbn. eapply sweepers_ok_register; [|lia|done].
    destruct (cg_chans s); [|done]. by destruct Ec.
  - destruct (cg_sweepers s !! w) as [sw|] eqn:Ew; [|done]. intros [= <- <-]. by eapply sweepers_ok_spawn.
Qed.

Lemma SetCredential_ttl c key cred now : cc_ttl (SetCredential c key cred now) = cc_ttl c.
Proof. unfold SetCredential. destruct (_ || _); [done|]. by destruct (_ && _). Qed.
Lemma Get_evict_ttl c key now : cc_ttl (Get_evict c key now) = cc_ttl c.
Proof. unfold Get_evict. destruct (_ !! key); [|done]. by destruct (_ && _). Qed.

(** A call of [fetchCached] goes on: where to, and that the sweepers stay. *)
Lemma fetch_step_frame s i pc t fetched new s' :
  fetch_step s i pc t fetched = Some (new, s') →
  ∃ pc', cg_calls s' = <[i := pc']> (cg_calls s) ∧ is_ttl_call pc' = false ∧
    cc_ttl (cg_cache s') = cc_ttl (cg_cache s) ∧ cg_chans s' = cg_chans s ∧ cg_sweepers s' = cg_sweepers s.
Proof.
  destruct pc; try done; cbn [fetch_step].
  all: repeat case_match; intros E; simplify_eq; eexists; split_and!; try done; cbn.
  all: by rewrite ?Get_evict_ttl, ?SetCredential_ttl.
Qed.

Lemma fetch_plain pc : is_ttl_call pc = false →
  stops pc = None ∧ waits pc = None ∧ spawns pc = None ∧ starts pc = false ∧ pc ≠ TTLPanicked.
Proof. by destruct pc. Qed.

Lemma tidy_event s ev new s' : tidy s → cache_step s ev = Some (new, s') → tidy s'.
Proof.
  intros Hok. destruct ev as [ttl|key now|i t fetched|w t|w]; cbn [cache_step].
  - intros [= <- <-]. by apply sweepers_ok_add.
  - intros [= <- <-]. by apply sweepers_ok_add.
  - destruct (cg_calls s !! i) as [pc|] eqn:Hi; [|done]. cbn [mbind option_bind].
    destruct (is_ttl_call pc) eqn:Ep; [intros; by eapply tidy_ttl|].
    intros (pc' & Ec & Ep' & Et & Eh & Es)%fetch_step_frame. unfold tidy. rewrite Ec, Et, Eh, Es.
    destruct (fetch_plain _ Ep) as (?&?&?&?&?), (fetch_plain _ Ep') as (?&?&?&?&?).
    eapply sweepers_ok_move; try done; try congruence; left; congruence.
  - destruct (cg_sweepers s !! w) as [[st []]|]; try done. by intros [= <- <-].
  - destruct (cg_sweepers s !! w) as [[[] []]|] eqn:Ew; try done. intros [= <- <-]. by eapply sweepers_ok_halt.
Qed.

(** ** Progress *)

Definition returned (pc : call) : Prop := match pc with TTLReturned | FetchReturned _ _ => True | _ => False end.

#[global] Instance returned_dec pc : Decision (returned pc).
Proof. destruct pc; apply _. Defined.

(** How many steps a call has left at most, and a sweeper. *)
Definition weight (pc : call) : nat :=
  match pc with
  | TTLCalled _ => 9 | TTLStopping _ _ => 8 | TTLWaiting _ _ => 7 | TTLStarting _ => 6 | TTLSpawning _ => 4
  | FetchCalled _ _ => 12 | FetchEvict _ _ => 11 | FetchStale _ _ => 10 | FetchJoin _ _ => 9
  | FetchInner _ _ => 8 | FetchInnerEvict _ _ _ => 7 | FetchRunning _ _ => 6 | FetchStoring _ _ _ => 5
  | FetchEnding _ _ _ => 4 | FetchWaiting _ _ _ => 3 | FetchGot _ _ _ => 2
  | _ => 0
  end%nat.

Definition alive (sw : sweeper) : nat := match sw_pc sw with SwExited => 0 | _ => 1 end%nat.

Definition remaining (s : caching) : nat :=
  (sum_list_with weight (cg_calls s) + sum_list_with alive (cg_sweepers s))%nat.

Lemma sum_set {A} (f : A → nat) l i x y :
  l !! i = Some x → (sum_list_with f (<[i := y]> l) + f x = sum_list_with f l + f y)%nat.
Proof.
  revert i. induction l as [|a l IH]; intros [|i] H; [done..| |].
  - injection H as ->. cbn. lia.
  - specialize (IH i H). change (<[S i := y]> (a :: l)) with (a :: <[i := y]> l). cbn [sum_list_with]. lia.
Qed.

Lemma remaining_set s s' i pc pc' :
  cg_calls s !! i = Some pc → cg_calls s' = <[i := pc']> (cg_calls s) →
  (weight pc' + sum_list_with alive (cg_sweepers s') < weight pc + sum_list_with alive (cg_sweepers s))%nat →
  (remaining s' < remaining s)%nat.
Proof. intros Hi Hc. unfold remaining. rewrite Hc. pose proof (sum_set weight _ _ _ pc' Hi). lia. Qed.

Definition waiting (pc : call) : bool := match pc with TTLWaiting _ _ | FetchWaiting _ _ _ => true | _ => false end.

Lemma after_stop_weight start : (weight (after_stop start) ≤ 6)%nat.
Proof. destruct start as [iv|]; cbn; [|lia]. destruct (iv <=? 0); cbn; lia. Qed.

Lemma ttl_enabled s i pc :
  tidy s → cg_calls s !! i = Some pc → is_ttl_call pc = true → waiting pc = false → ¬ returned pc →
  ∃ new s', ttl_step s i pc = Some (new, s') ∧ (remaining s' < remaining s)%nat.
Proof.
  intros Hok Hi Hp Hw Hr. destruct pc; try done; unfold ttl_step, stopCredentialCacheSweeper.
  - pose proof (SetTTL_locked_frame s ttl) as (_ & Hc & Hs).
    destruct (SetTTL_locked s ttl) as [[old start] s1]. cbn [snd] in *. do 2 eexists. split; [done|].
    eapply (remaining_set _ _ i _ (TTLStopping old start)); [done|cbn; by rewrite Hc|]. cbn. rewrite Hs. lia.
  - destruct old as [w|].
    + destruct (so_stops _ _ _ _ Hok _ _ w Hi eq_refl) as [_ (sw & Ew & Es)]. rewrite Ew, Es.
      do 2 eexists. split; [done|]. eapply remaining_set; [done..|]. cbn.
      pose proof (sum_set alive _ _ _ {| sw_stopped := true; sw_pc := sw_pc sw |} Ew) as E. unfold alive in *. cbn in *. lia.
    + do 2 eexists. split; [done|]. eapply remaining_set; [done..|]. cbn [weight]. pose proof (after_stop_weight start).
      cbn. lia.
  - unfold startSweeper_locked. destruct (_ || _); do 2 eexists; (split; [done|]);
      (eapply remaining_set; [done..|]); cbn; [lia|]. rewrite sum_list_with_app. cbn. lia.
  - destruct (so_spawns _ _ _ _ Hok _ _ w Hi eq_refl) as (sw & Ew & Es). rewrite Ew. do 2 eexists. split; [done|].
    eapply remaining_set; [done..|]. cbn.
    pose proof (sum_set alive _ _ _ {| sw_stopped := sw_stopped sw; sw_pc := SwLooping |} Ew) as E.
    unfold alive in *. cbn in *. rewrite Es in E. lia.
  - by destruct (so_calm _ _ _ _ Hok _ _ Hi).
Qed.

Lemma fetch_enabled s i pc t fetched :
  cg_calls s !! i = Some pc → is_ttl_call pc = false → waiting pc = false → ¬ returned pc →
  ∃ new s', fetch_step s i pc t fetched = Some (new, s') ∧ (remaining s' < remaining s)%nat.
Proof.
  intros Hi Hp Hw Hr. destruct pc; try done; cbn [fetch_step]; try by destruct Hr.
  all: repeat case_match; do 2 eexists; (split; [done|]); (eapply remaining_set; [done..|]); cbn; lia.
Qed.

(** A call that waits for a flight waits for a call that leads it, or the flight
    has ended. *)
Definition waits_ok (s : caching) : Prop :=
  ∀ i key stale j, cg_calls s !! i = Some (FetchWaiting key stale j) → outcome (cg_group s) j = None →
    ∃ pc, cg_calls s !! j = Some pc ∧ is_Some (leading pc).

Lemma waits_ok_set s s' i pc pc' :
  waits_ok s → cg_calls s !! i = Some pc → cg_calls s' = <[i := pc']> (cg_calls s) →
  (∀ j, outcome (cg_group s') j = None → outcome (cg_group s) j = None) →
  (outcome (cg_group s') i = None → is_Some (leading pc) → is_Some (leading pc')) →
  (∀ key stale j, pc' = FetchWaiting key stale j → ∃ q, cg_calls s !! j = Some q ∧ is_Some (leading q)) →
  waits_ok s'.
Proof.
  intros Hok Hi Hc Hout Hlead Hnew a key stale j. rewrite Hc, !(lookup_set _ _ _ _ _ Hi). intros Ha Ho.
  assert (∃ q, cg_calls s !! j = Some q ∧ is_Some (leading q)) as (q & Hq & Hl).
  { case_decide; [injection Ha as Ha; by eapply Hnew|]. eapply Hok; [done|by apply Hout]. }
  destruct (decide (i = j)) as [<-|]; [|by exists q]. exists pc'. split; [done|]. apply Hlead; [done|]. congruence.
Qed.

Lemma after_stop_ttl start : is_ttl_call (after_stop start) = true.
Proof. destruct start as [iv|]; [|done]. unfold after_stop. by destruct (iv <=? 0). Qed.

Lemma waits_ok_ttl s i pc new s' :
  waits_ok s → cg_calls s !! i = Some pc → is_ttl_call pc = true → ttl_step s i pc = Some (new, s') → waits_ok s'.
Proof.
  intros Hok Hi Hp E.
  assert (∃ pc', cg_calls s' = <[i := pc']> (cg_calls s) ∧ is_ttl_call pc' = true ∧ cg_group s' = cg_group s)
    as (pc' & Hc & Hp' & Hg).
  { destruct pc; try done; unfold ttl_step, stopCredentialCacheSweeper in E.
    - pose proof (SetTTL_locked_frame s ttl) as (? & ? & _). destruct (SetTTL_locked s ttl) as [[old start] s1].
      cbn [snd] in *. simplify_eq. eexists. split_and!; [cbn; by f_equal|done..].
    - repeat case_match; simplify_eq; eexists; (split_and!; [done| |done]); apply after_stop_ttl || done.
    - repeat case_match; simplify_eq; eexists; (split_and!; [done|apply after_stop_ttl|done]).
    - pose proof (startSweeper_locked_frame s interval) as (? & ? & _).
      destruct (startSweeper_locked s interval) as [[w|] s1]; cbn [snd] in *; simplify_eq;
        eexists; (split_and!; [cbn; by f_equal|done..]).
    - repeat case_match; simplify_eq; eexists; by split_and!. }
  eapply waits_ok_set; try done; rewrite ?Hg; try done; [by destruct pc; intros _ []|by destruct pc'].
Qed.

Lemma waits_ok_fetch log s i pc t fetched new s' :
  run_ok log s → waits_ok s → cg_calls s !! i = Some pc → fetch_step s i pc t fetched = Some (new, s') → waits_ok s'.
Proof.
  intros Hrun Hok Hi. destruct pc; try done; cbn [fetch_step].
  4: { destruct (running (cg_group s) key) as [j|] eqn:Er; intros [= <- <-]; eapply waits_ok_set; try done.
       - intros ??? [= <- <- <-]. apply (ro_flights _ _ Hrun) in Er as (q & Hq & El). exists q. by rewrite El.
       - intros j. cbn. by rewrite outcome_begin. }
  8: { assert (running (cg_group s) key = Some i) as Er by (apply (ro_flights _ _ Hrun); by eexists).
       intros [= <- <-]. eapply waits_ok_set; try done.
       - intros j. cbn. rewrite (outcome_end _ _ _ _ _ Er). by case_decide.
       - cbn. by rewrite (outcome_end _ _ _ _ _ Er), decide_True. }
  all: repeat case_match; intros E; simplify_eq; eapply waits_ok_set; try done; by intros ? [].
Qed.

Lemma waits_ok_event log s ev new s' :
  run_ok log s → waits_ok s → cache_step s ev = Some (new, s') → waits_ok s'.
Proof.
  intros Hrun Hok.
  assert (∀ pc, (∀ key stale j, pc ≠ FetchWaiting key stale j) → waits_ok (add_call s pc)) as Hadd.
  { intros pc Hpc i key stale j Hi Ho. apply lookup_app_Some in Hi as [Hi|[_ Hi]].
    - destruct (Hok _ _ _ _ Hi Ho) as (q & Hq & Hl). exists q. split; [by apply lookup_app_l_Some|done].
    - apply list_lookup_singleton_Some in Hi as [_ Hi]. by destruct (Hpc key stale j). }
  destruct ev as [ttl|key now|i t fetched|w t|w]; cbn [cache_step].
  - intros [= <- <-]. by apply Hadd.
  - intros [= <- <-]. by apply Hadd.
  - destruct (cg_calls s !! i) as [pc|] eqn:Hi; [|done]. cbn [mbind option_bind].
    destruct (is_ttl_call pc) eqn:Ep; intros; [by eapply waits_ok_ttl|by eapply waits_ok_fetch].
  - destruct (cg_sweepers s !! w) as [[st []]|]; try done. by intros [= <- <-].
  - destruct (cg_sweepers s !! w) as [[[] []]|]; try done. by intros [= <- <-].
Qed.

(** All that holds of the states of a run. *)
Definition sound (s : caching) : Prop := (∃ log, run_ok log s) ∧ tidy s ∧ waits_ok s.

Lemma sound_event s ev new s' : sound s → cache_step s ev = Some (new, s') → sound s'.
Proof.
  intros ((log & Hrun) & Hok & Hw) E. split_and!.
  - eexists. by eapply run_ok_event.
  - by eapply tidy_event.
  - by eapply waits_ok_event.
Qed.

Lemma sound_run evs s log s' : sound s → cache_run s evs = Some (log, s') → sound s'.
Proof.
  revert s log. induction evs as [|ev evs IH]; intros s log Hok; cbn [cache_run]; [by intros [= <- <-]|].
  destruct (cache_step s ev) as [[new s1]|] eqn:E; [|done]. cbn [mbind option_bind].
  destruct (cache_run s1 evs) as [[log' s2]|] eqn:E'; [|done]. intros [= <- <-].
  eapply IH; [|done]. by eapply sound_event.
Qed.

Lemma sound_start : sound start_caching.
Proof. split_and!; [exists []; apply run_ok_start|apply tidy_start|done]. Qed.

(** A step of a call is possible whatever the clock shows and a fetch returns. *)
Definition can_step (s : caching) (i : nat) : Prop := ∀ t fetched, is_Some (cache_step s (EvStep i t fetched)).

Lemma enabled s i pc :
  tidy s → cg_calls s !! i = Some pc → waiting pc = false → ¬ returned pc → can_step s i.
Proof.
  intros Hok Hi Hw Hr t fetched. cbn [cache_step]. rewrite Hi. cbn [mbind option_bind].
  destruct (is_ttl_call pc) eqn:Ep.
  - destruct (ttl_enabled _ _ _ Hok Hi Ep Hw Hr) as (new & s' & E & _). by rewrite E.
  - destruct (fetch_enabled s i pc t fetched Hi Ep Hw Hr) as (new & s' & E & _). by rewrite E.
Qed.

(** As long as a call has not returned, one of the calls or sweepers can go on. *)
Lemma no_deadlock s :
  sound s → ¬ Forall returned (cg_calls s) → (∃ i, can_step s i) ∨ ∃ w, is_Some (cache_step s (EvHalt w)).
Proof.
  intros (_ & Hok & Hwaits) (pc & (i & Hi)%list_elem_of_lookup & Hr)%not_Forall_Exists%Exists_exists; [|apply _].
  destruct (waiting pc) eqn:Ew; [|left; exists i; by eapply enabled]. destruct pc; try done; cbn in Ew.
  - destruct (so_waits _ _ _ _ Hok _ _ old Hi eq_refl) as (sw & Esw & Est).
    destruct sw as [st []]; cbn in Est; subst st.
    + destruct (so_new _ _ _ _ Hok _ _ Esw eq_refl) as (j & q & Hj & Hs).
      left. exists j. eapply enabled; try done; by destruct q.
    + right. exists old. cbn [cache_step]. by rewrite Esw.
    + left. exists i. intros t fetched. cbn [cache_step]. rewrite Hi. cbn [mbind option_bind is_ttl_call ttl_step].
      by rewrite Esw.
  - destruct (outcome (cg_group s) j) as [r|] eqn:Eo.
    + left. exists i. intros t fetched. cbn [cache_step]. rewrite Hi. cbn [mbind option_bind is_ttl_call fetch_step].
      by rewrite Eo.
    + destruct (Hwaits _ _ _ _ Hi Eo) as (q & Hj & Hl). left. exists j. eapply enabled; try done; destruct q; by try destruct Hl.
Qed.

(** What goes on without new calls, and what of it is not a tick. *)
Definition internal (ev : cache_event) : Prop := match ev with EvSetTTL _ | EvFetch _ _ => False | _ => True end.
Definition works (ev : cache_event) : bool := match ev with EvStep _ _ _ | EvHalt _ => true | _ => false end.

Lemma call_step_decreases s i pc t fetched new s' :
  tidy s → cg_calls s !! i = Some pc → cache_step s (EvStep i t fetched) = Some (new, s') →
  (remaining s' < remaining s)%nat.
Proof.
  intros Hok Hi. cbn [cache_step]. rewrite Hi. cbn [mbind option_bind].
  destruct (decide (returned pc)) as [Hr|Hr]; [by destruct pc|]. destruct (waiting pc) eqn:Ew.
  - destruct pc; try done; cbn [is_ttl_call].
    + cbn [ttl_step]. destruct (cg_sweepers s !! old) as [[st []]|]; try done. intros [= <- <-].
      eapply remaining_set; [done..|]. pose proof (after_stop_weight start). cbn [weight cg_sweepers goto]. lia.
    + cbn [fetch_step]. destruct (outcome _ _); [|done]. intros [= <- <-]. eapply remaining_set; [done..|]. cbn. lia.
  - destruct (is_ttl_call pc) eqn:Ep.
    + destruct (ttl_enabled _ _ _ Hok Hi Ep Ew Hr) as (n & s1 & E & Hlt). rewrite E. by intros [= _ <-].
    + destruct (fetch_enabled s i pc t fetched Hi Ep Ew Hr) as (n & s1 & E & Hlt). rewrite E. by intros [= _ <-].
Qed.

Lemma step_decreases s ev new s' :
  tidy s → internal ev → cache_step s ev = Some (new, s') →
  (remaining s' + (if works ev then 1 else 0) ≤ remaining s)%nat.
Proof.
  intros Hok Hint E. destruct ev as [ttl|key now|i t fetched|w t|w]; try done; cbn [works].
  - destruct (cg_calls s !! i) as [pc|] eqn:Hi; [|cbn [cache_step] in E; by rewrite Hi in E].
    pose proof (call_step_decreases _ _ _ _ _ _ _ Hok Hi E). lia.
  - cbn [cache_step] in E. destruct (cg_sweepers s !! w) as [[st []]|]; try done. injection E as <- <-. unfold remaining. cbn. lia.
  - cbn [cache_step] in E. destruct (cg_sweepers s !! w) as [[[] []]|] eqn:Ew; try done. injection E as <- <-.
    unfold remaining. cbn [cg_calls cg_sweepers with_sweepers].
    pose proof (sum_set alive _ _ _ {| sw_stopped := true; sw_pc := SwExited |} Ew) as E. cbn in E. lia.
Qed.

(** No schedule takes more steps than the calls have left. *)
Lemma run_bounded evs s log s' :
  sound s → Forall internal evs → cache_run s evs = Some (log, s') →
  (remaining s' + length (filter (λ ev, works ev = true) evs) ≤ remaining s)%nat.
Proof.
  revert s log. induction evs as [|ev evs IH]; intros s log Hs Hint; cbn [cache_run].
  { intros [= <- <-]. cbn. lia. }
  inversion Hint as [|? ? Hev Hevs]; subst.
  destruct (cache_step s ev) as [[new s1]|] eqn:E; [|done]. cbn [mbind option_bind].
  destruct (cache_run s1 evs) as [[log' s2]|] eqn:E'; [|done]. intros [= <- <-].
  pose proof (step_decreases _ _ _ _ (proj1 (proj2 Hs)) Hev E) as H1.
  pose proof (IH _ _ (sound_event _ _ _ _ Hs E) Hevs E') as H2.
  destruct (works ev) eqn:Ew; [rewrite filter_cons_True by done; cbn [length]|rewrite filter_cons_False by congruence]; lia.
Qed.

(** When no call is under way, just the sweeper the cache holds runs, and it
    holds one exactly when it has a time to live. *)
Lemma sweepers_at_rest s :
  tidy s → Forall returned (cg_calls s) →
  (0 < cc_ttl (cg_cache s) ↔ is_Some (cg_chans s)) ∧
  ∀ w sw, cg_sweepers s !! w = Some sw →
    sw = if bool_decide (cg_chans s = Some w) then {| sw_stopped := false; sw_pc := SwLooping |}
         else {| sw_stopped := true; sw_pc := SwExited |}.
Proof.
  intros Hok Hr. assert (∀ P : call → Prop, (∀ pc, returned pc → P pc → False) → some_call (cg_calls s) P → False) as Hno.
  { intros P HP (i & pc & Hi & H). eapply HP, H. eapply Forall_lookup_1; done. }
  split.
  - split; [|by intros [w Hw]; destruct (so_held _ _ _ _ Hok _ Hw)].
    intros Ht. destruct (so_started _ _ _ _ Hok Ht) as [?|H]; [done|]. exfalso. eapply Hno, H. by intros [].
  - intros w sw Hw. destruct sw as [st pc].
    assert (pc ≠ SwNew) as Hn.
    { intros ->. refine (Hno (λ pc, spawns pc = Some w) _ (so_new _ _ _ _ Hok _ _ Hw eq_refl)). by intros []. }
    destruct st.
    + case_bool_decide as Ec.
      { destruct (so_held _ _ _ _ Hok _ Ec) as (_ & sw & ? & ?). simplify_eq. }
      destruct (so_closed _ _ _ _ Hok _ _ Hw eq_refl) as [E|H]; [cbn in E; by subst|].
      exfalso. eapply Hno, H. by intros [].
    + destruct (so_open _ _ _ _ Hok _ _ Hw eq_refl) as [Hp [E|H]]; [|exfalso; eapply Hno, H; by intros []].
      rewrite bool_decide_true by done. by destruct pc.
Qed.

(** C33: No interleaving of calls of the cache blocks or panics: in every state that
    calls of [SetTTL] and [fetchCached], sweepers and ticks lead to no channel has
    been closed twice; without new calls every schedule takes a bounded number of
    steps besides ticks, and as long as a call has not returned some call or sweeper
    can take one, whatever the clock shows and the fetches return; and when all have
    returned, the only sweeper that runs is the one the cache holds, which it does
    exactly when it has a time to live. *)
Theorem cache_calls_return evs log s :
  cache_run start_caching evs = Some (log, s) →
  (∀ i, cg_calls s !! i ≠ Some TTLPanicked) ∧
  (∀ evs' log' s', Forall internal evs' → cache_run s evs' = Some (log', s') →
     (length (filter (λ ev, works ev = true) evs') ≤ remaining s)%nat) ∧
  ((∃ i, can_step s i) ∨ (∃ w, is_Some (cache_step s (EvHalt w))) ∨
   Forall returned (cg_calls s) ∧
   (0 < cc_ttl (cg_cache s) ↔ is_Some (cg_chans s)) ∧
   ∀ w sw, cg_sweepers s !! w = Some sw →
     sw = if bool_decide (cg_chans s = Some w) then {| sw_stopped := false; sw_pc := SwLooping |}
          else {| sw_stopped := true; sw_pc := SwExited |}).
Proof.
  intros H. pose proof (sound_run _ _ _ _ sound_start H) as Hs. pose proof (proj1 (proj2 Hs)) as Hok. split_and!.
  - intros i Hi. by destruct (so_calm _ _ _ _ Hok _ _ Hi).
  - intros evs' log' s' Hint E. pose proof (run_bounded _ _ _ _ Hs Hint E). lia.
  - destruct (decide (Forall returned (cg_calls s))) as [Hr|Hr]; [right; right; split; [done|by apply sweepers_at_rest]|].
    destruct (no_deadlock s Hs Hr); [by left|right; by left].
Qed.
End progress.

(** ** A run, and the properties at it

    The cache is given a minute; two calls ask for one key while its flight is on,
    a third finds the value; then the cache is turned off. *)

Definition demo_cred : Credential := {| c_Value := "s3cret"; c_ExpiresAt := zero_time |}.
Definition demo_fail : result Credential := Err (Sentinel "vault").
Definition demo_events : list cache_event :=
  [EvSetTTL Minute; EvStep 0 1 demo_fail; EvStep 0 1 demo_fail; EvStep 0 2 demo_fail; EvStep 0 2 demo_fail;
   EvFetch "k" 5; EvStep 1 5 demo_fail; EvStep 1 5 demo_fail; EvStep 1 5 demo_fail; EvStep 1 6 demo_fail;
   EvFetch "k" 7; EvStep 2 7 demo_fail; EvStep 2 7 demo_fail; EvStep 2 7 demo_fail; EvTick 0 8;
   EvStep 1 8 (Ok demo_cred); EvStep 1 9 demo_fail; EvStep 1 9 demo_fail; EvStep 2 9 demo_fail; EvStep 2 9 demo_fail;
   EvFetch "k" 10; EvStep 3 10 demo_fail; EvFetch "other" 11; EvStep 4 11 demo_fail; EvStep 4 11 demo_fail;
   EvStep 4 11 demo_fail; EvFetch "other" 12; EvStep 5 12 demo_fail; EvStep 5 12 demo_fail; EvStep 5 12 demo_fail;
   EvSetTTL 0; EvStep 6 13 demo_fail; EvStep 6 13 demo_fail].

(** Where the calls are then: two have to wait, for a flight and for a sweeper. *)
Lemma demo_calls :
  (λ x, (x.1 !! 3%nat, cg_calls x.2)) <$> cache_run start_caching demo_events =
  Some (Some (LBegin 1 "k"),
    [TTLReturned; FetchGot "k" None (Ok demo_cred); FetchReturned "k" (Ok demo_cred);
     FetchReturned "k" (Ok demo_cred); FetchInner "other" None; FetchWaiting "other" None 4; TTLWaiting 0 None]).
Proof. vm_compute. reflexivity. Qed.

Lemma concurrent_fetch_fresh_witness :
  ∃ log s, cache_run start_caching demo_events = Some (log, s) ∧
    cg_calls s !! 2%nat = Some (FetchReturned "k" (Ok demo_cred)) ∧ ∃ j, j = 2%nat ∨ LJoin 2 "k" j ∈ log.
Proof.
  pose proof demo_calls as Hc.
  destruct (cache_run start_caching demo_events) as [[log s]|] eqn:E; [|discriminate Hc].
  assert (cg_calls s !! 2%nat = Some (FetchReturned "k" (Ok demo_cred))) as Hi.
  { cbn in Hc. injection Hc as _ Hc. rewrite Hc. reflexivity. }
  exists log, s. split; [done|]. split; [done|].
  destruct (concurrent_fetch_fresh demo_events log s 2 "k" demo_cred E Hi) as (j & Hj & _). by exists j.
Defined.

(** Two calls wait then; the flight's leader, the sweeper and others can go on. *)
Lemma cache_calls_return_witness :
  ∃ log s, cache_run start_caching demo_events = Some (log, s) ∧
    (∀ i, cg_calls s !! i ≠ Some TTLPanicked) ∧ remaining s = 21%nat ∧
    ∀ evs' log' s', Forall internal evs' → cache_run s evs' = Some (log', s') →
      (length (filter (λ ev, works ev = true) evs') ≤ 21)%nat.
Proof.
  assert (remaining ∘ snd <$> cache_run start_caching demo_events = Some 21%nat) as Hn by (vm_compute; reflexivity).
  destruct (cache_run start_caching demo_events) as [[log s]|] eqn:E; [|discriminate Hn].
  assert (remaining s = 21%nat) as Er by (cbn in Hn; injection Hn as Hn; exact Hn).
  destruct (cache_calls_return demo_events log s E) as (Hp & Hb & _). rewrite Er in Hb.
  exists log, s. by split_and!.
Defined.

(** A fetch that is under way while a reload gives the cache another time to live,
    and so empties it, stores its value afterwards, and later calls are served it. *)
Example inflight_outlives_reload :
  (λ x, last (cg_calls x.2)) <$> cache_run start_caching
    [EvSetTTL Minute; EvStep 0 1 demo_fail; EvStep 0 1 demo_fail; EvStep 0 2 demo_fail; EvStep 0 2 demo_fail;
     EvFetch "k" 5; EvStep 1 5 demo_fail; EvStep 1 5 demo_fail; EvStep 1 5 demo_fail; EvStep 1 6 demo_fail;
     EvSetTTL (2 * Minute); EvStep 2 7 demo_fail; EvStep 2 7 demo_fail; EvHalt 0; EvStep 2 7 demo_fail;
     EvStep 2 7 demo_fail; EvStep 2 7 demo_fail;
     EvStep 1 8 (Ok demo_cred); EvStep 1 9 demo_fail; EvFetch "k" 10; EvStep 3 10 demo_fail] =
  Some (Some (FetchReturned "k" (Ok demo_cred))).
Proof. vm_compute. reflexivity. Qed.
