(* ===== verification/Sources.v ===== *)
(** Package [internal/credentials]: the credential sources ([parser.go],
    [credentials.go], [file.go], [execjson.go], [onepassword.go],
    [bitwarden.go], [vault.go], [age.go], [jq.go], [resolve.go]).

    Fetching runs programs and changes the package's state (the cache, the
    Bitwarden session): it is a state and error monad [M] over [sys], which also
    records every command run. What a command answers is taken from the list
    [s_replies], so a theorem holds whatever the commands answer. Files are the
    class [Files]; JSON decoding of a reply, [gojq] and [age] are parameters. *)

From S2P Require Import Prelude GoStrings GoTime GoPath Paths ConfigTypes CredCache Framing Json.
Local Open Scope Z_scope.

(** ** Sources ([parser.go]) *)

Inductive Backend :=
  | BackendPass | BackendEnv | Backend1Password | BackendAge | BackendKeychain
  | BackendBitwarden | BackendVault | BackendExecJSON | BackendFile.

#[export] Instance Backend_eq_dec : EqDecision Backend.
Proof. solve_decision. Defined.

Definition backend_string (b : Backend) : string :=
  match b with
  | BackendPass => "pass" | BackendEnv => "env" | Backend1Password => "op" | BackendAge => "age"
  | BackendKeychain => "keychain" | BackendBitwarden => "bw" | BackendVault => "vault"
  | BackendExecJSON => "exec-json" | BackendFile => "file"
  end.

Record ParsedSource := {
  ps_Backend : Backend;
  ps_Path : string;
  ps_JQExpr : string;
  ps_Original : string;
}.

Definition HasJQ (p : ParsedSource) : bool := negb (bool_decide (ps_JQExpr p = "")).

(** The prefixes tried in order; [op://] references are kept whole. *)
Definition source_prefixes : list (string * Backend) :=
  [("bw:", BackendBitwarden); ("keychain:", BackendKeychain); ("age:", BackendAge); ("pass:", BackendPass);
   ("env:", BackendEnv); ("vault:", BackendVault); ("file:", BackendFile); ("exec-json:", BackendExecJSON)].

Fixpoint match_prefix (l : list (string * Backend)) (source : string) : Backend * string :=
  match l with
  | [] => (BackendPass, source)
  | (p, b) :: l => if HasPrefix source p then (b, TrimPrefix source p) else match_prefix l source
  end.

Definition source_backend (source : string) : Backend * string :=
  if HasPrefix source "op://" then (Backend1Password, source) else match_prefix source_prefixes source.

Definition ParseSource (source : string) : result ParsedSource :=
  if bool_decide (source = "") then Err (Errorf "empty credential source" [])
  else
    let original := source in
    (match Index source " | " with
     | Some idx =>
       let jqExpr := TrimSpace (SliceFrom source (idx + 3)) in
       let source := TrimSpace (SliceTo source idx) in
       if bool_decide (jqExpr = "") then Err (Errorf "empty jq expression after pipe in %q" [FS original])
       else Ok (source, jqExpr)
     | None => Ok (source, "")
     end) ≫= λ '(source, jqExpr),
    let '(backend, path) := source_backend source in
    if bool_decide (path = "") then Err (Errorf "empty path in credential source %q" [FS original])
    else if bool_decide (backend = BackendExecJSON) && negb (bool_decide (jqExpr = "")) then
      Err (Errorf "exec-json backend does not support jq extraction in %q" [FS original])
    else Ok {| ps_Backend := backend; ps_Path := path; ps_JQExpr := jqExpr; ps_Original := original |}.

Definition isCredentialCacheableBackend (b : Backend) : bool :=
  bool_decide (b ∈ [Backend1Password; BackendBitwarden; BackendVault; BackendExecJSON]).

Definition NULs : string := String "000" "".

Definition credentialCacheKey (p : ParsedSource) : string :=
  backend_string (ps_Backend p) +:+ NULs +:+ ps_Path p +:+ NULs +:+ ps_JQExpr p.

(** ** Options ([credentials.go]) *)

Record FetchOptions := {
  fo_PassBinary : string;
  fo_OPBinary : string;
  fo_BWBinary : string;
  fo_VaultBinary : string;
  fo_BypassCache : bool;
}.

Definition FetchOption := FetchOptions → FetchOptions.

Definition WithPassBinary (path : string) : FetchOption := λ o,
  {| fo_PassBinary := path; fo_OPBinary := fo_OPBinary o; fo_BWBinary := fo_BWBinary o;
     fo_VaultBinary := fo_VaultBinary o; fo_BypassCache := fo_BypassCache o |}.
Definition WithOPBinary (path : string) : FetchOption := λ o,
  {| fo_PassBinary := fo_PassBinary o; fo_OPBinary := path; fo_BWBinary := fo_BWBinary o;
     fo_VaultBinary := fo_VaultBinary o; fo_BypassCache := fo_BypassCache o |}.
Definition WithBWBinary (path : string) : FetchOption := λ o,
  {| fo_PassBinary := fo_PassBinary o; fo_OPBinary := fo_OPBinary o; fo_BWBinary := path;
     fo_VaultBinary := fo_VaultBinary o; fo_BypassCache := fo_BypassCache o |}.
Definition WithVaultBinary (path : string) : FetchOption := λ o,
  {| fo_PassBinary := fo_PassBinary o; fo_OPBinary := fo_OPBinary o; fo_BWBinary := fo_BWBinary o;
     fo_VaultBinary := path; fo_BypassCache := fo_BypassCache o |}.
Definition WithBypassCache : FetchOption := λ o,
  {| fo_PassBinary := fo_PassBinary o; fo_OPBinary := fo_OPBinary o; fo_BWBinary := fo_BWBinary o;
     fo_VaultBinary := fo_VaultBinary o; fo_BypassCache := true |}.

(** ** Commands and the package's state *)

Record command := {
  cmd_path : string;
  cmd_args : list string;
  (** [None]: the daemon's own environment *)
  cmd_env : option (list string);
}.

Inductive reply :=
  | Output (out : bytes)
  | ExitError (code : Z) (stderr : bytes)
  | TimedOut
  | NotRun (text : string).

Record bwSession := {
  bw_token : string;
  bw_dataDir : string;
  bw_binary : string;
  bw_loggedIn : bool;
}.

Record vaultConfig := {
  vaultAddr : string;
  vaultSkipVerify : option bool;
  vaultCACert : string;
  vaultNamespace : string;
  vaultTokenFile : string;
}.

Record sys := {
  s_log : list command;
  s_replies : list reply;
  s_clock : list time;
  s_cache : credentialCache;
  s_bw : option bwSession;
  (** whether the next [os.MkdirTemp] fails, and the name it gives *)
  s_tempdir : result string;
  s_vault : vaultConfig;
  s_opTokenFile : string;
  s_ageIdentityFile : string;
}.

Definition M (A : Type) : Type := sys → result A * sys.

#[export] Instance M_ret : MRet M := λ A a s, (Ok a, s).
#[export] Instance M_bind : MBind M := λ A B f m s,
  match m s with (Ok a, s) => f a s | (Err e, s) => (Err e, s) end.

Definition lift {A} (r : result A) : M A := λ s, (r, s).
Definition fail {A} (e : error) : M A := λ s, (Err e, s).
(** [if err != nil { return fmt.Errorf(...) }] with an error that hides the cause. *)
Definition or_fail {A} (m : M A) (e : error) : M A := λ s,
  match m s with (Ok a, s) => (Ok a, s) | (Err _, s) => (Err e, s) end.
Definition get {A} (f : sys → A) : M A := λ s, (Ok (f s), s).

(** [cmd.Output()]. *)
Definition run_command (c : command) : M reply := λ s,
  let '(r, rs) := match s_replies s with [] => (NotRun "exec: no such file", []) | r :: rs => (r, rs) end in
  (Ok r, {| s_log := s_log s ++ [c]; s_replies := rs; s_clock := s_clock s; s_cache := s_cache s;
            s_bw := s_bw s; s_tempdir := s_tempdir s; s_vault := s_vault s;
            s_opTokenFile := s_opTokenFile s; s_ageIdentityFile := s_ageIdentityFile s |}).

Definition set_bw (bw : option bwSession) : M unit := λ s,
  (Ok tt, {| s_log := s_log s; s_replies := s_replies s; s_clock := s_clock s; s_cache := s_cache s;
             s_bw := bw; s_tempdir := s_tempdir s; s_vault := s_vault s;
             s_opTokenFile := s_opTokenFile s; s_ageIdentityFile := s_ageIdentityFile s |}).

Definition set_cache (c : credentialCache) (s : sys) : sys :=
  {| s_log := s_log s; s_replies := s_replies s; s_clock := s_clock s; s_cache := c; s_bw := s_bw s;
     s_tempdir := s_tempdir s; s_vault := s_vault s; s_opTokenFile := s_opTokenFile s;
     s_ageIdentityFile := s_ageIdentityFile s |}.

(** [credentialCacheNow()]. *)
Definition read_clock : M time := λ s,
  (Ok (hd 0 (s_clock s)),
   {| s_log := s_log s; s_replies := s_replies s; s_clock := tl (s_clock s); s_cache := s_cache s;
      s_bw := s_bw s; s_tempdir := s_tempdir s; s_vault := s_vault s;
      s_opTokenFile := s_opTokenFile s; s_ageIdentityFile := s_ageIdentityFile s |}).

(** ** Files *)

Record file_info := {
  fi_regular : bool;
  fi_perm : Z;
  (** [None]: the platform's stat has no owner *)
  fi_uid : option Z;
  fi_data : result bytes;
}.

Class Files := {
  (** [unix.Open] with [O_NOFOLLOW], and [os.Open]; the inner error is [Stat]'s. *)
  open_nofollow : string → result (result file_info);
  open_follow : string → result (result file_info);
  (** [os.Stat] succeeds *)
  stat_ok : string → bool;
  (** [os.Lstat]'s error *)
  lstat : string → option error;
  euid : Z;
}.

Definition ELOOP : error := Sentinel "ELOOP".
Definition ENOENT : error := Sentinel "ENOENT".

(** ** Parameters: third-party code and decoders *)

(** What [iter.Next] yields first. A [float64] is given with the integer it
    equals, if any, and its [%g] text; an array or object with its JSON. *)
Inductive jq_value :=
  | JqString (s : string) | JqNull | JqBool (b : bool) | JqInt (z : Z)
  | JqFloat (whole : option Z) (text : string) | JqOther (json : result string).
Inductive jq_step := JqDone | JqHalt (nil_value : bool) (err : error) | JqError (err : error) | JqValue (v : jq_value).

Class Libraries := {
  jq_query : Type;
  json_any : Type;
  jq_Parse : string → result jq_query;
  json_Unmarshal : bytes → result json_any;
  jq_Next : jq_query → json_any → jq_step;
  (** age: the identities of a text, decryption *)
  age_identities : Type;
  age_ParseIdentities : string → result age_identities;
  age_Decrypt : bytes → age_identities → result bytes;
  (** the fields of a JSON object read as raw messages *)
  json_raw : bytes → list string → result (list (option bytes));
  (** the fields of a JSON object read as strings, [""] when absent *)
  json_texts : bytes → list string → result (list string);
  (** [time.Parse(time.RFC3339, s)] *)
  parse_RFC3339 : string → result time;
  (** [time.Duration.String] *)
  duration_text : duration → string;
}.

Section sources.
Context `{UnicodeCase} `{OS} `{Files} `{Libraries} `{MapRange}.

(** *** [jq.go] *)

Definition resultToString (v : jq_value) : result string :=
  match v with
  | JqString s => Ok s
  | JqNull => Err (Errorf "jq expression returned null" [])
  | JqBool b => Ok (if b then "true" else "false")
  | JqInt z => Ok (FormatInt z)
  | JqFloat (Some z) _ => Ok (FormatInt z)
  | JqFloat None text => Ok text
  | JqOther json => wrap_err "failed to marshal jq result: %w" [] json
  end.

Definition ApplyJQ (jsonBytes : bytes) (jqExpr : string) : result string :=
  wrap_err "invalid jq expression: %w" [] (jq_Parse jqExpr) ≫= λ query,
  wrap_err "invalid JSON for jq: %w" [] (json_Unmarshal jsonBytes) ≫= λ input,
  match jq_Next query input with
  | JqDone => Err (Errorf "jq expression returned no results" [])
  | JqHalt true _ => Err (Errorf "jq expression returned no results" [])
  | JqHalt false err | JqError err => Err (Wrapf "jq evaluation failed: %w" [] err)
  | JqValue v => resultToString v
  end.

Definition apply_jq_if (p : ParsedSource) (value : string) : result string :=
  if HasJQ p then ApplyJQ (s2b value) (ps_JQExpr p) else Ok value.

(** *** Validated files *)

(** [unix.Open] without following a symbolic link, with the messages for a link
    and for any other failure. *)
Definition open_checked (path : string) (on_loop : error) (fmt : string) : result (result file_info) :=
  match open_nofollow path with
  | Err e => if bool_decide (e = ELOOP) then Err on_loop else Err (Wrapf fmt [] e)
  | Ok r => Ok r
  end.

Definition secret_mode (perm : Z) : bool := bool_decide (perm ∈ [0x180; 0x1A0]).

Definition openValidatedEnvFile (path : string) : result file_info :=
  open_checked path (Errorf "env file must not be a symlink: %s" [FS path]) "open env file: %w" ≫= λ st,
  wrap_err "stat env file: %w" [] st ≫= λ info,
  guard_err (negb (fi_regular info)) (Errorf "env file must be a regular file: %s" [FS path]) ≫= λ _,
  guard_err (negb (secret_mode (fi_perm info)))
    (Errorf "env file permissions must be 0600 or 0640: %s has %04o" [FS path; FZ (fi_perm info)]) ≫= λ _,
  match fi_uid info with
  | None => Err (Wrapf "failed to read env file owner metadata: %w" [] (Errorf "unsupported file stat type" []))
  | Some uid =>
    guard_err (negb (uid =? euid))
      (Errorf "env file owner must match daemon uid: %s owner=%d daemon=%d" [FS path; FZ uid; FZ euid]) ≫= λ _,
    Ok info
  end.

(** The scanning loop: the first line that begins with the prefix. Every line
    takes at least a byte, so the length of the file is enough fuel. *)
Fixpoint scan_env (fuel : nat) (prefix : string) (n : NDJSONReader) : result (option string) :=
  match fuel with
  | O => Ok None
  | S fuel =>
    match Scan n with
    | (ScanTooLong, _) => Err (Sentinel "bufio.ErrTooLong")
    | (ScanEnd err, _) => if bool_decide (err = io_EOF) then Ok None else Err err
    | (ScanLine line, n) =>
      if HasPrefix (b2s line) prefix then Ok (Some (TrimPrefix (b2s line) prefix)) else scan_env fuel prefix n
    end
  end.

Definition MaxScanTokenSize : Z := 64 * 1024.

(** A file read to its end, or up to the error that stops the read. *)
Definition file_reader (data : result bytes) : reader :=
  match data with
  | Ok b => {| rd_data := b; rd_fin := io_EOF |}
  | Err e => {| rd_data := []; rd_fin := e |}
  end.

Definition fetchFromEnvFile (envName : string) : result string :=
  openValidatedEnvFile EnvFile ≫= λ info,
  let r := file_reader (fi_data info) in
  wrap_err "read env file: %w" []
    (scan_env (S (length (rd_data r))) (envName +:+ "=") {| nd_max := MaxScanTokenSize; nd_reader := r |}) ≫= λ found,
  match found with
  | Some v => Ok v
  | None => Err (Errorf "env var %s not found" [FS envName])
  end.

Definition maxSecretFileSize : Z := 64 * 1024.

Definition fetchFromFile (path : string) : result string :=
  guard_err (negb (IsAbs path)) (Errorf "secret file path must be absolute: %s" [FS path]) ≫= λ _,
  wrap_err "open secret file: %w" [] (open_follow path) ≫= λ st,
  wrap_err "stat secret file: %w" [] st ≫= λ info,
  guard_err (negb (fi_regular info)) (Errorf "secret file must be a regular file: %s" [FS path]) ≫= λ _,
  guard_err (negb (Z.land (fi_perm info) 0x17 =? 0))
    (Errorf "secret file must not be group-writable or accessible by others: %s has %04o"
       [FS path; FZ (fi_perm info)]) ≫= λ _,
  match fi_uid info with
  | None => Err (Errorf "secret file: unsupported file stat type" [])
  | Some owner =>
    guard_err (negb (owner =? 0) && negb (owner =? euid))
      (Errorf "secret file owner must be root or the daemon uid: %s owner=%d daemon=%d"
         [FS path; FZ owner; FZ euid]) ≫= λ _,
    wrap_err "read secret file: %w" [] (fi_data info) ≫= λ content,
    let data := take (Z.to_nat (maxSecretFileSize + 1)) content in
    guard_err (blen data >? maxSecretFileSize)
      (Errorf "secret file exceeds %d bytes: %s" [FZ maxSecretFileSize; FS path]) ≫= λ _,
    Ok (TrimRight (b2s data) (String "013" (String "010" "")))
  end.

(** The validations [readSecureFile] and [readSecureFileBytes] both make;
    [Ok None] is a file that does not exist. *)
Definition secure_info (path : string) : result (option file_info) :=
  match open_nofollow path with
  | Err e =>
    if bool_decide (e = ENOENT) then Ok None
    else if bool_decide (e = ELOOP) then Err (Errorf "file must not be a symlink: %s" [FS path])
    else Err (Wrapf "open file: %w" [] e)
  | Ok st =>
    wrap_err "stat file: %w" [] st ≫= λ info,
    guard_err (negb (fi_regular info)) (Errorf "must be a regular file: %s" [FS path]) ≫= λ _,
    guard_err (negb (secret_mode (fi_perm info)))
      (Errorf "file permissions too open: %s has %04o, want 0600 or 0640" [FS path; FZ (fi_perm info)]) ≫= λ _,
    match fi_uid info with
    | None => Err (Errorf "unsupported file stat type" [])
    | Some uid =>
      guard_err (negb (uid =? euid)) (Errorf "file owner must match daemon uid" []) ≫= λ _, Ok (Some info)
    end
  end.

Definition readSecureFile (path : string) : result string :=
  secure_info path ≫= λ info,
  match info with
  | None => Ok ""
  | Some info => wrap_err "read file: %w" [] (fi_data info) ≫= λ content, Ok (TrimSpace (b2s content))
  end.

Definition readSecureFileBytes (path : string) : result (option bytes) :=
  secure_info path ≫= λ info,
  match info with
  | None => Ok None
  | Some info => wrap_err "read file: %w" [] (fi_data info) ≫= λ content, Ok (Some content)
  end.

Definition readSecureCredentialValue (path : string) : result (option string) :=
  match lstat path with
  | Some e => if bool_decide (e = ENOENT) then Ok None else Err (Wrapf "stat file: %w" [] e)
  | None =>
    readSecureFile path ≫= λ value,
    if bool_decide (value = "") then Err (Errorf "credential file is empty: %s" [FS path]) else Ok (Some value)
  end.

(** The value of a file in systemd's credentials directory, if there is one. *)
Definition systemd_value (name fmt : string) : result (option string) :=
  let credDir := Getenv "CREDENTIALS_DIRECTORY" in
  if bool_decide (credDir = "") then Ok None
  else wrap_err fmt [] (readSecureCredentialValue (PathJoin [credDir; name])).
End sources.
