(* ===== verification/Fetch.v ===== *)
(** Package [internal/credentials]: fetching ([credentials.go], [execjson.go],
    [onepassword.go], [bitwarden.go], [vault.go], [age.go], [resolve.go]). *)

From S2P Require Import Prelude GoStrings GoTime GoPath Paths ConfigTypes CredCache Framing Json Sources.
Local Open Scope Z_scope.

Notation "x ← y ; z" := (y ≫= (λ x : _, z))
  (at level 20, y at level 100, z at level 200, only parsing) : stdpp_scope.

Section fetch.
Context `{UnicodeCase} `{OS} `{Files} `{Libraries} `{MapRange}.

(** [os.Environ()]. *)
Definition Environ : list string := (λ kv, kv.1 +:+ "=" +:+ kv.2) <$> range os_env.

Definition binary_or (override name : string) : result string :=
  if negb (bool_decide (override = "")) then Ok override else FindTrustedBinary name.

(** [cmd.Output()] whose every failure becomes one error. *)
Definition output_or (c : command) (e : error) : M bytes :=
  r ← run_command c;
  match r with Output out => mret out | _ => fail e end.

(** The text of [err.Error()] for the error of a command. *)
Definition reply_error (r : reply) : error :=
  match r with
  | Output _ => Errorf "" []
  | ExitError code _ => Errorf "exit status %d" [FZ code]
  | TimedOut => Sentinel "signal: killed"
  | NotRun text => Sentinel text
  end.

(** *** [credentials.go]: the password store *)

Definition fetchFromPass (binary path : string) : M string :=
  r ← run_command {| cmd_path := binary; cmd_args := ["--"; path]; cmd_env := None |};
  match r with
  | Output out => mret (TrimSpace (b2s out))
  | r => fail (Wrapf "pass %s: %w" [FS path] (reply_error r))
  end.

(** *** [onepassword.go] *)

Definition opTokenEnvVar : string := "OP_SERVICE_ACCOUNT_TOKEN".

Definition parseOPSecretRef (ref : string) : result (string * string) :=
  if negb (HasPrefix ref "op://") then Err (Errorf "invalid op:// reference" [])
  else
    match Split (TrimPrefix ref "op://") "/" with
    | vault :: item :: _ => Ok (vault, item)
    | _ => Err (Errorf "op:// reference must have at least vault/item" [])
    end.

Definition getOPServiceAccountToken (opTokenFile : string) : result string :=
  systemd_value "op-service-account-token" "invalid 1password token file: %w" ≫= λ v,
  match v with
  | Some token => Ok token
  | None =>
    wrap_err "invalid 1password token file: %w" [] (readSecureCredentialValue opTokenFile) ≫= λ v,
    match v with
    | Some token => Ok token
    | None =>
      let token := Getenv opTokenEnvVar in
      if negb (bool_decide (token = "")) then Ok token else Err (Errorf "no 1password token found" [])
    end
  end.

Definition fetchFrom1PasswordDirect (opBinary token secretRef : string) : M string :=
  out ← output_or {| cmd_path := opBinary; cmd_args := ["read"; secretRef];
                     cmd_env := Some (Environ ++ [opTokenEnvVar +:+ "=" +:+ token]) |}
          (Errorf "1password read failed" []);
  mret (TrimSpace (b2s out)).

Definition fetchFrom1PasswordWithJQ (opBinary token : string) (parsed : ParsedSource) : M string :=
  '(vault, item) ← or_fail (lift (parseOPSecretRef (ps_Path parsed))) (Errorf "invalid 1password reference" []);
  out ← output_or {| cmd_path := opBinary;
                     cmd_args := ["item"; "get"; item; "--vault"; vault; "--format"; "json"];
                     cmd_env := Some (Environ ++ [opTokenEnvVar +:+ "=" +:+ token]) |}
          (Errorf "1password item get failed" []);
  lift (ApplyJQ out (ps_JQExpr parsed)).

Definition fetchFrom1Password (parsed : ParsedSource) (opBinaryOverride : string) : M string :=
  opBinary ← or_fail (lift (binary_or opBinaryOverride "op"))
               (Errorf "1password CLI not found in trusted locations" []);
  tokenFile ← get s_opTokenFile;
  token ← or_fail (lift (getOPServiceAccountToken tokenFile)) (Errorf "1password token not configured" []);
  if HasJQ parsed then fetchFrom1PasswordWithJQ opBinary token parsed
  else fetchFrom1PasswordDirect opBinary token (ps_Path parsed).

(** *** [age.go] *)

Definition getAgeIdentityPath (ageIdentityFile : string) : string :=
  let credDir := Getenv "CREDENTIALS_DIRECTORY" in
  if bool_decide (credDir = "") then ageIdentityFile
  else
    let tokenPath := PathJoin [credDir; "age-identity"] in
    if stat_ok tokenPath then tokenPath else ageIdentityFile.

Definition decryptAgeFile (identityPath encryptedPath : string) : result bytes :=
  wrap_err "reading identity: %w" [] (readSecureFile identityPath) ≫= λ identityContent,
  guard_err (bool_decide (identityContent = "")) (Errorf "identity file not found" []) ≫= λ _,
  wrap_err "parsing identity: %w" [] (age_ParseIdentities identityContent) ≫= λ identities,
  wrap_err "reading encrypted file: %w" [] (readSecureFileBytes encryptedPath) ≫= λ encContent,
  match encContent with
  | None => Err (Errorf "encrypted file not found" [])
  | Some enc => wrap_err "decrypting: %w" [] (age_Decrypt enc identities)
  end.

Definition fetchFromAge (parsed : ParsedSource) : M string :=
  identityFile ← get s_ageIdentityFile;
  plaintext ← or_fail (lift (decryptAgeFile (getAgeIdentityPath identityFile) (ps_Path parsed)))
                (Errorf "age decryption failed" []);
  lift (apply_jq_if parsed (TrimSpace (b2s plaintext))).

(** *** [vault.go] *)

(** The overrides that are configured, with their variables. *)
Definition vault_overrides (v : vaultConfig) : list (string * string) :=
  (if bool_decide (vaultAddr v = "") then [] else [("VAULT_ADDR", vaultAddr v)]) ++
  (match vaultSkipVerify v with
   | None => [] | Some skip => [("VAULT_SKIP_VERIFY", if skip then "1" else "0")] end) ++
  (if bool_decide (vaultCACert v = "") then [] else [("VAULT_CACERT", vaultCACert v)]) ++
  (if bool_decide (vaultNamespace v = "") then [] else [("VAULT_NAMESPACE", vaultNamespace v)]) ++
  (if bool_decide (vaultTokenFile v = "") then [] else [("VAULT_TOKEN_FILE", vaultTokenFile v)]).

Definition vaultEnv (v : vaultConfig) : list string :=
  let overrides := vault_overrides v in
  filter (λ e, (Cut e "=").1.1 ∉ overrides.*1) Environ
    ++ ((λ kv, kv.1 +:+ "=" +:+ kv.2) <$> overrides).

Definition extractVaultData (output : bytes) : result string :=
  match json_raw output ["data"] with
  | Ok [data] =>
    let response := default [] data in
    match json_raw response ["data"; "metadata"] with
    | Ok [Some v2; Some _] => Ok (TrimSpace (b2s v2))
    | _ => Ok (TrimSpace (b2s response))
    end
  | _ => Err (Errorf "vault read failed" [])
  end.

Definition fetchFromVault (parsed : ParsedSource) (vaultBinaryOverride : string) : M string :=
  vaultBinary ← or_fail (lift (binary_or vaultBinaryOverride "vault"))
                  (Errorf "vault CLI not found in trusted locations" []);
  v ← get s_vault;
  out ← output_or {| cmd_path := vaultBinary;
                     cmd_args := ["kv"; "get"; "-format=json"; "--"; ps_Path parsed];
                     cmd_env := Some (vaultEnv v) |} (Errorf "vault read failed" []);
  result ← lift (extractVaultData out);
  lift (apply_jq_if parsed result).

(** *** [execjson.go] *)

Definition maxExecJSONStderrLen : nat := 1024.
Definition execJSONCommandTimeout : duration := 10 * Second.

Definition validateExecJSONCommand (path : string) : result unit :=
  guard_err (negb (IsAbs path)) (Errorf "exec-json command path must be absolute: %s" [FS path]) ≫= λ _,
  open_checked path (Errorf "exec-json command must not be a symlink: %s" [FS path])
    "open exec-json command: %w" ≫= λ st,
  wrap_err "stat exec-json command: %w" [] st ≫= λ info,
  guard_err (negb (fi_regular info)) (Errorf "exec-json command must be a regular file: %s" [FS path]) ≫= λ _,
  guard_err (Z.land (fi_perm info) 0x49 =? 0)
    (Errorf "exec-json command must be executable: %s" [FS path]) ≫= λ _,
  guard_err (negb (Z.land (fi_perm info) 0x12 =? 0))
    (Errorf "exec-json command must not be group or world writable: %s has %04o"
       [FS path; FZ (fi_perm info)]) ≫= λ _,
  match fi_uid info with
  | None => Err (Wrapf "read exec-json command owner metadata: %w" [] (Errorf "unsupported file stat type" []))
  | Some ownerUID =>
    guard_err (negb (ownerUID =? euid) && negb (ownerUID =? 0))
      (Errorf "exec-json command owner must match daemon uid or root: %s owner=%d daemon=%d"
         [FS path; FZ ownerUID; FZ euid])
  end.

Definition truncateExecJSONStderr (stderr : bytes) : string := b2s (take maxExecJSONStderrLen stderr).

(** The error of the command: of the deadline, of its exit, or of starting it. *)
Definition execJSONCommandError (commandPath : string) (r : reply) : error :=
  match r with
  | TimedOut =>
    Errorf "exec-json %s: timed out after %s" [FS commandPath; FS (duration_text execJSONCommandTimeout)]
  | ExitError code stderr =>
    if negb (bool_decide (stderr = [])) then
      Errorf "exec-json %s: exit status %d: %s"
        [FS commandPath; FZ code; FS (truncateExecJSONStderr stderr)]
    else Errorf "exec-json %s: exit status %d" [FS commandPath; FZ code]
  | NotRun text => Wrapf "exec-json %s: %w" [FS commandPath] (Sentinel text)
  | Output _ => Errorf "" []
  end.

Definition parseExecJSONOutput (output : bytes) : result Credential :=
  wrap_err "exec-json: decode helper output: %w" [] (json_texts output ["value"; "expires_at"]) ≫= λ fields,
  let value := default "" (fields !! 0%nat) in
  let expiresAt := default "" (fields !! 1%nat) in
  guard_err (bool_decide (TrimSpace value = "")) (Errorf "exec-json: helper output missing value" []) ≫= λ _,
  let expiresRaw := TrimSpace expiresAt in
  if bool_decide (expiresRaw = "") then Ok {| c_Value := value; c_ExpiresAt := zero_time |}
  else
    wrap_err "exec-json: parse expires_at: %w" [] (parse_RFC3339 expiresRaw) ≫= λ t,
    Ok {| c_Value := value; c_ExpiresAt := t |}.

(** The file that is checked and the one that is run are the same view of the path. *)
Definition fetchFromExecJSON (parsed : ParsedSource) : M Credential :=
  let commandPath := ps_Path parsed in
  _ ← lift (validateExecJSONCommand commandPath);
  r ← run_command {| cmd_path := commandPath; cmd_args := []; cmd_env := None |};
  match r with
  | Output out => lift (parseExecJSONOutput out)
  | r => fail (execJSONCommandError commandPath r)
  end.

(** *** [bitwarden.go] *)

Definition getBWCredential (credName envVar : string) : result string :=
  systemd_value credName "invalid bitwarden credential file: %w" ≫= λ v,
  match v with
  | Some token => Ok token
  | None =>
    let token := Getenv envVar in
    if negb (bool_decide (token = "")) then Ok token else Err (Errorf "credential not configured" [])
  end.

Definition bwEnv (session : bwSession) : list string :=
  Environ ++ (if bool_decide (bw_dataDir session = "") then []
              else ["BITWARDENCLI_APPDATA_DIR=" +:+ bw_dataDir session]).

Definition bitwardenStderr (r : reply) : string :=
  match r with
  | ExitError code stderr =>
    let text := TrimSpace (b2s stderr) in
    if bool_decide (text = "") then "exit status " +:+ FormatInt code else text
  | TimedOut => "signal: killed"
  | NotRun text => TrimSpace text
  | Output _ => ""
  end.

Definition isNotFoundError (stderr : string) : bool := Contains (ToLower stderr) "not found".

(** On the message of [bwGetItem]'s error. *)
Definition isAuthError (msg : string) : bool :=
  let msg := ToLower msg in
  Contains msg "not logged in" || Contains msg "vault is locked" || Contains msg "invalid session"
  || Contains msg "session key" || Contains msg "authorization failed".

(** The status reported, or an error when the command or its JSON fails. *)
Definition bwCheckStatus (session : bwSession) : M string :=
  r ← run_command {| cmd_path := bw_binary session; cmd_args := ["status"]; cmd_env := Some (bwEnv session) |};
  match r with
  | Output out => fields ← lift (json_texts out ["status"]); mret (default "" (fields !! 0%nat))
  | r => fail (reply_error r)
  end.

Definition bwLogin (session : bwSession) : M bwSession :=
  clientID ← or_fail (lift (getBWCredential "bw-client-id" "BW_CLIENTID"))
               (Errorf "bitwarden client ID not configured" []);
  clientSecret ← or_fail (lift (getBWCredential "bw-client-secret" "BW_CLIENTSECRET"))
                   (Errorf "bitwarden client secret not configured" []);
  _ ← output_or {| cmd_path := bw_binary session; cmd_args := ["login"; "--apikey"];
                   cmd_env := Some (bwEnv session ++ ["BW_CLIENTID=" +:+ clientID;
                                                      "BW_CLIENTSECRET=" +:+ clientSecret]) |}
        (Errorf "bitwarden login failed" []);
  let session := {| bw_token := bw_token session; bw_dataDir := bw_dataDir session;
                    bw_binary := bw_binary session; bw_loggedIn := true |} in
  _ ← set_bw (Some session);
  mret session.

Definition bwUnlock (session : bwSession) : M bwSession :=
  password ← or_fail (lift (getBWCredential "bw-master-password" "BW_PASSWORD"))
               (Errorf "bitwarden password not configured" []);
  out ← output_or {| cmd_path := bw_binary session;
                     cmd_args := ["unlock"; "--raw"; "--passwordenv"; "BW_UNLOCK_PASSWORD"];
                     cmd_env := Some (bwEnv session ++ ["BW_UNLOCK_PASSWORD=" +:+ password]) |}
          (Errorf "bitwarden unlock failed" []);
  let session := {| bw_token := TrimSpace (b2s out); bw_dataDir := bw_dataDir session;
                    bw_binary := bw_binary session; bw_loggedIn := bw_loggedIn session |} in
  _ ← set_bw (Some session);
  mret session.

(** The session [ensureBWSession] works with: the current one, or a new one. *)
Definition bw_open (bwBinary : string) : M bwSession :=
  cur ← get s_bw;
  session ← match cur with
    | None =>
      dir ← get s_tempdir;
      dataDir ← lift (wrap_err "creating bw data dir: %w" [] dir);
      mret {| bw_token := ""; bw_dataDir := dataDir; bw_binary := bwBinary; bw_loggedIn := false |}
    | Some session =>
      mret (if bool_decide (bw_binary session = "")
            then {| bw_token := bw_token session; bw_dataDir := bw_dataDir session;
                    bw_binary := bwBinary; bw_loggedIn := bw_loggedIn session |}
            else session)
    end;
  _ ← set_bw (Some session);
  mret session.

Definition ensureBWSession (bwBinary : string) : M bwSession :=
  session ← bw_open bwBinary;
  status ← (λ s, match bwCheckStatus session s with
                 | (Ok status, s) => (Ok status, s)
                 | (Err _, s) => (Ok "unauthenticated", s)
                 end);
  if bool_decide (status = "unlocked") then mret session
  else if bool_decide (status = "locked") then bwUnlock session
  else if bool_decide (status = "unauthenticated") then session ← bwLogin session; bwUnlock session
  else fail (Errorf "unknown bitwarden status: %s" [FS status]).

(** The item, or the message of the error. *)
Definition bwGetItem (session : bwSession) (itemID : string) : M (string + string) :=
  r ← run_command {| cmd_path := bw_binary session; cmd_args := ["get"; "item"; itemID];
                     cmd_env := Some (bwEnv session ++ ["BW_SESSION=" +:+ bw_token session]) |};
  mret match r with
       | Output out => inl (TrimSpace (b2s out))
       | r => inr (if isNotFoundError (bitwardenStderr r) then "bitwarden item not found"
                   else "bitwarden get item failed: " +:+ bitwardenStderr r)
       end.

Definition bwRetryDelays : list duration := [0; Second; 3 * Second].

(** The loop over the delays; the wait itself, which nothing cancels, has no
    effect. *)
Fixpoint bw_attempts (delays : list duration) (bwBinary : string) (session : bwSession)
    (parsed : ParsedSource) : M string :=
  match delays with
  | [] => fail (Errorf "bitwarden fetch failed" [])
  | _ :: delays =>
    got ← bwGetItem session (ps_Path parsed);
    match got with
    | inl result => lift (apply_jq_if parsed result)
    | inr msg =>
      if isAuthError msg then
        _ ← set_bw (Some {| bw_token := ""; bw_dataDir := bw_dataDir session;
                            bw_binary := bw_binary session; bw_loggedIn := false |});
        session ← or_fail (ensureBWSession bwBinary) (Errorf "bitwarden re-auth failed" []);
        bw_attempts delays bwBinary session parsed
      else fail (Errorf "bitwarden fetch failed" [])
    end
  end.

Definition fetchFromBitwarden (parsed : ParsedSource) (bwBinaryOverride : string) : M string :=
  bwBinary ← or_fail (lift (binary_or bwBinaryOverride "bw"))
               (Errorf "bitwarden CLI not found in trusted locations" []);
  cur ← get s_bw;
  _ ← match cur with
      | None => mret tt
      | Some session => set_bw (Some {| bw_token := bw_token session; bw_dataDir := bw_dataDir session;
                                        bw_binary := bwBinary; bw_loggedIn := bw_loggedIn session |})
      end;
  session ← or_fail (ensureBWSession bwBinary) (Errorf "bitwarden session failed" []);
  bw_attempts bwRetryDelays bwBinary session parsed.

(** [CleanupBWSession]; the directory removed is the result. *)
Definition CleanupBWSession : M (option string) :=
  cur ← get s_bw;
  match cur with
  | Some session =>
    if bool_decide (bw_dataDir session = "") then mret None
    else
      let bwBinary := if bool_decide (bw_binary session = "") then "bw" else bw_binary session in
      _ ← run_command {| cmd_path := bwBinary; cmd_args := ["logout"]; cmd_env := Some (bwEnv session) |};
      _ ← set_bw None;
      mret (Some (bw_dataDir session))
  | None => mret None
  end.

(** *** [keychain_darwin.go], [keychain_stub.go] *)

Definition keychainAccountName : string := "claw-wrap".

Definition readKeychainItem (serviceName : string) : M string :=
  r ← run_command {| cmd_path := "security";
                     cmd_args := ["find-generic-password"; "-s"; serviceName; "-a"; keychainAccountName; "-w"];
                     cmd_env := None |};
  match r with
  | Output out => mret (TrimSpace (b2s out))
  | ExitError code stderr =>
    if code =? 44 then fail (Errorf "keychain item not found" [])
    else if Contains (b2s stderr) "interaction is not allowed" then
      fail (Errorf "keychain locked or running in headless mode" [])
    else fail (Errorf "keychain read failed" [])
  | _ => fail (Errorf "keychain read failed" [])
  end.

Definition keychain_unsupported : error := Errorf "keychain backend only available on macOS" [].

Definition fetchFromKeychain (parsed : ParsedSource) : M string :=
  if os_darwin then
    secret ← or_fail (readKeychainItem (ps_Path parsed)) (Errorf "keychain access failed" []);
    lift (apply_jq_if parsed secret)
  else fail keychain_unsupported.

(** The combined output of the second command decides the error. *)
Definition KeychainSetup (serviceName binaryPath : string) : M unit :=
  if negb os_darwin then fail keychain_unsupported
  else
    _ ← run_command {| cmd_path := "security";
                       cmd_args := ["delete-generic-password"; "-s"; serviceName; "-a"; keychainAccountName];
                       cmd_env := None |};
    let args := ["add-generic-password"; "-s"; serviceName; "-a"; keychainAccountName; "-U"]
      ++ (if negb (bool_decide (binaryPath = "")) then ["-T"; binaryPath] else []) ++ ["-w"] in
    r ← run_command {| cmd_path := "security"; cmd_args := args; cmd_env := None |};
    match r with
    | Output _ => mret tt
    | r =>
      let stderr := ToLower (TrimSpace (match r with ExitError _ out => b2s out | _ => "" end)) in
      if Contains stderr "already exists" then
        fail (Errorf "keychain item exists and could not be updated" [])
      else if Contains stderr "interaction is not allowed" then
        fail (Errorf "keychain locked or running in headless mode" [])
      else if Contains stderr "user canceled" || Contains stderr "operation canceled" then
        fail (Errorf "keychain setup cancelled" [])
      else fail (Errorf "failed to add keychain item" [])
    end.

(** *** Dispatch ([credentials.go]) *)

Definition fetchCredentialFromBackend (parsed : ParsedSource) (options : FetchOptions) : M Credential :=
  let static v := {| c_Value := v; c_ExpiresAt := zero_time |} in
  match ps_Backend parsed with
  | BackendEnv => v ← lift (fetchFromEnvFile (ps_Path parsed)); v ← lift (apply_jq_if parsed v); mret (static v)
  | BackendFile => v ← lift (fetchFromFile (ps_Path parsed)); v ← lift (apply_jq_if parsed v); mret (static v)
  | BackendPass => v ← fetchFromPass (fo_PassBinary options) (ps_Path parsed); v ← lift (apply_jq_if parsed v); mret (static v)
  | Backend1Password => v ← fetchFrom1Password parsed (fo_OPBinary options); mret (static v)
  | BackendAge => v ← fetchFromAge parsed; mret (static v)
  | BackendKeychain => v ← fetchFromKeychain parsed; mret (static v)
  | BackendBitwarden => v ← fetchFromBitwarden parsed (fo_BWBinary options); mret (static v)
  | BackendVault => v ← fetchFromVault parsed (fo_VaultBinary options); mret (static v)
  | BackendExecJSON => fetchFromExecJSON parsed
  end.
End fetch.
