(* ===== verification/Resolve.v ===== *)
(** Package [internal/credentials]: the cached fetch ([credentials.go]), GitHub App
    installation tokens ([githubapp.go]) and the resolution of a configured
    credential ([resolve.go]); what holds of every command that fetching runs. *)

From S2P Require Import Prelude GoStrings GoTime GoPath Paths Base64 ConfigTypes CredCache Framing Json GoNet Auth.
From S2P Require Import Sources Fetch.
Local Open Scope Z_scope.

(** Parsing and signing with RSA keys, and the HTTP client. *)
Class GitHubLib := {
  rsa_key : Type;
  (** [pem.Decode]: the type and the bytes of the first block *)
  pem_Decode : string → option (string * bytes);
  ParsePKCS1PrivateKey : bytes → result rsa_key;
  (** [None]: the key is not an RSA key *)
  ParsePKCS8PrivateKey : bytes → result (option rsa_key);
  (** [rsa.SignPKCS1v15] of the SHA-256 digest *)
  SignPKCS1v15 : rsa_key → bytes → result bytes;
  (** [POST url] with these headers and body: the status and the body *)
  http_post : string → Header → bytes → result (Z * result bytes);
}.

Section resolve.
Context `{UnicodeCase} `{OS} `{Files} `{Libraries} `{MapRange} `{GitHubLib}.

(** ** The cached fetch *)

Definition default_options : FetchOptions :=
  {| fo_PassBinary := DefaultPassBinary; fo_OPBinary := ""; fo_BWBinary := ""; fo_VaultBinary := "";
     fo_BypassCache := false |}.

Definition apply_options (opts : list FetchOption) : FetchOptions :=
  foldl (λ o opt, opt o) default_options opts.

(** [credentialResultCache.fetchCached] with the readings of the clock it makes. *)
Definition cached_at (cacheKey : string) (now t1 t2 t3 : time) (fetch : M Credential) : M Credential := λ s,
  let '(r, c, s) := fetchCached (s_cache s) cacheKey now t1 t2 t3 fetch s in (r, set_cache c s).
Definition cached (cacheKey : string) (fetch : M Credential) : M Credential :=
  now ← read_clock; t1 ← read_clock; t2 ← read_clock; t3 ← read_clock;
  cached_at cacheKey now t1 t2 t3 fetch.

Definition FetchCredential (source : string) (opts : list FetchOption) : M Credential :=
  let options := apply_options opts in
  match ParseSource source with
  | Err _ => fail (Errorf "invalid credential source" [])
  | Ok parsed =>
    if isCredentialCacheableBackend (ps_Backend parsed) && negb (fo_BypassCache options) then
      cached (credentialCacheKey parsed) (fetchCredentialFromBackend parsed options)
    else fetchCredentialFromBackend parsed options
  end.

Definition Fetch (source : string) (opts : list FetchOption) : M string :=
  cred ← FetchCredential source opts; mret (c_Value cred).

(** ** [githubapp.go] *)

Definition githubAppCredentialType : string := "github-app".
Definition defaultGitHubAPIURL : string := "https://api.github.com".
Definition githubAppJWTIssuedOffset : duration := 60 * Second.
Definition githubAppJWTLifetime : duration := 540 * Second.

Record ResolveInput := {
  ri_Label : string;
  ri_Source : string;
  ri_Type : string;
  ri_AppID : Z;
  ri_InstallationID : Z;
  ri_PrivateKey : string;
  ri_APIURL : string;
  ri_Permissions : gmap string string;
  ri_Repositories : list string;
}.

Record GitHubAppSpec := {
  gs_AppID : Z;
  gs_InstallationID : Z;
  gs_PrivateKeySource : string;
  gs_APIURL : string;
  gs_Permissions : gmap string string;
  gs_Repositories : list string;
}.

Definition githubAppSpecFromInput (i : ResolveInput) : GitHubAppSpec :=
  let apiURL := TrimSpace (ri_APIURL i) in
  {| gs_AppID := ri_AppID i; gs_InstallationID := ri_InstallationID i;
     gs_PrivateKeySource := TrimSpace (ri_PrivateKey i);
     gs_APIURL := if bool_decide (apiURL = "") then defaultGitHubAPIURL else apiURL;
     gs_Permissions := ri_Permissions i; gs_Repositories := ri_Repositories i |}.

Definition canonicalPermissionString (perms : gmap string string) : string :=
  let keys := sort_strings (range perms).*1 in
  Join ((λ key, key +:+ "=" +:+ default "" (perms !! key)) <$> keys) ",".

Definition canonicalRepositoryString (repos : list string) : string := Join (sort_strings repos) ",".

Definition githubAppCacheKey (spec : GitHubAppSpec) : string :=
  "github-app" +:+ NULs +:+ FormatInt (gs_AppID spec) +:+ NULs +:+ FormatInt (gs_InstallationID spec)
    +:+ NULs +:+ gs_APIURL spec +:+ NULs +:+ canonicalPermissionString (gs_Permissions spec)
    +:+ NULs +:+ canonicalRepositoryString (gs_Repositories spec).

Definition parseRSAPrivateKeyPEM (pemData : string) : result rsa_key :=
  match pem_Decode pemData with
  | None => Err (Errorf "invalid private key PEM" [])
  | Some (type, block) =>
    if bool_decide (type = "RSA PRIVATE KEY") then
      wrap_err "parse PKCS#1 private key: %w" [] (ParsePKCS1PrivateKey block)
    else if bool_decide (type = "PRIVATE KEY") then
      wrap_err "parse PKCS#8 private key: %w" [] (ParsePKCS8PrivateKey block) ≫= λ parsed,
      match parsed with
      | Some key => Ok key
      | None => Err (Errorf "PKCS#8 private key is not RSA" [])
      end
    else Err (Errorf "unsupported private key PEM type %q" [FS type])
  end.

Definition dquote : string := String "034" "".

(** The claims as [fmt.Sprintf] writes them. *)
Definition jwt_claims (appID : Z) (now : time) : string :=
  "{" +:+ dquote +:+ "iss" +:+ dquote +:+ ":" +:+ dquote +:+ FormatInt appID +:+ dquote
    +:+ "," +:+ dquote +:+ "iat" +:+ dquote +:+ ":" +:+ FormatInt (ToUnix (Add now (- githubAppJWTIssuedOffset)))
    +:+ "," +:+ dquote +:+ "exp" +:+ dquote +:+ ":" +:+ FormatInt (ToUnix (Add now githubAppJWTLifetime))
    +:+ "}".

Definition jwt_header : string :=
  "{" +:+ dquote +:+ "alg" +:+ dquote +:+ ":" +:+ dquote +:+ "RS256" +:+ dquote
    +:+ "," +:+ dquote +:+ "typ" +:+ dquote +:+ ":" +:+ dquote +:+ "JWT" +:+ dquote +:+ "}".

Definition signGitHubAppJWT (key : rsa_key) (appID : Z) (now : time) : result string :=
  let header := EncodeToString RawURLEncoding (s2b jwt_header) in
  let payload := EncodeToString RawURLEncoding (s2b (jwt_claims appID now)) in
  let signingInput := header +:+ "." +:+ payload in
  wrap_err "sign jwt: %w" [] (SignPKCS1v15 key (s2b signingInput)) ≫= λ signature,
  Ok (signingInput +:+ "." +:+ EncodeToString RawURLEncoding signature).

(** [json.Marshal] of the request: sorted permissions, then the repositories. *)
Definition json_pair (kv : string * string) : bytes := json_string kv.1 ++ s2b ":" ++ json_string kv.2.
Fixpoint json_fields (l : list bytes) : bytes :=
  match l with [] => [] | [x] => x | x :: l => x ++ s2b "," ++ json_fields l end.

Definition encodeGitHubAppExchangeBody (spec : GitHubAppSpec) : bytes :=
  let perms := gs_Permissions spec in
  let repos := gs_Repositories spec in
  if bool_decide (perms = ∅) && bool_decide (repos = []) then []
  else
    s2b "{" ++ json_fields
      ((if bool_decide (perms = ∅) then [] else
          [json_string "permissions" ++ s2b ":{" ++
           json_fields ((λ key, json_pair (key, default "" (perms !! key))) <$> sort_strings (range perms).*1)
           ++ s2b "}"]) ++
       (if bool_decide (repos = []) then [] else
          [json_string "repositories" ++ s2b ":" ++ json_strings (Some repos)]))
      ++ s2b "}".

Definition githubAppExchangeError (statusCode : Z) (body : bytes) : error :=
  let message :=
    match json_texts body ["message"] with Ok (m :: _) => TrimSpace m | _ => "" end in
  if negb (bool_decide (message = "")) then
    Errorf "github-app: exchange failed: HTTP %d: %s" [FZ statusCode; FS message]
  else Errorf "github-app: exchange failed: HTTP %d" [FZ statusCode].

Definition maxErrorBody : nat := 64 * 1024.

Definition exchangeGitHubAppInstallationToken (spec : GitHubAppSpec) (jwt : string) : result Credential :=
  let body := encodeGitHubAppExchangeBody spec in
  let url := TrimRight (gs_APIURL spec) "/" +:+ "/app/installations/"
    +:+ FormatInt (gs_InstallationID spec) +:+ "/access_tokens" in
  let h := Header_Set ∅ "Authorization" ("Bearer " +:+ jwt) in
  let h := Header_Set h "Accept" "application/vnd.github+json" in
  let h := Header_Set h "X-GitHub-Api-Version" "2022-11-28" in
  let h := if 0 <? blen body then Header_Set h "Content-Type" "application/json" else h in
  wrap_err "github-app: exchange request: %w" [] (http_post url h body) ≫= λ '(status, respBody),
  wrap_err "github-app: read response: %w" [] respBody ≫= λ respBody,
  let respBody := take maxErrorBody respBody in
  if negb (status =? 201) then Err (githubAppExchangeError status respBody)
  else
    wrap_err "github-app: decode response: %w" [] (json_texts respBody ["token"; "expires_at"]) ≫= λ fields,
    let token := default "" (fields !! 0%nat) in
    guard_err (bool_decide (TrimSpace token = "")) (Errorf "github-app: exchange response missing token" []) ≫= λ _,
    wrap_err "github-app: parse expires_at: %w" [] (parse_RFC3339 (default "" (fields !! 1%nat))) ≫= λ expiresAt,
    Ok {| c_Value := token; c_ExpiresAt := expiresAt |}.

Definition fetchPrivateKeyPEM (source : string) (o : FetchOptions) : M string :=
  cred ← FetchCredential source
    [WithPassBinary (fo_PassBinary o); WithOPBinary (fo_OPBinary o); WithBWBinary (fo_BWBinary o);
     WithVaultBinary (fo_VaultBinary o); WithBypassCache];
  if bool_decide (TrimSpace (c_Value cred) = "") then
    fail (Errorf "private key source returned empty value" [])
  else mret (c_Value cred).

(** A failed step whose error is wrapped. *)
Definition wrap_M {A} (fmt : string) (m : M A) : M A := λ s, let '(r, s) := m s in (wrap_err fmt [] r, s).

Definition mintGitHubAppInstallationToken (spec : GitHubAppSpec) (o : FetchOptions) : M Credential :=
  keyPEM ← wrap_M "github-app: fetch private key: %w" (fetchPrivateKeyPEM (gs_PrivateKeySource spec) o);
  privateKey ← lift (wrap_err "github-app: %w" [] (parseRSAPrivateKeyPEM keyPEM));
  now ← read_clock;
  jwt ← lift (wrap_err "github-app: sign jwt: %w" [] (signGitHubAppJWT privateKey (gs_AppID spec) now));
  lift (exchangeGitHubAppInstallationToken spec jwt).

Definition fetchGitHubAppCredential (i : ResolveInput) (opts : list FetchOption) : M Credential :=
  let spec := githubAppSpecFromInput i in
  let options := apply_options opts in
  if fo_BypassCache options then mintGitHubAppInstallationToken spec options
  else cached (githubAppCacheKey spec) (mintGitHubAppInstallationToken spec options).

(** ** [resolve.go] *)

Definition DisplaySource (i : ResolveInput) : string :=
  let label := TrimSpace (ri_Label i) in
  let source := TrimSpace (ri_Source i) in
  if negb (bool_decide (label = "")) then label
  else if negb (bool_decide (source = "")) then source
  else if bool_decide (TrimSpace (ri_Type i) = githubAppCredentialType) then
    "github-app:" +:+ FormatInt (ri_AppID i) +:+ "/" +:+ FormatInt (ri_InstallationID i)
  else "".

Definition ResolveCredential (i : ResolveInput) (opts : list FetchOption) : M Credential :=
  let typ := TrimSpace (ri_Type i) in
  if bool_decide (typ = "") then FetchCredential (TrimSpace (ri_Source i)) opts
  else if bool_decide (typ = githubAppCredentialType) then fetchGitHubAppCredential i opts
  else fail (Errorf "unknown credential type %q" [FS typ]).

Definition Resolve (i : ResolveInput) (opts : list FetchOption) : M string :=
  cred ← ResolveCredential i opts; mret (c_Value cred).

(** [CredentialDef.ResolveInput] ([internal/config/config.go]). *)
Definition cred_ResolveInput (c : CredentialDef) (name : string) : ResolveInput :=
  {| ri_Label := name; ri_Source := cd_Source c; ri_Type := cd_Type c; ri_AppID := cd_AppID c;
     ri_InstallationID := cd_InstallationID c; ri_PrivateKey := cd_PrivateKey c; ri_APIURL := cd_APIURL c;
     ri_Permissions := cd_Permissions c; ri_Repositories := cd_Repositories c |}.
End resolve.
