(* ===== verification/ResolveLaws.v ===== *)
(** Package [internal/credentials]: what holds of the sources and of every command
    that fetching a credential runs. *)

From S2P Require Import Prelude GoStrings GoTime GoPath Paths ConfigTypes CredCache Framing Json Sources Fetch Resolve.
Local Open Scope Z_scope.

(** ** Commands run by a computation *)

(** [m] runs at most [n] commands, each of which satisfies [P]. *)
Definition emits {A} (P : command → Prop) (n : nat) (m : M A) : Prop :=
  ∀ s, ∃ new, s_log (m s).2 = s_log s ++ new ∧ Forall P new ∧ (length new ≤ n)%nat.

Section emits.
Context {P : command → Prop}.

Lemma emits_quiet {A} n (m : M A) : (∀ s, s_log (m s).2 = s_log s) → emits P n m.
Proof. intros H s. exists []. rewrite H, app_nil_r. split; [done|]. split; [constructor|simpl; lia]. Qed.

Lemma emits_ret {A} n (a : A) : emits P n (mret a).
Proof. by apply emits_quiet. Qed.
Lemma emits_lift {A} n (r : result A) : emits P n (lift r).
Proof. by apply emits_quiet. Qed.
Lemma emits_fail {A} n (e : error) : emits P n (fail (A := A) e).
Proof. by apply emits_quiet. Qed.
Lemma emits_get {A} n (f : sys → A) : emits P n (get f).
Proof. by apply emits_quiet. Qed.
Lemma emits_set_bw n bw : emits P n (set_bw bw).
Proof. by apply emits_quiet. Qed.
Lemma emits_clock n : emits P n read_clock.
Proof. by apply emits_quiet. Qed.

Lemma emits_weaken {A} n k (m : M A) : (n ≤ k)%nat → emits P n m → emits P k m.
Proof. intros Hn Hm s. destruct (Hm s) as (new & ? & ? & ?). exists new. repeat split; [done..|lia]. Qed.

Lemma emits_bind {A B} n k (m : M A) (f : A → M B) :
  emits P n m → (∀ a, emits P k (f a)) → emits P (n + k) (m ≫= f).
Proof.
  intros Hm Hf s. destruct (Hm s) as (new & E & HP & Hl). unfold mbind, M_bind.
  destruct (m s) as [[a|e] s1]; cbn [snd] in E.
  - destruct (Hf a s1) as (new' & E' & HP' & Hl'). exists (new ++ new').
    rewrite E', E, app_assoc, length_app. split; [done|]. split; [by apply Forall_app|lia].
  - exists new. split; [done|]. split; [done|lia].
Qed.

Lemma emits_or_fail {A} n (m : M A) e : emits P n m → emits P n (or_fail m e).
Proof. intros Hm s. destruct (Hm s) as (new & E & ?). exists new. unfold or_fail. by destruct (m s) as [[]]. Qed.

Lemma emits_wrap {A} n fmt (m : M A) : emits P n m → emits P n (wrap_M fmt m).
Proof. intros Hm s. destruct (Hm s) as (new & E & ?). exists new. unfold wrap_M. by destruct (m s) as [[]]. Qed.

Lemma emits_run c : P c → emits P 1 (run_command c).
Proof.
  intros Hc s. exists [c]. unfold run_command. destruct (s_replies s); cbn;
    (split; [done|]); split; [by repeat constructor|lia|by repeat constructor|lia].
Qed.

Lemma emits_output_or c e : P c → emits P 1 (output_or c e).
Proof.
  intros Hc. unfold output_or. apply (emits_bind 1 0); [by apply emits_run|].
  intros []; first [apply emits_ret|apply emits_fail].
Qed.

Lemma emits_cached n key (m : M Credential) : emits P n m → emits P n (cached key m).
Proof.
  intros Hm. unfold cached. change n with (0 + (0 + (0 + (0 + n))))%nat.
  do 4 (apply emits_bind; [apply emits_clock|intros ?]).
  intros s. unfold cached_at, fetchCached. destruct (Hm s) as (new & E & HP & Hl).
  assert (∃ l, s_log s = s_log s ++ l ∧ Forall P l ∧ (length l ≤ n)%nat) as Hq
    by (exists []; rewrite app_nil_r; repeat split; [constructor|simpl; lia]).
  destruct (Get _ key _) as [[]]; [done|]. destruct (Get _ key _) as [[]]; [done|].
  destruct (m s) as [[cr|e] s1]; cbn [snd] in E; [by exists new|].
  destruct (staleEntry _ _ _); [destruct (Before _ _)|]; by exists new.
Qed.
End emits.

Create HintDb emits discriminated.
#[export] Hint Resolve emits_ret emits_lift emits_fail emits_get emits_set_bw emits_clock emits_or_fail : emits.

Section laws.
Context `{UC : UnicodeCase} `{OSi : OS} `{FI : Files} `{LI : Libraries} `{MR : MapRange} `{GH : GitHubLib}.

(** The argument lists fetching a source may use: they depend on the text of the
    source alone, no credential is in them. *)
Definition source_args (p : ParsedSource) : list (list string) :=
  [["--"; ps_Path p]; ["read"; ps_Path p]; []; ["status"]; ["login"; "--apikey"];
   ["unlock"; "--raw"; "--passwordenv"; "BW_UNLOCK_PASSWORD"]; ["get"; "item"; ps_Path p];
   ["kv"; "get"; "-format=json"; "--"; ps_Path p];
   ["find-generic-password"; "-s"; ps_Path p; "-a"; keychainAccountName; "-w"]]
  ++ match parseOPSecretRef (ps_Path p) with
     | Ok (vault, item) => [["item"; "get"; item; "--vault"; vault; "--format"; "json"]]
     | Err _ => []
     end.

Definition public_command (p : ParsedSource) (c : command) : Prop := cmd_args c ∈ source_args p.

Ltac public := unfold public_command, source_args; cbn [cmd_args]; set_solver.

Lemma emits_ensure p b : emits (public_command p) 3 (ensureBWSession b).
Proof.
  unfold ensureBWSession. apply (emits_bind 0 3).
  { unfold bw_open. apply (emits_bind 0 0); [apply emits_get|]. intros cur. apply (emits_bind 0 0).
    - destruct cur; [apply emits_ret|]. apply (emits_bind 0 0); [apply emits_get|]. intros.
      apply (emits_bind 0 0); [apply emits_lift|]. intros. apply emits_ret.
    - intros. apply (emits_bind 0 0); [apply emits_set_bw|]. intros. apply emits_ret. }
  intros session. apply (emits_bind 1 2).
  { intros s. assert (emits (public_command p) 1 (bwCheckStatus session)) as Hst.
    { unfold bwCheckStatus. apply (emits_bind 1 0); [apply emits_run; public|].
      intros []; [|apply emits_fail..]. apply (emits_bind 0 0); [apply emits_lift|]. intros. apply emits_ret. }
    destruct (Hst s) as (new & E & ?). exists new. by destruct (bwCheckStatus session s) as [[]]. }
  assert (∀ session, emits (public_command p) 1 (bwUnlock session)) as Hunlock.
  { intros ses. unfold bwUnlock. apply (emits_bind 0 1); [eauto with emits|]. intros.
    apply (emits_bind 1 0); [apply emits_output_or; public|]. intros.
    apply (emits_bind 0 0); [apply emits_set_bw|]. intros. apply emits_ret. }
  intros status. destruct (bool_decide _); [apply emits_ret|].
  destruct (bool_decide _); [by apply (emits_weaken 1); [lia|]|].
  destruct (bool_decide _); [|apply emits_fail]. apply (emits_bind 1 1); [|done].
  unfold bwLogin. apply (emits_bind 0 1); [eauto with emits|]. intros.
  apply (emits_bind 0 1); [eauto with emits|]. intros.
  apply (emits_bind 1 0); [apply emits_output_or; public|]. intros.
  apply (emits_bind 0 0); [apply emits_set_bw|]. intros. apply emits_ret.
Qed.

Lemma emits_attempts p delays b session :
  emits (public_command p) (4 * length delays) (bw_attempts delays b session p).
Proof.
  revert session. induction delays as [|d delays IH]; intros session; [apply emits_fail|].
  cbn [bw_attempts]. apply (emits_weaken (1 + (0 + (3 + 4 * length delays)))); [simpl; lia|].
  apply emits_bind.
  { unfold bwGetItem. apply (emits_bind 1 0); [apply emits_run; public|]. intros. apply emits_ret. }
  intros [r|msg]; [apply emits_lift|]. destruct (isAuthError msg); [|apply emits_fail].
  apply emits_bind; [apply emits_set_bw|]. intros.
  apply emits_bind; [apply emits_or_fail, emits_ensure|]. intros. apply IH.
Qed.

Lemma emits_bitwarden p o : emits (public_command p) 15 (fetchFromBitwarden p o).
Proof.
  unfold fetchFromBitwarden. apply (emits_bind 0 15); [eauto with emits|]. intros b.
  apply (emits_bind 0 15); [apply emits_get|]. intros cur.
  apply (emits_bind 0 15); [destruct cur; eauto with emits|]. intros.
  apply (emits_bind 3 12); [apply emits_or_fail, emits_ensure|]. intros session.
  apply emits_attempts.
Qed.

Lemma emits_1password p o : emits (public_command p) 1 (fetchFrom1Password p o).
Proof.
  unfold fetchFrom1Password. apply (emits_bind 0 1); [eauto with emits|]. intros b.
  apply (emits_bind 0 1); [apply emits_get|]. intros. apply (emits_bind 0 1); [eauto with emits|]. intros t.
  destruct (HasJQ p).
  - unfold fetchFrom1PasswordWithJQ. intros s.
    destruct (parseOPSecretRef (ps_Path p)) as [[vault item]|] eqn:E; unfold or_fail, lift at 1, mbind, M_bind.
    + apply (emits_bind 1 0); [|intros; apply emits_lift]. apply emits_output_or.
      unfold public_command, source_args; cbn [cmd_args]. rewrite E. set_solver.
    + exists []. by rewrite app_nil_r; repeat split; [constructor|simpl; lia].
  - apply (emits_bind 1 0); [apply emits_output_or; public|]. intros. apply emits_ret.
Qed.

Lemma emits_backend p o : emits (public_command p) 15 (fetchCredentialFromBackend p o).
Proof.
  assert (∀ n (m : M string) (f : string → M Credential), (n ≤ 15)%nat → emits (public_command p) n m →
    (∀ v, emits (public_command p) 0 (f v)) → emits (public_command p) 15 (m ≫= f)) as Hb.
  { intros n m f Hn Hm Hf. apply (emits_weaken (n + 0)); [lia|]. by apply emits_bind. }
  assert (∀ v (f : string → Credential), emits (public_command p) 0
    (lift (apply_jq_if p v) ≫= λ v, mret (f v))) as Hj.
  { intros v f. apply (emits_bind 0 0); [apply emits_lift|]. intros. apply emits_ret. }
  unfold fetchCredentialFromBackend. destruct (ps_Backend p).
  - apply (Hb 1%nat); [lia| |intros; apply Hj]. unfold fetchFromPass.
    apply (emits_bind 1 0); [apply emits_run; public|]. intros []; eauto with emits.
  - apply (Hb O); [lia|apply emits_lift|intros; apply Hj].
  - apply (Hb 1%nat); [lia|apply emits_1password|intros; apply emits_ret].
  - apply (Hb O); [lia| |intros; apply emits_ret]. unfold fetchFromAge.
    apply (emits_bind 0 0); [apply emits_get|]. intros. apply (emits_bind 0 0); [eauto with emits|].
    intros. apply emits_lift.
  - apply (Hb 1%nat); [lia| |intros; apply emits_ret]. unfold fetchFromKeychain.
    destruct os_darwin; [|apply emits_fail]. apply (emits_bind 1 0); [|intros; apply emits_lift].
    apply emits_or_fail. unfold readKeychainItem. apply (emits_bind 1 0); [apply emits_run; public|].
    intros []; try apply emits_ret; try apply emits_fail.
    destruct (_ =? _); [apply emits_fail|]. destruct (Contains _ _); apply emits_fail.
  - apply (Hb 15%nat); [lia|apply emits_bitwarden|intros; apply emits_ret].
  - apply (Hb 1%nat); [lia| |intros; apply emits_ret]. unfold fetchFromVault.
    apply (emits_bind 0 1); [eauto with emits|]. intros. apply (emits_bind 0 1); [apply emits_get|]. intros.
    apply (emits_bind 1 0); [apply emits_output_or; public|]. intros.
    apply (emits_bind 0 0); [apply emits_lift|]. intros. apply emits_lift.
  - unfold fetchFromExecJSON. apply (emits_weaken 1); [lia|]. apply (emits_bind 0 1); [apply emits_lift|].
    intros. apply (emits_bind 1 0); [apply emits_run; public|]. intros []; first [apply emits_lift|apply emits_fail].
  - apply (Hb O); [lia|apply emits_lift|intros; apply Hj].
Qed.

(** What fetching a source text may run. *)
Definition source_command (source : string) (c : command) : Prop :=
  ∃ p, ParseSource source = Ok p ∧ public_command p c.

Lemma emits_imp {A} (P Q : command → Prop) n (m : M A) : (∀ c, P c → Q c) → emits P n m → emits Q n m.
Proof.
  intros HPQ Hm s. destruct (Hm s) as (new & ? & HP & ?). exists new. split; [done|]. split; [|done].
  by eapply Forall_impl.
Qed.

Lemma emits_FetchCredential source opts : emits (source_command source) 15 (FetchCredential source opts).
Proof.
  unfold FetchCredential. destruct (ParseSource source) as [p|] eqn:E; [|apply emits_fail].
  apply (emits_imp (public_command p)); [intros c Hc; by exists p|].
  destruct (_ && _); [apply emits_cached|]; apply emits_backend.
Qed.

(** ** Source texts *)

Definition prefix_of_backend (b : Backend) : string :=
  match b with
  | Backend1Password => "" | BackendPass => "pass:" | BackendEnv => "env:" | BackendAge => "age:"
  | BackendKeychain => "keychain:" | BackendBitwarden => "bw:" | BackendVault => "vault:"
  | BackendExecJSON => "exec-json:" | BackendFile => "file:"
  end.

Definition source_text (b : Backend) (path jq : string) : string :=
  prefix_of_backend b +:+ path +:+ (if bool_decide (jq = "") then "" else " | " +:+ jq).

Lemma str_app_assoc (a b c : string) : a +:+ b +:+ c = (a +:+ b) +:+ c.
Proof. apply (inj s2b). by rewrite !s2b_app, app_assoc. Qed.
Lemma str_app_nil (a : string) : a +:+ "" = a.
Proof. apply (inj s2b). by rewrite s2b_app, app_nil_r. Qed.

Definition pipe : bytes := s2b " | ".

Lemma index_of_pipe a k : "|"%char ∉ a → index_of (a ++ pipe ++ k) pipe = Some (length a).
Proof.
  induction a as [|c a IH]; intros Ha; [done|]. apply not_elem_of_cons in Ha as [Hc Ha].
  cbn [app index_of length]. assert (has_prefix (c :: a ++ pipe ++ k) pipe = false) as ->.
  { cbn [pipe has_prefix s2b String.list_ascii_of_string]. apply andb_false_iff. right.
    destruct a as [|d a]; [done|]. cbn [app has_prefix]. apply not_elem_of_cons in Ha as [Hd _].
    by rewrite (bool_decide_eq_false_2 ("|"%char = d)). }
  by rewrite (IH Ha).
Qed.

Lemma index_of_no_pipe a : "|"%char ∉ a → index_of a pipe = None.
Proof.
  induction a as [|c a IH]; intros Ha; [done|]. apply not_elem_of_cons in Ha as [Hc Ha].
  cbn [index_of]. assert (has_prefix (c :: a) pipe = false) as ->.
  { cbn [pipe has_prefix s2b String.list_ascii_of_string]. apply andb_false_iff. right.
    destruct a as [|d a]; [done|]. cbn [has_prefix]. apply not_elem_of_cons in Ha as [Hd _].
    by rewrite (bool_decide_eq_false_2 ("|"%char = d)). }
  by rewrite (IH Ha).
Qed.

Lemma TrimPrefix_app p k : HasPrefix (p +:+ k) p = true ∧ TrimPrefix (p +:+ k) p = k.
Proof.
  unfold HasPrefix, TrimPrefix, trim_prefix. rewrite s2b_app, has_prefix_app, drop_app_length.
  by rewrite b2s_s2b.
Qed.

Lemma source_backend_text b path :
  (b = Backend1Password → HasPrefix path "op://" = true) →
  source_backend (prefix_of_backend b +:+ path) = (b, path).
Proof.
  intros Hop. unfold source_backend, source_prefixes. destruct b; cbn [prefix_of_backend backend_string].
  3: { change ("" +:+ path) with path. by rewrite Hop. }
  all: match goal with |- context [HasPrefix (?p +:+ ?x) "op://"] =>
    change (HasPrefix (p +:+ x) "op://") with false;
    destruct (TrimPrefix_app p x) as [E1 E2]; cbn [match_prefix];
    repeat match goal with |- context [HasPrefix (p +:+ x) ?q] =>
      first [unify p q; rewrite E1, E2 | change (HasPrefix (p +:+ x) q) with false] end; reflexivity end.
Qed.

(** ** Properties *)

(** C31: A source reads back as it is written: backend prefix, path and, after a
    bar, the jq expression, for every backend. *)
Theorem ParseSource_text b path jq :
  path ≠ "" → "|"%char ∉ s2b path →
  TrimSpace (prefix_of_backend b +:+ path) = prefix_of_backend b +:+ path → TrimSpace jq = jq →
  (b = Backend1Password → HasPrefix path "op://" = true) → (b = BackendExecJSON → jq = "") →
  ParseSource (source_text b path jq) =
    Ok {| ps_Backend := b; ps_Path := path; ps_JQExpr := jq; ps_Original := source_text b path jq |}.
Proof.
  intros Hne Hbar Htrim Hjq Hop Hex. set (src := prefix_of_backend b +:+ path) in *.
  assert ("|"%char ∉ s2b src) as Hsrc.
  { unfold src. rewrite s2b_app, not_elem_of_app. split; [|done].
    destruct b; apply (bool_decide_eq_true_1 _); vm_compute; reflexivity. }
  assert (∃ c t, src = String c t) as (c0 & t0 & Es).
  { destruct src as [|c t] eqn:E; [|by exists c, t]. apply (f_equal s2b) in E. unfold src in E.
    rewrite s2b_app in E. apply app_nil in E as [_ E]. by apply s2b_nil_iff in E. }
  assert (source_text b path jq = src +:+ (if bool_decide (jq = "") then "" else " | " +:+ jq)) as Et
    by (unfold source_text, src; by rewrite str_app_assoc).
  set (T := source_text b path jq) in *. clearbody T.
  unfold ParseSource. rewrite bool_decide_eq_false_2 by (rewrite Et, Es; done). cbv zeta.
  assert ((match Index T " | " with
     | Some idx =>
       if bool_decide (TrimSpace (SliceFrom T (idx + 3)) = "")
       then Err (Errorf "empty jq expression after pipe in %q" [FS T])
       else Ok (TrimSpace (SliceTo T idx), TrimSpace (SliceFrom T (idx + 3)))
     | None => Ok (T, "")
     end) = Ok (src, jq)) as ->.
  { destruct (bool_decide_reflect (jq = "")) as [->|Hj].
    - rewrite str_app_nil in Et. subst T. unfold Index. change (s2b " | ") with pipe. by rewrite index_of_no_pipe.
    - subst T. unfold Index, SliceFrom, SliceTo. rewrite !s2b_app. change (s2b " | ") with pipe.
      rewrite index_of_pipe, take_app_length, b2s_s2b, Htrim, app_assoc by done.
      rewrite drop_app_length' by (by rewrite length_app). rewrite b2s_s2b, Hjq.
      by rewrite bool_decide_eq_false_2. }
  cbn [mbind result_bind].
  unfold src. rewrite source_backend_text by done. rewrite (bool_decide_eq_false_2 (path = "")) by done.
  destruct (bool_decide_reflect (b = BackendExecJSON)) as [He|]; [|done].
  by rewrite (Hex He).
Qed.

(** C29: No secret is ever put on a command line. Resolving any credential runs at
    most fifteen commands, retries and the Bitwarden login included, and the
    arguments of each are made of constants and of the text of the configured
    source alone, whatever the helpers answer. *)
Theorem ResolveCredential_commands i opts s :
  let s' := (ResolveCredential i opts s).2 in
  ∃ new, s_log s' = s_log s ++ new ∧ (length new ≤ 15)%nat ∧
    Forall (λ c, source_command (TrimSpace (ri_Source i)) c ∨ source_command (TrimSpace (ri_PrivateKey i)) c) new.
Proof.
  set (Q c := source_command _ c ∨ source_command _ c).
  assert (emits Q 15 (ResolveCredential i opts)) as He.
  { unfold ResolveCredential. destruct (bool_decide _).
    { eapply emits_imp; [|apply emits_FetchCredential]. intros c Hc. by left. }
    destruct (bool_decide _); [|apply emits_fail].
    assert (∀ o, emits Q 15 (mintGitHubAppInstallationToken (githubAppSpecFromInput i) o)) as Hmint.
    { intros o. unfold mintGitHubAppInstallationToken. apply (emits_bind 15 0).
      - apply emits_wrap. unfold fetchPrivateKeyPEM. apply (emits_bind 15 0).
        + eapply emits_imp; [|apply emits_FetchCredential]. intros c Hc. by right.
        + intros. destruct (bool_decide _); eauto with emits.
      - intros. apply (emits_bind 0 0); [apply emits_lift|]. intros.
        apply (emits_bind 0 0); [apply emits_clock|]. intros.
        apply (emits_bind 0 0); [apply emits_lift|]. intros. apply emits_lift. }
    unfold fetchGitHubAppCredential. destruct (fo_BypassCache _); [apply Hmint|].
    by apply emits_cached. }
  cbv zeta. destruct (He s) as (new & E & HP & Hl). by exists new.
Qed.

(** C30: A secret is read only from a file that its owner alone can have written:
    a [file:] secret from a regular file at an absolute path, owned by root or the
    daemon, not group-writable and closed to others, of at most 64 KiB; an [env:]
    secret from a regular file with mode 0600 or 0640 owned by the daemon and not
    a symbolic link; and [exec-json:] runs only an absolute path that is a regular
    executable file owned by root or the daemon which others cannot write. *)
Theorem sources_trusted :
  (∀ path v, fetchFromFile path = Ok v → IsAbs path = true ∧
    ∃ info uid data, open_follow path = Ok (Ok info) ∧ fi_regular info = true ∧ Z.land (fi_perm info) 0x17 = 0 ∧
      fi_uid info = Some uid ∧ (uid = 0 ∨ uid = euid) ∧ fi_data info = Ok data ∧ blen data ≤ maxSecretFileSize) ∧
  (∀ name v, fetchFromEnvFile name = Ok v →
    ∃ info, open_nofollow EnvFile = Ok (Ok info) ∧ fi_regular info = true ∧
      (fi_perm info = 0x180 ∨ fi_perm info = 0x1A0) ∧ fi_uid info = Some euid) ∧
  (∀ p s, s_log (fetchFromExecJSON p s).2 ≠ s_log s → IsAbs (ps_Path p) = true ∧
    ∃ info uid, open_nofollow (ps_Path p) = Ok (Ok info) ∧ fi_regular info = true ∧
      Z.land (fi_perm info) 0x12 = 0 ∧ Z.land (fi_perm info) 0x49 ≠ 0 ∧
      fi_uid info = Some uid ∧ (uid = 0 ∨ uid = euid)).
Proof.
  split; [|split].
  - intros path v. unfold fetchFromFile. intros Hok. inv_ok.
    destruct (fi_uid _) as [owner|] eqn:Eu; [|done]. inv_ok.
    repeat match goal with H : negb _ = false |- _ => apply negb_false_iff in H end.
    split; [done|]. eexists _, owner, _. repeat split; [done|done|lia|done|lia|done|].
    rename select (_ >? _ = false) into Hs. unfold blen, maxSecretFileSize in *. rewrite length_take, Z.gtb_ltb, Z.ltb_ge in Hs. lia.
  - intros name v. unfold fetchFromEnvFile, openValidatedEnvFile, open_checked. intros Hok. inv_ok.
    destruct (open_nofollow EnvFile) as [st|e] eqn:Eo; [|by destruct (bool_decide _)].
    destruct (fi_uid _) as [uid|] eqn:Eu; [|done]. inv_ok.
    repeat match goal with H : negb _ = false |- _ => apply negb_false_iff in H end.
    simplify_eq. rename select (secret_mode _ = true) into Hm. unfold secret_mode in Hm.
    apply bool_decide_eq_true in Hm. eexists. split; [done|]. split; [done|]. split; [set_solver|].
    rewrite Eu. f_equal. lia.
  - intros p s. unfold fetchFromExecJSON. destruct (validateExecJSONCommand (ps_Path p)) as [[]|e] eqn:Ev; [|done].
    intros _. unfold validateExecJSONCommand, open_checked in Ev. inv_ok.
    destruct (open_nofollow (ps_Path p)) as [st|e] eqn:Eo; [|by destruct (bool_decide _)].
    destruct (fi_uid _) as [uid|] eqn:Eu; [|done]. inv_ok.
    repeat match goal with H : negb _ = false |- _ => apply negb_false_iff in H end.
    simplify_eq. split; [done|]. eexists _, uid. do 5 (split; [first [done|lia]|]); lia.
Qed.
End laws.
