(* ===== verification/ArgsPolicy.v ===== *)
(** The argument policy: [compileArgRule] of [internal/config/args_rules.go],
    run when a configuration is loaded, and [checkToolArgs] of
    [internal/daemon/args_policy.go], run on every request.

    The verdict of the checks is the pair the code returns: allowed, and the
    message of a refusal. *)

From S2P Require Import Prelude GoStrings Regexp ConfigTypes.
Local Open Scope Z_scope.

Definition regexp_error : error := Sentinel "regexp".

(** The [%q] form of a plain word. *)
Definition quoted (s : string) : string := String "034" (s +:+ String "034" "").

(** The modes listed by the error message of an unknown one. *)
Definition valid_modes (allowArgv : bool) : string :=
  if allowArgv then
    quoted BlockedArgMatchArg +:+ ", " +:+ quoted BlockedArgMatchCommand +:+ " or "
      +:+ quoted BlockedArgMatchArgv
  else quoted BlockedArgMatchArg +:+ " or " +:+ quoted BlockedArgMatchCommand.

Section rules.
Context `{Regexp}.

(** ** Compiling a rule *)

(** The loop that compiles the patterns of an [argv] rule, from index [i] on. *)
Fixpoint compileArgv (field : string) (i : Z) (argv : list string) : result (list regexp) :=
  match argv with
  | [] => Ok []
  | p :: argv =>
    match Compile p with
    | None => Err (Wrapf "invalid %s argv[%d] %q: %w" [FS field; FZ i; FS p] regexp_error)
    | Some _ =>
      match Compile ("^(?:" +:+ p +:+ ")$") with
      | None => Err (Wrapf "invalid %s argv[%d] %q: %w" [FS field; FZ i; FS p] regexp_error)
      | Some re => compileArgv field (i + 1) argv ≫= λ compiled, Ok (re :: compiled)
      end
    end
  end.

Definition compileArgRule (rule : BlockedArg) (field : string) (allowArgv : bool) : result BlockedArg :=
  let matchMode := TrimSpace (ba_Match rule) in
  let matchMode := if bool_decide (matchMode = "") then BlockedArgMatchArg else matchMode in
  if bool_decide (matchMode = BlockedArgMatchArg) || bool_decide (matchMode = BlockedArgMatchCommand) then
    if negb (bool_decide (ba_Argv rule = [])) then
      Err (Errorf "%s: argv is only valid with match: argv" [FS field])
    else
      match Compile (ba_Pattern rule) with
      | None => Err (Wrapf "invalid %s pattern %q: %w" [FS field; FS (ba_Pattern rule)] regexp_error)
      | Some re =>
        Ok {| ba_Pattern := ba_Pattern rule; ba_Message := ba_Message rule; ba_Match := matchMode;
              ba_Argv := ba_Argv rule; ba_Compiled := Some re; ba_CompiledArgv := ba_CompiledArgv rule |}
      end
  else if bool_decide (matchMode = BlockedArgMatchArgv) then
    if negb allowArgv then
      Err (Errorf "%s: match %q is only supported in allowed_args" [FS field; FS BlockedArgMatchArgv])
    else if negb (bool_decide (ba_Pattern rule = "")) then
      Err (Errorf "%s: use either pattern or argv, not both" [FS field])
    else if bool_decide (ba_Argv rule = []) then
      Err (Errorf "%s: match %q requires a non-empty argv list" [FS field; FS BlockedArgMatchArgv])
    else
      compileArgv field 0 (ba_Argv rule) ≫= λ compiled,
      Ok {| ba_Pattern := ba_Pattern rule; ba_Message := ba_Message rule; ba_Match := matchMode;
            ba_Argv := ba_Argv rule; ba_Compiled := ba_Compiled rule; ba_CompiledArgv := compiled |}
  else
    Err (Errorf "invalid %s match %q (must be %s)" [FS field; FS (ba_Match rule); FS (valid_modes allowArgv)]).

(** ** Checking the arguments of a request *)

Definition internal_pattern_error := "internal error: invalid security pattern".

Definition blockedArgMessage (msg : string) : string :=
  if bool_decide (msg = "") then "operation blocked by security policy" else msg.

Fixpoint allowedArgMessage (allowed : list BlockedArg) : string :=
  match allowed with
  | [] => "operation not in allowlist"
  | a :: allowed => if negb (bool_decide (ba_Message a = "")) then ba_Message a else allowedArgMessage allowed
  end.

(** [matchArgv]: one argument per pattern, each matching. *)
Fixpoint matchArgv_from (patterns : list regexp) (args : list string) : bool :=
  match patterns, args with
  | re :: patterns, arg :: args => MatchString re arg && matchArgv_from patterns args
  | _, _ => true
  end.
Definition matchArgv (args : list string) (patterns : list regexp) : bool :=
  if negb (length args =? length patterns)%nat then false else matchArgv_from patterns args.

(** The loop of [checkBlockedArgs]. *)
Fixpoint blocked_loop (args : list string) (joinedArgs : string) (blocked : list BlockedArg) : bool * string :=
  match blocked with
  | [] => (true, "")
  | b :: blocked =>
    match ba_Compiled b with
    | None => (false, internal_pattern_error)
    | Some re =>
      if bool_decide (ba_Match b = "") || bool_decide (ba_Match b = BlockedArgMatchArg) then
        if existsb (MatchString re) args then (false, blockedArgMessage (ba_Message b))
        else blocked_loop args joinedArgs blocked
      else if bool_decide (ba_Match b = BlockedArgMatchCommand) then
        if MatchString re joinedArgs then (false, blockedArgMessage (ba_Message b))
        else blocked_loop args joinedArgs blocked
      else (false, internal_pattern_error)
    end
  end.
Definition checkBlockedArgs (args : list string) (blocked : list BlockedArg) : bool * string :=
  match blocked with [] => (true, "") | _ => blocked_loop args (Join args " ") blocked end.

(** The loop of [checkAllowedArgs]; [None] when no rule matched. *)
Fixpoint allowed_loop (args : list string) (joinedArgs : string) (allowed : list BlockedArg)
    : option (bool * string) :=
  match allowed with
  | [] => None
  | a :: allowed =>
    if bool_decide (ba_Match a = BlockedArgMatchArgv) then
      if (length (ba_CompiledArgv a) =? 0)%nat
         || negb (length (ba_CompiledArgv a) =? length (ba_Argv a))%nat then
        Some (false, internal_pattern_error)
      else if matchArgv args (ba_CompiledArgv a) then Some (true, "")
      else allowed_loop args joinedArgs allowed
    else
      match ba_Compiled a with
      | None => Some (false, internal_pattern_error)
      | Some re =>
        if bool_decide (ba_Match a = "") || bool_decide (ba_Match a = BlockedArgMatchArg) then
          if existsb (MatchString re) args then Some (true, "") else allowed_loop args joinedArgs allowed
        else if bool_decide (ba_Match a = BlockedArgMatchCommand) then
          if MatchString re joinedArgs then Some (true, "") else allowed_loop args joinedArgs allowed
        else Some (false, internal_pattern_error)
      end
  end.
Definition checkAllowedArgs (args : list string) (allowed : list BlockedArg) : bool * string :=
  match allowed with
  | [] => (true, "")
  | _ => match allowed_loop args (Join args " ") allowed with
         | Some verdict => verdict
         | None => (false, allowedArgMessage allowed)
         end
  end.

Definition checkToolArgs (args : list string) (tool : ToolDef) : bool * string :=
  match checkBlockedArgs args (td_BlockedArgs tool) with
  | (false, msg) => (false, msg)
  | (true, _) =>
    if bool_decide (td_Mode tool = ToolModeAllowlist) && negb (length (td_AllowedArgs tool) =? 0)%nat then
      match checkAllowedArgs args (td_AllowedArgs tool) with
      | (false, msg) => (false, msg)
      | (true, _) => (true, "")
      end
    else (true, "")
  end.

(** ** Specification *)

(** What a compiled rule means: an [argv] rule describes the whole argument
    vector, a [command] rule some part of the joined line, an [arg] rule some
    part of one argument. *)
Definition rule_holds (args : list string) (r : BlockedArg) : Prop :=
  if bool_decide (ba_Match r = BlockedArgMatchArgv) then
    Forall2 (λ re a, MatchString re a = true) (ba_CompiledArgv r) args
  else
    match ba_Compiled r with
    | None => False
    | Some re =>
      if bool_decide (ba_Match r = BlockedArgMatchCommand) then MatchString re (Join args " ") = true
      else Exists (λ a, MatchString re a = true) args
    end.

(** A rule as [compileArgRule] leaves it. *)
Definition compiled_rule (allowArgv : bool) (r : BlockedArg) : Prop :=
  (ba_Match r = BlockedArgMatchArg ∨ ba_Match r = BlockedArgMatchCommand) ∧ is_Some (ba_Compiled r) ∨
  allowArgv = true ∧ ba_Match r = BlockedArgMatchArgv ∧ ba_Argv r ≠ [] ∧
    length (ba_CompiledArgv r) = length (ba_Argv r).

(** A tool whose rules went through validation. *)
Definition compiled_tool (t : ToolDef) : Prop :=
  Forall (compiled_rule false) (td_BlockedArgs t) ∧ Forall (compiled_rule true) (td_AllowedArgs t) ∧
  (td_Mode t = ToolModeBlocklist ∨ td_Mode t = ToolModeAllowlist ∧ td_AllowedArgs t ≠ []).

(** ** Lemmas *)

Lemma compileArgv_spec field i argv compiled :
  compileArgv field i argv = Ok compiled ↔
  Forall2 (λ p re, is_Some (Compile p) ∧ Compile ("^(?:" +:+ p +:+ ")$") = Some re) argv compiled.
Proof.
  revert i compiled. induction argv as [|p argv IH]; intros i compiled; cbn [compileArgv].
  - split; [intros H1; injection H1 as <-; constructor|]. intros H1. by apply Forall2_nil_inv_l in H1 as ->.
  - split.
    + destruct (Compile p) eqn:E1; [|done]. destruct (Compile (_ +:+ _)) as [re|] eqn:E2; [|done].
      rewrite bind_Ok. intros (c & Hc%IH & Hok). injection Hok as <-. constructor; [|done]. by rewrite E1.
    + intros H1. inversion H1 as [|? re ? c [[re0 E1] E2] HF]; subst. rewrite E1, E2.
      apply (IH (i + 1)) in HF. by rewrite HF.
Qed.

Lemma compileArgRule_compiled rule field allowArgv r :
  compileArgRule rule field allowArgv = Ok r → compiled_rule allowArgv r.
Proof.
  unfold compileArgRule. set (m := if bool_decide _ then _ else _).
  destruct (bool_decide (m = BlockedArgMatchArg) || bool_decide (m = BlockedArgMatchCommand)) eqn:Em.
  - destruct (negb _); [done|]. destruct (Compile _) as [re|]; [|done]. intros Hok; injection Hok as <-.
    left; simpl. split; [|by eexists].
    apply orb_true_iff in Em as [E|E]; apply bool_decide_eq_true in E; auto.
  - goal_decide Ea; [|done]. destruct allowArgv; [|done]. simpl.
    destruct (negb _); [done|]. goal_decide En; [done|]. rewrite bind_Ok.
    intros (c & Hc & Hok). injection Hok as <-. right; simpl.
    apply compileArgv_spec, Forall2_length in Hc. auto.
Qed.

Lemma matchArgv_spec args res :
  matchArgv args res = true ↔ Forall2 (λ re a, MatchString re a = true) res args.
Proof.
  unfold matchArgv. destruct (Nat.eqb_spec (length args) (length res)) as [E|E]; simpl.
  2: { split; [done|]. intros HF%Forall2_length. congruence. }
  revert args E. induction res as [|re res IH]; intros [|a args] E; simpl in *; try done.
  rewrite andb_true_iff, IH by lia. split; [intros []; by constructor|].
  intros HF. by inversion HF.
Qed.

Lemma existsb_Exists {A} (f : A → bool) l : existsb f l = true ↔ Exists (λ x, f x = true) l.
Proof. rewrite existsb_exists, Exists_exists. by setoid_rewrite list_elem_of_In. Qed.

Lemma compiled_rule_match r allowArgv :
  compiled_rule allowArgv r → ba_Match r ≠ BlockedArgMatchArgv →
  ∃ re, ba_Compiled r = Some re ∧ (ba_Match r = BlockedArgMatchArg ∨ ba_Match r = BlockedArgMatchCommand).
Proof. intros [[? [re ?]]|(_ & ? & _)]; [|done]. by exists re. Qed.

Lemma blocked_loop_spec args blocked :
  Forall (compiled_rule false) blocked →
  (blocked_loop args (Join args " ") blocked = (true, "") ∧ Forall (λ r, ¬ rule_holds args r) blocked) ∨
  (∃ r, r ∈ blocked ∧ rule_holds args r ∧
    blocked_loop args (Join args " ") blocked = (false, blockedArgMessage (ba_Message r))).
Proof.
  induction 1 as [|r blocked Hr HF IH]; [by left|]. cbn [blocked_loop].
  destruct Hr as [[Hm [re Hre]]|(? & _)]; [|done]. rewrite Hre.
  assert (∀ hit : bool, (hit = true ↔ rule_holds args r) →
    ((if hit then (false, blockedArgMessage (ba_Message r)) else blocked_loop args (Join args " ") blocked)
        = (true, "") ∧ Forall (λ r, ¬ rule_holds args r) (r :: blocked)) ∨
    (∃ r0, r0 ∈ r :: blocked ∧ rule_holds args r0 ∧
      (if hit then (false, blockedArgMessage (ba_Message r)) else blocked_loop args (Join args " ") blocked)
        = (false, blockedArgMessage (ba_Message r0)))) as Hstep.
  { intros [] Hhit.
    - right. exists r. split; [left|]. split; [by apply Hhit|done].
    - destruct IH as [[-> HN]|(r0 & Hin & Hh & ->)].
      + left. split; [done|]. constructor; [|done]. intros Hh. by apply Hhit in Hh.
      + right. exists r0. split; [by right|done]. }
  unfold rule_holds in Hstep at 1. rewrite Hre in Hstep.
  destruct Hm as [Em|Em]; rewrite Em in *; simpl.
  - specialize (Hstep (existsb (MatchString re) args)).
    apply Hstep. unfold BlockedArgMatchArg, BlockedArgMatchArgv, BlockedArgMatchCommand. simpl.
    apply existsb_Exists.
  - specialize (Hstep (MatchString re (Join args " "))). by apply Hstep.
Qed.

Lemma allowed_loop_spec args allowed :
  Forall (compiled_rule true) allowed →
  (allowed_loop args (Join args " ") allowed = Some (true, "") ∧ Exists (rule_holds args) allowed) ∨
  (allowed_loop args (Join args " ") allowed = None ∧ Forall (λ r, ¬ rule_holds args r) allowed).
Proof.
  induction 1 as [|r allowed Hr HF IH]; [right; split; [done|constructor]|]. cbn [allowed_loop].
  assert (∀ hit : bool, (hit = true ↔ rule_holds args r) →
    ((if hit then Some (true, "") else allowed_loop args (Join args " ") allowed)
      = Some (true, "") ∧ Exists (rule_holds args) (r :: allowed)) ∨
    ((if hit then Some (true, "") else allowed_loop args (Join args " ") allowed) = None ∧
      Forall (λ r, ¬ rule_holds args r) (r :: allowed))) as Hstep.
  { intros [] Hhit.
    - left. split; [done|]. constructor. by apply Hhit.
    - destruct IH as [[-> HE]|[-> HN]].
      + left. split; [done|]. by apply Exists_cons_tl.
      + right. split; [done|]. constructor; [|done]. intros Hh. by apply Hhit in Hh. }
  unfold rule_holds in Hstep at 1.
  destruct Hr as [[Hm [re Hre]]|(_ & Em & Hn & Hl)].
  - rewrite Hre in *. destruct Hm as [Em|Em]; rewrite Em in *; simpl in *; apply Hstep; [|done].
    unfold BlockedArgMatchArg, BlockedArgMatchCommand, BlockedArgMatchArgv; simpl. apply existsb_Exists.
  - rewrite Em in *. rewrite bool_decide_eq_true_2 in * by done. rewrite Hl, Nat.eqb_refl.
    destruct (Nat.eqb_spec (length (ba_Argv r)) 0) as [E|]; [by destruct (ba_Argv r)|]. simpl.
    apply Hstep, matchArgv_spec.
Qed.

Lemma allowedArgMessage_not_internal rules :
  Forall (λ r, ba_Message r ≠ internal_pattern_error) rules →
  allowedArgMessage rules ≠ internal_pattern_error.
Proof.
  induction 1 as [|r rules Hr HF IH]; simpl; [done|]. by destruct (negb _).
Qed.

(** ** Properties *)

(** On a validated tool the policy is exactly: no blocked rule holds of
    the arguments, and in allowlist mode some allowed rule does. *)
Theorem checkToolArgs_iff args tool :
  compiled_tool tool →
  (checkToolArgs args tool).1 = true ↔
    Forall (λ r, ¬ rule_holds args r) (td_BlockedArgs tool) ∧
    (td_Mode tool = ToolModeAllowlist → Exists (rule_holds args) (td_AllowedArgs tool)).
Proof.
  intros (HB & HA & Hm). unfold checkToolArgs, checkBlockedArgs.
  assert (match td_BlockedArgs tool with [] => (true, "")
    | _ => blocked_loop args (Join args " ") (td_BlockedArgs tool) end
    = blocked_loop args (Join args " ") (td_BlockedArgs tool)) as -> by by destruct (td_BlockedArgs tool).
  destruct (blocked_loop_spec args _ HB) as [[-> HN]|(r & Hin & Hh & ->)].
  2: { split; [done|]. intros [HN _]. rewrite Forall_forall in HN. by destruct (HN _ Hin). }
  destruct Hm as [Em|[Em Hn]]; rewrite Em; [by split|].
  rewrite bool_decide_eq_true_2 by done. unfold checkAllowedArgs.
  pose proof (allowed_loop_spec args _ HA) as HL.
  destruct (td_AllowedArgs tool) as [|a l] eqn:El; [done|]. rewrite <- El in *.
  replace (negb _) with true by (by rewrite El). simpl.
  destruct HL as [[-> HE]|[-> HE]]; simpl; [naive_solver|].
  split; [done|]. intros [_ Hex]. specialize (Hex eq_refl).
  exfalso. rewrite Exists_exists in Hex. destruct Hex as (x & Hx & Hh).
  rewrite Forall_forall in HE. by destruct (HE _ Hx).
Qed.

(** Deny first and fail closed. Whatever the state of the rules, compiled
    or not, arguments that pass satisfy no blocked rule, no blocked rule was
    left uncompiled or with an unknown mode, and in allowlist mode with
    a non-empty list some allowed rule holds. *)
Theorem checkToolArgs_fail_closed args tool :
  (checkToolArgs args tool).1 = true →
  Forall (λ r, is_Some (ba_Compiled r) ∧ ba_Match r ≠ BlockedArgMatchArgv ∧ ¬ rule_holds args r)
    (td_BlockedArgs tool) ∧
  (td_Mode tool = ToolModeAllowlist → td_AllowedArgs tool ≠ [] →
   Exists (rule_holds args) (td_AllowedArgs tool)).
Proof.
  unfold checkToolArgs. destruct (checkBlockedArgs args (td_BlockedArgs tool)) as [[] bm] eqn:EB; [|done].
  intros Hok. split.
  - assert (∃ m, blocked_loop args (Join args " ") (td_BlockedArgs tool) = (true, m)) as [m HL].
    { unfold checkBlockedArgs in EB. destruct (td_BlockedArgs tool); eauto. }
    clear -HL. induction (td_BlockedArgs tool) as [|r l IH]; [constructor|]. cbn [blocked_loop] in HL.
    unfold rule_holds at 1. destruct (ba_Compiled r) as [re|] eqn:Er; [|done].
    destruct (bool_decide (ba_Match r = "") || bool_decide (ba_Match r = BlockedArgMatchArg)) eqn:Em.
    + destruct (existsb _ _) eqn:Ex; [done|]. constructor; [|auto]. split; [by eexists|].
      assert (ba_Match r ≠ BlockedArgMatchArgv ∧ ba_Match r ≠ BlockedArgMatchCommand) as [N1 N2].
      { apply orb_true_iff in Em. rewrite !bool_decide_eq_true in Em. destruct Em as [-> | ->]; done. }
      split; [done|]. unfold rule_holds. rewrite Er, !bool_decide_eq_false_2 by done.
      rewrite <- existsb_Exists. congruence.
    + case_bool_decide as Ec; [|done]. destruct (MatchString _ _) eqn:Ex; [done|].
      constructor; [|auto]. unfold rule_holds. rewrite Er, Ec. split; [by eexists|]. split; [done|].
      simpl. congruence.
  - intros Em Hn. rewrite Em, bool_decide_eq_true_2 in Hok by done.
    destruct (td_AllowedArgs tool) as [|a l] eqn:El; [done|]. rewrite <- El in *.
    replace (negb _) with true in Hok by (by rewrite El). simpl in Hok.
    destruct (checkAllowedArgs args (td_AllowedArgs tool)) as [[] am] eqn:EA; [|done].
    unfold checkAllowedArgs in EA. rewrite El in EA at 1.
    destruct (allowed_loop args (Join args " ") (td_AllowedArgs tool)) as [[b v]|] eqn:HL; [|done].
    injection EA as -> ->. clear -HL.
    induction (td_AllowedArgs tool) as [|r k IH]; [done|]. cbn [allowed_loop] in HL.
    case_bool_decide as Ea.
    + destruct (_ || _); [done|]. destruct (matchArgv _ _) eqn:Ex; [|by apply Exists_cons_tl, IH].
      apply Exists_cons_hd. unfold rule_holds. rewrite bool_decide_eq_true_2 by done.
      by apply matchArgv_spec.
    + destruct (ba_Compiled r) as [re|] eqn:Er; [|done].
      destruct (bool_decide (ba_Match r = "") || _) eqn:Eb.
      * destruct (existsb _ _) eqn:Ex; [|by apply Exists_cons_tl, IH].
        apply Exists_cons_hd. unfold rule_holds. rewrite bool_decide_eq_false_2, Er by done.
        rewrite bool_decide_eq_false_2; [by apply existsb_Exists|].
        apply orb_true_iff in Eb. rewrite !bool_decide_eq_true in Eb. by destruct Eb as [-> | ->].
      * case_bool_decide as Ec; [|done]. destruct (MatchString _ _) eqn:Ex; [|by apply Exists_cons_tl, IH].
        apply Exists_cons_hd. unfold rule_holds. by rewrite bool_decide_eq_false_2, Er, bool_decide_eq_true_2.
Qed.

(** An [argv] rule that compiled allows exactly the argument vectors whose
    arguments match the operator's patterns position by position, each pattern
    the whole argument: a pattern cannot escape its anchors, and no argument
    can carry extra text. *)
Theorem argv_rule_exact `{!RegexpLaws} rule field r args res :
  compileArgRule rule field true = Ok r → ba_Match r = BlockedArgMatchArgv →
  mapM Compile (ba_Argv rule) = Some res →
  (rule_holds args r ↔ Forall2 (λ re a, FullMatch re a = true) res args).
Proof.
  intros Hc Em Hres. unfold rule_holds. rewrite Em, bool_decide_eq_true_2 by done.
  assert (Forall2 (λ re re', ∀ s, MatchString re' s = FullMatch re s) res (ba_CompiledArgv r)) as HF.
  { unfold compileArgRule in Hc. revert Hc. set (m := if bool_decide _ then _ else _).
    destruct (bool_decide (m = BlockedArgMatchArg) || bool_decide (m = BlockedArgMatchCommand)) eqn:E.
    { destruct (negb _); [done|]. destruct (Compile _); [|done]. intros Hok; injection Hok as <-.
      simpl in Em. by rewrite Em in E. }
    goal_decide Ea; [|done]. simpl. destruct (negb _); [done|]. goal_decide En; [done|].
    rewrite bind_Ok. intros (c & Hc%compileArgv_spec & Hok). injection Hok as <-. simpl.
    apply mapM_Some in Hres. clear E Ea En Em m. revert res Hres.
    induction Hc as [|p re' argv c [_ E] HF IH]; intros res Hres; inversion Hres as [|? re ? res' Er Hr]; subst.
    - constructor.
    - constructor; [|auto]. intros s. by eapply compile_anchored. }
  clear -HF. revert args. induction HF as [|re re' res c E HF IH]; intros args.
  - split; intros HX; inversion HX; constructor.
  - destruct args as [|a args]; [split; intros HX; inversion HX|].
    by rewrite !Forall2_cons, E, IH.
Qed.
End rules.
