(* ===== verification/Interpolate.v ===== *)
(** Package [internal/config], [interpolate.go]: [{{ name }}] templates in the
    values of a tool's environment.

    The template expressions are fixed and deterministic, so the model scans for
    them directly: [match_name_ref] is [\{\{\s*([a-zA-Z0-9_-]+)\s*\}\}] at the
    start of a text and [match_brace_ref] is [\{\{([^}]+)\}\}] (used by the HTTP
    proxy). A class of ASCII characters reads the same on bytes and on runes. *)

From S2P Require Import Prelude GoStrings ConfigTypes Regexp.
Local Open Scope Z_scope.

(** ** Scanning *)

Fixpoint span (p : ascii → bool) (b : bytes) : bytes * bytes :=
  match b with
  | c :: r => if p c then let '(x, y) := span p r in (c :: x, y) else ([], b)
  | [] => ([], [])
  end.

(** [\s] *)
Definition is_re_space (c : ascii) : bool :=
  let z := code c in (z =? 9) || (z =? 10) || (z =? 12) || (z =? 13) || (z =? 32).
Definition is_name_char (c : ascii) : bool :=
  let z := code c in
  in_rng 97 122 z || in_rng 65 90 z || in_rng 48 57 z || (z =? 95) || (z =? 45).

Definition open_braces : bytes := s2b "{{".
Definition close_braces : bytes := s2b "}}".

(** A match at the start of the text: the submatch, the match, what follows. *)
Definition matcher := bytes → option (bytes * bytes * bytes).

Definition match_name_ref : matcher := λ b,
  if has_prefix b open_braces then
    let '(w1, r1) := span is_re_space (drop 2 b) in
    let '(name, r2) := span is_name_char r1 in
    let '(w2, r3) := span is_re_space r2 in
    match name with
    | [] => None
    | _ =>
      if has_prefix r3 close_braces then
        Some (name, open_braces ++ w1 ++ name ++ w2 ++ close_braces, drop 2 r3)
      else None
    end
  else None.

Definition match_brace_ref : matcher := λ b,
  if has_prefix b open_braces then
    let '(name, r) := span (λ c, negb (bool_decide (c = "}"%char))) (drop 2 b) in
    match name with
    | [] => None
    | _ =>
      if has_prefix r close_braces then Some (name, open_braces ++ name ++ close_braces, drop 2 r)
      else None
    end
  else None.

Inductive seg := SByte (c : ascii) | SRef (name raw : bytes).

Definition seg_raw (s : seg) : bytes := match s with SByte c => [c] | SRef _ raw => raw end.
Definition seg_name (s : seg) : option string :=
  match s with SByte _ => None | SRef n _ => Some (b2s n) end.

(** All successive matches, leftmost first, with the text between them. *)
Fixpoint scan_fuel (m : matcher) (fuel : nat) (b : bytes) : list seg :=
  match fuel, b with
  | S fuel, c :: r =>
    match m b with
    | Some (name, raw, rest) => SRef name raw :: scan_fuel m fuel rest
    | None => SByte c :: scan_fuel m fuel r
    end
  | _, _ => []
  end.
Definition scan (m : matcher) (b : bytes) : list seg := scan_fuel m (length b) b.

(** The submatches of [FindAllStringSubmatch]. *)
Definition submatches (m : matcher) (s : string) : list string := omap seg_name (scan m (s2b s)).

(** ** The operations *)

(** The loop over the matches with its [seen] set. *)
Fixpoint unique_names (seen : gset string) (l : list string) : list string :=
  match l with
  | [] => []
  | n :: l => if bool_decide (n ∈ seen) then unique_names seen l
              else n :: unique_names ({[n]} ∪ seen) l
  end.

Definition FindCredentialRefs (value : string) : list string :=
  unique_names ∅ (submatches match_name_ref value).

Definition HasCredentialRefs (value : string) : bool :=
  negb (bool_decide (submatches match_name_ref value = [])).

(** Resolving every name once, in order; the first failure is returned. *)
Fixpoint resolve_refs (resolver : string → result string) (refs : list string)
    (resolved : gmap string string) : result (gmap string string) :=
  match refs with
  | [] => Ok resolved
  | name :: refs =>
    match resolver name with
    | Err err => Err (Wrapf "credential %q: %w" [FS name] err)
    | Ok secret => resolve_refs resolver refs (<[name := secret]> resolved)
    end
  end.

(** The replacement of one match, which is itself matched again. *)
Definition replace_match (resolved : gmap string string) (raw : bytes) : bytes :=
  match submatches match_name_ref (b2s raw) with
  | name :: _ => s2b (default "" (resolved !! name))
  | [] => raw
  end.

Definition Interpolate (value : string) (resolver : string → result string) : result string :=
  let refs := FindCredentialRefs value in
  match refs with
  | [] => Ok value
  | _ =>
    resolve_refs resolver refs ∅ ≫= λ resolved,
    Ok (b2s (scan match_name_ref (s2b value) ≫= λ s,
      match s with SByte c => [c] | SRef _ raw => replace_match resolved raw end))
  end.

Inductive env_class := ClassCredential | ClassInterpolate | ClassLiteral.
#[export] Instance env_class_eq_dec : EqDecision env_class.
Proof. solve_decision. Defined.

Definition ClassifyEnvValue (value : string) (credentialNames : gset string) : env_class :=
  if bool_decide (value ∈ credentialNames) then ClassCredential
  else if HasCredentialRefs value then ClassInterpolate
  else ClassLiteral.

Definition ValidateEnvRefs (value : string) (credentialNames : gset string) : list string :=
  match ClassifyEnvValue value credentialNames with
  | ClassInterpolate => filter (λ ref, ref ∉ credentialNames) (FindCredentialRefs value)
  | _ => []
  end.

Definition ResolveEnvValue (value : string) (credentialNames : gset string)
    (resolver : string → result string) : result string :=
  match ClassifyEnvValue value credentialNames with
  | ClassCredential => resolver value
  | ClassInterpolate => Interpolate value resolver
  | ClassLiteral => Ok value
  end.

Definition CredentialNamesSet (credentials : gmap string CredentialDef) : gset string :=
  dom credentials.

(** ** Lemmas *)

Lemma span_spec p b x y :
  span p b = (x, y) → b = x ++ y ∧ Forall (λ c, p c = true) x ∧
  match y with c :: _ => p c = false | [] => True end.
Proof.
  revert x y. induction b as [|c b IH]; intros x y; simpl; [intros [= <- <-]; done|].
  destruct (p c) eqn:E; [|intros [= <- <-]; done].
  destruct (span p b) as [x' y']. intros [= <- <-].
  destruct (IH x' y' eq_refl) as (-> & ? & ?). split; [done|]. split; [by constructor|done].
Qed.

Lemma span_app p x y :
  Forall (λ c, p c = true) x → match y with c :: _ => p c = false | [] => True end →
  span p (x ++ y) = (x, y).
Proof.
  induction 1 as [|c x Hc Hx IH]; simpl; intros Hy.
  - destruct y; [done|]. simpl. by rewrite Hy.
  - by rewrite Hc, IH.
Qed.

Lemma has_prefix_drop b p : has_prefix b p = true → b = p ++ drop (length p) b.
Proof. rewrite has_prefix_spec. intros [k ->]. by rewrite drop_app_length. Qed.

(** What every matcher of the program satisfies: it splits the text, consumes
    something, and matches its own match. *)
Class MatcherLaws (m : matcher) := {
  matcher_split b n raw rest : m b = Some (n, raw, rest) → b = raw ++ rest ∧ raw ≠ [];
  matcher_again b n raw rest k : m b = Some (n, raw, rest) → m (raw ++ k) = Some (n, raw, k);
}.

#[export] Instance match_name_ref_laws : MatcherLaws match_name_ref.
Proof.
  assert (∀ b n raw rest, match_name_ref b = Some (n, raw, rest) →
    b = raw ++ rest ∧ raw ≠ [] ∧ ∀ k, match_name_ref (raw ++ k) = Some (n, raw, k)) as H.
  2: { split; intros; edestruct H as (? & ? & ?); eauto. }
  intros b n raw rest. unfold match_name_ref at 1.
  destruct (has_prefix b open_braces) eqn:E1; [|done]. apply has_prefix_drop in E1.
  destruct (span _ (drop 2 b)) as [w1 r1] eqn:S1. apply span_spec in S1 as (D1 & F1 & B1).
  destruct (span _ r1) as [name r2] eqn:S2. apply span_spec in S2 as (-> & F2 & B2).
  destruct (span _ r2) as [w2 r3] eqn:S3. apply span_spec in S3 as (-> & F3 & B3).
  destruct name as [|c0 name]; [done|].
  destruct (has_prefix r3 close_braces) eqn:E2; [|done]. intros E%(inj Some).
  rewrite !pair_equal_spec in E. destruct E as [[<- <-] <-]. apply has_prefix_drop in E2.
  split; [|split; [done|]].
  - rewrite E1. change (length open_braces) with 2%nat. rewrite D1, E2 at 1.
    change (length close_braces) with 2%nat. by simplify_list_eq.
  - intros k. unfold match_name_ref. rewrite <- !app_assoc, has_prefix_app.
    change (drop 2 (open_braces ++ ?x)) with x.
    assert (∀ c, is_name_char c = true → is_re_space c = false) as Hdisj.
    { intros c. unfold is_name_char, is_re_space, in_rng. lia. }
    rewrite span_app; [|done|apply Hdisj; by inversion F2].
    rewrite span_app; [|done|].
    2: { destruct w2 as [|c w2]; [done|]. simpl. inversion F3; subst.
         destruct (is_name_char c) eqn:E; [|done]. rewrite (Hdisj _ E) in *. done. }
    rewrite span_app by done. by rewrite has_prefix_app.
Qed.

#[export] Instance match_brace_ref_laws : MatcherLaws match_brace_ref.
Proof.
  assert (∀ b n raw rest, match_brace_ref b = Some (n, raw, rest) →
    b = raw ++ rest ∧ raw ≠ [] ∧ ∀ k, match_brace_ref (raw ++ k) = Some (n, raw, k)) as H.
  2: { split; intros; edestruct H as (? & ? & ?); eauto. }
  intros b n raw rest. unfold match_brace_ref at 1.
  destruct (has_prefix b open_braces) eqn:E1; [|done]. apply has_prefix_drop in E1.
  destruct (span _ (drop 2 b)) as [name r] eqn:S1. apply span_spec in S1 as (D1 & F1 & B1).
  destruct name as [|c0 name]; [done|].
  destruct (has_prefix r close_braces) eqn:E2; [|done]. intros E%(inj Some).
  rewrite !pair_equal_spec in E. destruct E as [[<- <-] <-]. apply has_prefix_drop in E2.
  split; [|split; [done|]].
  - rewrite E1. change (length open_braces) with 2%nat. rewrite D1, E2 at 1.
    change (length close_braces) with 2%nat. by simplify_list_eq.
  - intros k. unfold match_brace_ref. rewrite <- !app_assoc, has_prefix_app.
    change (drop 2 (open_braces ++ ?x)) with x.
    rewrite span_app by done. by rewrite has_prefix_app.
Qed.

Section scanning.
Context (m : matcher) `{!MatcherLaws m}.

Lemma scan_fuel_enough n b : (length b ≤ n)%nat → scan_fuel m n b = scan m b.
Proof.
  unfold scan. revert b. assert (∀ k n b, (length b ≤ k)%nat → (length b ≤ n)%nat →
    scan_fuel m k b = scan_fuel m n b) as H; [|intros; by apply H].
  intros k. induction k as [|k IH]; intros [|n'] [|c b] Hk Hn; cbn [scan_fuel length] in *; try (done || lia).
  destruct (m (c :: b)) as [[[nm raw] rest]|] eqn:E; [|f_equal; apply IH; lia].
  apply matcher_split in E as [E Hn']. f_equal.
  assert (length rest ≤ length b)%nat.
  { apply (f_equal length) in E. rewrite length_app in E. destruct raw; [done|]. simpl in *. lia. }
  apply IH; lia.
Qed.

Lemma scan_match b n raw rest :
  m b = Some (n, raw, rest) → scan m b = SRef n raw :: scan m rest.
Proof.
  intros E. destruct (matcher_split _ _ _ _ E) as [Hb Hn].
  unfold scan at 1. destruct b as [|c b]; [by destruct raw|]. cbn [length scan_fuel]. rewrite E.
  f_equal. apply scan_fuel_enough. apply (f_equal length) in Hb. rewrite length_app in Hb.
  destruct raw; [done|]. simpl in *. lia.
Qed.

Lemma scan_skip c b : m (c :: b) = None → scan m (c :: b) = SByte c :: scan m b.
Proof. intros E. unfold scan at 1. cbn [length scan_fuel]. by rewrite E. Qed.

Lemma scan_ind (P : bytes → Prop) :
  P [] →
  (∀ b n raw rest, m b = Some (n, raw, rest) → P rest → P b) →
  (∀ c b, m (c :: b) = None → P b → P (c :: b)) → ∀ b, P b.
Proof.
  intros H0 H1 H2 b. remember (length b) as n eqn:Hn. revert b Hn.
  induction n as [n IH] using lt_wf_ind. intros [|c b] ->; [done|].
  destruct (m (c :: b)) as [[[nm raw] rest]|] eqn:E.
  - eapply H1; [done|]. eapply IH; [|done]. apply matcher_split in E as [E Hn].
    rewrite E, length_app. destruct raw; [done|]. simpl. lia.
  - apply H2; [done|]. eapply IH; [|done]. simpl. lia.
Qed.

(** The segments of a text are the text, and each reference is a match. *)
Lemma scan_raw b : scan m b ≫= seg_raw = b.
Proof.
  induction b as [|b n raw rest E IH|c b E IH] using scan_ind; [done|..].
  - rewrite (scan_match _ _ _ _ E), bind_cons, IH. by apply matcher_split in E as [-> _].
  - by rewrite scan_skip, bind_cons, IH.
Qed.

Lemma scan_refs b : Forall (λ s, match s with
  | SByte _ => True | SRef n raw => m raw = Some (n, raw, []) end) (scan m b).
Proof.
  induction b as [|b n raw rest E IH|c b E IH] using scan_ind; [constructor|..].
  - rewrite (scan_match _ _ _ _ E). constructor; [|done].
    pose proof (matcher_again _ _ _ _ [] E) as H. by rewrite app_nil_r in H.
  - rewrite scan_skip by done. by constructor.
Qed.
End scanning.

Lemma elem_of_unique_names seen l n : n ∈ unique_names seen l ↔ n ∈ l ∧ n ∉ seen.
Proof.
  revert seen. induction l as [|x l IH]; intros seen; simpl; [set_solver|].
  case_bool_decide; [rewrite IH; set_solver|]. rewrite elem_of_cons, IH. 
  destruct (decide (n = x)) as [->|]; set_solver.
Qed.

Lemma NoDup_unique_names seen l : NoDup (unique_names seen l).
Proof.
  revert seen. induction l as [|x l IH]; intros seen; simpl; [constructor|].
  case_bool_decide; [done|]. constructor; [|done]. rewrite elem_of_unique_names. set_solver.
Qed.

Lemma unique_names_nil seen l : unique_names seen l = [] → seen = ∅ → l = [].
Proof. intros H ->. destruct l as [|x l]; [done|]. simpl in H. by case_bool_decide. Qed.

Lemma resolve_refs_spec resolver refs acc :
  match resolve_refs resolver refs acc with
  | Ok m => (∀ n, n ∈ refs → ∃ v, resolver n = Ok v ∧ m !! n = Some v) ∧
      (∀ n, n ∉ refs → m !! n = acc !! n)
  | Err e => ∃ n e', n ∈ refs ∧ resolver n = Err e' ∧ e = Wrapf "credential %q: %w" [FS n] e'
  end.
Proof.
  revert acc. induction refs as [|x refs IH]; intros acc; simpl.
  { split; [by intros n Hn%not_elem_of_nil|done]. }
  destruct (resolver x) as [v|e] eqn:E; [|exists x, e; by split; [left|]].
  specialize (IH (<[x := v]> acc)). destruct (resolve_refs _ _ _) as [m|e].
  - destruct IH as [H1 H2]. split.
    + intros n [->|Hn]%elem_of_cons; [|auto].
      destruct (decide (x ∈ refs)) as [Hx|Hx]; [auto|]. exists v. split; [done|].
      rewrite H2 by done. apply lookup_insert_eq.
    + intros n Hn. rewrite not_elem_of_cons in Hn. rewrite H2 by naive_solver.
      by rewrite lookup_insert_ne by naive_solver.
  - destruct IH as (n & e' & Hn & ? & ?). exists n, e'. split; [by right|done].
Qed.

(** The value of a template whose references all resolve. *)
Definition expand (resolver : string → result string) (s : seg) : bytes :=
  match s with
  | SByte c => [c]
  | SRef n _ => match resolver (b2s n) with Ok v => s2b v | Err _ => [] end
  end.

Lemma replace_match_ref resolved n raw :
  match_name_ref raw = Some (n, raw, []) →
  replace_match resolved raw = s2b (default "" (resolved !! b2s n)).
Proof.
  intros H. unfold replace_match, submatches. rewrite s2b_b2s.
  by rewrite (scan_match _ _ _ _ _ H).
Qed.

Lemma Interpolate_cases value resolver :
  match Interpolate value resolver with
  | Ok v => (∀ n, n ∈ FindCredentialRefs value → is_ok (resolver n) = true) ∧
      s2b v = (scan match_name_ref (s2b value) ≫= expand resolver)
  | Err e => ∃ n e', n ∈ FindCredentialRefs value ∧ resolver n = Err e' ∧
      e = Wrapf "credential %q: %w" [FS n] e'
  end.
Proof.
  unfold Interpolate. pose proof (resolve_refs_spec resolver (FindCredentialRefs value) ∅) as HR.
  destruct (FindCredentialRefs value) as [|r0 refs] eqn:Er.
  - split; [by intros n Hn%not_elem_of_nil|].
    apply unique_names_nil in Er; [|done]. unfold submatches in Er.
    rewrite <- (scan_raw match_name_ref (s2b value)) at 1. revert Er.
    induction (scan match_name_ref (s2b value)) as [|[c|n raw] l IH]; [done| |done].
    intros E. rewrite !bind_cons. f_equal. by apply IH.
  - rewrite <- Er in *. destruct (resolve_refs _ _ _) as [m|e]; [|done]. simpl.
    destruct HR as [H1 H2]. split.
    { intros n Hn. by destruct (H1 _ Hn) as (v & -> & _). }
    rewrite s2b_b2s. pose proof (scan_refs match_name_ref (s2b value)) as HF.
    assert (∀ n raw, SRef n raw ∈ scan match_name_ref (s2b value) → b2s n ∈ FindCredentialRefs value) as Hin.
    { intros n raw Hn. apply elem_of_unique_names. split; [|set_solver].
      apply list_elem_of_omap. by exists (SRef n raw). }
    revert HF Hin. induction (scan match_name_ref (s2b value)) as [|s l IH]; [done|].
    intros HF Hin. inversion HF as [|? ? Hs HF']; subst. rewrite !bind_cons. f_equal.
    + destruct s as [c|n raw]; [done|]. rewrite (replace_match_ref _ _ _ Hs). simpl.
      destruct (H1 (b2s n)) as (v & -> & ->); [|done]. eapply Hin. left.
    + apply IH; [done|]. intros n raw Hn. eapply Hin. by right.
Qed.

(** ** Properties *)

(** [Interpolate] replaces every [{{ name }}] of the value by the secret its
    name resolves to and copies the rest of the value unchanged; the secrets
    are not scanned again. It fails exactly when a name it contains does not
    resolve, with that name's error. *)
Theorem Interpolate_spec value resolver :
  match Interpolate value resolver with
  | Ok v => (∀ n, n ∈ FindCredentialRefs value → is_ok (resolver n) = true) ∧
      s2b v = (scan match_name_ref (s2b value) ≫= expand resolver)
  | Err e => ∃ n e', n ∈ FindCredentialRefs value ∧ resolver n = Err e' ∧
      e = Wrapf "credential %q: %w" [FS n] e'
  end.
Proof. apply Interpolate_cases. Qed.

(** A tool's environment value that passed [ValidateEnvRefs] resolves
    whenever the configured credentials do: no value of a validated
    configuration asks the resolver for a name that is not configured. *)
Theorem ResolveEnvValue_validated value names resolver :
  ValidateEnvRefs value names = [] → (∀ n, n ∈ names → is_ok (resolver n) = true) →
  is_ok (ResolveEnvValue value names resolver) = true.
Proof.
  unfold ValidateEnvRefs, ResolveEnvValue, ClassifyEnvValue. intros Hv Hr.
  case_bool_decide as Hc; [by apply Hr|].
  destruct (HasCredentialRefs value); [|done].
  pose proof (Interpolate_cases value resolver) as HI.
  destruct (Interpolate value resolver) as [v|e]; [done|].
  destruct HI as (n & e' & Hn & Hf & _). exfalso.
  destruct (decide (n ∈ names)) as [Hin|Hin]; [by specialize (Hr _ Hin); rewrite Hf in Hr|].
  assert (n ∈ filter (λ ref, ref ∉ names) (FindCredentialRefs value)) as HF.
  { by apply list_elem_of_filter. }
  rewrite Hv in HF. by apply not_elem_of_nil in HF.
Qed.
