(* ===== verification/Redactor.v ===== *)
(** Package [internal/daemon], [output_redactor.go]: the streaming redaction of a
    tool's output.

    [RedactChunk] takes the redactor's state and returns the new one. [sort.Slice]
    is not stable; the model's stable sort is one of its outcomes, and secrets of
    one length never match at the same place, so their order is immaterial. *)

From S2P Require Import Prelude GoStrings Regexp ConfigTypes.
Local Open Scope Z_scope.

Definition defaultRedactionOverlapBytes : Z := 128.
Definition minSecretRedactLength : Z := 8.

Section redactor.
Context `{Regexp}.

Record outputRedactionRule := { or_replace : bytes; or_re : regexp }.

Record OutputRedactor := {
  r_secrets : list bytes;
  r_secretCarry : bytes;
  r_rules : list outputRedactionRule;
  r_carry : bytes;
  r_overlap : Z;
}.

Definition compile_rules (rules : list ToolRedactRule) : list outputRedactionRule :=
  omap (λ r, match rr_Compiled r with
             | None => None
             | Some re => Some {| or_replace := s2b (rr_Replace r); or_re := re |}
             end) rules.

Definition NewOutputRedactor (rules : list ToolRedactRule) : option OutputRedactor :=
  match rules with
  | [] => None
  | _ =>
    match compile_rules rules with
    | [] => None
    | compiled =>
      Some {| r_secrets := []; r_secretCarry := []; r_rules := compiled; r_carry := [];
              r_overlap := defaultRedactionOverlapBytes |}
    end
  end.

(** The loop that keeps each long enough secret once. *)
Fixpoint collect_literals (seen : gset string) (secrets : list string) : list string :=
  match secrets with
  | [] => []
  | s :: secrets =>
    if (slen s <? minSecretRedactLength) || bool_decide (s ∈ seen) then collect_literals seen secrets
    else s :: collect_literals ({[s]} ∪ seen) secrets
  end.

Definition longer (a b : string) : Prop := slen b ≤ slen a.
#[local] Instance longer_dec a b : Decision (longer a b) := decide (slen b ≤ slen a).

Definition NewOutputRedactorWithSecrets (rules : list ToolRedactRule) (secrets : list string)
    : option OutputRedactor :=
  let r := NewOutputRedactor rules in
  match collect_literals ∅ secrets with
  | [] => r
  | literals =>
    let literals := merge_sort longer literals in
    let r := default {| r_secrets := []; r_secretCarry := []; r_rules := []; r_carry := [];
                        r_overlap := 0 |} r in
    Some {| r_secrets := r_secrets r ++ (s2b <$> literals); r_secretCarry := r_secretCarry r;
            r_rules := r_rules r; r_carry := r_carry r; r_overlap := r_overlap r |}
  end.

(** ** Literal secrets *)

Definition isSecretPrefix (secrets : list bytes) (b : bytes) : bool :=
  existsb (λ s, (length b <? length s)%nat && has_prefix s b) secrets.

Fixpoint matchSecret (secrets : list bytes) (b : bytes) : nat :=
  match secrets with
  | [] => 0%nat
  | s :: secrets => if has_prefix b s then length s else matchSecret secrets b
  end.

(** The loop of [redactSecrets] over the rest of the buffer: the output, and the
    tail kept for the next chunk. An iteration consumes at least a byte, so the
    length is enough fuel. *)
Fixpoint secrets_loop (fuel : nat) (secrets : list bytes) (rest : bytes) (finalize : bool)
    : bytes * bytes :=
  match fuel, rest with
  | S fuel, c :: rest' =>
    if negb finalize && isSecretPrefix secrets rest then ([], rest)
    else
      match matchSecret secrets rest with
      | O => let '(out, carry) := secrets_loop fuel secrets rest' finalize in (c :: out, carry)
      | n => let '(out, carry) := secrets_loop fuel secrets (drop n rest) finalize in
             (s2b DefaultRedactReplacement ++ out, carry)
      end
  | _, _ => ([], [])
  end.

Definition redactSecrets (r : OutputRedactor) (data : bytes) (finalize : bool) : bytes * OutputRedactor :=
  let buf := r_secretCarry r ++ data in
  let '(out, carry) := secrets_loop (length buf) (r_secrets r) buf finalize in
  (out, {| r_secrets := r_secrets r; r_secretCarry := carry; r_rules := r_rules r;
           r_carry := r_carry r; r_overlap := r_overlap r |}).

(** ** Regex rules *)

Definition set_carry (r : OutputRedactor) (carry : bytes) : OutputRedactor :=
  {| r_secrets := r_secrets r; r_secretCarry := r_secretCarry r; r_rules := r_rules r;
     r_carry := carry; r_overlap := r_overlap r |}.

Fixpoint apply_rules (rules : list outputRedactionRule) (redacted : bytes) : bytes :=
  match rules with
  | [] => redacted
  | rule :: rules =>
    match redacted with
    | [] => redacted
    | _ =>
      if negb (MatchString (or_re rule) (b2s redacted)) then apply_rules rules redacted
      else apply_rules rules (ReplaceAllBytes (or_re rule) redacted (or_replace rule))
    end
  end.

Definition redactRules (r : OutputRedactor) (data : bytes) (finalize : bool) : bytes * OutputRedactor :=
  if (length data =? 0)%nat && negb finalize then ([], r)
  else
    let combined := r_carry r ++ data in
    match combined with
    | [] => ([], r)
    | _ =>
      let redacted := apply_rules (r_rules r) combined in
      if finalize then (redacted, set_carry r [])
      else if blen redacted <=? r_overlap r then ([], set_carry r redacted)
      else
        let emitLen := (length redacted - Z.to_nat (r_overlap r))%nat in
        (take emitLen redacted, set_carry r (drop emitLen redacted))
    end.

Definition RedactChunk (r : OutputRedactor) (data : bytes) (finalize : bool) : bytes * OutputRedactor :=
  let '(data, r) :=
    match r_secrets r with [] => (data, r) | _ => redactSecrets r data finalize end in
  match r_rules r with
  | [] => (data, r)
  | _ => redactRules r data finalize
  end.

(** The output of a stream of chunks, the last call being the final flush. *)
Fixpoint redact_stream (r : OutputRedactor) (chunks : list bytes) : bytes :=
  match chunks with
  | [] => (RedactChunk r [] true).1
  | c :: chunks => let '(out, r) := RedactChunk r c false in out ++ redact_stream r chunks
  end.

(** ** Specification of the literal stage

    A reference redaction of a whole text, as tokens: a copied byte, or [None] for
    a secret replaced. *)
Fixpoint redact_tokens (fuel : nat) (secrets : list bytes) (b : bytes) : list (option ascii) :=
  match fuel, b with
  | S fuel, c :: b' =>
    match matchSecret secrets b with
    | O => Some c :: redact_tokens fuel secrets b'
    | n => None :: redact_tokens fuel secrets (drop n b)
    end
  | _, _ => []
  end.

Definition token_bytes (t : option ascii) : bytes :=
  match t with Some c => [c] | None => s2b DefaultRedactReplacement end.

Definition redact_all (secrets : list bytes) (b : bytes) : bytes :=
  redact_tokens (length b) secrets b ≫= token_bytes.

(** ** Lemmas *)

Lemma matchSecret_le secrets b : (matchSecret secrets b ≤ length b)%nat.
Proof.
  induction secrets as [|s secrets IH]; simpl; [lia|].
  destruct (has_prefix b s) eqn:E; [|done]. apply has_prefix_spec in E as [k ->].
  rewrite length_app. lia.
Qed.

Lemma redact_tokens_fuel secrets n b :
  (length b ≤ n)%nat → redact_tokens n secrets b = redact_tokens (length b) secrets b.
Proof.
  revert b. assert (∀ k n b, (length b ≤ k)%nat → (length b ≤ n)%nat →
    redact_tokens k secrets b = redact_tokens n secrets b) as H1; [|intros; by apply H1].
  intros k. induction k as [|k IH]; intros [|n'] [|c b] Hk Hn; cbn [redact_tokens length] in *;
    try (done || lia).
  pose proof (matchSecret_le secrets (c :: b)) as Hm.
  destruct (matchSecret secrets (c :: b)) as [|m]; [f_equal; apply IH; lia|].
  f_equal. apply IH; rewrite length_drop; simpl in *; lia.
Qed.

Lemma redact_all_cons secrets c b :
  redact_all secrets (c :: b) =
    match matchSecret secrets (c :: b) with
    | O => c :: redact_all secrets b
    | n => s2b DefaultRedactReplacement ++ redact_all secrets (drop n (c :: b))
    end.
Proof.
  unfold redact_all. cbn [length redact_tokens].
  destruct (matchSecret secrets (c :: b)) as [|m] eqn:E; [done|]. rewrite bind_cons.
  cbn [token_bytes]. f_equal. f_equal. apply redact_tokens_fuel. rewrite length_drop. simpl; lia.
Qed.

(** A tail that cannot grow into a secret matches the same with any continuation. *)
Lemma matchSecret_app secrets b k :
  isSecretPrefix secrets b = false → matchSecret secrets (b ++ k) = matchSecret secrets b.
Proof.
  unfold isSecretPrefix. induction secrets as [|s secrets IH]; [done|].
  cbn [existsb matchSecret]. rewrite orb_false_iff. intros [Hs Hr]. rewrite (IH Hr).
  destruct (has_prefix (b ++ k) s) eqn:E1, (has_prefix b s) eqn:E2; try done; exfalso.
  - apply has_prefix_false in E2. apply has_prefix_spec in E1.
    destruct (prefix_comparable s b (b ++ k) E1 (prefix_app_r b b k (reflexivity b))) as [|Hb]; [done|].
    apply andb_false_iff in Hs as [Hl%Nat.ltb_ge|Hp%has_prefix_false]; [|done].
    apply E2. destruct Hb as [x ->]. rewrite length_app in Hl. destruct x; [by rewrite app_nil_r|simpl in Hl; lia].
  - apply has_prefix_false in E1. apply has_prefix_spec in E2. apply E1.
    by apply prefix_app_r.
Qed.

Lemma secrets_loop_spec fuel secrets b k :
  (length b ≤ fuel)%nat →
  let '(out, carry) := secrets_loop fuel secrets b false in
  redact_all secrets (b ++ k) = out ++ redact_all secrets (carry ++ k).
Proof.
  revert b. induction fuel as [|fuel IH]; intros [|c b] Hf; cbn [secrets_loop negb andb length] in *;
    try (done || lia).
  destruct (isSecretPrefix secrets (c :: b)) eqn:Ep; [done|].
  pose proof (matchSecret_app _ _ k Ep) as Hm. pose proof (matchSecret_le secrets (c :: b)) as Hle.
  change ((c :: b) ++ k) with (c :: b ++ k) in *. rewrite redact_all_cons, Hm.
  destruct (matchSecret secrets (c :: b)) as [|m] eqn:Em.
  - specialize (IH b ltac:(lia)). destruct (secrets_loop fuel secrets b false) as [out carry].
    by rewrite IH.
  - specialize (IH (drop (S m) (c :: b))). rewrite length_drop in IH. specialize (IH ltac:(simpl in *; lia)).
    destruct (secrets_loop fuel secrets (drop (S m) (c :: b)) false) as [out carry].
    change (c :: b ++ k) with ((c :: b) ++ k). rewrite drop_app_le by done. by rewrite IH, <- app_assoc.
Qed.

Lemma secrets_loop_final fuel secrets b :
  (length b ≤ fuel)%nat → secrets_loop fuel secrets b true = (redact_all secrets b, []).
Proof.
  revert b. induction fuel as [|fuel IH]; intros [|c b] Hf; cbn [secrets_loop negb andb length] in *;
    try (done || lia).
  rewrite redact_all_cons. pose proof (matchSecret_le secrets (c :: b)) as Hle.
  destruct (matchSecret secrets (c :: b)) as [|m] eqn:Em.
  - by rewrite (IH b) by lia.
  - rewrite IH; [done|]. rewrite length_drop. simpl in *. lia.
Qed.

Lemma matchSecret_pos secrets b s :
  Forall (λ s, s ≠ []) secrets → s ∈ secrets → s `prefix_of` b → matchSecret secrets b ≠ 0%nat.
Proof.
  induction 1 as [|x secrets Hx HF IH]; [by intros ?%not_elem_of_nil|].
  intros Hin Hp. cbn [matchSecret]. destruct (has_prefix b x) eqn:E; [by destruct x|].
  apply elem_of_cons in Hin as [->|Hin]; [|auto]. apply has_prefix_false in E. done.
Qed.

Lemma redact_tokens_copied fuel secrets b s t :
  redact_tokens fuel secrets b = (Some <$> s) ++ t → s `prefix_of` b.
Proof.
  revert fuel b. induction s as [|c s IH]; intros fuel b; [intros _; apply prefix_nil|].
  destruct fuel as [|fuel], b as [|d b]; try done. cbn [redact_tokens fmap list_fmap app].
  destruct (matchSecret _ _); [|done]. intros E. injection E as -> E.
  apply prefix_cons. by eapply IH.
Qed.

Lemma collect_literals_long seen secrets :
  Forall (λ s, minSecretRedactLength ≤ slen s) (collect_literals seen secrets).
Proof.
  revert seen. induction secrets as [|s secrets IH]; intros seen; simpl; [constructor|].
  destruct (Z.ltb_spec (slen s) minSecretRedactLength); simpl; [done|].
  case_bool_decide; [done|]. by constructor.
Qed.

Lemma elem_of_collect_literals seen secrets s :
  s ∈ collect_literals seen secrets ↔ s ∈ secrets ∧ minSecretRedactLength ≤ slen s ∧ s ∉ seen.
Proof.
  revert seen. induction secrets as [|x secrets IH]; intros seen; simpl; [set_solver|].
  destruct (Z.ltb_spec (slen x) minSecretRedactLength); simpl.
  - rewrite IH, elem_of_cons. split; [naive_solver|]. intros ([->|?] & ? & ?); [lia|done].
  - case_bool_decide as Hx.
    + rewrite IH, elem_of_cons. split; [naive_solver|]. intros ([->|?] & ? & ?); done.
    + rewrite elem_of_cons, IH, elem_of_cons. 
      destruct (decide (s = x)) as [->|]; [naive_solver|]. set_solver.
Qed.

(** The secrets of a redactor built for a tool: every injected value of at least
    eight bytes, and only such values. *)
Lemma redactor_secrets rules secrets r :
  NewOutputRedactorWithSecrets rules secrets = Some r →
  Forall (λ s, s ≠ []) (r_secrets r) ∧ r_secretCarry r = [] ∧
  ∀ s, s2b s ∈ r_secrets r ↔ s ∈ secrets ∧ minSecretRedactLength ≤ slen s.
Proof.
  unfold NewOutputRedactorWithSecrets.
  assert (∀ r0, NewOutputRedactor rules = Some r0 → r_secrets r0 = [] ∧ r_secretCarry r0 = []) as Hr0.
  { unfold NewOutputRedactor. intros r0. destruct rules; [done|]. destruct (compile_rules _); [done|].
    by intros [= <-]. }
  pose proof (collect_literals_long ∅ secrets) as HL.
  pose proof (elem_of_collect_literals ∅ secrets) as HE.
  destruct (collect_literals ∅ secrets) as [|l0 ls] eqn:El.
  - intros [E1 E2]%Hr0. rewrite E1, E2. split; [constructor|]. split; [done|].
    intros s. split; [by intros ?%not_elem_of_nil|]. intros [Hs Hl].
    assert (s ∈ ([] : list string)) as ?%not_elem_of_nil; [|done].
    apply HE. split; [done|]. split; [done|set_solver].
  - rewrite <- El in *. intros [= <-]. simpl.
    assert (r_secrets (default {| r_secrets := []; r_secretCarry := []; r_rules := []; r_carry := [];
      r_overlap := 0 |} (NewOutputRedactor rules)) = [] ∧ r_secretCarry (default {| r_secrets := [];
      r_secretCarry := []; r_rules := []; r_carry := []; r_overlap := 0 |} (NewOutputRedactor rules)) = [])
      as [-> ->].
    { destruct (NewOutputRedactor rules) as [r0|] eqn:E; simpl; auto. }
    simpl. split; [|split; [done|]].
    + rewrite merge_sort_Permutation, Forall_fmap. eapply Forall_impl; [done|]. simpl.
      intros s Hs E. apply s2b_nil_iff in E as ->. unfold slen, minSecretRedactLength in Hs. simpl in Hs. lia.
    + intros s. transitivity (s ∈ merge_sort longer (collect_literals ∅ secrets)).
      { split; [|by apply list_elem_of_fmap_2]. intros (s' & Hs' & Hin)%list_elem_of_fmap.
        by apply (inj s2b) in Hs' as ->. }
      rewrite merge_sort_Permutation, HE. set_solver.
Qed.

(** A redactor of literals only starts with nothing held back. *)
Lemma literal_redactor secrets r :
  NewOutputRedactorWithSecrets [] secrets = Some r → r_rules r = [] ∧ r_secrets r ≠ [] ∧ r_secretCarry r = [].
Proof.
  intros Hr. pose proof Hr as (_ & Hc & _)%redactor_secrets.
  enough (r_rules r = [] ∧ r_secrets r ≠ []) as [? ?] by done.
  unfold NewOutputRedactorWithSecrets in Hr. simpl in Hr.
  destruct (collect_literals ∅ secrets) as [|l ls] eqn:E; [done|]. rewrite <- E in Hr.
  injection Hr as <-. simpl. split; [done|]. intros Hn%fmap_nil_inv.
  assert (l ∈ merge_sort longer (l :: ls)) as Hin by (rewrite merge_sort_Permutation; left).
  rewrite <- E, Hn in Hin. by apply not_elem_of_nil in Hin.
Qed.

(** From any point of a stream: what is held back goes before the chunks to come. *)
Lemma redact_stream_from r chunks :
  r_rules r = [] → r_secrets r ≠ [] →
  redact_stream r chunks = redact_all (r_secrets r) (r_secretCarry r ++ concat chunks).
Proof.
  revert r. induction chunks as [|c chunks IH]; intros r Hr Hs; cbn [redact_stream concat].
  - unfold RedactChunk. destruct (r_secrets r) as [|s0 ss] eqn:E; [done|]. rewrite <- E in *.
    unfold redactSecrets. rewrite secrets_loop_final by done. simpl. by rewrite Hr.
  - unfold RedactChunk. destruct (r_secrets r) as [|s0 ss] eqn:E; [done|]. rewrite <- E in *.
    unfold redactSecrets.
    pose proof (secrets_loop_spec _ (r_secrets r) (r_secretCarry r ++ c) (concat chunks)
      (reflexivity (length (r_secretCarry r ++ c)))) as HL.
    destruct (secrets_loop _ _ _ _) as [out carry]. simpl. rewrite Hr.
    rewrite IH by done. simpl. by rewrite app_assoc, HL.
Qed.

(** No secret in the copied bytes. *)
Lemma tokens_no_secret rules secrets r s n b before after :
  NewOutputRedactorWithSecrets rules secrets = Some r → s ∈ secrets → minSecretRedactLength ≤ slen s →
  redact_tokens n (r_secrets r) b ≠ before ++ (Some <$> s2b s) ++ after.
Proof.
  intros (Hne & _ & Hin)%redactor_secrets Hs Hl.
  assert (s2b s ∈ r_secrets r) as Hsec by (by apply Hin). revert b before.
  induction n as [|n IH]; intros [|c b] before; cbn [redact_tokens].
  1-3: intros E; symmetry in E; apply app_nil in E as [_ E]; apply app_nil in E as [E _];
    apply fmap_nil_inv, s2b_nil_iff in E; subst s; unfold slen, minSecretRedactLength in Hl; simpl in Hl; lia.
  intros E. destruct before as [|t before].
  - assert (s2b s `prefix_of` c :: b) as Hp.
    { eapply (redact_tokens_copied (S n) (r_secrets r)). exact E. }
    pose proof (matchSecret_pos _ _ _ Hne Hsec Hp) as Hm.
    destruct (matchSecret (r_secrets r) (c :: b)); [done|]. simpl in E.
    destruct (s2b s) as [|d l] eqn:El; [|done].
    apply s2b_nil_iff in El; subst s; unfold slen, minSecretRedactLength in Hl; simpl in Hl; lia.
  - destruct (matchSecret (r_secrets r) (c :: b)) as [|m]; injection E as _ E; by eapply IH.
Qed.

(** ** Properties *)

(** C35: Literal redaction does not depend on how the output is cut into chunks:
    for a tool without regex rules, any sequence of writes followed by the
    final flush emits exactly the reference redaction of the whole output. A
    secret split over writes is found, and nothing else is altered, dropped or
    left behind. *)
Theorem redact_chunk_independent secrets r chunks :
  NewOutputRedactorWithSecrets [] secrets = Some r →
  redact_stream r chunks = redact_all (r_secrets r) (concat chunks).
Proof. intros (H1 & H2 & H3)%literal_redactor. rewrite redact_stream_from by done. by rewrite H3. Qed.

(** The reference redaction lets no secret through: no injected value of at
    least eight bytes appears in the bytes it copies from the output, however
    secrets overlap or contain each other. *)
Theorem redact_no_secret rules secrets r s b before after :
  NewOutputRedactorWithSecrets rules secrets = Some r → s ∈ secrets → minSecretRedactLength ≤ slen s →
  redact_tokens (length b) (r_secrets r) b ≠ before ++ (Some <$> s2b s) ++ after.
Proof. apply tokens_no_secret. Qed.

(** The regex stage holds back a bounded amount: after any chunk its carry is
    at most the overlap, and after the final flush it is empty. *)
Theorem redactRules_carry r data finalize :
  0 ≤ r_overlap r → blen (r_carry r) ≤ r_overlap r →
  let '(_, r') := redactRules r data finalize in
  blen (r_carry r') ≤ r_overlap r' ∧ r_overlap r' = r_overlap r ∧
  (finalize = true → r_carry r' = []).
Proof.
  intros Ho Hc. unfold redactRules.
  destruct ((length data =? 0)%nat && negb finalize) eqn:E.
  { split; [done|]. split; [done|]. intros ->. by rewrite andb_false_r in E. }
  destruct (r_carry r ++ data) as [|c l] eqn:El.
  { split; [done|]. split; [done|]. intros _. by apply app_nil in El as [-> _]. }
  rewrite <- El. destruct finalize; [by rewrite ?Ho|].
  destruct (Z.leb_spec (blen (apply_rules (r_rules r) (r_carry r ++ data))) (r_overlap r)); simpl.
  { by repeat split. }
  split; [|by split]. unfold blen in *. rewrite length_drop. lia.
Qed.
End redactor.

(** Regex redaction does depend on the chunks, and leaks: with the rule
    [ghp_[^ ]+], a token that arrives in one write is replaced whole, while the
    same bytes cut after the token's first characters have the beginning
    replaced as soon as it matches, after which the rest of the token no longer
    looks like one and is passed on in clear. *)
Theorem redact_rules_leak :
  let H := simple_regexp in
  ∃ re r, Compile "ghp_[^ ]+" = Some re ∧
    NewOutputRedactor [{| rr_Pattern := "ghp_[^ ]+"; rr_Replace := "[REDACTED]"; rr_Compiled := Some re |}]
      = Some r ∧
    b2s (redact_stream r [s2b "key ghp_abcdef end"]) = "key [REDACTED] end" ∧
    b2s (redact_stream r [s2b "key ghp_abc"; s2b "def end"]) = "key [REDACTED]def end".
Proof.
  set (re := {| sr_anchored := false; sr_items := (ILit <$> [103; 104; 112; 95]) ++ [IRun true 32] |}).
  exists re, {| r_secrets := []; r_secretCarry := [];
    r_rules := [{| or_replace := s2b "[REDACTED]"; or_re := re : @regexp simple_regexp |}];
    r_carry := []; r_overlap := defaultRedactionOverlapBytes |}.
  repeat split; vm_compute; reflexivity.
Qed.
