(* ===== verification/World.v ===== *)
(** The outside world of a running tool, as far as the daemon's own code acts
    on it: the messages sent to the wrapper, the files and the directories it
    creates, and whether it runs as root.

    Every operation that the operating system may refuse consults the next entry
    of [w_faults]; a theorem that holds for every list of faults holds whatever
    fails and whenever. A refused operation has no effect; in
    particular a refused write is one of which nothing was written.

    [w_calls] records the messages, removals and signals the daemon tried, with
    whether the system refused them, so that a theorem can say of every path that
    they were tried, and blame what is missing on the refusal of that very call. *)

From S2P Require Import Prelude GoStrings GoPath Protocol.
Local Open Scope Z_scope.

Inductive call :=
  | CallSend (msg : ResponseMessage)
  | CallRemove (path : string)
  | CallRemoveAll (dir : string)
  | CallSignal (sig : Z).

Record world := {
  w_files : gmap string bytes;
  w_sent : list ResponseMessage;
  w_faults : list bool;
  (** the calls tried, in order, and whether each was refused *)
  w_calls : list (call * bool);
  (** the directories created, with their permission bits *)
  w_dirs : gmap string Z;
  w_root : bool;
}.

(** The error of a refused operation. *)
Definition io_error : error := Sentinel "io".

(** Whether the next operation is refused. *)
Definition refused (w : world) : bool * world :=
  match w_faults w with
  | [] => (false, w)
  | f :: fs => (f, {| w_files := w_files w; w_sent := w_sent w; w_faults := fs; w_calls := w_calls w; w_dirs := w_dirs w;
                    w_root := w_root w |})
  end.

Definition set_files (w : world) (files : gmap string bytes) : world :=
  {| w_files := files; w_sent := w_sent w; w_faults := w_faults w; w_calls := w_calls w; w_dirs := w_dirs w;
     w_root := w_root w |}.

Definition set_dirs (w : world) (dirs : gmap string Z) : world :=
  {| w_files := w_files w; w_sent := w_sent w; w_faults := w_faults w; w_calls := w_calls w; w_dirs := dirs;
     w_root := w_root w |}.

(** A call that is recorded. *)
Definition note (w : world) (c : call) (was_refused : bool) : world :=
  {| w_files := w_files w; w_sent := w_sent w; w_faults := w_faults w; w_calls := w_calls w ++ [(c, was_refused)];
     w_dirs := w_dirs w; w_root := w_root w |}.
Definition try (w : world) (c : call) : bool * world :=
  let '(f, w) := refused w in (f, note w c f).

(** [sendFn]: one message to the wrapper. *)
Definition send (w : world) (msg : ResponseMessage) : option error * world :=
  match try w (CallSend msg) with
  | (true, w) => (Some io_error, w)
  | (false, w) =>
    (None, {| w_files := w_files w; w_sent := w_sent w ++ [msg]; w_faults := w_faults w; w_calls := w_calls w;
              w_dirs := w_dirs w; w_root := w_root w |})
  end.

(** A name that no file has: [os.CreateTemp] replaces the [*] of its pattern. *)
Fixpoint temp_name_from (fuel : nat) (prefix : string) (files : gmap string bytes) : string :=
  match fuel with
  | O => prefix
  | S fuel =>
    if bool_decide (is_Some (files !! prefix)) then temp_name_from fuel (prefix +:+ "0") files
    else prefix
  end.
Definition temp_name (prefix : string) (files : gmap string bytes) : string :=
  temp_name_from (S (size files)) prefix files.

Definition create_temp (w : world) (prefix : string) : result string * world :=
  match refused w with
  | (true, w) => (Err io_error, w)
  | (false, w) =>
    let path := temp_name prefix (w_files w) in
    (Ok path, set_files w (<[path := []]> (w_files w)))
  end.

Definition chmod (w : world) : option error * world :=
  let '(f, w) := refused w in (if f then Some io_error else None, w).

(** Appending to an open file. *)
Definition append_file (w : world) (path : string) (data : bytes) : option error * world :=
  match refused w with
  | (true, w) => (Some io_error, w)
  | (false, w) => (None, set_files w (<[path := default [] (w_files w !! path) ++ data]> (w_files w)))
  end.

Definition close_file (w : world) : option error * world := chmod w.

(** [os.Remove], whose error the callers ignore. *)
Definition remove_file (w : world) (path : string) : world :=
  match try w (CallRemove path) with
  | (true, w) => w
  | (false, w) => set_files w (delete path (w_files w))
  end.

(** ** Directories

    Creating an entry in a directory needs its write and search bits, unless the
    process is root; a new directory has the mode asked for less the umask. *)

Definition can_create (w : world) (dir : string) : bool :=
  w_root w || match w_dirs w !! dir with
              | Some mode => Z.testbit mode 6 && Z.testbit mode 7
              | None => false
              end.

Definition EACCES : error := Sentinel "EACCES".

(** [os.MkdirTemp] in the system's directory for temporary files. *)
Definition mkdir_temp (w : world) (prefix : string) (umask : Z) : result string * world :=
  match refused w with
  | (true, w) => (Err io_error, w)
  | (false, w) =>
    let path := temp_name prefix (w_files w ∪ ((λ _, []) <$> w_dirs w)) in
    (Ok path, set_dirs w (<[path := Z.ldiff 448 umask]> (w_dirs w)))
  end.

(** [os.MkdirAll] of the components below an existing directory. *)
Fixpoint mkdir_under (w : world) (dir : string) (comps : list string) (umask : Z) : option error * world :=
  match comps with
  | [] => (None, w)
  | c :: comps =>
    let path := PathJoin [dir; c] in
    if bool_decide (is_Some (w_dirs w !! path)) then mkdir_under w path comps umask
    else if negb (can_create w dir) then (Some EACCES, w)
    else
      match refused w with
      | (true, w) => (Some io_error, w)
      | (false, w) =>
        mkdir_under (set_dirs w (<[path := Z.ldiff 448 umask]> (w_dirs w))) path comps umask
      end
  end.

(** [os.WriteFile] of a new file. *)
Definition write_file (w : world) (dir path : string) (data : bytes) : option error * world :=
  if negb (can_create w dir) then (Some EACCES, w)
  else
    match refused w with
    | (true, w) => (Some io_error, w)
    | (false, w) => (None, set_files w (<[path := data]> (w_files w)))
    end.

(** [os.RemoveAll]: the directory and everything below it. *)
Definition below (dir path : string) : bool :=
  bool_decide (path = dir) || HasPrefix path (dir +:+ "/").

Definition remove_all (w : world) (dir : string) : option error * world :=
  match try w (CallRemoveAll dir) with
  | (true, w) => (Some io_error, w)
  | (false, w) =>
    (None, {| w_files := filter (λ kv, below dir kv.1 = false) (w_files w);
              w_sent := w_sent w; w_faults := w_faults w; w_calls := w_calls w;
              w_dirs := filter (λ kv, below dir kv.1 = false) (w_dirs w); w_root := w_root w |})
  end.

(** ** Lemmas *)

Lemma refused_same w f w' : refused w = (f, w') → w_files w' = w_files w ∧ w_sent w' = w_sent w.
Proof. unfold refused. destruct (w_faults w); intros [= <- <-]; done. Qed.

Lemma try_same w c f w' : try w c = (f, w') → w_files w' = w_files w ∧ w_sent w' = w_sent w.
Proof. unfold try. destruct (refused w) as [g w1] eqn:E. intros [= <- <-]. by apply refused_same in E. Qed.

Lemma send_spec w msg e w' :
  send w msg = (e, w') → w_files w' = w_files w ∧
  w_sent w' = w_sent w ++ (match e with None => [msg] | Some _ => [] end).
Proof.
  unfold send. destruct (try w _) as [[] w1] eqn:E; intros [= <- <-];
    apply try_same in E as [-> ->]; simpl; by rewrite ?app_nil_r.
Qed.

(** The names tried are distinct, so one of them is free. *)
Lemma temp_name_from_fresh fuel prefix files (used : gset string) :
  (size (dom files ∖ used) < fuel)%nat →
  (∀ x, x ∈ used → (String.length x < String.length prefix)%nat) →
  files !! temp_name_from fuel prefix files = None.
Proof.
  revert prefix used. induction fuel as [|fuel IH]; intros prefix used Hf Hu; [lia|]. simpl.
  case_bool_decide as Hd; [|by apply eq_None_not_Some].
  apply (IH _ ({[prefix]} ∪ used)).
  - assert (prefix ∈ dom files ∖ used) as Hin.
    { apply elem_of_difference. split; [by apply elem_of_dom|]. intros Hp. specialize (Hu _ Hp). lia. }
    replace (dom files ∖ ({[prefix]} ∪ used)) with ((dom files ∖ used) ∖ {[prefix]}) by set_solver.
    pose proof (size_difference (dom files ∖ used) {[prefix]} ltac:(set_solver)) as Hs.
    pose proof (subseteq_size {[prefix]} (dom files ∖ used) ltac:(set_solver)) as Hl.
    rewrite size_singleton in Hs, Hl. lia.
  - intros x. rewrite elem_of_union, elem_of_singleton.
    assert (String.length (prefix +:+ "0") = S (String.length prefix)) as ->.
    { rewrite <- !s2b_length, s2b_app, length_app. simpl. lia. }
    intros [->|Hx]; [lia|]. specialize (Hu _ Hx). lia.
Qed.

Lemma temp_name_fresh prefix files : files !! temp_name prefix files = None.
Proof.
  apply (temp_name_from_fresh _ _ _ ∅); [|set_solver].
  rewrite difference_empty_L, size_dom. lia.
Qed.

Lemma temp_name_not_empty prefix files : prefix ≠ "" → temp_name prefix files ≠ "".
Proof.
  unfold temp_name. generalize (S (size files)) as n. intros n. revert prefix.
  induction n as [|n IH]; intros prefix Hp; [done|]. simpl. case_bool_decide; [|done].
  apply IH. by destruct prefix.
Qed.

(** ** The record of the calls *)

(** The messages a record tries to send, and those it sends. *)
Definition messages_of (cs : list (call * bool)) : list (ResponseMessage * bool) :=
  omap (λ c : call * bool, match c with (CallSend m, f) => Some (m, f) | _ => None end) cs.
Definition sent_of (cs : list (call * bool)) : list ResponseMessage :=
  omap (λ m : ResponseMessage * bool, if m.2 then None else Some m.1) (messages_of cs).

(** The signals it tries to send, and those it sends. *)
Definition signals_of (cs : list (call * bool)) : list (Z * bool) :=
  omap (λ c : call * bool, match c with (CallSignal g, f) => Some (g, f) | _ => None end) cs.
Definition signalled (cs : list (call * bool)) : list Z :=
  omap (λ g : Z * bool, if g.2 then None else Some g.1) (signals_of cs).

(** The system refused to remove the path, or a directory above it. *)
Definition removal_refused (cs : list (call * bool)) (p : string) : Prop :=
  (CallRemove p, true) ∈ cs ∨ ∃ dir, (CallRemoveAll dir, true) ∈ cs ∧ below dir p = true.

Lemma messages_of_app a b : messages_of (a ++ b) = messages_of a ++ messages_of b.
Proof. apply omap_app. Qed.
Lemma sent_of_app a b : sent_of (a ++ b) = sent_of a ++ sent_of b.
Proof. unfold sent_of. by rewrite messages_of_app, omap_app. Qed.
Lemma signals_of_app a b : signals_of (a ++ b) = signals_of a ++ signals_of b.
Proof. apply omap_app. Qed.
Lemma signalled_app a b : signalled (a ++ b) = signalled a ++ signalled b.
Proof. unfold signalled. by rewrite signals_of_app, omap_app. Qed.

Lemma removal_refused_app a b p : removal_refused (a ++ b) p ↔ removal_refused a p ∨ removal_refused b p.
Proof. unfold removal_refused. setoid_rewrite elem_of_app. naive_solver. Qed.

Lemma removal_not_refused (cs : list (call * bool)) p : Forall (λ c, c.2 = false) cs → ¬ removal_refused cs p.
Proof. rewrite Forall_forall. intros HF [Hin|(dir & Hin & _)]; by specialize (HF _ Hin). Qed.

(** What a call does to the record, and that a refusal is one of the faults. *)
Lemma refused_calls w f w' :
  refused w = (f, w') → w_calls w' = w_calls w ∧ (w_faults w = [] → f = false ∧ w_faults w' = []).
Proof.
  unfold refused. destruct (w_faults w) as [|g gs] eqn:E; intros [= <- <-]; [by rewrite E|done].
Qed.

Lemma try_spec w c f w' :
  try w c = (f, w') → w_calls w' = w_calls w ++ [(c, f)] ∧ (w_faults w = [] → f = false ∧ w_faults w' = []) ∧
  w_dirs w' = w_dirs w ∧ w_root w' = w_root w.
Proof.
  unfold try. destruct (refused w) as [g w1] eqn:E. intros [= <- <-].
  assert (w_dirs w1 = w_dirs w ∧ w_root w1 = w_root w) as [Hd Hr].
  { revert E. unfold refused. destruct (w_faults w); by intros [= _ <-]. }
  apply refused_calls in E as [Hc Hf]. cbn. by rewrite Hc.
Qed.
