(* ===== verification/OutputBuffer.v ===== *)
(** Package [internal/daemon], [outputbuf.go]: one output stream of a tool, sent
    inline until a threshold and to a temporary file from then on.

    The mutex makes each method one step. The state holds the path of the open
    temporary file ([tempFile]); [tee] is the bytes fed to the hash. *)

From S2P Require Import Prelude Base64 Protocol Regexp Redactor World.
Local Open Scope Z_scope.

Definition ErrOutputLimitExceeded : error := Sentinel "ErrOutputLimitExceeded".
Definition ErrInvalid : error := Sentinel "os.ErrInvalid".

Section outputbuf.
Context `{Regexp}.

Record OutputBuffer := {
  ob_stream : string;
  ob_threshold : Z;
  ob_maxOutputSize : Z;
  ob_accumulated : Z;
  ob_inlineMode : bool;
  ob_tempFile : option string;
  ob_tempPath : string;
  ob_tee : option bytes;
  ob_redactor : option OutputRedactor;
}.

Definition NewOutputBuffer (stream : string) (threshold maxOutputSize : Z) : OutputBuffer :=
  {| ob_stream := stream; ob_threshold := threshold; ob_maxOutputSize := maxOutputSize;
     ob_accumulated := 0; ob_inlineMode := true; ob_tempFile := None; ob_tempPath := "";
     ob_tee := None; ob_redactor := None |}.

Definition SetTee (b : OutputBuffer) : OutputBuffer :=
  {| ob_stream := ob_stream b; ob_threshold := ob_threshold b; ob_maxOutputSize := ob_maxOutputSize b;
     ob_accumulated := ob_accumulated b; ob_inlineMode := ob_inlineMode b; ob_tempFile := ob_tempFile b;
     ob_tempPath := ob_tempPath b; ob_tee := Some []; ob_redactor := ob_redactor b |}.

Definition SetRedactor (b : OutputBuffer) (r : option OutputRedactor) : OutputBuffer :=
  {| ob_stream := ob_stream b; ob_threshold := ob_threshold b; ob_maxOutputSize := ob_maxOutputSize b;
     ob_accumulated := ob_accumulated b; ob_inlineMode := ob_inlineMode b; ob_tempFile := ob_tempFile b;
     ob_tempPath := ob_tempPath b; ob_tee := ob_tee b; ob_redactor := r |}.

Definition set_tee (b : OutputBuffer) (tee : option bytes) : OutputBuffer :=
  {| ob_stream := ob_stream b; ob_threshold := ob_threshold b; ob_maxOutputSize := ob_maxOutputSize b;
     ob_accumulated := ob_accumulated b; ob_inlineMode := ob_inlineMode b; ob_tempFile := ob_tempFile b;
     ob_tempPath := ob_tempPath b; ob_tee := tee; ob_redactor := ob_redactor b |}.

Definition add_accumulated (b : OutputBuffer) (n : Z) : OutputBuffer :=
  {| ob_stream := ob_stream b; ob_threshold := ob_threshold b; ob_maxOutputSize := ob_maxOutputSize b;
     ob_accumulated := int64 (ob_accumulated b + n); ob_inlineMode := ob_inlineMode b;
     ob_tempFile := ob_tempFile b; ob_tempPath := ob_tempPath b; ob_tee := ob_tee b;
     ob_redactor := ob_redactor b |}.

Definition set_temp (b : OutputBuffer) (file : option string) (path : string) (inline : bool) : OutputBuffer :=
  {| ob_stream := ob_stream b; ob_threshold := ob_threshold b; ob_maxOutputSize := ob_maxOutputSize b;
     ob_accumulated := ob_accumulated b; ob_inlineMode := inline; ob_tempFile := file;
     ob_tempPath := path; ob_tee := ob_tee b; ob_redactor := ob_redactor b |}.

(** The directory [os.TempDir()]. *)
Definition TempDir := "/tmp/".

Definition switchToFileMode (b : OutputBuffer) (w : world) : result unit * OutputBuffer * world :=
  match create_temp w (TempDir +:+ "claw-wrap-" +:+ ob_stream b +:+ "-") with
  | (Err err, w) => (Err (Wrapf "create temp file: %w" [] err), b, w)
  | (Ok f, w) =>
    match chmod w with
    | (Some err, w) =>
      let '(_, w) := close_file w in
      let w := remove_file w f in
      (Err (Wrapf "chmod temp file: %w" [] err), b, w)
    | (None, w) => (Ok tt, set_temp b (Some f) f false, w)
    end
  end.

(** Feeding the hash; a [tee] that refuses a write is one of the faults. *)
Definition write_tee (b : OutputBuffer) (data : bytes) (w : world) : result unit * OutputBuffer * world :=
  match ob_tee b with
  | None => (Ok tt, b, w)
  | Some t =>
    match refused w with
    | (true, w) => (Err (Wrapf "tee write: %w" [] io_error), b, w)
    | (false, w) => (Ok tt, set_tee b (Some (t ++ data)), w)
    end
  end.

(** The output stage of [writeLocked]. *)
Definition emit (b : OutputBuffer) (data : bytes) (w : world) : result unit * OutputBuffer * world :=
  if ob_inlineMode b then
    match send w (output_msg (ob_stream b) (EncodeToString StdEncoding data)) with
    | (Some err, w) => (Err (Wrapf "send chunk: %w" [] err), b, w)
    | (None, w) => (Ok tt, add_accumulated b (blen data), w)
    end
  else
    match ob_tempFile b with
    | None => (Err (Wrapf "write to temp file: %w" [] ErrInvalid), b, w)
    | Some path =>
      match append_file w path data with
      | (Some err, w) => (Err (Wrapf "write to temp file: %w" [] err), b, w)
      | (None, w) => (Ok tt, add_accumulated b (blen data), w)
      end
    end.

Definition writeLocked (b : OutputBuffer) (data : bytes) (w : world) : result unit * OutputBuffer * world :=
  match data with
  | [] => (Ok tt, b, w)
  | _ =>
    if (ob_maxOutputSize b >? 0) && (int64 (ob_accumulated b + blen data) >? ob_maxOutputSize b) then
      (Err ErrOutputLimitExceeded, b, w)
    else
      match write_tee b data w with
      | (Err err, b, w) => (Err err, b, w)
      | (Ok _, b, w) =>
        if ob_inlineMode b && (ob_threshold b >? 0)
           && (int64 (ob_accumulated b + blen data) >? ob_threshold b) then
          match switchToFileMode b w with
          | (Err err, b, w) => (Err (Wrapf "switch to file mode: %w" [] err), b, w)
          | (Ok _, b, w) => emit b data w
          end
        else emit b data w
      end
  end.

Definition Write (b : OutputBuffer) (data : bytes) (w : world) : result unit * OutputBuffer * world :=
  match data with
  | [] => (Ok tt, b, w)
  | _ =>
    match ob_redactor b with
    | None => writeLocked b data w
    | Some r =>
      let '(data, r) := RedactChunk r data false in
      let b := SetRedactor b (Some r) in
      match data with
      | [] => (Ok tt, b, w)
      | _ => writeLocked b data w
      end
    end
  end.

Definition Finalize (b : OutputBuffer) (w : world) : result string * OutputBuffer * world :=
  let '(flushed, b, w) :=
    match ob_redactor b with
    | None => (Ok tt, b, w)
    | Some r =>
      let '(tail, r) := RedactChunk r [] true in
      match writeLocked (SetRedactor b (Some r)) tail w with
      | (Err err, b, w) => (Err (Wrapf "flush redactor: %w" [] err), b, w)
      | ok => ok
      end
    end in
  match flushed with
  | Err err => (Err err, b, w)
  | Ok _ =>
    if ob_inlineMode b then (Ok "", b, w)
    else
      match ob_tempFile b with
      | None => (Ok (ob_tempPath b), b, w)
      | Some _ =>
        match close_file w with
        | (Some err, w) => (Err (Wrapf "close temp file: %w" [] err), b, w)
        | (None, w) => (Ok (ob_tempPath b), set_temp b None (ob_tempPath b) (ob_inlineMode b), w)
        end
      end
  end.

Definition Cleanup (b : OutputBuffer) (w : world) : OutputBuffer * world :=
  let '(b, w) :=
    match ob_tempFile b with
    | None => (b, w)
    | Some _ => let '(_, w) := close_file w in (set_temp b None (ob_tempPath b) (ob_inlineMode b), w)
    end in
  if negb (bool_decide (ob_tempPath b = "")) then
    (set_temp b (ob_tempFile b) "" (ob_inlineMode b), remove_file w (ob_tempPath b))
  else (b, w).

Definition Accumulated (b : OutputBuffer) : Z := ob_accumulated b.

(** A run of writes, stopped at the first error. *)
Fixpoint write_all (b : OutputBuffer) (chunks : list bytes) (w : world) : result unit * OutputBuffer * world :=
  match chunks with
  | [] => (Ok tt, b, w)
  | c :: chunks =>
    match Write b c w with
    | (Ok _, b, w) => write_all b chunks w
    | bad => bad
    end
  end.

(** ** Specification: the byte log of a stream

    What the wrapper can see of the stream: the decoded inline messages, then
    the temporary file. *)
Definition inline_bytes (stream : string) (sent : list ResponseMessage) : bytes :=
  sent ≫= λ m,
    if bool_decide (rm_type m = stream) then default [] (DecodeString StdEncoding (rm_data m)) else [].

Definition byte_log (b : OutputBuffer) (w : world) : bytes :=
  inline_bytes (ob_stream b) (w_sent w)
    ++ (if ob_inlineMode b then [] else default [] (w_files w !! ob_tempPath b)).

Definition buffer_inv (b : OutputBuffer) (w : world) : Prop :=
  ob_accumulated b = blen (byte_log b w) ∧
  (∀ t, ob_tee b = Some t → t = byte_log b w) ∧
  (ob_inlineMode b = true → ob_tempFile b = None ∧ ob_tempPath b = "" ∧
     (ob_threshold b > 0 → ob_accumulated b ≤ ob_threshold b)) ∧
  (ob_inlineMode b = false → ob_tempPath b ≠ "" ∧ is_Some (w_files w !! ob_tempPath b) ∧
     ob_threshold b > 0 ∧ ∀ p, ob_tempFile b = Some p → p = ob_tempPath b) ∧
  (ob_maxOutputSize b > 0 → ob_accumulated b ≤ ob_maxOutputSize b).

(** The settings of a buffer, which no method changes. *)
Definition same_settings (b b' : OutputBuffer) : Prop :=
  ob_stream b' = ob_stream b ∧ ob_threshold b' = ob_threshold b ∧
  ob_maxOutputSize b' = ob_maxOutputSize b ∧ (ob_inlineMode b = false → ob_inlineMode b' = false).

(** ** Lemmas *)

Lemma inline_bytes_app stream s1 s2 :
  inline_bytes stream (s1 ++ s2) = inline_bytes stream s1 ++ inline_bytes stream s2.
Proof. apply bind_app. Qed.

Lemma inline_bytes_msg stream data :
  inline_bytes stream [output_msg stream (EncodeToString StdEncoding data)] = data.
Proof.
  unfold inline_bytes. cbn [mbind list_bind]. simpl rm_type. rewrite bool_decide_eq_true_2 by done.
  simpl rm_data. by rewrite (DecodeString_EncodeToString StdEncoding), app_nil_r.
Qed.

Lemma create_temp_spec w prefix r w' :
  create_temp w prefix = (r, w') → w_sent w' = w_sent w ∧
  match r with
  | Ok path => w_files w !! path = None ∧ w_files w' = <[path := []]> (w_files w) ∧
      (prefix ≠ "" → path ≠ "")
  | Err _ => w_files w' = w_files w
  end.
Proof.
  unfold create_temp. destruct (refused w) as [[] w1] eqn:E; intros [= <- <-];
    apply refused_same in E as [Hf Hs]; [done|]. simpl. rewrite Hf. split; [done|].
  split; [apply temp_name_fresh|]. split; [done|]. apply temp_name_not_empty.
Qed.

Lemma chmod_spec w e w' : chmod w = (e, w') → w_files w' = w_files w ∧ w_sent w' = w_sent w.
Proof. unfold chmod. destruct (refused w) as [f w1] eqn:E. intros [= <- <-]. by apply refused_same in E. Qed.

Lemma remove_file_sent w path : w_sent (remove_file w path) = w_sent w.
Proof. unfold remove_file. destruct (try w _) as [[] w1] eqn:E; by apply try_same in E as [_ E]. Qed.

(** [switchToFileMode] sends nothing; on success the file is new and empty. *)
Lemma switch_spec b w res b' w' :
  switchToFileMode b w = (res, b', w') → w_sent w' = w_sent w ∧
  match res with
  | Ok _ => ∃ path, path ≠ "" ∧ b' = set_temp b (Some path) path false ∧ w_files w' !! path = Some []
  | Err _ => b' = b
  end.
Proof.
  unfold switchToFileMode. destruct (create_temp w _) as [[path|err] w1] eqn:E1;
    apply create_temp_spec in E1 as [Hs E1].
  - destruct E1 as (Hn & Hf & Hp). destruct (chmod w1) as [[err|] w2] eqn:E2; apply chmod_spec in E2 as [E2 E2s].
    + destruct (close_file w2) as [e w3] eqn:E3. apply chmod_spec in E3 as [_ E3]. intros [= <- <- <-].
      by rewrite remove_file_sent, E3, E2s, Hs.
    + intros [= <- <- <-]. split; [by rewrite E2s|]. exists path.
      rewrite E2, Hf, lookup_insert_eq. split; [by apply Hp|done].
  - intros [= <- <- <-]. done.
Qed.

Lemma int64_add b data :
  0 ≤ ob_accumulated b → ob_accumulated b + blen data ≤ max_int64 →
  int64 (ob_accumulated b + blen data) = ob_accumulated b + blen data.
Proof. intros. apply int64_id. unfold min_int64, blen in *. lia. Qed.

(** What a step does to the log, the counter and the modes. *)
Definition step_ok (b : OutputBuffer) (w : world) (data : bytes) (res : result unit)
    (b' : OutputBuffer) (w' : world) : Prop :=
  same_settings b b' ∧ ob_redactor b' = ob_redactor b ∧
  match res with
  | Ok _ => buffer_inv b' w' ∧ byte_log b' w' = byte_log b w ++ data
  | Err _ => ob_accumulated b' = ob_accumulated b ∧ byte_log b' w' = byte_log b w
  end.

Lemma emit_spec b data w res b' w' :
  emit b data w = (res, b', w') →
  ob_accumulated b = blen (byte_log b w) → ob_accumulated b + blen data ≤ max_int64 →
  (∀ t, ob_tee b = Some t → t = byte_log b w ++ data) →
  (ob_inlineMode b = true → ob_tempFile b = None ∧ ob_tempPath b = "" ∧
     (ob_threshold b > 0 → ob_accumulated b + blen data ≤ ob_threshold b)) →
  (ob_inlineMode b = false → ob_tempPath b ≠ "" ∧ is_Some (w_files w !! ob_tempPath b) ∧
     ob_threshold b > 0 ∧ ∀ p, ob_tempFile b = Some p → p = ob_tempPath b) →
  (ob_maxOutputSize b > 0 → ob_accumulated b + blen data ≤ ob_maxOutputSize b) →
  step_ok b w data res b' w'.
Proof.
  intros He Ha Hmax Ht Hi Hf Hm.
  assert (int64 (ob_accumulated b + blen data) = ob_accumulated b + blen data) as H64.
  { apply int64_add; [|done]. rewrite Ha. unfold blen. lia. }
  unfold emit in He. unfold step_ok.
  destruct (ob_inlineMode b) eqn:Em.
  - destruct (send w _) as [[err|] w1] eqn:Es; apply send_spec in Es as [Es1 Es2];
      injection He as <- <- <-; simpl.
    + split; [done|]. split; [done|]. split; [done|]. unfold byte_log. by rewrite Es2, Em, !app_nil_r.
    + assert (byte_log (add_accumulated b (blen data)) w1 = byte_log b w ++ data) as HL.
      { unfold byte_log; simpl. rewrite Em, Es2, inline_bytes_app, inline_bytes_msg. by rewrite !app_nil_r. }
      split; [by split|]. split; [done|]. split; [|done]. unfold buffer_inv. rewrite HL. simpl.
      rewrite H64, Em. unfold blen in *. rewrite length_app. split; [lia|]. split; [done|]. 
      split; [done|]. split; [done|done].
  - destruct Hf as (Hp & [old Hold] & Hth & Htf); [done|].
    destruct (ob_tempFile b) as [path|] eqn:Etf.
    2: { injection He as <- <- <-. repeat split; auto. }
    rewrite (Htf path) in He by done. unfold append_file in He.
    destruct (refused w) as [[] w1] eqn:Er; apply refused_same in Er as [Er1 Er2]; injection He as <- <- <-; simpl.
    + split; [done|]. split; [done|]. split; [done|]. unfold byte_log. by rewrite Er2, Er1.
    + assert (byte_log (add_accumulated b (blen data)) (set_files w1
        (<[ob_tempPath b := default [] (w_files w1 !! ob_tempPath b) ++ data]> (w_files w1)))
        = byte_log b w ++ data) as HL.
      { unfold byte_log; simpl. rewrite Em, Er2, lookup_insert_eq, Er1. simpl. by rewrite app_assoc. }
      split; [by split|]. split; [done|]. split; [|done]. unfold buffer_inv. rewrite HL. simpl.
      rewrite H64, Em, lookup_insert_eq. unfold blen in *. rewrite length_app. split; [lia|].
      split; [done|]. split; [done|]. split; [|done]. intros _. rewrite Etf. repeat split; auto.
Qed.

Lemma writeLocked_spec b data w res b' w' :
  writeLocked b data w = (res, b', w') → buffer_inv b w → blen (byte_log b w) + blen data ≤ max_int64 →
  step_ok b w data res b' w'.
Proof.
  intros He (Ha & Ht & Hi & Hf & Hm) Hmax. rewrite <- Ha in Hmax.
  unfold writeLocked in He. destruct data as [|c data'] eqn:Ed.
  { injection He as <- <- <-. unfold step_ok, buffer_inv. rewrite app_nil_r. repeat split; naive_solver. }
  rewrite <- Ed in *. clear Ed.
  rewrite int64_add in He by (done || (rewrite Ha; unfold blen; lia)).
  destruct ((ob_maxOutputSize b >? 0) && (ob_accumulated b + blen data >? ob_maxOutputSize b)) eqn:El.
  { injection He as <- <- <-. repeat split; auto. }
  destruct (write_tee b data w) as [[rt b1] w1] eqn:Et.
  assert (match rt with
    | Ok _ => b1 = set_tee b ((λ t, t ++ data) <$> ob_tee b)
    | Err _ => b1 = b end ∧ w_files w1 = w_files w ∧ w_sent w1 = w_sent w) as (Hb1 & Hw1 & Hs1).
  { unfold write_tee in Et. destruct (ob_tee b) as [t|] eqn:E.
    - destruct (refused w) as [[] w2] eqn:Er; apply refused_same in Er as [Er1 Er2];
        injection Et as <- <- <-; done.
    - injection Et as <- <- <-. split; [|done]. simpl. by destruct b; simpl in *; subst. }
  destruct rt as [u|e].
  2: { injection He as <- <- <-. subst b1. unfold step_ok, byte_log. rewrite Hw1, Hs1. repeat split; auto. }
  subst b1.
  change (ob_inlineMode (set_tee _ _)) with (ob_inlineMode b) in He.
  change (ob_threshold (set_tee _ _)) with (ob_threshold b) in He.
  change (ob_accumulated (set_tee _ _)) with (ob_accumulated b) in He.
  rewrite int64_add in He by (done || (rewrite Ha; unfold blen; lia)).
  assert (∀ b0 w0, ob_accumulated b0 = ob_accumulated b → byte_log b0 w0 = byte_log b w →
    same_settings b b0 → ob_redactor b0 = ob_redactor b → step_ok b0 w0 data res b' w' →
    step_ok b w data res b' w') as Htrans.
  { unfold step_ok, same_settings. intros b0 w0 Ea El0 (S1 & S2 & S3 & S4) Er0 ((T1 & T2 & T3 & T4) & R & HR).
    split; [repeat split; [congruence..|auto]|]. split; [congruence|].
    destruct res; [destruct HR as [? ->]; by rewrite El0|destruct HR as [-> ->]; by rewrite El0]. }
  assert (ob_maxOutputSize b > 0 → ob_accumulated b + blen data ≤ ob_maxOutputSize b) as Hm'.
  { intros. apply andb_false_iff in El as [El|El]; lia. }
  set (b1 := set_tee b ((λ t, t ++ data) <$> ob_tee b)) in *.
  assert (byte_log b1 w1 = byte_log b w) as HL1 by (unfold byte_log; simpl; by rewrite Hw1, Hs1).
  assert (∀ t, ob_tee b1 = Some t → t = byte_log b w ++ data) as Ht1.
  { simpl. intros t Ht0. apply fmap_Some in Ht0 as (t0 & E & ->). by rewrite (Ht _ E). }
  destruct (ob_inlineMode b && (ob_threshold b >? 0) && (ob_accumulated b + blen data >? ob_threshold b)) eqn:Esw.
  - apply andb_true_iff in Esw as [[Ein Eth]%andb_true_iff Eover].
    destruct (switchToFileMode b1 w1) as [[[u1|e1] b2] w2] eqn:E2; apply switch_spec in E2 as [Hs2 E2].
    + destruct E2 as (path & Hp & -> & Hpf).
      assert (byte_log (set_temp b1 (Some path) path false) w2 = byte_log b w) as HL2.
      { unfold byte_log; simpl. rewrite Ein, Hs2, Hpf, Hs1. simpl. by rewrite !app_nil_r. }
      eapply (Htrans (set_temp b1 (Some path) path false) w2); [done|done|by repeat split|done|].
      apply emit_spec; rewrite ?HL2; simpl; try done. intros _. rewrite Hpf.
      repeat split; [done|by eexists|lia|by intros p [= <-]].
    + injection He as <- <- <-. subst b2. unfold step_ok, byte_log. rewrite Hs2, Hs1. simpl. rewrite Ein.
      repeat split; auto.
  - eapply (Htrans b1 w1); [done|done|by repeat split|done|].
    apply emit_spec; rewrite ?HL1, ?Hw1; simpl; try done; rewrite ?Hw1; try done.
    intros Ein. destruct (Hi Ein) as (? & ? & _). split; [done|]. split; [done|]. intros Hth.
    rewrite Ein in Esw. simpl in Esw. apply andb_false_iff in Esw as [|]; lia.
Qed.

(** What a stream should show: its writes, redacted, with the final flush. Empty
    writes are skipped before the redactor sees them. *)
Definition emitted (r : option OutputRedactor) (chunks : list bytes) : bytes :=
  match r with
  | None => concat chunks
  | Some r => redact_stream r (filter (λ c, c ≠ []) chunks)
  end.

Lemma SetRedactor_inv b r w : buffer_inv b w → buffer_inv (SetRedactor b r) w.
Proof. done. Qed.

Lemma Write_spec b c w res b' w' :
  Write b c w = (res, b', w') → buffer_inv b w →
  ∃ out r', (∀ chunks, emitted (ob_redactor b) (c :: chunks) = out ++ emitted r' chunks) ∧
    (blen (byte_log b w) + blen out ≤ max_int64 →
     same_settings b b' ∧ ob_redactor b' = r' ∧
     match res with
     | Ok _ => buffer_inv b' w' ∧ byte_log b' w' = byte_log b w ++ out
     | Err _ => ob_accumulated b' = ob_accumulated b ∧ byte_log b' w' = byte_log b w
     end).
Proof.
  intros He Hinv. unfold Write in He.
  destruct c as [|c0 c'] eqn:Ec.
  { injection He as <- <- <-. exists [], (ob_redactor b). split.
    - intros chunks. unfold emitted. destruct (ob_redactor b); [|done]. by rewrite filter_cons_False by auto.
    - intros _. rewrite app_nil_r. split; [by split|]. by split. }
  rewrite <- Ec in *. assert (c ≠ []) as Hc by by rewrite Ec. clear Ec.
  destruct (ob_redactor b) as [r|] eqn:Er.
  - destruct (RedactChunk r c false) as [out r'] eqn:Ech. exists out, (Some r'). split.
    { intros chunks. simpl. rewrite filter_cons_True by done. cbn [redact_stream]. by rewrite Ech. }
    intros Hmax. destruct out as [|o0 out'] eqn:Eo.
    { injection He as <- <- <-. rewrite app_nil_r. split; [by split|]. by split. }
    rewrite <- Eo in *. apply writeLocked_spec in He; [|done|done].
    destruct He as (HS & HR & HO). by split.
  - exists c, None. split; [done|]. intros Hmax. apply writeLocked_spec in He; [|done|done].
    destruct He as (HS & HR & HO). rewrite Er in HR. by split.
Qed.

Lemma write_all_spec b chunks w res b' w' tail :
  write_all b chunks w = (res, b', w') → buffer_inv b w →
  blen (byte_log b w) + blen (emitted (ob_redactor b) (chunks ++ tail)) ≤ max_int64 →
  same_settings b b' ∧
  match res with
  | Ok _ => buffer_inv b' w' ∧ ∃ out, byte_log b' w' = byte_log b w ++ out ∧
      emitted (ob_redactor b) (chunks ++ tail) = out ++ emitted (ob_redactor b') tail
  | Err _ => ob_accumulated b' = blen (byte_log b' w') ∧
      (ob_maxOutputSize b > 0 → ob_accumulated b' ≤ ob_maxOutputSize b) ∧
      ∃ out, byte_log b' w' = byte_log b w ++ out ∧
        out `prefix_of` emitted (ob_redactor b) (chunks ++ tail)
  end.
Proof.
  revert b w. induction chunks as [|c chunks IH]; intros b w He Hinv Hmax; cbn [write_all app] in *.
  { injection He as <- <- <-. split; [by split|]. split; [done|]. exists []. by rewrite app_nil_r. }
  destruct (Write b c w) as [[res1 b1] w1] eqn:E1.
  destruct (Write_spec _ _ _ _ _ _ E1 Hinv) as (out & r' & Hem & HW).
  rewrite (Hem (chunks ++ tail)) in *. unfold blen in Hmax. rewrite length_app in Hmax.
  destruct HW as (HS & HR & HO); [unfold blen; lia|].
  destruct res1 as [u|e].
  - destruct HO as [Hinv1 HL1]. destruct (IH b1 w1 He Hinv1) as [HS' HO'].
    { rewrite HL1, HR. unfold blen in *. rewrite length_app. lia. }
    assert (same_settings b b') as HSS.
    { destruct HS as (? & ? & ? & ?), HS' as (? & ? & ? & ?). repeat split; [congruence..|auto]. }
    split; [done|]. rewrite HR in HO'. destruct res as [u'|e'].
    + destruct HO' as (? & out' & HL & HE). split; [done|]. exists (out ++ out').
      rewrite HL, HL1, HE. by rewrite !app_assoc.
    + destruct HO' as (? & Hm & out' & HL & HE). split; [done|]. split.
      { destruct HS as (_ & _ & Hms & _). by rewrite Hms in Hm. }
      exists (out ++ out'). rewrite HL, HL1, app_assoc. split; [done|]. by apply prefix_app.
  - injection He as <- <- <-. destruct HO as [Ha HL]. split; [done|]. destruct Hinv as (Hb & _ & _ & _ & Hm).
    split; [by rewrite Ha, HL|]. split; [by rewrite Ha|]. exists [].
    rewrite HL, app_nil_r. split; [done|]. apply prefix_nil.
Qed.

Lemma emitted_flush b r :
  ob_redactor b = Some r → emitted (ob_redactor b) [] = (RedactChunk r [] true).1.
Proof. by intros ->. Qed.

Lemma close_temp_inv b w :
  buffer_inv b w → ob_inlineMode b = false →
  buffer_inv (set_temp b None (ob_tempPath b) (ob_inlineMode b)) w ∧
  byte_log (set_temp b None (ob_tempPath b) (ob_inlineMode b)) w = byte_log b w.
Proof.
  intros (Ha & Ht & Hi & Hf & Hm) Em. split; [|done]. split; [done|]. split; [done|].
  simpl. split; [congruence|]. split; [|done]. intros _. destruct (Hf Em) as (? & ? & ? & ?).
  by repeat split.
Qed.

Lemma Finalize_spec b w path b' w' :
  Finalize b w = (Ok path, b', w') → buffer_inv b w →
  blen (byte_log b w) + blen (emitted (ob_redactor b) []) ≤ max_int64 →
  buffer_inv b' w' ∧ byte_log b' w' = byte_log b w ++ emitted (ob_redactor b) [] ∧
  (ob_inlineMode b' = true ∧ path = "" ∨ ob_inlineMode b' = false ∧ path = ob_tempPath b' ∧ path ≠ "").
Proof.
  intros He Hinv Hmax. unfold Finalize in He.
  assert (∀ b1 w1, buffer_inv b1 w1 → byte_log b1 w1 = byte_log b w ++ emitted (ob_redactor b) [] →
    (if ob_inlineMode b1 then (Ok "", b1, w1) else
     match ob_tempFile b1 with
     | None => (Ok (ob_tempPath b1), b1, w1)
     | Some _ => match close_file w1 with
       | (Some err, w) => (Err (Wrapf "close temp file: %w" [] err), b1, w)
       | (None, w) => (Ok (ob_tempPath b1), set_temp b1 None (ob_tempPath b1) (ob_inlineMode b1), w)
       end
     end) = (Ok path, b', w') →
    buffer_inv b' w' ∧ byte_log b' w' = byte_log b w ++ emitted (ob_redactor b) [] ∧
    (ob_inlineMode b' = true ∧ path = "" ∨ ob_inlineMode b' = false ∧ path = ob_tempPath b' ∧ path ≠ "")) as Hend.
  { intros b1 w1 Hi1 HL1 E. destruct (ob_inlineMode b1) eqn:Em.
    - injection E as <- <- <-. split; [done|]. split; [done|]. by left.
    - pose proof Hi1 as (_ & _ & _ & Hf & _). destruct (Hf Em) as (Hp & _).
      destruct (ob_tempFile b1) eqn:Et.
      + destruct (close_file w1) as [[err|] w2] eqn:Ec; [done|]. injection E as <- <- <-.
        apply chmod_spec in Ec as [Ec1 Ec2].
        destruct (close_temp_inv _ _ Hi1 Em) as [Hi2 HL2]. rewrite Em in Hi2, HL2.
        assert (∀ b, byte_log b w2 = byte_log b w1) as Hw by (intros; unfold byte_log; by rewrite Ec1, Ec2).
        unfold buffer_inv in *. rewrite Hw, Ec1 in *. rewrite HL2. split; [by rewrite HL2 in Hi2|].
        split; [done|]. right. done.
      + injection E as <- <- <-. split; [done|]. split; [done|]. by right. }
  destruct (ob_redactor b) as [r|] eqn:Er.
  - simpl in *. destruct (RedactChunk r [] true) as [tail r'] eqn:Ech. simpl in *.
    destruct (writeLocked _ tail w) as [[[u|e] b1] w1] eqn:E1; [|done].
    apply writeLocked_spec in E1; [|done|done].
    destruct E1 as (_ & _ & Hi1 & HL1). by eapply (Hend b1 w1).
  - eapply (Hend b w); [done| |done]. simpl. by rewrite app_nil_r.
Qed.

(** ** Properties *)

(** Output transparency. When every write and the final [Finalize] succeed,
    what the wrapper can see of the stream, the decoded inline messages
    followed by the temporary file, is exactly the redaction of what the tool
    wrote, in order, with nothing lost at the switch to a file; the byte count
    and the hash input agree with it, and the path returned is empty exactly
    when everything went inline. *)
Theorem output_transparent b w chunks b1 w1 path b2 w2 :
  buffer_inv b w → blen (byte_log b w) + blen (emitted (ob_redactor b) chunks) ≤ max_int64 →
  write_all b chunks w = (Ok tt, b1, w1) → Finalize b1 w1 = (Ok path, b2, w2) →
  byte_log b2 w2 = byte_log b w ++ emitted (ob_redactor b) chunks ∧
  ob_accumulated b2 = blen (byte_log b2 w2) ∧ (∀ t, ob_tee b2 = Some t → t = byte_log b2 w2) ∧
  (ob_inlineMode b2 = true ∧ path = "" ∨ ob_inlineMode b2 = false ∧ path = ob_tempPath b2 ∧ path ≠ "").
Proof.
  intros Hinv Hmax HW HF.
  apply (write_all_spec _ _ _ _ _ _ []) in HW as (_ & Hi1 & out & HL1 & HE); [|done|by rewrite app_nil_r].
  rewrite app_nil_r in HE. apply Finalize_spec in HF as (Hi2 & HL2 & Hp); [|done|].
  - rewrite HL2, HL1, HE, app_assoc. split; [done|]. pose proof Hi2 as (Ha & Ht & _).
    rewrite <- HL1, <- HL2. done.
  - rewrite HE in Hmax. rewrite HL1. unfold blen in *. rewrite !length_app in *. lia.
Qed.

(** C36: Whatever fails and whenever, an output stream only ever shows a prefix of
    its redacted output, its byte count is the length of what it shows, the
    configured limit is respected, and a stream that went to a file never
    goes back inline. *)
Theorem output_bounded b w chunks res b' w' :
  buffer_inv b w → blen (byte_log b w) + blen (emitted (ob_redactor b) chunks) ≤ max_int64 →
  write_all b chunks w = (res, b', w') →
  ob_accumulated b' = blen (byte_log b' w') ∧
  (ob_maxOutputSize b > 0 → blen (byte_log b' w') ≤ ob_maxOutputSize b) ∧
  byte_log b' w' `prefix_of` byte_log b w ++ emitted (ob_redactor b) chunks ∧
  (ob_inlineMode b = false → ob_inlineMode b' = false).
Proof.
  intros Hinv Hmax HW.
  apply (write_all_spec _ _ _ _ _ _ []) in HW as ((_ & _ & Hms & Hmode) & HO); [|done|by rewrite app_nil_r].
  rewrite app_nil_r in HO. destruct res as [u|e].
  - destruct HO as ((Ha & _ & _ & _ & Hm) & out & HL & HE). split; [done|]. split.
    { intros. rewrite <- Ha. rewrite <- Hms. apply Hm. lia. }
    split; [|done]. rewrite HL, HE. apply prefix_app. by eexists.
  - destruct HO as (Ha & Hm & out & HL & HE). split; [done|]. split; [by rewrite <- Ha|].
    split; [|done]. rewrite HL. by apply prefix_app.
Qed.

(** [Cleanup] leaves no temporary file: whatever state the buffer is in, no
    file stays open, the path is forgotten, and the file is removed from disk
    unless the system refuses; a second [Cleanup] does nothing. *)
Theorem Cleanup_removes b w :
  let '(b', w') := Cleanup b w in
  ob_tempFile b' = None ∧ ob_tempPath b' = "" ∧ Cleanup b' w' = (b', w') ∧
  (w_faults w = [] → ob_tempPath b ≠ "" → w_files w' !! ob_tempPath b = None).
Proof.
  unfold Cleanup. destruct (ob_tempFile b) as [f|] eqn:E.
  - unfold close_file, chmod. destruct (refused w) as [r w1] eqn:Er. simpl.
    destruct (bool_decide_reflect (ob_tempPath b = "")) as [Ep|Ep]; simpl; [by rewrite Ep|].
    split; [done|]. split; [done|]. split; [done|]. intros Hf _.
    unfold refused in Er. rewrite Hf in Er. injection Er as <- <-.
    unfold remove_file, try, refused. rewrite Hf. simpl. apply lookup_delete_eq.
  - destruct (bool_decide_reflect (ob_tempPath b = "")) as [Ep|Ep]; simpl.
    + rewrite E, Ep. simpl. by rewrite ?E.
    + rewrite E. simpl. split; [done|]. split; [done|]. split; [done|]. intros Hf _.
      unfold remove_file, try, refused. rewrite Hf. simpl. apply lookup_delete_eq.
Qed.
End outputbuf.
