(* ===== verification/Config.v ===== *)
(** Package [internal/config], [config.go]: validation of a configuration and the
    settings read from it.

    [Validate] takes the configuration as parsed and returns it with its patterns
    compiled, or the first error it meets; maps are visited in any order
    ([MapRange]). The warnings it logs, and the [os.Stat] calls that only feed
    them, are left out. *)

From S2P Require Import Prelude GoStrings GoTime GoPath Paths Regexp ConfigTypes Interpolate ArgsPolicy.
Local Open Scope Z_scope.

(** ** Sizes and durations *)

Definition DefaultTimeout : duration := 5 * Minute.
Definition DefaultInlineThreshold : Z := 2^20.
Definition DefaultMaxConnections : Z := 64.
Definition DefaultReadHeaderTimeout : duration := 3 * Second.
Definition DefaultReadMessageTimeout : duration := 15 * Second.
Definition DefaultMaxStdinMessageSize : Z := 2^20.
Definition DefaultReplayCacheTTL : duration := 2 * Minute.
Definition DefaultReplayCacheMaxEntries : Z := 10000.
Definition DefaultWriteTimeout : duration := 30 * Second.

Definition ParseDuration `{DurationParser} (s : string) : result duration :=
  if bool_decide (s = "") then Err (Errorf "empty duration string" [])
  else match parse_duration s with Some d => Ok d | None => Err (Sentinel "time: invalid duration") end.

(** [(?i)^(\d+)\s*(k|m|g)b?$] on the runes of the text: the digits and the unit.
    The Kelvin sign folds to [k]. *)
Definition is_unit (r : Z) : bool :=
  bool_decide (lower_ascii r = 107 ∨ r = 0x212A ∨ lower_ascii r = 109 ∨ lower_ascii r = 103).

Fixpoint span_runes (p : Z → bool) (l : list Z) : list Z * list Z :=
  match l with
  | c :: r => if p c then let '(x, y) := span_runes p r in (c :: x, y) else ([], l)
  | [] => ([], [])
  end.

Definition byteSizeMatch (s : string) : option (string * Z) :=
  let '(digits, r) := span_runes (in_rng 48 57) (runes s) in
  let '(_, r) := span_runes (λ c, (c =? 9) || (c =? 10) || (c =? 12) || (c =? 13) || (c =? 32)) r in
  match digits, r with
  | _ :: _, u :: r =>
    if is_unit u && match r with [] => true | [b] => lower_ascii b =? 98 | _ => false end
    then Some (string_of_runes digits, u) else None
  | _, _ => None
  end.

Section sizes.
Context `{UnicodeCase}.

Definition ParseByteSize (s : string) : result Z :=
  if bool_decide (s = "") then Err (Errorf "empty byte size string" [])
  else
    let s := TrimSpace s in
    match ParseInt64 s with
    | Some n => Ok n
    | None =>
      match byteSizeMatch s with
      | None => Err (Errorf "invalid byte size format: %q" [FS s])
      | Some (digits, u) =>
        match ParseInt64 digits with
        | None => Err (Wrapf "invalid number in byte size: %w" [] (Sentinel "strconv"))
        | Some value =>
          let unit := ToUpper (string_of_runes [u]) in
          if bool_decide (unit = "K") then Ok (int64 (value * 1024))
          else if bool_decide (unit = "M") then Ok (int64 (int64 (value * 1024) * 1024))
          else if bool_decide (unit = "G") then
            Ok (int64 (int64 (int64 (value * 1024) * 1024) * 1024))
          else Err (Errorf "unknown unit: %s" [FS unit])
        end
      end
    end.
End sizes.

(** ** Paths and names *)

(** [^[A-Za-z_][A-Za-z0-9_]*$] and [^[A-Za-z0-9._-]+$]. *)
Definition is_alpha (z : Z) : bool := in_rng 65 90 z || in_rng 97 122 z.
Definition is_alnum (z : Z) : bool := is_alpha z || in_rng 48 57 z.

Definition envVarNameRegex (s : string) : bool :=
  match runes s with
  | c :: r => (is_alpha c || (c =? 95)) && forallb (λ d, is_alnum d || (d =? 95)) r
  | [] => false
  end.

Definition toolNameRegex (s : string) : bool :=
  match runes s with
  | [] => false
  | r => forallb (λ d, is_alnum d || (d =? 46) || (d =? 95) || (d =? 45)) r
  end.

Definition NUL : string := String "000" "".
Definition backslash_str : string := String "092" "".

Definition invalid_segment (part : string) : bool :=
  bool_decide (part = "") || bool_decide (part = ".") || bool_decide (part = "..").

Definition validateSafeRelativePath (value : string) (allowNested : bool) : result unit :=
  if bool_decide (TrimSpace value = "") then Err (Errorf "must not be empty" [])
  else if Contains value NUL then Err (Errorf "contains NUL byte" [])
  else if IsAbs value then Err (Errorf "must be relative" [])
  else if Contains value backslash_str then Err (Errorf "must use forward slashes" [])
  else if HasPrefix value "/" || HasSuffix value "/" then
    Err (Errorf "must not start or end with slash" [])
  else
    let parts := Split value "/" in
    if negb allowNested && (1 <? length parts)%nat then
      Err (Errorf "must not contain path separators" [])
    else
      for_each (λ part, guard_err (invalid_segment part)
        (Errorf "contains invalid path segment %q" [FS part])) parts ≫= λ _,
      let clean := Clean value in
      guard_err (negb (bool_decide (clean = value))) (Errorf "must be normalized" []).

Definition validateCAFilename (filename field : string) : result unit :=
  if bool_decide (filename = "") then Ok tt
  else if ContainsAny filename (String "/" backslash_str) then
    Err (Errorf "ca.%s: must be a filename, not a path" [FS field])
  else if bool_decide (filename = ".") || bool_decide (filename = "..") then
    Err (Errorf "ca.%s: invalid filename %q" [FS field; FS filename])
  else if Contains filename NUL then Err (Errorf "ca.%s: contains NUL byte" [FS field])
  else
    for_each (λ r, guard_err ((r <? 32) || (r =? 127))
      (Errorf "ca.%s: contains control character" [FS field])) (runes filename).

Definition validateConfigFileDef (def : ConfigFileDef) : result unit :=
  wrap_err "xdg_subdir: %w" [] (validateSafeRelativePath (cf_XDGSubdir def) true) ≫= λ _,
  wrap_err "filename: %w" [] (validateSafeRelativePath (cf_Filename def) false) ≫= λ _,
  guard_err (bool_decide (TrimSpace (cf_Template def) = "")) (Errorf "template must not be empty" []).

(** [CredentialDef.validate]. *)
Definition validate_credential (name : string) (c : CredentialDef) : result unit :=
  let source := TrimSpace (cd_Source c) in
  let typ := TrimSpace (cd_Type c) in
  let hasSource := negb (bool_decide (source = "")) in
  let hasType := negb (bool_decide (typ = "")) in
  if hasSource && hasType then
    Err (Errorf "credential %q: source and type are mutually exclusive" [FS name])
  else if negb hasSource && negb hasType then Err (Errorf "credential %q: empty source" [FS name])
  else if negb hasType then Ok tt
  else if bool_decide (typ = "github-app") then
    guard_err (cd_AppID c <=? 0) (Errorf "credential %q: github-app requires a positive app_id" [FS name]) ≫= λ _,
    guard_err (cd_InstallationID c <=? 0)
      (Errorf "credential %q: github-app requires a positive installation_id" [FS name]) ≫= λ _,
    guard_err (bool_decide (TrimSpace (cd_PrivateKey c) = ""))
      (Errorf "credential %q: github-app requires private_key" [FS name])
  else Err (Errorf "credential %q: unknown credential type %q" [FS name; FS typ]).

(** [extractCredentialRefs]. *)
Definition extractCredentialRefs (template : string) : list string :=
  filter (λ ref, ref ≠ "") (TrimSpace <$> submatches match_brace_ref template).

(** The set [validSyslogFacilities]. *)
Definition validSyslogFacilities : list string :=
  ["local0"; "local1"; "local2"; "local3"; "local4"; "local5"; "local6"; "local7"].

Definition validateAudit (a : AuditConfig) : result unit :=
  guard_err (bool_decide (au_File a = "") && negb (au_Syslog a) && negb (au_Stdout a))
    (Errorf "at least one output (file, stdout or syslog) must be configured" []) ≫= λ _,
  guard_err (negb (bool_decide (au_File a = "")) && negb (IsAbs (au_File a)))
    (Errorf "file path must be absolute: %q" [FS (au_File a)]) ≫= λ _,
  guard_err (negb (bool_decide (au_SyslogFacility a = ""))
      && negb (bool_decide (au_SyslogFacility a ∈ validSyslogFacilities)))
    (Errorf "invalid syslog_facility %q (must be local0..local7)" [FS (au_SyslogFacility a)]).

(** ** Patterns of the HTTP proxy *)

Section config.
Context `{RE : Regexp} `{UnicodeCase} `{MapRange}.

Definition compileHostPattern (pattern : string) : result regexp :=
  let pattern := TrimSpace pattern in
  if bool_decide (pattern = "") then Err (Errorf "empty pattern" [])
  else if bool_decide (pattern = "*.") then Err (Errorf "invalid wildcard pattern: empty suffix" [])
  else
    let pattern := ToLower pattern in
    let pattern := TrimSuffix pattern "." in
    if bool_decide (pattern = "") then Err (Errorf "empty pattern after normalization" [])
    else if HasPrefix pattern "*." then
      let suffix := QuoteMeta (SliceFrom pattern 2) in
      match Compile ("^[^.]+" +:+ backslash_str +:+ "." +:+ suffix +:+ "$") with
      | Some re => Ok re | None => Err regexp_error
      end
    else
      let escaped := QuoteMeta pattern in
      match Compile ("^" +:+ escaped +:+ "$") with Some re => Ok re | None => Err regexp_error end.

Definition http_methods : list string :=
  ["*"; "GET"; "POST"; "PUT"; "DELETE"; "PATCH"; "HEAD"; "OPTIONS"].

Definition star_quoted : string := backslash_str +:+ "*".

Definition compilePathRule (pattern : string) : result PathRule :=
  let pattern := TrimSpace pattern in
  if bool_decide (pattern = "") then Err (Errorf "empty pattern" [])
  else
    let '(method, pathPattern) :=
      match SplitN2 pattern " " with
      | [p0; p1] => (ToUpper p0, p1)
      | _ => ("*", pattern)
      end in
    if negb (bool_decide (method ∈ http_methods)) then Err (Errorf "invalid method %q" [FS method])
    else
      let escaped := QuoteMeta pathPattern in
      let escaped := ReplaceAll escaped (star_quoted +:+ star_quoted) ".*" in
      let escaped := ReplaceAll escaped star_quoted "[^/]+" in
      match Compile ("^" +:+ escaped +:+ "$") with
      | None => Err (Wrapf "invalid path pattern: %w" [] regexp_error)
      | Some re => Ok {| rule_Method := method; rule_Pattern := re |}
      end.

(** A loop that compiles the rules of a route, from index [j] on, appending to the
    ones it has. *)
Fixpoint compile_path_rules (fmt : string) (i j : Z) (patterns : list string) (acc : list PathRule)
    : result (list PathRule) :=
  match patterns with
  | [] => Ok acc
  | p :: patterns =>
    wrap_err fmt [FZ i; FZ j] (compilePathRule p) ≫= λ rule,
    compile_path_rules fmt i (j + 1) patterns (acc ++ [rule])
  end.

(** One iteration over the routes. *)
Definition validate_route (credentials : gmap string CredentialDef) (i : Z) (route : ProxyRoute)
    : result ProxyRoute :=
  guard_err (bool_decide (rt_Host route = "")) (Errorf "route[%d]: host is required" [FZ i]) ≫= λ _,
  wrap_err "route[%d]: invalid host pattern %q: %w" [FZ i; FS (rt_Host route)]
    (compileHostPattern (rt_Host route)) ≫= λ hostRegex,
  guard_err (bool_decide (is_Header (rt_Inject route) = ""))
    (Errorf "route[%d]: inject.header is required" [FZ i]) ≫= λ _,
  guard_err (bool_decide (is_Value (rt_Inject route) = ""))
    (Errorf "route[%d]: inject.value is required" [FZ i]) ≫= λ _,
  for_each (λ ref, guard_err (bool_decide (credentials !! ref = None))
    (Errorf "route[%d]: unknown credential %q in inject.value" [FZ i; FS ref]))
    (extractCredentialRefs (is_Value (rt_Inject route))) ≫= λ _,
  compile_path_rules "route[%d].allow[%d]: %w" i 0 (rt_Allow route) (rt_AllowRules route) ≫= λ allowRules,
  compile_path_rules "route[%d].deny[%d]: %w" i 0 (rt_Deny route) (rt_DenyRules route) ≫= λ denyRules,
  Ok {| rt_Host := rt_Host route; rt_Inject := rt_Inject route; rt_Allow := rt_Allow route;
        rt_Deny := rt_Deny route; rt_HostRegex := Some hostRegex;
        rt_AllowRules := allowRules; rt_DenyRules := denyRules |}.

Fixpoint validate_routes (credentials : gmap string CredentialDef) (i : Z) (routes : list ProxyRoute)
    : result (list ProxyRoute) :=
  match routes with
  | [] => Ok []
  | route :: routes =>
    validate_route credentials i route ≫= λ route,
    validate_routes credentials (i + 1) routes ≫= λ routes, Ok (route :: routes)
  end.

Definition validateHTTPProxy (credentials : gmap string CredentialDef) (cfg : HTTPProxyConfig)
    : result HTTPProxyConfig :=
  guard_err (negb (bool_decide (hp_LogLevel cfg ∈ [""; "none"; "errors"; "info"; "debug"])))
    (Errorf "invalid log_level %q (must be none, errors, info, or debug)" [FS (hp_LogLevel cfg)]) ≫= λ _,
  let logLevel := if bool_decide (hp_LogLevel cfg = "") then "errors" else hp_LogLevel cfg in
  guard_err (ca_ValidityDays (hp_CA cfg) <? 0)
    (Errorf "ca.validity_days must be non-negative" []) ≫= λ _,
  validateCAFilename (ca_CertFile (hp_CA cfg)) "cert_file" ≫= λ _,
  validateCAFilename (ca_KeyFile (hp_CA cfg)) "key_file" ≫= λ _,
  validate_routes credentials 0 (hp_Routes cfg) ≫= λ routes,
  Ok {| hp_Enabled := hp_Enabled cfg; hp_Listen := hp_Listen cfg; hp_RequireAuth := hp_RequireAuth cfg;
        hp_LogLevel := logLevel; hp_CA := hp_CA cfg; hp_StripResponseHeaders := hp_StripResponseHeaders cfg;
        hp_Routes := routes |}.

(** ** Tools *)

Definition GetUseStdin (t : ToolDef) : bool := default true (td_UseStdin t).
Definition GetUsePTY (t : ToolDef) : bool :=
  match td_UsePTY t with None => GetUseStdin t | Some b => b end.

(** The loop that compiles a list of argument rules in place. *)
Definition compile_arg_rules (field : string) (allowArgv : bool) (rules : list BlockedArg)
    : result (list BlockedArg) :=
  foldr (λ rule acc, compileArgRule rule field allowArgv ≫= λ r, acc ≫= λ rs, Ok (r :: rs)) (Ok []) rules.

Fixpoint validate_redact_rules (toolName : string) (i : Z) (rules : list ToolRedactRule)
    : result (list ToolRedactRule) :=
  match rules with
  | [] => Ok []
  | r :: rules =>
    guard_err (bool_decide (TrimSpace (rr_Pattern r) = ""))
      (Errorf "tool %q: redact_output[%d]: pattern must not be empty" [FS toolName; FZ i]) ≫= λ _,
    let pattern := rr_Pattern r in
    guard_err (slen pattern >? maxRedactPatternLength)
      (Errorf "tool %q: redact_output[%d]: pattern too long (%d > %d)"
        [FS toolName; FZ i; FZ (slen pattern); FZ maxRedactPatternLength]) ≫= λ _,
    match Compile pattern with
    | None => Err (Wrapf "tool %q: invalid redact_output pattern %q: %w" [FS toolName; FS pattern] regexp_error)
    | Some re =>
      guard_err (MatchString re "")
        (Errorf "tool %q: redact_output[%d]: pattern must not match empty string" [FS toolName; FZ i]) ≫= λ _,
      let replace := if bool_decide (rr_Replace r = "") then DefaultRedactReplacement else rr_Replace r in
      guard_err (slen replace >? maxRedactReplaceLength)
        (Errorf "tool %q: redact_output[%d]: replace too long (%d > %d)"
          [FS toolName; FZ i; FZ (slen replace); FZ maxRedactReplaceLength]) ≫= λ _,
      validate_redact_rules toolName (i + 1) rules ≫= λ rules,
      Ok ({| rr_Pattern := pattern; rr_Replace := replace; rr_Compiled := Some re |} :: rules)
    end
  end.

(** One iteration over the tools. *)
Definition validate_tool (credentials : gmap string CredentialDef) (toolName : string) (tool : ToolDef)
    : result ToolDef :=
  guard_err (negb (toolNameRegex toolName))
    (Errorf "tool %q: invalid name (allowed: letters, digits, dot, underscore, hyphen)" [FS toolName]) ≫= λ _,
  guard_err (bool_decide (td_Binary tool = "")) (Errorf "tool %q: empty binary path" [FS toolName]) ≫= λ _,
  guard_err (negb (IsAbs (td_Binary tool)))
    (Errorf "tool %q: binary path must be absolute: %q" [FS toolName; FS (td_Binary tool)]) ≫= λ _,
  guard_err (negb (bool_decide (td_WorkingDir tool = "")) && negb (IsAbs (td_WorkingDir tool)))
    (Errorf "tool %q: working_dir must be absolute: %q" [FS toolName; FS (td_WorkingDir tool)]) ≫= λ _,
  for_each (λ name, guard_err (negb (envVarNameRegex name))
    (Errorf "tool %q: invalid request_env name %q" [FS toolName; FS name]))
    (default [] (td_RequestEnv tool)) ≫= λ _,
  guard_err (bool_decide (td_UsePTY tool = Some true) && negb (GetUseStdin tool))
    (Errorf "tool %q: use_pty: true conflicts with use_stdin: false" [FS toolName]) ≫= λ _,
  let credNames := CredentialNamesSet credentials in
  for_each (λ '(envVar, value),
    guard_err (negb (envVarNameRegex envVar))
      (Errorf "tool %q: invalid env var name %q" [FS toolName; FS envVar]) ≫= λ _,
    match ValidateEnvRefs value credNames with
    | [] => Ok tt
    | missing => Err (Errorf "tool %q: env %q references undefined credential(s): %v"
                       ([FS toolName; FS envVar] ++ (FS <$> missing)))
    end) (range (td_Env tool)) ≫= λ _,
  for_each (λ '(envVar, _), guard_err (negb (envVarNameRegex envVar))
    (Errorf "tool %q: invalid forced_env var name %q" [FS toolName; FS envVar]))
    (range (td_ForcedEnv tool)) ≫= λ _,
  match td_ConfigFile tool with
  | None => Ok tt
  | Some def =>
    wrap_err "tool %q: invalid config_file: %w" [FS toolName] (validateConfigFileDef def) ≫= λ _,
    for_each (λ credName, guard_err (bool_decide (credentials !! credName = None))
      (Errorf "tool %q: config_file references undefined credential %q" [FS toolName; FS credName]))
      (cf_Credentials def)
  end ≫= λ _,
  wrap_err "tool %q: %w" [FS toolName]
    (compile_arg_rules "blocked_args" false (td_BlockedArgs tool)) ≫= λ blockedArgs,
  let mode := TrimSpace (td_Mode tool) in
  let mode := if bool_decide (mode = "") then ToolModeBlocklist else mode in
  guard_err (negb (bool_decide (mode = ToolModeBlocklist)) && negb (bool_decide (mode = ToolModeAllowlist)))
    (Errorf "tool %q: invalid mode %q (must be %q or %q)"
      [FS toolName; FS (td_Mode tool); FS ToolModeBlocklist; FS ToolModeAllowlist]) ≫= λ _,
  guard_err (bool_decide (mode = ToolModeBlocklist) && negb (bool_decide (td_AllowedArgs tool = [])))
    (Errorf "tool %q: allowed_args requires mode: allowlist" [FS toolName]) ≫= λ _,
  guard_err (bool_decide (mode = ToolModeAllowlist) && bool_decide (td_AllowedArgs tool = []))
    (Errorf "tool %q: mode %q requires allowed_args" [FS toolName; FS ToolModeAllowlist]) ≫= λ _,
  wrap_err "tool %q: %w" [FS toolName]
    (compile_arg_rules "allowed_args" true (td_AllowedArgs tool)) ≫= λ allowedArgs,
  guard_err (Z.of_nat (length (td_RedactOutput tool)) >? maxRedactOutputRulesPerTool)
    (Errorf "tool %q: too many redact_output rules (%d > %d)"
      [FS toolName; FZ (Z.of_nat (length (td_RedactOutput tool))); FZ maxRedactOutputRulesPerTool]) ≫= λ _,
  validate_redact_rules toolName 0 (td_RedactOutput tool) ≫= λ redactOutput,
  Ok {| td_Binary := td_Binary tool; td_Timeout := td_Timeout tool; td_Env := td_Env tool;
        td_ForcedEnv := td_ForcedEnv tool; td_Mode := mode; td_BlockedArgs := blockedArgs;
        td_AllowedArgs := allowedArgs; td_RedactOutput := redactOutput; td_ConfigFile := td_ConfigFile tool;
        td_UseProxy := td_UseProxy tool; td_UsePTY := td_UsePTY tool; td_UseStdin := td_UseStdin tool;
        td_WorkingDir := td_WorkingDir tool; td_RequestEnv := td_RequestEnv tool |}.

(** The loop over the tools: each is stored back as it is validated. *)
Fixpoint validate_tools (credentials : gmap string CredentialDef) (l : list (string * ToolDef))
    (tools : gmap string ToolDef) : result (gmap string ToolDef) :=
  match l with
  | [] => Ok tools
  | (toolName, tool) :: l =>
    validate_tool credentials toolName tool ≫= λ tool,
    validate_tools credentials l (<[toolName := tool]> tools)
  end.

Definition Validate (c : Config) : result Config :=
  for_each (λ '(name, cred), validate_credential name cred) (range (cfg_Credentials c)) ≫= λ _,
  validate_tools (cfg_Credentials c) (range (cfg_Tools c)) (cfg_Tools c) ≫= λ tools,
  match cfg_HTTPProxy c with
  | Some h =>
    if hp_Enabled h then
      wrap_err "http_proxy: %w" [] (validateHTTPProxy (cfg_Credentials c) h) ≫= λ h, Ok (Some h)
    else Ok (Some h)
  | None => Ok None
  end ≫= λ httpProxy,
  match cfg_Audit c with
  | Some a => if au_Enabled a then wrap_err "audit: %w" [] (validateAudit a) else Ok tt
  | None => Ok tt
  end ≫= λ _,
  Ok {| cfg_Proxy := cfg_Proxy c; cfg_Security := cfg_Security c; cfg_HTTPProxy := httpProxy;
        cfg_Audit := cfg_Audit c; cfg_Credentials := cfg_Credentials c; cfg_Tools := tools |}.

(** [Load]: a file that reads, parses and validates. YAML parsing is a parameter. *)
Definition Load (yaml : bytes → option Config) (data : result bytes) : result Config :=
  wrap_err "read config: %w" [] data ≫= λ data,
  match yaml data with
  | None => Err (Wrapf "parse config: %w" [] (Sentinel "yaml"))
  | Some config => Validate config
  end.
End config.
