(* ===== verification/Settings.v ===== *)
(** Package [internal/config], [config.go]: the settings read from a validated
    configuration, with their defaults and floors. *)

From S2P Require Import Prelude GoStrings GoTime GoPath Paths Regexp ConfigTypes Config.
Local Open Scope Z_scope.

Section settings.
Context `{RE : Regexp} `{UnicodeCase} `{DurationParser} `{OS}.

(** The proxy section, when its field [f] is set. *)
Definition proxy_field (c : Config) (f : ProxyConfig → string) : option string :=
  match cfg_Proxy c with
  | None => None
  | Some p => if bool_decide (f p = "") then None else Some (f p)
  end.

Definition GetTimeout (c : Config) : duration :=
  match proxy_field c px_Timeout with
  | None => DefaultTimeout
  | Some s => match ParseDuration s with Err _ => DefaultTimeout | Ok d => d end
  end.

Definition GetInlineThreshold (c : Config) : Z :=
  match proxy_field c px_InlineThreshold with
  | None => DefaultInlineThreshold
  | Some s => match ParseByteSize s with Err _ => DefaultInlineThreshold | Ok size => size end
  end.

Definition GetHMACSecretFile (c : Config) : string :=
  match proxy_field c px_HMACSecretFile with None => AuthPath | Some s => s end.

(** A configured path, or the default when it is unset or not absolute. *)
Definition absolute_or (c : Config) (f : ProxyConfig → string) (dflt : string) : string :=
  match proxy_field c f with
  | Some s => if negb (IsAbs s) then dflt else s
  | None => dflt
  end.

Definition GetPassBinary (c : Config) : string := absolute_or c px_PassBinary DefaultPassBinary.
Definition GetOPBinary (c : Config) : string := absolute_or c px_OPBinary "".
Definition GetBWBinary (c : Config) : string := absolute_or c px_BWBinary "".
Definition GetVaultBinary (c : Config) : string := absolute_or c px_VaultBinary "".
Definition GetVaultAddr (c : Config) : string :=
  match cfg_Proxy c with Some p => px_VaultAddr p | None => "" end.
Definition GetVaultSkipVerify (c : Config) : option bool :=
  match cfg_Proxy c with Some p => px_VaultSkipVerify p | None => None end.
Definition GetVaultCACert (c : Config) : string := absolute_or c px_VaultCACert "".
Definition GetVaultNamespace (c : Config) : string :=
  match cfg_Proxy c with Some p => px_VaultNamespace p | None => "" end.
Definition GetVaultTokenFile (c : Config) : string := absolute_or c px_VaultTokenFile "".
Definition GetOPTokenFile (c : Config) : string := absolute_or c px_OPTokenFile DefaultOPTokenFile.
Definition GetAgeIdentityFile (c : Config) : string :=
  absolute_or c px_AgeIdentityFile DefaultAgeIdentityFile.

Definition DenyUnverifiedCallerExe (c : Config) : bool :=
  match cfg_Security c with Some s => sc_DenyUnverifiedCallerExe s | None => false end.

Definition GetMaxConnections (c : Config) : Z :=
  match cfg_Proxy c with
  | Some p => if px_MaxConnections p <=? 0 then DefaultMaxConnections else px_MaxConnections p
  | None => DefaultMaxConnections
  end.

(** A positive duration, or the default. *)
Definition positive_duration (c : Config) (f : ProxyConfig → string) (dflt : duration) : duration :=
  match proxy_field c f with
  | None => dflt
  | Some s => match ParseDuration s with
              | Err _ => dflt
              | Ok d => if d <=? 0 then dflt else d
              end
  end.

Definition GetReadHeaderTimeout (c : Config) : duration :=
  positive_duration c px_ReadHeaderTimeout DefaultReadHeaderTimeout.
Definition GetReadMessageTimeout (c : Config) : duration :=
  positive_duration c px_ReadMessageTimeout DefaultReadMessageTimeout.

Definition GetMaxStdinMessageSize (c : Config) : Z :=
  match proxy_field c px_MaxStdinMessageSize with
  | None => DefaultMaxStdinMessageSize
  | Some s =>
    match ParseByteSize s with
    | Err _ => DefaultMaxStdinMessageSize
    | Ok size =>
      if size <=? 0 then DefaultMaxStdinMessageSize
      else if size >? max_int64 then DefaultMaxStdinMessageSize
      else size
    end
  end.

Definition GetMaxOutputSize (c : Config) : Z :=
  match proxy_field c px_MaxOutputSize with
  | None => 0
  | Some s => match ParseByteSize s with
              | Err _ => 0
              | Ok size => if size <=? 0 then 0 else size
              end
  end.

Definition GetReplayCacheTTL (c : Config) : duration :=
  match proxy_field c px_ReplayCacheTTL with
  | None => DefaultReplayCacheTTL
  | Some s =>
    match ParseDuration s with
    | Err _ => DefaultReplayCacheTTL
    | Ok d =>
      if d <=? 0 then DefaultReplayCacheTTL
      else let minTTL := 10 * Second in
           if d <? minTTL then minTTL else d
    end
  end.

Definition GetReplayCacheMaxEntries (c : Config) : Z :=
  match cfg_Proxy c with
  | Some p => if px_ReplayCacheMax p <=? 0 then DefaultReplayCacheMaxEntries else px_ReplayCacheMax p
  | None => DefaultReplayCacheMaxEntries
  end.

Definition GetCredentialCacheTTL (c : Config) : duration := positive_duration c px_CredentialCacheTTL 0.
Definition GetWriteTimeout (c : Config) : duration :=
  positive_duration c px_WriteTimeout DefaultWriteTimeout.
Definition GetMaxConnectionLifetime (c : Config) : duration :=
  positive_duration c px_MaxConnectionLifetime 0.

Definition GetHTTPProxyConfig (c : Config) : option HTTPProxyConfig := cfg_HTTPProxy c.
Definition GetHTTPProxyEnabled (c : Config) : bool :=
  match cfg_HTTPProxy c with Some h => hp_Enabled h | None => false end.
Definition GetHTTPProxyListen (c : Config) : string :=
  match cfg_HTTPProxy c with
  | Some h => if bool_decide (hp_Listen h = "") then "127.0.0.1:8080" else hp_Listen h
  | None => "127.0.0.1:8080"
  end.
Definition GetHTTPProxyCAPath (c : Config) : string :=
  match cfg_HTTPProxy c with Some h => ca_Path (hp_CA h) | None => "" end.

(** [HTTPProxyConfig.GetRequireAuth]. *)
Definition GetRequireAuth (h : HTTPProxyConfig) : bool := default true (hp_RequireAuth h).
Definition GetHTTPProxyRequireAuth (c : Config) : bool :=
  match cfg_HTTPProxy c with Some h => GetRequireAuth h | None => true end.
Definition GetHTTPProxyCACertFile (c : Config) : string :=
  match cfg_HTTPProxy c with
  | Some h => if bool_decide (ca_CertFile (hp_CA h) = "") then "ca.crt" else ca_CertFile (hp_CA h)
  | None => "ca.crt"
  end.
Definition GetHTTPProxyCAKeyFile (c : Config) : string :=
  match cfg_HTTPProxy c with
  | Some h => if bool_decide (ca_KeyFile (hp_CA h) = "") then "ca.key" else ca_KeyFile (hp_CA h)
  | None => "ca.key"
  end.
Definition GetHTTPProxyCAExternal (c : Config) : bool :=
  match cfg_HTTPProxy c with Some h => ca_External (hp_CA h) | None => false end.

(** [ToolDef.GetTimeout]. *)
Definition tool_GetTimeout (t : ToolDef) (globalDefault : duration) : duration :=
  if bool_decide (td_Timeout t = "") then globalDefault
  else match ParseDuration (td_Timeout t) with Err _ => globalDefault | Ok d => d end.

Definition GetAuditConfig (c : option Config) : option AuditConfig := c ≫= cfg_Audit.
Definition GetAuditEnabled (c : Config) : bool :=
  match cfg_Audit c with Some a => au_Enabled a | None => false end.
End settings.

Definition GetIncludeArgs (a : AuditConfig) : bool := default true (au_IncludeArgs a).
Definition GetIncludeOutputHash (a : AuditConfig) : bool := default true (au_IncludeOutputHash a).
Definition GetIncludeDuration (a : AuditConfig) : bool := default true (au_IncludeDuration a).

(** ** Properties *)

Lemma absolute_or_spec `{RE : Regexp} (c : Config) f dflt :
  absolute_or c f dflt = dflt ∨ IsAbs (absolute_or c f dflt) = true.
Proof.
  unfold absolute_or. destruct (proxy_field c f) as [s|]; [|by left].
  destruct (IsAbs s) eqn:E; [by right|by left].
Qed.

Lemma positive_duration_pos `{RE : Regexp} `{DurationParser} (c : Config) f dflt :
  0 < dflt → 0 < positive_duration c f dflt.
Proof.
  intros Hd. unfold positive_duration. destruct (proxy_field c f) as [s|]; [|done].
  destruct (ParseDuration s) as [d|]; [|done]. destruct (Z.leb_spec d 0); lia.
Qed.

(** The settings the daemon relies on are within their bounds whatever the
    configuration says: connection limit, read and write deadlines, message
    size, replay settings are positive, the replay window is at least ten
    seconds, and an optional limit is never negative. *)
Theorem settings_bounds `{RE : Regexp} `{UnicodeCase} `{DurationParser} (c : Config) :
  0 < GetMaxConnections c ∧ 0 < GetReadHeaderTimeout c ∧ 0 < GetReadMessageTimeout c ∧
  0 < GetWriteTimeout c ∧ 0 < GetMaxStdinMessageSize c ≤ max_int64 ∧
  10 * Second ≤ GetReplayCacheTTL c ∧ 0 < GetReplayCacheMaxEntries c ∧
  0 ≤ GetMaxOutputSize c ∧ 0 ≤ GetCredentialCacheTTL c ∧ 0 ≤ GetMaxConnectionLifetime c.
Proof.
  assert (∀ f, 0 ≤ positive_duration c f 0) as Hz.
  { intros f. unfold positive_duration. destruct (proxy_field c f) as [s|]; [|done].
    destruct (ParseDuration s) as [d|]; [|done]. destruct (Z.leb_spec d 0); lia. }
  repeat split.
  - unfold GetMaxConnections. destruct (cfg_Proxy c) as [p|]; [|done].
    by destruct (Z.leb_spec (px_MaxConnections p) 0).
  - by apply positive_duration_pos.
  - by apply positive_duration_pos.
  - by apply positive_duration_pos.
  - unfold GetMaxStdinMessageSize. destruct (proxy_field c _) as [s|]; [|done].
    destruct (ParseByteSize s) as [n|]; [|done].
    destruct (Z.leb_spec n 0); [done|]. destruct (Z.gtb_spec n max_int64); [done|lia].
  - unfold GetMaxStdinMessageSize. destruct (proxy_field c _) as [s|]; [|done].
    destruct (ParseByteSize s) as [n|]; [|done].
    destruct (Z.leb_spec n 0); [done|]. destruct (Z.gtb_spec n max_int64); [done|lia].
  - unfold GetReplayCacheTTL. destruct (proxy_field c _) as [s|]; [|done].
    destruct (ParseDuration s) as [d|]; [|done]. destruct (Z.leb_spec d 0); [done|].
    cbv zeta. destruct (Z.ltb_spec d (10 * Second)); lia.
  - unfold GetReplayCacheMaxEntries. destruct (cfg_Proxy c) as [p|]; [|done].
    by destruct (Z.leb_spec (px_ReplayCacheMax p) 0).
  - unfold GetMaxOutputSize. destruct (proxy_field c _) as [s|]; [|done].
    destruct (ParseByteSize s) as [n|]; [|done]. destruct (Z.leb_spec n 0); lia.
  - apply Hz.
  - apply Hz.
Qed.

(** Every program and file the configuration names for the credential
    backends is absolute, or the trusted default is used instead. *)
Theorem settings_paths_absolute `{RE : Regexp} `{OS} (c : Config) :
  IsAbs (GetPassBinary c) = true ∧ IsAbs (GetOPTokenFile c) = true ∧ IsAbs (GetAgeIdentityFile c) = true ∧
  (GetOPBinary c = "" ∨ IsAbs (GetOPBinary c) = true) ∧
  (GetBWBinary c = "" ∨ IsAbs (GetBWBinary c) = true) ∧
  (GetVaultBinary c = "" ∨ IsAbs (GetVaultBinary c) = true) ∧
  (GetVaultCACert c = "" ∨ IsAbs (GetVaultCACert c) = true) ∧
  (GetVaultTokenFile c = "" ∨ IsAbs (GetVaultTokenFile c) = true).
Proof.
  assert (∀ f dflt, IsAbs dflt = true → IsAbs (absolute_or c f dflt) = true) as Ha.
  { intros f dflt Hd. by destruct (absolute_or_spec c f dflt) as [-> |]. }
  assert (IsAbs DefaultPassBinary = true) as Hp.
  { unfold DefaultPassBinary. destruct (FindTrustedBinary "pass") as [p|] eqn:E.
    - unfold FindTrustedBinary in E. rewrite bool_decide_eq_false_2 in E by done.
      destruct (Contains _ _); [done|]. apply find_in_dirs_Ok in E as (dir & Hd & -> & _).
      unfold trustedBinaryDirs in Hd. rewrite !elem_of_cons in Hd.
      destruct Hd as [->|[->|[->|[->|Hd%not_elem_of_nil]]]]; done.
    - unfold defaultPassBinaryForPlatform. by destruct os_darwin. }
  repeat split; try by apply Ha.
  all: apply absolute_or_spec.
Qed.

(** A size whose unit multiplies it beyond 64 bits wraps around silently, and
    a wrapped size that is not positive reads as no limit at all: the operator
    who writes an output limit of 8589934592 gigabytes gets an unlimited one,
    and 17179869185 gigabytes is taken for one gigabyte. *)
Theorem ParseByteSize_overflow `{UnicodeCase} :
  ParseByteSize "8589934592GB" = Ok min_int64 ∧ ParseByteSize "17179869185GB" = Ok (2^30) ∧
  ∀ `{RE : Regexp} (c : Config) p, cfg_Proxy c = Some p → px_MaxOutputSize p = "8589934592GB" →
    GetMaxOutputSize c = 0.
Proof.
  assert (ParseByteSize "8589934592GB" = Ok min_int64) as E by (vm_compute; reflexivity).
  split; [done|]. split; [vm_compute; reflexivity|]. intros RE c p Hp Hs.
  unfold GetMaxOutputSize, proxy_field. by rewrite Hp, Hs, bool_decide_eq_false_2, E.
Qed.
