(* ===== verification/ConfigLaws.v ===== *)
(** What a validated configuration guarantees: its tools, the paths of the files
    generated for them, and the patterns of the HTTP proxy. *)

From S2P Require Import Prelude GoStrings GoPath Json Regexp ConfigTypes Interpolate ArgsPolicy Config.
Local Open Scope Z_scope.

(** ** Tools *)

Section tools.
Context `{RE : Regexp} `{UnicodeCase} `{MapRange}.

(** A redaction rule that is bounded, compiled and never matches the empty text. *)
Definition good_redact_rule (r : ToolRedactRule) : Prop :=
  slen (rr_Pattern r) ≤ maxRedactPatternLength ∧ 0 < slen (rr_Replace r) ≤ maxRedactReplaceLength ∧
  ∃ re, rr_Compiled r = Some re ∧ Compile (rr_Pattern r) = Some re ∧ MatchString re "" = false.

(** What [Validate] establishes of each tool. *)
Record good_tool (creds : gmap string CredentialDef) (name : string) (t : ToolDef) : Prop := {
  gt_name : toolNameRegex name = true;
  gt_binary : IsAbs (td_Binary t) = true;
  gt_workdir : td_WorkingDir t = "" ∨ IsAbs (td_WorkingDir t) = true;
  gt_request_env : Forall (λ n, envVarNameRegex n = true) (default [] (td_RequestEnv t));
  gt_pty : td_UsePTY t = Some true → GetUseStdin t = true;
  gt_env : ∀ k v, td_Env t !! k = Some v →
    envVarNameRegex k = true ∧ ValidateEnvRefs v (CredentialNamesSet creds) = [];
  gt_forced : ∀ k v, td_ForcedEnv t !! k = Some v → envVarNameRegex k = true;
  gt_config_file : ∀ def, td_ConfigFile t = Some def → validateConfigFileDef def = Ok tt ∧
    Forall (λ n, is_Some (creds !! n)) (cf_Credentials def);
  gt_args : compiled_tool t;
  gt_redact : Forall good_redact_rule (td_RedactOutput t) ∧
    Z.of_nat (length (td_RedactOutput t)) ≤ maxRedactOutputRulesPerTool;
}.

Lemma compile_arg_rules_Ok field allowArgv rules rs :
  compile_arg_rules field allowArgv rules = Ok rs →
  Forall (compiled_rule allowArgv) rs ∧ length rs = length rules.
Proof.
  unfold compile_arg_rules. revert rs. induction rules as [|r rules IH]; intros rs E; simpl in E.
  - injection E as <-. split; [constructor|done].
  - inv_ok. destruct (IH _ H2) as [? ?]. split; [|simpl; lia]. constructor; [|done].
    by eapply compileArgRule_compiled.
Qed.

Lemma validate_redact_rules_Ok toolName i rules rs :
  validate_redact_rules toolName i rules = Ok rs → Forall good_redact_rule rs ∧ length rs = length rules.
Proof.
  revert i rs. induction rules as [|r rules IH]; intros i rs E; cbn [validate_redact_rules] in E.
  { injection E as <-. split; [constructor|done]. }
  inv_ok. destruct (Compile (rr_Pattern r)) as [re|] eqn:Ec; [|done]. inv_ok.
  match goal with K : validate_redact_rules _ _ _ = Ok _ |- _ => destruct (IH _ _ K) as [HF HL] end.
  split; [|simpl; lia]. constructor; [|done]. unfold good_redact_rule; simpl.
  match goal with K : (slen (rr_Pattern r) >? _) = false |- _ => rename K into K1 end.
  match goal with K : (slen (if _ then _ else _) >? _) = false |- _ => rename K into K2 end.
  split; [lia|]. split; [|by exists re].
  split; [|lia]. case_bool_decide as Er; [done|].
  unfold slen. destruct (rr_Replace r); [done|]. simpl. lia.
Qed.

Lemma validate_tool_Ok creds name tool t :
  validate_tool creds name tool = Ok t → good_tool creds name t.
Proof.
  unfold validate_tool. intros E. 
  repeat match type of E with _ ≫= _ = Ok _ => apply bind_Ok in E; let K := fresh "K" in destruct E as (? & K & E) end.
  simpl in E. injection E as <-. inv_ok.
  constructor; simpl.
  - by destruct (toolNameRegex name).
  - by destruct (IsAbs (td_Binary tool)).
  - apply andb_false_iff in K2 as [K2|K2]; [left|right].
    + by apply negb_false_iff, bool_decide_eq_true in K2.
    + by apply negb_false_iff in K2.
  - eapply Forall_impl; [exact K3|]. intros n Hn. apply guard_err_Ok in Hn. by apply negb_false_iff in Hn.
  - intros Hp. unfold GetUseStdin in *; simpl in *. rewrite Hp, bool_decide_eq_true_2 in K4 by done.
    by apply negb_false_iff in K4.
  - intros k v Hk. rewrite Forall_range in K5. specialize (K5 k v Hk). simpl in K5.
    apply bind_Ok in K5 as (? & Kn%guard_err_Ok & K5). split; [by apply negb_false_iff in Kn|].
    by destruct (ValidateEnvRefs v _).
  - intros k v Hk. rewrite Forall_range in K6. specialize (K6 k v Hk).
    apply guard_err_Ok in K6. by apply negb_false_iff in K6.
  - intros def Hdef. rewrite Hdef in K7. apply bind_Ok in K7 as ([] & Kv%wrap_err_Ok & Kf%for_each_Ok).
    split; [done|]. eapply Forall_impl; [exact Kf|]. intros n Hn%guard_err_Ok.
    apply bool_decide_eq_false in Hn. by apply not_eq_None_Some.
  - apply compile_arg_rules_Ok in K8 as [HB _], K12 as [HA HL]. split; [done|]. split; [done|]. simpl.
    set (m := if bool_decide (TrimSpace (td_Mode tool) = "") then _ else _) in *. clearbody m.
    destruct (decide (m = ToolModeBlocklist)) as [->|Hb]; [by left|].
    rewrite (bool_decide_eq_false_2 _ Hb) in K9. destruct (decide (m = ToolModeAllowlist)) as [->|Ha].
    + right. split; [done|]. rewrite bool_decide_eq_true_2 in K11 by done. simpl in K11.
      apply bool_decide_eq_false in K11. intros ->. simpl in HL. by destruct (td_AllowedArgs tool).
    + by rewrite (bool_decide_eq_false_2 _ Ha) in K9.
  - apply validate_redact_rules_Ok in K14 as [HF HL]. split; [done|]. rewrite HL. lia.
Qed.

Lemma validate_tools_Ok creds l tools tools' :
  validate_tools creds l tools = Ok tools' →
  ∀ name t, tools' !! name = Some t → good_tool creds name t ∨ name ∉ l.*1 ∧ tools !! name = Some t.
Proof.
  revert tools. induction l as [|[n0 t0] l IH]; intros tools E name t Ht; simpl in E.
  - injection E as <-. right. split; [apply not_elem_of_nil|done].
  - apply bind_Ok in E as (t1 & Et & E). destruct (IH _ E name t Ht) as [Hg|[Hn Hl]]; [by left|].
    destruct (decide (name = n0)) as [->|Hne].
    + rewrite lookup_insert_eq in Hl. injection Hl as <-. left. by eapply validate_tool_Ok.
    + rewrite lookup_insert_ne in Hl by done. right. split; [|done].
      simpl. rewrite not_elem_of_cons. by split.
Qed.

Lemma Validate_inv c c' :
  Validate c = Ok c' →
  (∀ name cred, cfg_Credentials c !! name = Some cred → validate_credential name cred = Ok tt) ∧
  cfg_Credentials c' = cfg_Credentials c ∧ cfg_Proxy c' = cfg_Proxy c ∧ cfg_Audit c' = cfg_Audit c ∧
  (∀ name t, cfg_Tools c' !! name = Some t → good_tool (cfg_Credentials c) name t) ∧
  (∀ a, cfg_Audit c = Some a → au_Enabled a = true → validateAudit a = Ok tt) ∧
  (∀ h, cfg_HTTPProxy c' = Some h → hp_Enabled h = true →
    ∃ h0, cfg_HTTPProxy c = Some h0 ∧ validateHTTPProxy (cfg_Credentials c) h0 = Ok h).
Proof.
  unfold Validate. intros E. apply bind_Ok in E as ([] & Hc%for_each_Ok & E).
  apply bind_Ok in E as (tools & Ht & E). apply bind_Ok in E as (hp & Hh & E).
  apply bind_Ok in E as ([] & Ha & E). injection E as <-. simpl.
  split; [|split; [done|]; split; [done|]; split; [done|]; split; [|split]].
  - rewrite Forall_range in Hc. intros name cred Hn. apply (Hc _ _ Hn).
  - intros name t Hn. destruct (validate_tools_Ok _ _ _ _ Ht name t Hn) as [|[Hnot Hin]]; [done|].
    exfalso. apply Hnot. apply list_elem_of_fmap. exists (name, t). split; [done|]. by apply elem_of_range.
  - intros a Hau He. rewrite Hau, He in Ha. by apply wrap_err_Ok in Ha.
  - intros h Heq He. subst hp. destruct (cfg_HTTPProxy c) as [h0|]; [|done].
    exists h0. split; [done|]. destruct (hp_Enabled h0) eqn:E0.
    + apply bind_Ok in Hh as (h1 & Hv%wrap_err_Ok & E1). by injection E1 as ->.
    + injection Hh as ->. congruence.
Qed.

(** C38: A configuration that [Validate] accepts is safe to serve: every tool has
    a plain name and an absolute binary, its argument rules are all compiled
    so the policy never fails with an internal error, an allowlist is never
    empty, redaction rules are bounded and never match the empty text, the
    environment values and config files refer only to configured credentials,
    and every credential is well formed. *)
Theorem Validate_good_tools c c' :
  Validate c = Ok c' →
  (∀ name t, cfg_Tools c' !! name = Some t → good_tool (cfg_Credentials c') name t) ∧
  (∀ name cred, cfg_Credentials c' !! name = Some cred → validate_credential name cred = Ok tt).
Proof. intros (Hc & -> & _ & _ & Ht & _)%Validate_inv. by split. Qed.
End tools.

(** ** Paths of generated files *)

Lemma split_segments value b :
  for_each (λ part, guard_err (invalid_segment part)
    (Errorf "contains invalid path segment %q" [FS part])) (Split value "/") = Ok b →
  Forall plain_comp (split_char slash (s2b value)).
Proof.
  intros HF%for_each_Ok. unfold Split in HF. rewrite Forall_fmap in HF.
  eapply Forall_impl; [exact HF|]. simpl. intros w Hw%guard_err_Ok. unfold invalid_segment in Hw.
  rewrite !orb_false_iff, !bool_decide_eq_false in Hw. destruct Hw as [[H1 H2] H3].
  split; [|split]; intros ->; [by apply H1|by apply H2|by apply H3].
Qed.

Lemma validateSafeRelativePath_comps value nested :
  validateSafeRelativePath value nested = Ok tt →
  value ≠ "" ∧ Forall plain_comp (split_char slash (s2b value)) ∧
  (nested = false → split_char slash (s2b value) = [s2b value]).
Proof.
  unfold validateSafeRelativePath. intros E.
  destruct (bool_decide_reflect (TrimSpace value = "")) as [|Ht]; [done|].
  destruct (Contains value NUL); [done|]. destruct (IsAbs value); [done|].
  destruct (Contains value backslash_str); [done|]. destruct (_ || _); [done|].
  destruct (negb nested && _) eqn:En; [done|]. apply bind_Ok in E as (? & E%split_segments & _).
  split; [intros ->; by apply Ht|]. split; [done|]. intros ->. simpl in En.
  unfold Split in En. rewrite length_fmap in En. apply Nat.ltb_ge in En.
  change "/"%char with slash in En.
  pose proof (join_split_comps (s2b value)) as Hj.
  destruct (split_char slash (s2b value)) as [|w [|]] eqn:Es; simpl in *; [|by subst w|lia].
  by destruct (split_char_not_nil slash (s2b value)).
Qed.

(** A generated config file cannot leave its directory: a path that passes
    [validateSafeRelativePath], joined to any absolute clean directory, is that
    directory followed by the path itself, so no component climbs out of it,
    and a file name is a single component. *)
Theorem safe_path_contained value nested dir :
  validateSafeRelativePath value nested = Ok tt →
  good_comps dir →
  PathJoin [root_path dir; value] = root_path dir +:+ "/" +:+ value ∧ Clean value = value ∧
  (nested = false → slash ∉ s2b value).
Proof.
  intros (Hv & Hp & Hn)%validateSafeRelativePath_comps Hd.
  split; [|split].
  - by apply PathJoin_under.
  - unfold Clean. rewrite clean_relative; [apply b2s_s2b| |done].
    intros E. by apply Hv, s2b_nil_iff.
  - intros E. specialize (Hn E). pose proof (split_char_no_sep slash (s2b value)) as HF.
    rewrite Hn in HF. by inversion HF.
Qed.

(** ** Patterns of the HTTP proxy *)

Section patterns.
Context `{RE : Regexp} `{!RegexpLaws} `{UnicodeCase}.

Lemma string_app_assoc (a b c : string) : a +:+ b +:+ c = (a +:+ b) +:+ c.
Proof. apply (inj s2b). by rewrite !s2b_app, app_assoc. Qed.

(** The normalized form of a host pattern. *)
Definition host_norm (pattern : string) : string := TrimSuffix (ToLower (TrimSpace pattern)) ".".

(** What a host pattern means. *)
Definition host_matches (pattern host : string) : Prop :=
  if HasPrefix (host_norm pattern) "*." then
    ∃ label, runes host = label ++ runes ("." +:+ SliceFrom (host_norm pattern) 2) ∧
      label ≠ [] ∧ Forall (λ r, r ≠ 46) label
  else runes host = runes (host_norm pattern).

Lemma compile_host_matches pattern re :
  compileHostPattern pattern = Ok re → ValidString (host_norm pattern) = true →
  ∀ host, MatchString re host = true ↔ host_matches pattern host.
Proof.
  unfold host_matches.
  unfold compileHostPattern. fold (host_norm pattern).
  destruct (bool_decide_reflect (TrimSpace pattern = "")); [done|].
  destruct (bool_decide_reflect (TrimSpace pattern = "*.")); [done|].
  destruct (bool_decide_reflect (host_norm pattern = "")); [done|].
  intros E Hv host. destruct (HasPrefix (host_norm pattern) "*.") eqn:Hp.
  - set (t := "." +:+ SliceFrom (host_norm pattern) 2).
    assert (ValidString t = true) as Ht.
    { unfold t. apply ValidString_app; [done|]. apply HasPrefix_spec in Hp as [u Hu].
      rewrite Hu in Hv |- *. unfold SliceFrom. rewrite s2b_app.
      change (drop 2 (s2b "*." ++ s2b u)) with (s2b u). rewrite b2s_s2b.
      unfold ValidString in *. rewrite s2b_app in Hv.
      change (s2b "*." ++ s2b u) with ("*"%char :: "."%char :: s2b u) in Hv.
      rewrite !ascii_segs_app in Hv by (vm_compute; done).
      cbn [forallb] in Hv.
      apply andb_true_iff in Hv as [_ Hv]. by apply andb_true_iff in Hv as [_ Hv]. }
    destruct (compile_render [TRun true "."%char; TText t]) as (re' & Hc & Hm).
    { simpl. by rewrite Ht. }
    assert (render [TRun true "."%char; TText t]
      = "^[^.]+" +:+ backslash_str +:+ "." +:+ QuoteMeta (SliceFrom (host_norm pattern) 2) +:+ "$") as Er.
    { apply (inj s2b). unfold render. rewrite s2b_b2s, !s2b_app. cbn [mbind list_bind render_token].
      unfold t, QuoteMeta. rewrite s2b_app, quote_meta_app, s2b_b2s, app_nil_r.
      rewrite <- app_assoc. done. }
    rewrite <- Er, Hc in E. injection E as <-. rewrite Hm. apply tokens_run_text.
  - destruct (compile_render [TText (host_norm pattern)]) as (re' & Hc & Hm).
    { simpl. by rewrite Hv. }
    assert (render [TText (host_norm pattern)] = "^" +:+ QuoteMeta (host_norm pattern) +:+ "$") as Er.
    { apply (inj s2b). unfold render. rewrite s2b_b2s, !s2b_app. cbn [mbind list_bind render_token].
      unfold QuoteMeta. by rewrite s2b_b2s, app_nil_r. }
    rewrite <- Er, Hc in E. injection E as <-. rewrite Hm. apply tokens_text.
Qed.

(** Host patterns are exact. A pattern without a wildcard matches its
    normalized host and nothing else; [*.suffix] matches exactly one or more
    characters without a dot followed by the whole [.suffix], so neither the
    bare domain, nor a deeper subdomain, nor a host that merely ends with the
    suffix. *)
Theorem compileHostPattern_exact pattern re :
  compileHostPattern pattern = Ok re → ValidString (host_norm pattern) = true →
  ∀ host, MatchString re host = true ↔ host_matches pattern host.
Proof. apply compile_host_matches. Qed.
End patterns.
