(* ===== verification/PathRules.v ===== *)
(** The path patterns of the HTTP proxy: the text that [compilePathRule]
    ([internal/config/config.go]) builds by quoting a pattern and replacing its
    quoted stars is the anchored expression of the pattern's tokens. *)

From S2P Require Import Prelude GoStrings Json Regexp ConfigTypes Config ConfigLaws.
Local Open Scope Z_scope.

Definition star : ascii := "*"%char.

(** ** What a pattern means

    The documented reading (docs/CONFIG.md, Path patterns), on the characters of a
    pattern and of a path: [**] stands for the rest of the path, that is any text,
    [*] for one or more characters of one segment, every other character for
    itself. [rest] says which characters [**] may stand for. *)
Definition star_rune : Z := 42.
Definition slash_rune : Z := 47.
Definition newline_rune : Z := 10.
Definition any_rune : Z → Prop := λ _, True.
Definition line_rune : Z → Prop := λ r, r ≠ newline_rune.

Inductive path_glob (rest : Z → Prop) : list Z → list Z → Prop :=
| glob_end : path_glob rest [] []
| glob_rest p a b : Forall rest a → path_glob rest p b → path_glob rest (star_rune :: star_rune :: p) (a ++ b)
| glob_segment p a b :
    a ≠ [] → Forall (λ r, r ≠ slash_rune) a → (∀ p', p ≠ star_rune :: p') → path_glob rest p b →
    path_glob rest (star_rune :: p) (a ++ b)
| glob_char c p b : c ≠ star_rune → path_glob rest p b → path_glob rest (c :: p) (c :: b).

(** The tokens that the code makes of a pattern: [**] becomes [.*], which is any
    text without a line break, [*] becomes [[^/]+], anything else is itself. *)
Fixpoint tokens_of_segs (l : list (Z * bytes)) : list token :=
  match l with
  | [] => []
  | (r, raw) :: l' =>
    if bool_decide (raw = [star]) then
      match l' with
      | (_, raw') :: l'' =>
        if bool_decide (raw' = [star]) then TRun false newline :: tokens_of_segs l''
        else TRun true "/"%char :: tokens_of_segs l'
      | [] => [TRun true "/"%char]
      end
    else TText (b2s raw) :: tokens_of_segs l'
  end.
Definition path_tokens (p : string) : list token := tokens_of_segs (rune_segs (s2b p)).

(** ** The text after each replacement *)

Definition quoted_char (c : ascii) : bytes := if is_meta c then [backslash; c] else [c].

Fixpoint after_double (b : bytes) : bytes :=
  match b with
  | [] => []
  | c :: b' =>
    match b' with
    | d :: b'' =>
      if bool_decide (c = star) && bool_decide (d = star) then dot_star ++ after_double b''
      else quoted_char c ++ after_double b'
    | [] => quoted_char c
    end
  end.

Fixpoint after_single (b : bytes) : bytes :=
  match b with
  | [] => []
  | c :: b' =>
    if bool_decide (c = star) then
      match b' with
      | d :: b'' => if bool_decide (d = star) then dot_star ++ after_single b''
                    else neg_plus "/" ++ after_single b'
      | [] => neg_plus "/"
      end
    else quoted_char c ++ after_single b'
  end.

Lemma after_double_cons2 c d b : after_double (c :: d :: b) =
  if bool_decide (c = star) && bool_decide (d = star) then dot_star ++ after_double b
  else quoted_char c ++ after_double (d :: b).
Proof. done. Qed.

Lemma after_single_cons c b : after_single (c :: b) =
  if bool_decide (c = star) then
    match b with
    | d :: b' => if bool_decide (d = star) then dot_star ++ after_single b'
                 else neg_plus "/" ++ after_single b
    | [] => neg_plus "/"
    end
  else quoted_char c ++ after_single b.
Proof. by destruct b. Qed.

Definition double_old : bytes := [backslash; star; backslash; star].
Definition single_old : bytes := [backslash; star].

Lemma replace_skip n c b old new :
  has_prefix (c :: b) old = false →
  replace_fuel (S n) (c :: b) old new = c :: replace_fuel n b old new.
Proof. intros H. cbn [replace_fuel]. by rewrite H. Qed.

Lemma replace_hit n b old new :
  old ≠ [] → replace_fuel (S n) (old ++ b) old new = new ++ replace_fuel n b old new.
Proof.
  intros H. cbn [replace_fuel]. destruct (old ++ b) eqn:E; [by destruct old|].
  rewrite <- E, has_prefix_app. by rewrite drop_app_length.
Qed.

Lemma not_meta_backslash c : is_meta c = false → c ≠ backslash ∧ c ≠ star.
Proof. intros H. split; intros ->; by vm_compute in H. Qed.

Lemma prefix_cons_false c (b : bytes) d (p : bytes) : c ≠ d → has_prefix (c :: b) (d :: p) = false.
Proof. intros H. simpl. by rewrite bool_decide_eq_false_2. Qed.

Lemma has_prefix_same c (b p : bytes) : has_prefix (c :: b) (c :: p) = has_prefix b p.
Proof. simpl. by rewrite bool_decide_eq_true_2. Qed.

(** Neither text ever begins with a bare star. *)
Definition no_star_head (b : bytes) : Prop := ∀ r, b ≠ star :: r.

Lemma quoted_char_head c r : no_star_head (quoted_char c ++ r).
Proof.
  unfold quoted_char. destruct (is_meta c) eqn:E; intros k; [done|].
  apply not_meta_backslash in E as [_ E]. simpl. congruence.
Qed.

Lemma quote_meta_cons c b : quote_meta (c :: b) = quoted_char c ++ quote_meta b.
Proof. done. Qed.

Lemma quote_meta_head b : no_star_head (quote_meta b).
Proof. destruct b; [done|]. rewrite quote_meta_cons. apply quoted_char_head. Qed.

Lemma after_double_head b : no_star_head (after_double b).
Proof.
  destruct b as [|c [|d b]]; [done| |]; cbn [after_double].
  - rewrite <- (app_nil_r (quoted_char c)). apply quoted_char_head.
  - destruct (_ && _); [done|]. apply quoted_char_head.
Qed.

(** A quoted character other than the one replaced is copied. *)
Lemma replace_copy n c b old' new :
  no_star_head b → (c = star → has_prefix (backslash :: star :: b) (backslash :: star :: old') = false) →
  (length (quoted_char c) ≤ n)%nat →
  replace_fuel n (quoted_char c ++ b) (backslash :: star :: old') new
    = quoted_char c ++ replace_fuel (n - length (quoted_char c)) b (backslash :: star :: old') new.
Proof.
  intros Hb Hc Hn. unfold quoted_char in *. destruct (is_meta c) eqn:E; cbn [app length] in *.
  - destruct n as [|[|n]]; [lia..|]. rewrite replace_skip.
    2: { destruct (decide (c = star)) as [->|Hne]; [by apply Hc|].
         simpl. by rewrite bool_decide_eq_false_2. }
    rewrite replace_skip.
    2: { destruct b as [|d b]; [simpl; by rewrite andb_false_r|].
         destruct (decide (d = star)) as [->|Hne]; [by destruct (Hb b)|].
         simpl. rewrite (bool_decide_eq_false_2 (star = d)) by done. by rewrite andb_false_r. }
    by rewrite !Nat.sub_succ, Nat.sub_0_r.
  - destruct n as [|n]; [lia|]. apply not_meta_backslash in E as [E _].
    rewrite replace_skip by (by apply prefix_cons_false). by rewrite Nat.sub_succ, Nat.sub_0_r.
Qed.

Lemma length_quoted_char c : (1 ≤ length (quoted_char c) ≤ 2)%nat.
Proof. unfold quoted_char. destruct (is_meta c); simpl; lia. Qed.

Lemma replace_nil n old new : replace_fuel n [] old new = [].
Proof. by destruct n. Qed.

Lemma quoted_not_star d k p : d ≠ star → has_prefix (quoted_char d ++ k) (backslash :: star :: p) = false.
Proof.
  intros H. unfold quoted_char. destruct (is_meta d) eqn:E; cbn [app].
  - cbn [has_prefix]. rewrite (bool_decide_eq_false_2 (star = d)) by done. by rewrite andb_false_r.
  - apply not_meta_backslash in E as [E _]. by apply prefix_cons_false.
Qed.

Lemma replace_double b n :
  (length (quote_meta b) ≤ n)%nat → replace_fuel n (quote_meta b) double_old dot_star = after_double b.
Proof.
  remember (length b) as m eqn:Hm. revert b n Hm. induction m as [m IH] using lt_wf_ind.
  intros [|c [|d b]] n Hm Hn; subst m.
  - apply replace_nil.
  - rewrite quote_meta_cons in *. unfold double_old. rewrite replace_copy.
    + rewrite replace_nil, app_nil_r. done.
    + done.
    + intros _. vm_compute. done.
    + rewrite length_app in Hn. lia.
  - rewrite after_double_cons2. destruct (bool_decide (c = star) && bool_decide (d = star)) eqn:E.
    + apply andb_true_iff in E as [->%bool_decide_eq_true ->%bool_decide_eq_true].
      change (quote_meta (star :: star :: b)) with (double_old ++ quote_meta b) in *.
      rewrite length_app in Hn. destruct n as [|n]; [simpl in Hn; lia|].
      rewrite replace_hit by done. f_equal. eapply IH; [|done|simpl in *; lia]. simpl; lia.
    + rewrite quote_meta_cons in *. rewrite length_app in Hn. unfold double_old. rewrite replace_copy.
      * f_equal. eapply IH; [|done|lia]. simpl; lia.
      * apply quote_meta_head.
      * intros ->. rewrite bool_decide_eq_true_2 in E by done. apply bool_decide_eq_false in E.
        rewrite quote_meta_cons, !has_prefix_same. by apply quoted_not_star.
      * lia.
Qed.

Lemma replace_single b n :
  (length (after_double b) ≤ n)%nat →
  replace_fuel n (after_double b) single_old (neg_plus "/") = after_single b.
Proof.
  remember (length b) as m eqn:Hm. revert b n Hm. induction m as [m IH] using lt_wf_ind.
  assert (∀ c k n, c ≠ star → no_star_head k → (length (quoted_char c ++ k) ≤ n)%nat →
    replace_fuel n (quoted_char c ++ k) single_old (neg_plus "/")
      = quoted_char c ++ replace_fuel (n - length (quoted_char c)) k single_old (neg_plus "/")) as Hcopy.
  { intros c k n Hc Hk Hn. unfold single_old. rewrite length_app in Hn.
    apply replace_copy; [done|by intros|lia]. }
  intros [|c [|d b]] n Hm Hn; subst m.
  - apply replace_nil.
  - cbn [after_double after_single] in *. destruct (bool_decide_reflect (c = star)) as [->|Hc].
    + change (quoted_char star) with (single_old ++ []) in *. destruct n as [|n]; [simpl in Hn; lia|].
      rewrite replace_hit, replace_nil by done. done.
    + rewrite <- (app_nil_r (quoted_char c)) in Hn |- * at 1. rewrite Hcopy by done.
      by rewrite replace_nil.
  - rewrite after_double_cons2 in *. destruct (bool_decide (c = star) && bool_decide (d = star)) eqn:E.
    + apply andb_true_iff in E as [->%bool_decide_eq_true ->%bool_decide_eq_true].
      rewrite after_single_cons. rewrite !bool_decide_eq_true_2 by done.
      change (dot_star ++ after_double b) with ("."%char :: star :: after_double b) in *.
      destruct n as [|[|n]]; [simpl in Hn; lia..|].
      rewrite replace_skip by done. rewrite replace_skip by done. cbn [length] in Hn.
      change (dot_star ++ after_single b) with ("."%char :: star :: after_single b).
      do 2 f_equal. eapply IH; [|done|lia]. simpl; lia.
    + rewrite length_app in Hn. rewrite after_single_cons.
      destruct (bool_decide_reflect (c = star)) as [->|Hc].
      * cbn [andb] in E. rewrite E. change (quoted_char star) with single_old in *.
        destruct n as [|n]; [simpl in Hn; lia|]. rewrite replace_hit by done. f_equal.
        eapply IH; [|done|simpl in *; lia]. simpl; lia.
      * rewrite Hcopy; [|done|apply after_double_head|rewrite length_app; lia]. f_equal.
        eapply IH; [|done|lia]. simpl; lia.
Qed.

(** ** The result is the rendering of the tokens *)

Lemma after_single_copy raw k :
  star ∉ raw → after_single (raw ++ k) = quote_meta raw ++ after_single k.
Proof.
  induction raw as [|c raw IH]; [done|]. rewrite not_elem_of_cons. intros [Hc Hr].
  rewrite quote_meta_cons, <- app_assoc, <- IH by done. cbn [app after_single].
  by rewrite bool_decide_eq_false_2 by done.
Qed.

Lemma seg_no_star r raw : seg_ok (r, raw) = true → raw ≠ [star] → star ∉ raw.
Proof.
  intros Hok Hne Hin. destruct raw as [|c0 [|c1 raw]]; [by apply not_elem_of_nil in Hin| |].
  - apply list_elem_of_singleton in Hin. by subst.
  - assert (Forall (λ c, 0x80 ≤ code c) (c0 :: c1 :: raw)) as HF.
    { unfold seg_ok in Hok; cbn [fst snd] in Hok.
      destruct raw as [|c2 [|c3 [|]]]; try done; repeat constructor; seg_arith. }
    rewrite Forall_forall in HF. specialize (HF _ Hin). by vm_compute in HF.
Qed.

Lemma after_single_render l :
  forallb seg_ok l = true → after_single (mjoin l.*2) = (tokens_of_segs l ≫= render_token).
Proof.
  remember (length l) as m eqn:Hm. revert l Hm. induction m as [m IH] using lt_wf_ind.
  intros [|[r raw] l] Hm Hok; subst m; [done|]. cbn [forallb] in Hok.
  apply andb_true_iff in Hok as [H1 H2]. cbn [tokens_of_segs].
  change (mjoin ((r, raw) :: l).*2) with (raw ++ mjoin l.*2).
  destruct (bool_decide_reflect (raw = [star])) as [->|Hne].
  - destruct l as [|[r' raw'] l]; [done|]. 
    pose proof H2 as H2'. cbn [forallb] in H2'. apply andb_true_iff in H2' as [H3 H4].
    change (mjoin ((r', raw') :: l).*2) with (raw' ++ mjoin l.*2).
    destruct (bool_decide_reflect (raw' = [star])) as [->|Hne'].
    + cbn [app after_single]. rewrite !bool_decide_eq_true_2 by done. rewrite bind_cons.
      cbn [render_token]. f_equal. eapply IH; [|done|done]. simpl; lia.
    + rewrite bind_cons, <- (IH (length ((r', raw') :: l))); [|simpl; lia|done|done].
      change (mjoin ((r', raw') :: l).*2) with (raw' ++ mjoin l.*2).
      assert (∃ c k, raw' = c :: k ∧ c ≠ star) as (c & k & -> & Hc).
      { destruct raw' as [|c k]; [done|]. exists c, k. split; [done|]. intros ->.
        apply (seg_no_star _ _ H3 Hne'). left. }
      cbn [app after_single render_token]. rewrite (bool_decide_eq_true_2 (star = star)) by done.
      by rewrite (bool_decide_eq_false_2 (c = star)) by done.
  - rewrite after_single_copy by (by eapply seg_no_star). rewrite bind_cons. cbn [render_token].
    rewrite s2b_b2s. f_equal. eapply IH; [|done|done]. simpl; lia.
Qed.

Lemma tokens_of_segs_ok l : forallb seg_ok l = true → forallb token_ok (tokens_of_segs l) = true.
Proof.
  remember (length l) as m eqn:Hm. revert l Hm. induction m as [m IH] using lt_wf_ind.
  intros [|[r raw] l] Hm Hok; subst m; [done|]. cbn [forallb] in Hok.
  apply andb_true_iff in Hok as [H1 H2]. cbn [tokens_of_segs].
  case_bool_decide.
  - destruct l as [|[r' raw'] l]; [done|]. case_bool_decide; cbn [forallb].
    + apply andb_true_iff. split; [done|]. cbn [forallb] in H2. apply andb_true_iff in H2 as [_ H2].
      eapply IH; [|done|done]. simpl; lia.
    + apply andb_true_iff. split; [done|]. eapply IH; [|done|done]. simpl; lia.
  - cbn [forallb]. apply andb_true_iff. split; [|eapply IH; [|done|done]; simpl; lia].
    cbn [token_ok]. unfold ValidString. rewrite s2b_b2s. destruct raw as [|c0 raw]; [done|].
    pose proof (decode_rune_ok r c0 raw [] H1) as Hd. rewrite app_nil_r in Hd.
    rewrite rune_segs_cons, Hd. cbn [forallb]. by rewrite H1.
Qed.

(** The text that [compilePathRule] compiles. *)
Definition path_regexp (pathPattern : string) : string :=
  "^" +:+ ReplaceAll (ReplaceAll (QuoteMeta pathPattern) (star_quoted +:+ star_quoted) ".*")
            star_quoted "[^/]+" +:+ "$".

Lemma path_regexp_render p :
  ValidString p = true → path_regexp p = render (path_tokens p) ∧ forallb token_ok (path_tokens p) = true.
Proof.
  intros Hv. split; [|by apply tokens_of_segs_ok].
  apply (inj s2b). unfold path_regexp, render, ReplaceAll, QuoteMeta. rewrite !s2b_app, !s2b_b2s.
  change (s2b (star_quoted +:+ star_quoted)) with double_old. change (s2b star_quoted) with single_old.
  change (s2b ".*") with dot_star. change (s2b "[^/]+") with (neg_plus "/").
  rewrite replace_double by (by rewrite <- s2b_length, s2b_b2s).
  rewrite replace_single by (by rewrite <- s2b_length, s2b_b2s).
  unfold path_tokens. rewrite <- after_single_render by done. by rewrite rune_segs_concat.
Qed.

(** ** The tokens mean what the pattern means *)

Lemma runes_seg r raw : seg_ok (r, raw) = true → runes (b2s raw) = [r].
Proof.
  intros Hok. unfold runes. rewrite s2b_b2s. destruct raw as [|c0 raw]; [done|].
  pose proof (decode_rune_ok r c0 raw [] Hok) as Hd. rewrite app_nil_r in Hd.
  by rewrite rune_segs_cons, Hd.
Qed.

Lemma seg_star r raw : seg_ok (r, raw) = true → raw = [star] ↔ r = star_rune.
Proof.
  intros Hok. unfold star_rune in *. split; [intros ->; unfold seg_ok in Hok; cbn [fst snd] in Hok|intros ->].
  - apply andb_true_iff in Hok as [_ ->%Z.eqb_eq]. done.
  - unfold seg_ok in Hok; cbn [fst snd] in Hok. destruct raw as [|c0 [|c1 [|c2 [|c3 [|]]]]]; try done.
    + apply andb_true_iff in Hok as [_ Hc%Z.eqb_eq]. f_equal. symmetry. apply (inj code). rewrite <- Hc. reflexivity.
    + exfalso. unfold rune2 in Hok. seg_arith.
    + exfalso. unfold rune3 in Hok. seg_arith.
    + exfalso. unfold rune4 in Hok. seg_arith.
Qed.

Lemma items_line k rs :
  items_match (IRun false (code newline) :: k) rs = true ↔
  ∃ a b, rs = a ++ b ∧ Forall line_rune a ∧ items_match k b = true.
Proof. cbn [items_match]. by rewrite run_match_spec. Qed.

Lemma glob_segment_items k p rs :
  (∀ p', p ≠ star_rune :: p') →
  (∀ b, items_match (k ≫= items_of) b = true ↔ path_glob line_rune p b) →
  items_match ((TRun true "/"%char :: k) ≫= items_of) rs = true ↔ path_glob line_rune (star_rune :: p) rs.
Proof.
  intros Hp Hk. rewrite bind_cons. change (items_of (TRun true "/"%char)) with [IRun true (code "/")].
  cbn [app]. rewrite items_plus. split.
  - intros (a & b & -> & Hn & Ha & Hb). constructor; [done..|]. by apply Hk.
  - intros Hg. inversion Hg; subst; [by destruct (Hp p0)|..|congruence].
    exists a, b. split; [done|]. split; [done|]. split; [done|]. by apply Hk.
Qed.

Lemma glob_rest_items k p rs :
  (∀ b, items_match (k ≫= items_of) b = true ↔ path_glob line_rune p b) →
  items_match ((TRun false newline :: k) ≫= items_of) rs = true ↔ path_glob line_rune (star_rune :: star_rune :: p) rs.
Proof.
  intros Hk. rewrite bind_cons. change (items_of (TRun false newline)) with [IRun false (code newline)].
  cbn [app]. rewrite items_line. split.
  - intros (a & b & -> & Ha & Hb). constructor; [done|]. by apply Hk.
  - intros Hg. inversion Hg as [|? a b Ha Hg'|? a b ? ? Hp ?|]; subst.
    + exists a, b. split; [done|]. split; [done|]. by apply Hk.
    + by destruct (Hp p).
    + congruence.
Qed.

Lemma tokens_glob l rs :
  forallb seg_ok l = true →
  items_match (tokens_of_segs l ≫= items_of) rs = true ↔ path_glob line_rune l.*1 rs.
Proof.
  remember (length l) as m eqn:Hm. revert l Hm rs. induction m as [m IH] using lt_wf_ind.
  intros [|[r raw] l] Hm rs Hok; subst m.
  { cbn. destruct rs; split; intros H; try done; try constructor; inversion H. }
  cbn [forallb] in Hok. apply andb_true_iff in Hok as [H1 H2]. cbn [tokens_of_segs].
  change ((r, raw) :: l).*1 with (r :: l.*1).
  pose proof (IH (length l) ltac:(simpl; lia) l eq_refl) as IHl.
  destruct (bool_decide_reflect (raw = [star])) as [E|Hne].
  - pose proof (proj1 (seg_star _ _ H1) E) as ->. subst raw. destruct l as [|[r' raw'] l].
    + apply glob_segment_items; [intros p'; done|]. intros b. by apply IHl.
    + pose proof H2 as H3. cbn [forallb] in H3. apply andb_true_iff in H3 as [H3 H4].
      destruct (bool_decide_reflect (raw' = [star])) as [E'|Hne'].
      * pose proof (proj1 (seg_star _ _ H3) E') as ->. change ((star_rune, raw') :: l).*1 with (star_rune :: l.*1).
        apply glob_rest_items. intros b. apply (IH (length l)); [simpl; lia|done..].
      * apply glob_segment_items; [|intros b; by apply IHl].
        intros p' [= Hr _]. by apply Hne', (proj2 (seg_star r' raw' H3)).
  - assert (r ≠ star_rune) as Hr by (intros Hr; by apply Hne, (proj2 (seg_star r raw H1))).
    rewrite bind_cons. cbn [items_of]. rewrite (runes_seg r raw H1), items_lit_app. split.
    + intros (b & -> & Hb). constructor; [done|]. by apply IHl.
    + intros Hg. inversion Hg; subst; [congruence..|]. eexists. split; [done|]. by apply IHl.
Qed.

Lemma path_tokens_glob p path :
  ValidString p = true → tokens_match (path_tokens p) path = true ↔ path_glob line_rune (runes p) (runes path).
Proof. intros Hv. by apply tokens_glob. Qed.

Lemma path_glob_weaken p s : path_glob line_rune p s → path_glob any_rune p s.
Proof.
  induction 1; [constructor..| |]; [|done|by constructor..].
  eapply Forall_impl; [done|by intros].
Qed.

Lemma path_glob_one_line p s : newline_rune ∉ s → path_glob any_rune p s → path_glob line_rune p s.
Proof.
  intros Hn Hg. induction Hg as [|p a b Ha Hg IH|p a b Hne Ha Hp Hg IH|c p b Hc Hg IH].
  - constructor.
  - apply not_elem_of_app in Hn as [Hna Hnb]. constructor; [|by apply IH].
    apply Forall_forall. intros x Hx ->. done.
  - apply not_elem_of_app in Hn as [_ Hnb]. constructor; [done..|by apply IH].
  - apply not_elem_of_cons in Hn as [_ Hn]. constructor; [done|by apply IH].
Qed.

(** ** Property *)

Section path_rules.
Context `{RE : Regexp} `{!RegexpLaws} `{UnicodeCase}.

Lemma compile_path_rule pattern method pathPattern :
  (method, pathPattern) = match SplitN2 (TrimSpace pattern) " " with
    | [p0; p1] => (ToUpper p0, p1) | _ => ("*", TrimSpace pattern) end →
  TrimSpace pattern ≠ "" → method ∈ http_methods → ValidString pathPattern = true →
  ∃ rule, compilePathRule pattern = Ok rule ∧ rule_Method rule = method ∧
    ∀ path, MatchString (rule_Pattern rule) path = tokens_match (path_tokens pathPattern) path.
Proof.
  intros Hm Hne Hin Hv. unfold compilePathRule. rewrite bool_decide_eq_false_2 by done.
  rewrite <- Hm. rewrite (bool_decide_eq_true_2 (method ∈ http_methods)) by done. cbn [negb].
  destruct (path_regexp_render pathPattern Hv) as [Er Hok].
  destruct (compile_render _ Hok) as (re & Hc & Hmt). rewrite <- Er in Hc.
  unfold path_regexp in Hc. rewrite Hc. by exists {| rule_Method := method; rule_Pattern := re |}.
Qed.

(** C39: A path rule means what the documentation says, for paths on one line: it
    matches exactly the paths that its pattern describes, where [**] stands for any
    text, [*] for one or more characters within a path segment and every other
    character for itself. For a path with a line break the code deviates: [**] then
    covers only text without one, everything else being as documented, so a rule
    never matches more than it says but may match less. No character of a pattern
    is taken for regexp syntax, and every pattern with a known method compiles. *)
Theorem compilePathRule_exact pattern method pathPattern :
  (method, pathPattern) = match SplitN2 (TrimSpace pattern) " " with
    | [p0; p1] => (ToUpper p0, p1) | _ => ("*", TrimSpace pattern) end →
  TrimSpace pattern ≠ "" → method ∈ http_methods → ValidString pathPattern = true →
  ∃ rule, compilePathRule pattern = Ok rule ∧ rule_Method rule = method ∧
    ∀ path,
      (newline_rune ∉ runes path →
        MatchString (rule_Pattern rule) path = true ↔ path_glob any_rune (runes pathPattern) (runes path)) ∧
      (MatchString (rule_Pattern rule) path = true ↔ path_glob line_rune (runes pathPattern) (runes path)) ∧
      (MatchString (rule_Pattern rule) path = true → path_glob any_rune (runes pathPattern) (runes path)).
Proof.
  intros Hm Hne Hin Hv. destruct (compile_path_rule pattern method pathPattern) as (rule & Hc & Hr & Hmt); [done..|].
  exists rule. split; [done|]. split; [done|]. intros path. rewrite Hmt, path_tokens_glob by done.
  split; [|split; [done|]].
  - intros Hn. split; [apply path_glob_weaken|by apply path_glob_one_line].
  - apply path_glob_weaken.
Qed.

(** What a rule on a path does not cover: where the documentation lets [**] match
    the rest of a path it stops at a line break, so the
    deny rule [/admin/**] lets [/admin/x] followed by an encoded line break
    through, and paths are compared as they are, so the allow rule [/public/**]
    admits [/public/../admin]. *)
Theorem path_rule_gaps deny allow :
  compilePathRule "/admin/**" = Ok deny → compilePathRule "/public/**" = Ok allow →
  MatchString (rule_Pattern deny) "/admin/x" = true ∧
  MatchString (rule_Pattern deny) ("/admin/x" +:+ String newline "") = false ∧
  MatchString (rule_Pattern allow) "/public/../admin" = true.
Proof.
  intros Hd Ha.
  destruct (compile_path_rule "/admin/**" "*" "/admin/**") as (r1 & E1 & _ & M1);
    [reflexivity|done|by apply (bool_decide_eq_true_1 _); vm_compute|by vm_compute|].
  destruct (compile_path_rule "/public/**" "*" "/public/**") as (r2 & E2 & _ & M2);
    [reflexivity|done|by apply (bool_decide_eq_true_1 _); vm_compute|by vm_compute|].
  rewrite Hd in E1. rewrite Ha in E2. injection E1 as <-. injection E2 as <-. rewrite !M1, !M2. by vm_compute.
Qed.
End path_rules.
