(* ===== verification/HttpProxy.v ===== *)
(** Package [internal/httpproxy], [proxy.go], [inject.go], [security.go],
    [ssrf.go]: the HTTP proxy that injects credentials.

    [goproxy] and the listener are outside the model: the handlers it calls are
    the definitions, and what it carries between the handlers of one connection
    (the context's user data) is an argument. Resolving a credential is the
    computation of [Resolve.v], so a handler runs on the credentials' state. Log
    messages are left out. *)

From S2P Require Import Prelude GoStrings GoTime GoNet Base64 Auth Regexp ConfigTypes Interpolate Paths Sources Fetch.
From S2P Require Import Resolve Config Settings.
Local Open Scope Z_scope.

(** ** Requests and responses *)

Record URL := { u_Scheme : string; u_Host : string; u_Path : string }.

Record Request := {
  rq_Method : string;
  rq_URL : option URL;
  rq_Host : string;
  rq_Header : Header;
  rq_ContentLength : Z;
}.

Record Response := { rs_Status : Z; rs_Body : string; rs_Header : Header }.

Definition set_header (req : Request) (h : Header) : Request :=
  {| rq_Method := rq_Method req; rq_URL := rq_URL req; rq_Host := rq_Host req; rq_Header := h;
     rq_ContentLength := rq_ContentLength req |}.

(** [goproxy.NewResponse] with a JSON body [{"error": what}]. *)
Definition error_response (status : Z) (what : string) : Response :=
  {| rs_Status := status; rs_Body := what; rs_Header := Header_Set ∅ "Content-Type" "application/json" |}.

(** The user data of a connection: whether its CONNECT was authenticated. *)
Record ProxyCtx := { connectAuthenticated : bool }.
Definition new_ctx : ProxyCtx := {| connectAuthenticated := false |}.

Inductive ConnectAction := MitmConnect | ProxyAuthHijack (headers : string).

Definition DefaultListenAddr : string := "127.0.0.1:8080".
Definition proxyAuthUser : string := "claw".
Definition proxyAuthRealm : string := "claw-wrap".

(** ** [security.go] *)

Definition privateIPBlocks : list IPNet := [
  {| n_IP := [10; 0; 0; 0]; n_ones := 8 |};
  {| n_IP := [172; 16; 0; 0]; n_ones := 12 |};
  {| n_IP := [192; 168; 0; 0]; n_ones := 16 |};
  {| n_IP := [127; 0; 0; 0]; n_ones := 8 |};
  {| n_IP := [169; 254; 0; 0]; n_ones := 16 |};
  {| n_IP := [0;0;0;0;0;0;0;0;0;0;0;0;0;0;0;1]; n_ones := 128 |};
  {| n_IP := [0xfe;0x80;0;0;0;0;0;0;0;0;0;0;0;0;0;0]; n_ones := 10 |};
  {| n_IP := [0xfc;0;0;0;0;0;0;0;0;0;0;0;0;0;0;0]; n_ones := 7 |};
  {| n_IP := [0; 0; 0; 0]; n_ones := 8 |};
  {| n_IP := [100; 64; 0; 0]; n_ones := 10 |};
  {| n_IP := [192; 0; 0; 0]; n_ones := 24 |};
  {| n_IP := [192; 0; 2; 0]; n_ones := 24 |};
  {| n_IP := [198; 51; 100; 0]; n_ones := 24 |};
  {| n_IP := [203; 0; 113; 0]; n_ones := 24 |};
  {| n_IP := [224; 0; 0; 0]; n_ones := 4 |};
  {| n_IP := [240; 0; 0; 0]; n_ones := 4 |}].

Definition isPrivateIP (ip : IP) : bool := existsb (λ block, IPNet_Contains block ip) privateIPBlocks.

Definition ErrSSRFBlocked : error := Sentinel "ErrSSRFBlocked".
Definition ErrRequestSmuggling : error := Sentinel "ErrRequestSmuggling".

Fixpoint has_folding (b : bytes) : bool :=
  match b with
  | c :: b' =>
    match b' with
    | d :: _ =>
      ((code c =? 13) || (code c =? 10)) && ((code d =? 32) || (code d =? 9)) || has_folding b'
    | [] => false
    end
  | [] => false
  end.
Definition hasObsoleteLineFolding (s : string) : bool := has_folding (s2b s).

Definition checkRequestSmuggling `{MapRange} (req : Request) : result unit :=
  let te := Header_Get (rq_Header req) "Transfer-Encoding" in
  let hasContentLength :=
    negb (bool_decide (Header_Get (rq_Header req) "Content-Length" = "")) || (rq_ContentLength req >? 0) in
  if negb (bool_decide (te = "")) && hasContentLength then Err ErrRequestSmuggling
  else
    for_each (λ kv, for_each (λ v, guard_err (hasObsoleteLineFolding v)
      (Errorf "obsolete line folding in header %s" [FS kv.1])) kv.2) (range (rq_Header req)).

Definition validateRequestSecurity `{MapRange} (req : Request) : result unit := checkRequestSmuggling req.

(** [ssrf.go]: the check of the dialled address. *)
Definition ssrfControl (network address : string) : result unit :=
  if negb (bool_decide (network ∈ ["tcp"; "tcp4"; "tcp6"])) then
    Err (Errorf "unsupported network type: %s" [FS network])
  else
    wrap_err "invalid address: %w" [] (SplitHostPort address) ≫= λ '(host, _),
    match ParseIP host with
    | None => Err (Errorf "invalid IP address: %s" [FS host])
    | Some ip => if isPrivateIP ip then Err (Wrapf "%w: %s" [FS host] ErrSSRFBlocked) else Ok tt
    end.

(** ** Hosts ([proxy.go]) *)

Section hosts.
Context `{UnicodeCase} `{UrlHostname}.

Definition normalizeHost (authority : string) : string :=
  let authority := TrimSpace authority in
  if bool_decide (authority = "") then ""
  else
    let plain := TrimSuffix (ToLower authority) "." in
    match url_hostname authority with
    | Some host => if negb (bool_decide (host = "")) then TrimSuffix (ToLower host) "." else plain
    | None => plain
    end.

(** [security.go]: the check of a host name, with the addresses it resolves to. *)
Definition validateHostForSSRF (lookup : string → result (list IP)) (host : string) : result unit :=
  let hostname := normalizeHost host in
  if bool_decide (hostname = "") then Err (Errorf "empty host" [])
  else
    match ParseIP hostname with
    | Some ip => if isPrivateIP ip then Err (Wrapf "%w: %s" [FS hostname] ErrSSRFBlocked) else Ok tt
    | None =>
      wrap_err "DNS lookup failed for %s: %w" [FS hostname] (lookup hostname) ≫= λ ips,
      for_each (λ ip, guard_err (isPrivateIP ip) (Wrapf "%w: %s resolves to %s" [FS hostname] ErrSSRFBlocked)) ips
    end.

Definition canonicalRequestHost (req : Request) : result string :=
  match rq_URL req with
  | None => Err (Errorf "request URL is missing" [])
  | Some u =>
    (if bool_decide (TrimSpace (u_Host u) = "") then
       if negb (bool_decide (u_Scheme u = "")) then Err (Errorf "proxy request missing URL host" [])
       else Ok (rq_Host req)
     else Ok (u_Host u)) ≫= λ target,
    let host := normalizeHost target in
    if bool_decide (host = "") then Err (Errorf "request target host is empty" []) else Ok host
  end.

Definition hostHeaderMismatched (req : Request) (canonicalHost : string) : bool :=
  if bool_decide (TrimSpace (rq_Host req) = "") then
    match rq_URL req with
    | Some u => bool_decide (u_Scheme u = "http") && negb (bool_decide (u_Host u = ""))
    | None => false
    end
  else negb (bool_decide (normalizeHost (rq_Host req) = canonicalHost)).
End hosts.

(** ** Proxy authentication *)

Definition secureEqual (a b : string) : bool :=
  if negb (slen a =? slen b) then false else ConstantTimeCompare (s2b a) (s2b b) =? 1.

Definition parseProxyAuthorization (raw : string) : option (string * string) :=
  match SplitN2 (TrimSpace raw) " " with
  | [scheme; encoded] =>
    if negb (EqualFold scheme "Basic") then None
    else
      decoded ← DecodeString StdEncoding encoded;
      match Cut (b2s decoded) ":" with
      | (user, pass, true) => Some (user, pass)
      | _ => None
      end
  | _ => None
  end.

Section proxy.
Context `{RE : Regexp} `{UnicodeCase} `{UrlHostname} `{OS} `{Files} `{Libraries} `{MapRange} `{GitHubLib}.

Record Proxy := {
  p_cfg : option HTTPProxyConfig;
  p_creds : gmap string CredentialDef;
  p_credOpts : list FetchOption;
  p_authToken : string;
  p_requireAuth : bool;
  (** the proxy listens *)
  p_listening : option string;
  (** [Stop] was called *)
  p_stopped : bool;
}.

Definition ProxyOption := Proxy → Proxy.

Definition add_credOpt (opt : FetchOption) : ProxyOption := λ p,
  {| p_cfg := p_cfg p; p_creds := p_creds p; p_credOpts := p_credOpts p ++ [opt]; p_authToken := p_authToken p;
     p_requireAuth := p_requireAuth p; p_listening := p_listening p; p_stopped := p_stopped p |}.
Definition proxy_WithPassBinary (path : string) : ProxyOption := add_credOpt (WithPassBinary path).
Definition proxy_WithOPBinary (path : string) : ProxyOption := add_credOpt (WithOPBinary path).
Definition proxy_WithBWBinary (path : string) : ProxyOption := add_credOpt (WithBWBinary path).
Definition proxy_WithVaultBinary (path : string) : ProxyOption := add_credOpt (WithVaultBinary path).
Definition WithAuthToken (token : string) : ProxyOption := λ p,
  {| p_cfg := p_cfg p; p_creds := p_creds p; p_credOpts := p_credOpts p; p_authToken := token;
     p_requireAuth := p_requireAuth p; p_listening := p_listening p; p_stopped := p_stopped p |}.
Definition WithRequireAuth (require : bool) : ProxyOption := λ p,
  {| p_cfg := p_cfg p; p_creds := p_creds p; p_credOpts := p_credOpts p; p_authToken := p_authToken p;
     p_requireAuth := require; p_listening := p_listening p; p_stopped := p_stopped p |}.

Definition New (cfg : HTTPProxyConfig) (creds : gmap string CredentialDef) (opts : list ProxyOption) : Proxy :=
  foldl (λ p opt, opt p)
    {| p_cfg := Some cfg; p_creds := creds; p_credOpts := []; p_authToken := ""; p_requireAuth := true;
       p_listening := None; p_stopped := false |} opts.

(** [Start]; whether the certificate authority is set up, its watcher started and
    the address free are [mitm], [watch] and [listen]. *)
Definition Start (p : Proxy) (addr : string) (mitm watch listen : result unit) : result Proxy :=
  let addr := if bool_decide (addr = "") then DefaultListenAddr else addr in
  guard_err (p_requireAuth p && bool_decide (p_authToken p = ""))
    (Errorf "proxy auth token is required" []) ≫= λ _,
  wrap_err "invalid listen address: %w" [] (SplitHostPort addr) ≫= λ '(host, _),
  guard_err (negb (bool_decide (host ∈ ["127.0.0.1"; "localhost"; "::1"])))
    (Errorf "proxy must bind to localhost only, got %s" [FS host]) ≫= λ _,
  wrap_err "setup MITM: %w" [] mitm ≫= λ _,
  wrap_err "start CA watcher: %w" [] watch ≫= λ _,
  wrap_err "listen: %w" [] listen ≫= λ _,
  Ok {| p_cfg := p_cfg p; p_creds := p_creds p; p_credOpts := p_credOpts p; p_authToken := p_authToken p;
        p_requireAuth := p_requireAuth p; p_listening := Some addr; p_stopped := p_stopped p |}.

(** [Stop]: the first call closes the listener. *)
Definition Stop (p : Proxy) (close : result unit) : result unit * Proxy :=
  if p_stopped p then (Ok tt, p)
  else
    (match p_listening p with
     | Some _ => wrap_err "close listener: %w" [] close
     | None => Ok tt
     end,
     {| p_cfg := p_cfg p; p_creds := p_creds p; p_credOpts := p_credOpts p; p_authToken := p_authToken p;
        p_requireAuth := p_requireAuth p; p_listening := None; p_stopped := true |}).

Definition ReloadConfig (p : Proxy) (cfg : HTTPProxyConfig) (creds : gmap string CredentialDef) : Proxy :=
  {| p_cfg := Some cfg; p_creds := creds; p_credOpts := p_credOpts p; p_authToken := p_authToken p;
     p_requireAuth := p_requireAuth p; p_listening := p_listening p; p_stopped := p_stopped p |}.

Definition Enabled (p : Proxy) : bool := match p_cfg p with Some cfg => hp_Enabled cfg | None => false end.

Definition ListenAddr (p : Proxy) : string :=
  match p_cfg p with
  | Some cfg => if bool_decide (hp_Listen cfg = "") then DefaultListenAddr else hp_Listen cfg
  | None => DefaultListenAddr
  end.

(** [SetupFromConfig]: no token and no setting of [require_auth] is passed on. *)
Definition SetupFromConfig (cfg : Config) : option Proxy :=
  match GetHTTPProxyConfig cfg with
  | Some h =>
    if negb (hp_Enabled h) then None
    else Some (New h (cfg_Credentials cfg)
           [proxy_WithPassBinary (GetPassBinary cfg); proxy_WithOPBinary (GetOPBinary cfg);
            proxy_WithBWBinary (GetBWBinary cfg); proxy_WithVaultBinary (GetVaultBinary cfg)])
  | None => None
  end.

Definition StartFromConfig (cfg : Config) (mitm watch listen : result unit) : result (option Proxy) :=
  match SetupFromConfig cfg with
  | None => Ok None
  | Some proxy =>
    wrap_err "start proxy: %w" [] (Start proxy (ListenAddr proxy) mitm watch listen) ≫= λ p, Ok (Some p)
  end.

(** ** The handlers *)

(** The user data of the context: none, another value or a [nil] context is not
    authenticated. *)
Definition markConnectAuthenticated (ctx : ProxyCtx) : ProxyCtx := {| connectAuthenticated := true |}.
Definition isConnectAuthenticated (ctx : ProxyCtx) : bool := connectAuthenticated ctx.

Definition isAuthenticatedProxyRequest (p : Proxy) (req : option Request) (ctx : ProxyCtx) : bool :=
  if negb (p_requireAuth p) then true
  else if isConnectAuthenticated ctx then true
  else
    match req with
    | None => false
    | Some req =>
      match parseProxyAuthorization (Header_Get (rq_Header req) "Proxy-Authorization") with
      | None => false
      | Some (user, pass) =>
        if negb (secureEqual user proxyAuthUser) then false else secureEqual pass (p_authToken p)
      end
    end.

(** [Basic realm=%q] of the realm. *)
Definition basic_realm : string := "Basic realm=" +:+ String "034" (proxyAuthRealm +:+ String "034" "").

Definition proxyAuthRequiredResponse : Response :=
  let r := error_response 407 "proxy_auth_required" in
  {| rs_Status := rs_Status r; rs_Body := rs_Body r;
     rs_Header := Header_Set (rs_Header r) "Proxy-Authenticate" basic_realm |}.

(** The action: what is written after the status line, before the connection is
    closed. *)
Definition crlf : string := String "013" (String "010" "").
Definition proxyAuthRequiredConnectAction : ConnectAction :=
  ProxyAuthHijack ("Proxy-Authenticate: " +:+ basic_realm +:+ crlf +:+ "Content-Length: 0" +:+ crlf +:+
    "Connection: close" +:+ crlf +:+ crlf).

(** [handleConnect]: the action, and the context's user data after it. *)
Definition handleConnect (p : Proxy) (req : option Request) (ctx : ProxyCtx) : ConnectAction * ProxyCtx :=
  if negb (isAuthenticatedProxyRequest p req ctx) then
    (proxyAuthRequiredConnectAction, ctx)
  else (MitmConnect, markConnectAuthenticated ctx).

Definition matchPathRule (rule : PathRule) (method path : string) : bool :=
  if negb (bool_decide (rule_Method rule = "*")) && negb (bool_decide (rule_Method rule = method)) then false
  else MatchString (rule_Pattern rule) path.

Definition url_path (req : Request) : string := match rq_URL req with Some u => u_Path u | None => "" end.

Definition isRequestAllowed (route : ProxyRoute) (req : Request) : bool :=
  let method := rq_Method req in
  let path := url_path req in
  if existsb (λ rule, matchPathRule rule method path) (rt_DenyRules route) then false
  else
    match rt_AllowRules route with
    | [] => true
    | allow => existsb (λ rule, matchPathRule rule method path) allow
    end.

(** Exact, whatever the pattern; no code calls it. *)
Definition matchHost (pattern host : string) : bool := bool_decide (pattern = host).

Definition matchHostWithRoute (route : ProxyRoute) (host : string) : bool :=
  match rt_HostRegex route with
  | Some re => MatchString re host
  | None => bool_decide (rt_Host route = host)
  end.

Definition findMatchingRoute (cfg : HTTPProxyConfig) (host : string) : option ProxyRoute :=
  List.find (λ route, matchHostWithRoute route host) (hp_Routes cfg).

(** [inject.go]: the replacement of one reference. *)
Definition resolve_ref (creds : gmap string CredentialDef) (opts : list FetchOption) (raw : bytes) : M string :=
  let name := TrimSpace (TrimSuffix (TrimPrefix (b2s raw) "{{") "}}") in
  if bool_decide (name = "") then fail (Errorf "empty credential reference" [])
  else
    match creds !! name with
    | None => fail (Errorf "unknown credential %q" [FS name])
    | Some cred => λ s,
      let '(r, s) := Resolve (cred_ResolveInput cred name) opts s in
      (wrap_err "resolve credential %q: %w" [FS name] r, s)
    end.

(** The matches in order; after a failure the rest is skipped. *)
Fixpoint resolve_segs (creds : gmap string CredentialDef) (opts : list FetchOption) (l : list seg) : M bytes :=
  match l with
  | [] => mret []
  | SByte c :: l => rest ← resolve_segs creds opts l; mret (c :: rest)
  | SRef _ raw :: l =>
    value ← resolve_ref creds opts raw; rest ← resolve_segs creds opts l; mret (s2b value ++ rest)
  end.

Definition resolveHeaderValue (template : string) (creds : gmap string CredentialDef) (opts : list FetchOption)
    : M string :=
  result ← resolve_segs creds opts (scan match_brace_ref (s2b template)); mret (b2s result).

Definition httpproxy_hasCredentialRef (s : string) : bool :=
  negb (bool_decide (submatches match_brace_ref s = [])).

(** The request without the proxy's own headers. *)
Definition strip_proxy_headers (req : Request) : Request :=
  set_header req (Header_Del (Header_Del (rq_Header req) "Proxy-Authorization") "Proxy-Connection").

(** [handleRequest]: a response answers the client, none forwards the request. *)
Definition handleRequest (p : Proxy) (req : Request) (ctx : ProxyCtx) (s : sys)
    : (Request * option Response) * sys :=
  match p_cfg p with
  | None => ((req, Some (error_response 503 "proxy_disabled")), s)
  | Some cfg =>
    if negb (hp_Enabled cfg) then ((req, Some (error_response 503 "proxy_disabled")), s)
    else if negb (isAuthenticatedProxyRequest p (Some req) ctx) then ((req, Some proxyAuthRequiredResponse), s)
    else
      let req := strip_proxy_headers req in
      match canonicalRequestHost req with
      | Err _ => ((req, Some (error_response 400 "invalid_target_host")), s)
      | Ok canonicalHost =>
        if hostHeaderMismatched req canonicalHost then ((req, Some (error_response 400 "host_mismatch")), s)
        else
          match validateRequestSecurity req with
          | Err _ => ((req, Some (error_response 400 "invalid_request")), s)
          | Ok _ =>
            match findMatchingRoute cfg canonicalHost with
            | None => ((req, None), s)
            | Some route =>
              if negb (isRequestAllowed route req) then
                ((req, Some (error_response 403 "request denied by policy")), s)
              else if negb (bool_decide (is_Header (rt_Inject route) = ""))
                      && negb (bool_decide (is_Value (rt_Inject route) = "")) then
                match resolveHeaderValue (is_Value (rt_Inject route)) (p_creds p) (p_credOpts p) s with
                | (Err _, s) => ((req, Some (error_response 502 "credential_resolution_failed")), s)
                | (Ok value, s) =>
                  ((set_header req (Header_Set (rq_Header req) (is_Header (rt_Inject route)) value), None), s)
                end
              else ((req, None), s)
            end
          end
      end
  end.

(** [handleResponse]; a configuration is always there (see [New], [ReloadConfig]). *)
Definition handleResponse (cfg : HTTPProxyConfig) (resp : option Response) : option Response :=
  match resp with
  | None => None
  | Some r =>
    Some {| rs_Status := rs_Status r; rs_Body := rs_Body r;
            rs_Header := foldl Header_Del (rs_Header r) (hp_StripResponseHeaders cfg) |}
  end.
End proxy.
