(* ===== verification/HttpProxyLaws.v ===== *)
(** Package [internal/httpproxy]: when a credential is injected, who is served,
    which addresses are dialled. *)

From S2P Require Import Prelude GoStrings Json GoTime GoNet Base64 Auth Regexp ConfigTypes Interpolate Paths Sources Fetch.
From S2P Require Import Resolve Config Settings ConfigLaws PathRules HttpProxy.
Local Open Scope Z_scope.

(** ** Proxy authorization *)

Lemma secureEqual_iff a b : secureEqual a b = true ↔ a = b.
Proof.
  unfold secureEqual, ConstantTimeCompare. destruct (Z.eqb_spec (slen a) (slen b)) as [E|E]; cbn [negb].
  - rewrite Z.eqb_eq. destruct (bool_decide_reflect (s2b a = s2b b)) as [H|H].
    + split; [|done]. intros _. by apply (inj s2b).
    + split; [done|]. by intros ->.
  - split; [done|]. by intros ->.
Qed.

(** The header value a client sends for a token. *)
Definition basic_credentials (token : string) : string :=
  "Basic " +:+ EncodeToString StdEncoding (s2b ("claw:" +:+ token)).

(** A base64 text is visible ASCII, which [TrimSpace] keeps. *)
Definition visible (c : ascii) : Prop := 33 ≤ code c < 128.

Lemma visible_segs b : Forall (λ c, code c < 128) b → rune_segs b = (λ c, (code c, [c])) <$> b.
Proof. induction 1 as [|c b Hc _ IH]; [done|]. rewrite ascii_segs_app by done. by rewrite IH. Qed.

Lemma visible_not_space c : visible c → is_space (code c) = false.
Proof.
  unfold visible. intros Hc. assert (forallb (λ c, negb ((33 <=? code c) && (code c <? 128)) || negb (is_space (code c)))
    all_ascii = true) as H by (vm_compute; done).
  pose proof (forallb_ascii _ H c) as Hx. cbv beta in Hx. destruct (is_space (code c)); [|done].
  rewrite orb_false_r, negb_true_iff, andb_false_iff in Hx. lia.
Qed.

Lemma trim_space_ascii c b d :
  Forall (λ c, code c < 128) (c :: b ++ [d]) → visible c → visible d →
  trim_space (c :: b ++ [d]) = c :: b ++ [d].
Proof.
  intros Ha Hc Hd. unfold trim_space. rewrite visible_segs by done.
  set (f := λ c : ascii, (code c, [c])). set (sp := λ s : Z * bytes, is_space s.1).
  assert (sp (f c) = false ∧ sp (f d) = false) as [Hfc Hfd] by (split; by apply visible_not_space).
  rewrite fmap_cons. cbn [drop_while]. rewrite Hfc. unfold drop_while_end.
  rewrite fmap_app. change (f <$> [d]) with [f d]. rewrite reverse_cons, reverse_app.
  change (reverse [f d]) with [f d]. cbn [app drop_while]. rewrite Hfd.
  assert (∀ l : bytes, mjoin (f <$> l).*2 = l) as Hj.
  { clear. induction l as [|x l IH]; [done|]. cbn. by f_equal. }
  transitivity (mjoin (f <$> (c :: b ++ [d])).*2); [|apply Hj]. do 2 f_equal.
  rewrite reverse_cons, reverse_app, reverse_involutive, fmap_cons, fmap_app. done.
Qed.

Lemma encode_visible b : Forall visible (encode StdEncoding b).
Proof.
  assert (∀ v, visible (digit StdEncoding v)) as Hd.
  { intros v. assert (forallb (λ c, (33 <=? code c) && (code c <? 128)) ("="%char :: std_alphabet) = true) as H
      by (vm_compute; done). rewrite forallb_forall in H.
    assert (In (digit StdEncoding v) ("="%char :: std_alphabet)) as Hin.
    { unfold digit. cbn [alphabet StdEncoding]. destruct (nth_in_or_default (Z.to_nat v) std_alphabet pad) as [Hi|Hi];
        [by right|left; by rewrite Hi]. }
    specialize (H _ Hin). unfold visible. lia. }
  assert (visible pad) as Hp by (unfold visible; vm_compute; done).
  induction b as [| | |x y z b IH] using bytes_ind3; cbn [encode]; repeat (constructor; [by auto|]); auto.
Qed.

Lemma encode_nonempty b : b ≠ [] → encode StdEncoding b ≠ [].
Proof. destruct b as [|x [|y [|z b]]]; done. Qed.

Lemma Cut_app (a b : string) (c : ascii) : c ∉ s2b a → Cut (a +:+ String c b) (String c "") = (a, b, true).
Proof.
  intros Hc. unfold Cut, Index. rewrite s2b_app. change (s2b (String c b)) with (c :: s2b b).
  assert (∀ l : bytes, c ∉ l → index_of (l ++ c :: s2b b) [c] = Some (length l)) as Hi.
  { clear. induction l as [|x l IH]; intros Hx; cbn [app index_of has_prefix].
    - by rewrite bool_decide_eq_true_2.
    - apply not_elem_of_cons in Hx as [Hx Hl]. rewrite bool_decide_eq_false_2 by done. cbn [andb].
      by rewrite IH. }
  change (s2b (String c "")) with [c]. rewrite Hi by done. unfold SliceTo, SliceFrom. rewrite s2b_app.
  rewrite take_app_length, b2s_s2b. do 2 f_equal. apply (inj s2b). rewrite s2b_b2s.
  change (s2b (String c b)) with ([c] ++ s2b b). rewrite app_assoc, drop_app_length'; [done|].
  rewrite length_app. done.
Qed.

Lemma parse_basic token : parseProxyAuthorization (basic_credentials token) = Some ("claw", token).
Proof.
  unfold parseProxyAuthorization, basic_credentials. set (enc := EncodeToString _ _).
  assert (TrimSpace ("Basic " +:+ enc) = "Basic " +:+ enc) as ->.
  { unfold TrimSpace. apply (inj s2b). rewrite s2b_b2s, s2b_app. unfold enc, EncodeToString. rewrite s2b_b2s.
    set (e := encode _ _). pose proof (encode_visible (s2b ("claw:" +:+ token))) as Hv. fold e in Hv.
    assert (e ≠ []) as Hne by (apply encode_nonempty; by rewrite s2b_app).
    destruct (exists_last Hne) as (e' & d & Ee). rewrite Ee in *. clear Ee Hne.
    apply Forall_app in Hv as [Hv Hd]. rewrite Forall_cons in Hd. destruct Hd as [Hd _].
    change (s2b "Basic " ++ e' ++ [d]) with ("B"%char :: s2b "asic " ++ e' ++ [d]). rewrite app_assoc.
    apply trim_space_ascii; [|unfold visible; change (code "B") with 66; lia|done].
    constructor; [done|]. rewrite <- app_assoc. apply Forall_app. split; [repeat constructor|].
    apply Forall_app. split; [|constructor; [unfold visible in *; lia|constructor]].
    eapply Forall_impl; [exact Hv|]. unfold visible. intros; lia. }
  unfold SplitN2. change ("Basic " +:+ enc) with ("Basic" +:+ String " " enc).
  rewrite Cut_app by (apply (bool_decide_eq_true_1 _); by vm_compute).
  change (EqualFold "Basic" "Basic") with true. cbn [negb].
  unfold enc. rewrite (DecodeString_EncodeToString StdEncoding). cbn [mbind option_bind].
  rewrite b2s_s2b. change ("claw:" +:+ token) with ("claw" +:+ String ":" token).
  rewrite Cut_app by (apply (bool_decide_eq_true_1 _); by vm_compute). done.
Qed.

Section laws.
Context `{RE : Regexp} `{UC : UnicodeCase} `{UH : UrlHostname} `{OSi : OS} `{FI : Files} `{LI : Libraries}
  `{MR : MapRange} `{GH : GitHubLib}.

(** The request presents the proxy's token. *)
Definition presents_token (p : Proxy) (req : Request) : Prop :=
  parseProxyAuthorization (Header_Get (rq_Header req) "Proxy-Authorization") = Some ("claw", p_authToken p).

Lemma authenticated_iff p req ctx :
  isAuthenticatedProxyRequest p (Some req) ctx = true ↔
  p_requireAuth p = false ∨ connectAuthenticated ctx = true ∨ presents_token p req.
Proof.
  unfold isAuthenticatedProxyRequest, isConnectAuthenticated, presents_token.
  destruct (p_requireAuth p); cbn [negb]; [|by split; [left|]].
  destruct (connectAuthenticated ctx); [by split; [right; left|]|].
  destruct (parseProxyAuthorization _) as [[u t]|]; [|by split; [|intros [|[|]]]].
  destruct (secureEqual u proxyAuthUser) eqn:Eu; cbn [negb].
  - apply secureEqual_iff in Eu as ->. rewrite secureEqual_iff. unfold proxyAuthUser. split.
    + intros ->. by right; right.
    + by intros [|[|[= ->]]].
  - split; [done|]. intros [|[|[= -> ->]]]; [done..|].
    assert (secureEqual "claw" proxyAuthUser = true) by (by apply secureEqual_iff). congruence.
Qed.

(** A CONNECT tunnel: the requests inside run with the context of the CONNECT. *)
Fixpoint serve_requests (p : Proxy) (ctx : ProxyCtx) (reqs : list Request) (s : sys)
    : list (Request * option Response) * sys :=
  match reqs with
  | [] => ([], s)
  | req :: reqs =>
    let '(r, s) := handleRequest p req ctx s in
    let '(rs, s) := serve_requests p ctx reqs s in (r :: rs, s)
  end.

Definition serve_tunnel (p : Proxy) (connect : Request) (reqs : list Request) (s : sys)
    : list (Request * option Response) * sys :=
  match handleConnect p (Some connect) new_ctx with
  | (MitmConnect, ctx) => serve_requests p ctx reqs s
  | (ProxyAuthHijack _, _) => ([], s)
  end.

(** ** A run of [handleRequest] *)

Lemma handleRequest_cases p req ctx s :
  let '((req', resp), s') := handleRequest p req ctx s in
  (req' = req ∨ req' = strip_proxy_headers req) ∧ s' = s ∨
  ∃ cfg host route,
    p_cfg p = Some cfg ∧ hp_Enabled cfg = true ∧ isAuthenticatedProxyRequest p (Some req) ctx = true ∧
    canonicalRequestHost (strip_proxy_headers req) = Ok host ∧
    hostHeaderMismatched (strip_proxy_headers req) host = false ∧
    checkRequestSmuggling (strip_proxy_headers req) = Ok tt ∧
    findMatchingRoute cfg host = Some route ∧ isRequestAllowed route (strip_proxy_headers req) = true ∧
    match resolveHeaderValue (is_Value (rt_Inject route)) (p_creds p) (p_credOpts p) s with
    | (Ok value, s1) => s' = s1 ∧ resp = None ∧
        req' = set_header (strip_proxy_headers req)
                 (Header_Set (rq_Header (strip_proxy_headers req)) (is_Header (rt_Inject route)) value)
    | (Err _, s1) => s' = s1 ∧ req' = strip_proxy_headers req ∧
        resp = Some (error_response 502 "credential_resolution_failed")
    end.
Proof.
  unfold handleRequest. destruct (p_cfg p) as [cfg|]; [|left; by split; [left|]].
  destruct (hp_Enabled cfg) eqn:Een; cbn [negb]; [|left; by split; [left|]].
  destruct (isAuthenticatedProxyRequest _ _ _) eqn:Ea; cbn [negb]; [|left; by split; [left|]].
  cbv zeta. set (req1 := strip_proxy_headers req).
  destruct (canonicalRequestHost req1) as [host|] eqn:Eh; [|left; by split; [right|]].
  destruct (hostHeaderMismatched req1 host) eqn:Em; [left; by split; [right|]|].
  unfold validateRequestSecurity. destruct (checkRequestSmuggling req1) as [[]|] eqn:Es; [|left; by split; [right|]].
  destruct (findMatchingRoute cfg host) as [route|] eqn:Ef; [|left; by split; [right|]].
  destruct (isRequestAllowed route req1) eqn:Eal; cbn [negb]; [|left; by split; [right|]].
  destruct (_ && _); [|left; by split; [right|]].
  destruct (resolveHeaderValue _ _ _ s) as [[v|e] s1] eqn:Er; right; exists cfg, host, route; rewrite Er; done.
Qed.

(** A forwarded request has no [name] header, or it is the one a route injects. *)
Definition no_client_header (p : Proxy) (s : sys) (req : Request) (name : string) : Prop :=
  rq_Header req !! name = None ∨
  ∃ cfg route value, p_cfg p = Some cfg ∧ route ∈ hp_Routes cfg ∧
    CanonicalHeaderKey (is_Header (rt_Inject route)) = name ∧
    (resolveHeaderValue (is_Value (rt_Inject route)) (p_creds p) (p_credOpts p) s).1 = Ok value ∧
    rq_Header req !! name = Some [value].

Lemma strip_proxy_headers_lookup req name :
  name ∈ ["Proxy-Authorization"; "Proxy-Connection"] → rq_Header (strip_proxy_headers req) !! name = None.
Proof.
  unfold strip_proxy_headers, set_header, Header_Del. cbn [rq_Header].
  change (CanonicalHeaderKey "Proxy-Authorization") with "Proxy-Authorization".
  change (CanonicalHeaderKey "Proxy-Connection") with "Proxy-Connection".
  rewrite !elem_of_cons. intros [->|[->|[]%elem_of_nil]]; [|by rewrite lookup_delete_eq].
  by rewrite lookup_delete_ne, lookup_delete_eq.
Qed.

Lemma forwarded_headers p req ctx s req' s' name :
  handleRequest p req ctx s = ((req', None), s') →
  name ∈ ["Proxy-Authorization"; "Proxy-Connection"] → no_client_header p s req' name.
Proof.
  intros Hf Hn. pose proof (strip_proxy_headers_lookup req name Hn) as Hs. revert Hf. unfold handleRequest.
  destruct (p_cfg p) as [cfg|] eqn:Ecfg; [|done]. destruct (hp_Enabled cfg); cbn [negb]; [|done].
  destruct (isAuthenticatedProxyRequest _ _ _); cbn [negb]; [|done]. cbv zeta.
  set (req1 := strip_proxy_headers req) in *.
  destruct (canonicalRequestHost req1) as [host|]; [|done]. destruct (hostHeaderMismatched _ _); [done|].
  destruct (validateRequestSecurity req1); [|done].
  destruct (findMatchingRoute cfg host) as [route|] eqn:Er; [|intros [= <- <-]; by left].
  destruct (isRequestAllowed _ _); cbn [negb]; [|done]. destruct (_ && _); [|intros [= <- <-]; by left].
  destruct (resolveHeaderValue _ _ _ s) as [[value|] s1] eqn:Ev; [|done]. intros [= <- <-].
  apply List.find_some in Er as [Hin _]. unfold no_client_header, set_header, Header_Set. cbn [rq_Header].
  destruct (decide (CanonicalHeaderKey (is_Header (rt_Inject route)) = name)) as [Hk|Hk].
  - right. exists cfg, route, value. rewrite Ev, Hk, lookup_insert_eq. by rewrite list_elem_of_In.
  - left. by rewrite lookup_insert_ne.
Qed.

Lemma findMatchingRoute_Some cfg host route :
  findMatchingRoute cfg host = Some route → route ∈ hp_Routes cfg ∧ matchHostWithRoute route host = true.
Proof.
  unfold findMatchingRoute. intros Hf. apply List.find_some in Hf as [Hin Hm]. split; [|done].
  by apply list_elem_of_In.
Qed.

Lemma isRequestAllowed_iff route req :
  isRequestAllowed route req = true ↔
  (∀ rule, rule ∈ rt_DenyRules route → matchPathRule rule (rq_Method req) (url_path req) = false) ∧
  (rt_AllowRules route = [] ∨
   ∃ rule, rule ∈ rt_AllowRules route ∧ matchPathRule rule (rq_Method req) (url_path req) = true).
Proof.
  unfold isRequestAllowed.
  assert (∀ l, existsb (λ r, matchPathRule r (rq_Method req) (url_path req)) l = true ↔
    ∃ r, r ∈ l ∧ matchPathRule r (rq_Method req) (url_path req) = true) as Hex.
  { intros l. rewrite existsb_exists. setoid_rewrite <- list_elem_of_In. done. }
  destruct (existsb _ (rt_DenyRules route)) eqn:Ed.
  - split; [done|]. intros [Hd _]. apply Hex in Ed as (r & Hr & Hm). by rewrite Hd in Hm.
  - assert (∀ rule, rule ∈ rt_DenyRules route → matchPathRule rule (rq_Method req) (url_path req) = false) as Hd.
    { intros rule Hr. destruct (matchPathRule _ _ _) eqn:Em; [|done].
      rewrite (proj2 (Hex _)) in Ed; [done|by exists rule]. }
    destruct (rt_AllowRules route) as [|a l]; [by split; [split; [|left]|]|].
    rewrite Hex. split; [intros H; split; [done|by right]|]. by intros [_ [|]].
Qed.

(** A route as validation leaves it, with a pattern in UTF-8. *)
Definition compiled_route (r : ProxyRoute) : Prop :=
  ∃ re, compileHostPattern (rt_Host r) = Ok re ∧ rt_HostRegex r = Some re ∧
    ValidString (host_norm (rt_Host r)) = true.

Lemma validated_route_compiled creds i r0 r :
  validate_route creds i r0 = Ok r → ValidString (host_norm (rt_Host r)) = true → compiled_route r.
Proof.
  unfold validate_route. intros Hok Hv. inv_ok. simplify_eq. cbn [rt_Host] in *. eexists. by split.
Qed.

(** ** Properties *)

(** C9: A credential leaves the daemon only where the configuration sends it.
    When handling a request touches the credentials or changes the request beyond
    removing the proxy's own headers, then the proxy is enabled, the request is
    authenticated, its target host is the one its Host header names and matches
    the pattern of the first matching route, no header smuggling is possible, no
    deny rule of that route matches, some allow rule does if there are any, and
    the only change is that route's header. *)
Theorem injection_guarded `{!RegexpLaws} p req ctx s cfg :
  p_cfg p = Some cfg → Forall compiled_route (hp_Routes cfg) →
  let '((req', resp), s') := handleRequest p req ctx s in
  s' ≠ s ∨ (req' ≠ req ∧ req' ≠ strip_proxy_headers req) →
  hp_Enabled cfg = true ∧ isAuthenticatedProxyRequest p (Some req) ctx = true ∧
  ∃ host route, canonicalRequestHost req = Ok host ∧ hostHeaderMismatched req host = false ∧
    route ∈ hp_Routes cfg ∧ host_matches (rt_Host route) host ∧
    checkRequestSmuggling (strip_proxy_headers req) = Ok tt ∧
    (∀ rule, rule ∈ rt_DenyRules route → matchPathRule rule (rq_Method req) (url_path req) = false) ∧
    (rt_AllowRules route = [] ∨
     ∃ rule, rule ∈ rt_AllowRules route ∧ matchPathRule rule (rq_Method req) (url_path req) = true) ∧
    (resp = None → ∃ value s1, resolveHeaderValue (is_Value (rt_Inject route)) (p_creds p) (p_credOpts p) s
         = (Ok value, s1) ∧
       rq_Header req' = Header_Set (rq_Header (strip_proxy_headers req)) (is_Header (rt_Inject route)) value).
Proof.
  intros Hcfg Hroutes. pose proof (handleRequest_cases p req ctx s) as Hc.
  destruct (handleRequest p req ctx s) as [[req' resp] s']. intros Hch.
  destruct Hc as [[Hr Hs]|(cfg' & host & route & Hcfg' & Hen & Ha & Hh & Hm & Hsm & Hf & Hal & Hres)].
  { destruct Hr, Hch as [|[]]; done. }
  rewrite Hcfg in Hcfg'. injection Hcfg' as <-. split; [done|]. split; [done|].
  apply findMatchingRoute_Some in Hf as [Hin Hmt]. exists host, route.
  split; [done|]. split; [done|]. split; [done|]. split.
  { rewrite Forall_forall in Hroutes. destruct (Hroutes _ Hin) as (re & Hre & Hrx & Hv).
    apply (compile_host_matches _ re); [done..|]. unfold matchHostWithRoute in Hmt. by rewrite Hrx in Hmt. }
  split; [done|]. apply isRequestAllowed_iff in Hal as [Hd Hal]. split; [done|]. split; [done|].
  intros ->. destruct (resolveHeaderValue _ _ _ s) as [[v|e] s1]; [|by destruct Hres as (? & ? & ?)].
  exists v, s1. split; [done|]. by destruct Hres as (_ & _ & ->).
Qed.

(** C10: Nobody is served without the token, and the token stays in the daemon.
    With authentication required, a request in a tunnel is forwarded, or a
    credential used for it, only if the CONNECT presented the token, and a plain
    request only if it did itself. The Basic header for the token is accepted
    whatever the token is. And no request that [handleRequest] forwards, inside
    a tunnel or not, carries a Proxy-Authorization or a Proxy-Connection header of
    its client: such a header can only be the one a configured route injects, with
    the value resolved for it. *)
Theorem proxy_authenticated p connect reqs s :
  p_requireAuth p = true →
  (∀ rs s', serve_tunnel p connect reqs s = (rs, s') → rs ≠ [] ∨ s' ≠ s → presents_token p connect) ∧
  (∀ req req' s', handleRequest p req new_ctx s = ((req', None), s') → presents_token p req) ∧
  (∀ req, Header_Get (rq_Header req) "Proxy-Authorization" = basic_credentials (p_authToken p) → presents_token p req) ∧
  (∀ req ctx req' s', handleRequest p req ctx s = ((req', None), s') →
    ∀ name, name ∈ ["Proxy-Authorization"; "Proxy-Connection"] → no_client_header p s req' name).
Proof.
  intros Hreq. split; [|split; [|split]].
  - intros rs s'. unfold serve_tunnel, handleConnect.
    destruct (isAuthenticatedProxyRequest p (Some connect) new_ctx) eqn:Ea; cbn [negb].
    + intros _ _. apply authenticated_iff in Ea as [?|[?|?]]; [congruence|done|done].
    + by intros [= <- <-] [].
  - intros req req' s'. unfold handleRequest. destruct (p_cfg p); [|done]. destruct (hp_Enabled _); [|done].
    cbn [negb]. destruct (isAuthenticatedProxyRequest p (Some req) new_ctx) eqn:Ea; [|done]. intros _.
    apply authenticated_iff in Ea as [?|[?|?]]; [congruence|done|done].
  - intros req Hh. unfold presents_token. rewrite Hh. apply parse_basic.
  - intros req ctx req' s' Hf name Hn. by eapply forwarded_headers.
Qed.
End laws.

(** ** Dialled addresses *)

Definition is_byte (z : Z) : Prop := 0 ≤ z < 256.

(** The IPv4 addresses the proxy refuses to dial. *)
Definition reserved_v4 (a b c : Z) : Prop :=
  a = 0 ∨ a = 10 ∨ a = 127 ∨ 224 ≤ a ∨ a = 169 ∧ b = 254 ∨ a = 172 ∧ 16 ≤ b < 32 ∨ a = 192 ∧ b = 168 ∨
  a = 100 ∧ 64 ≤ b < 128 ∨ a = 192 ∧ b = 0 ∧ (c = 0 ∨ c = 2) ∨ a = 198 ∧ b = 51 ∧ c = 100 ∨
  a = 203 ∧ b = 0 ∧ c = 113.

Definition all_bytes : list Z := seqZ 0 256.

Lemma forall_byte (P : Z → bool) x : forallb P all_bytes = true → is_byte x → P x = true.
Proof.
  rewrite forallb_forall. intros H Hx. apply H. apply list_elem_of_In. unfold all_bytes.
  apply elem_of_seqZ. unfold is_byte in Hx. lia.
Qed.

Lemma land_zero m x : m = 0 → (Z.land 0 m =? Z.land x m) = true.
Proof. intros ->. by rewrite !Z.land_0_r. Qed.

Lemma isPrivateIP_v4 a b c d :
  is_byte a → is_byte b → is_byte c → is_byte d →
  isPrivateIP (IPv4 a b c d) = true ↔ reserved_v4 a b c.
Proof.
  intros Ha Hb Hc Hd.
  set (eq m v x := Z.land v m =? Z.land x m).
  assert (isPrivateIP (IPv4 a b c d) =
    (existsb (λ q : Z * Z * Z * Z, let '(i, j, k, o) := q in
       eq (mask_byte o 0) i a && (eq (mask_byte o 1) j b && (eq (mask_byte o 2) k c && (eq (mask_byte o 3) 0 d && true))))
     [(10,0,0,8); (172,16,0,12); (192,168,0,16); (127,0,0,8); (169,254,0,16); (0,0,0,8); (100,64,0,10);
      (192,0,0,24); (192,0,2,24); (198,51,100,24); (203,0,113,24); (224,0,0,4); (240,0,0,4)])) as -> by done.
  cbn [existsb].
  change (mask_byte 8 0) with 255; change (mask_byte 8 1) with 0; change (mask_byte 8 2) with 0;
  change (mask_byte 8 3) with 0; change (mask_byte 12 0) with 255; change (mask_byte 12 1) with 240;
  change (mask_byte 12 2) with 0; change (mask_byte 12 3) with 0; change (mask_byte 16 0) with 255;
  change (mask_byte 16 1) with 255; change (mask_byte 16 2) with 0; change (mask_byte 16 3) with 0;
  change (mask_byte 10 0) with 255; change (mask_byte 10 1) with 192; change (mask_byte 10 2) with 0;
  change (mask_byte 10 3) with 0; change (mask_byte 24 0) with 255; change (mask_byte 24 1) with 255;
  change (mask_byte 24 2) with 255; change (mask_byte 24 3) with 0; change (mask_byte 4 0) with 240;
  change (mask_byte 4 1) with 0; change (mask_byte 4 2) with 0; change (mask_byte 4 3) with 0.
  assert (∀ v x, is_byte v → is_byte x → eq 255 v x = (x =? v)) as H255.
  { intros v x Hv Hx. unfold eq.
    assert (∀ x, Z.land x 255 = x mod 256) as Hl by (intros y; by apply (Z.land_ones y 8)).
    rewrite !Hl. unfold is_byte in *. rewrite !Z.mod_small by lia. apply Z.eqb_sym. }
  assert (∀ x, eq 0 0 x = true) as H0 by (intros x; by apply land_zero).
  assert (∀ x, is_byte x → eq 240 16 x = (16 <=? x) && (x <? 32)) as H16.
  { intros x Hx. apply (forall_byte (λ x, eqb (eq 240 16 x) ((16 <=? x) && (x <? 32)))) in Hx; [|by vm_compute].
    by apply eqb_prop. }
  assert (∀ x, is_byte x → eq 192 64 x = (64 <=? x) && (x <? 128)) as H64.
  { intros x Hx. apply (forall_byte (λ x, eqb (eq 192 64 x) ((64 <=? x) && (x <? 128)))) in Hx; [|by vm_compute].
    by apply eqb_prop. }
  assert (∀ x, is_byte x → eq 240 224 x || (eq 240 240 x || false) = (224 <=? x)) as H224.
  { intros x Hx. apply (forall_byte (λ x, eqb (eq 240 224 x || (eq 240 240 x || false)) (224 <=? x))) in Hx; [|by vm_compute].
    by apply eqb_prop. }
  rewrite !H0, !andb_true_r. rewrite H224 by done. rewrite H16, H64 by done.
  rewrite !H255 by (done || (unfold is_byte; lia)). clear. unfold reserved_v4.
  rewrite !orb_true_iff, !andb_true_iff, !Z.eqb_eq, !Z.leb_le, !Z.ltb_lt. clear. split; tauto.
Qed.

(** The dialled address is checked after name resolution: a connection is
    allowed only over TCP to a literal address, and for IPv4, mapped addresses
    included, exactly outside the private, loopback, link-local, shared, test,
    multicast and reserved ranges. *)
Theorem ssrfControl_v4 network address host port a b c d :
  SplitHostPort address = Ok (host, port) → ParseIP host = Some (IPv4 a b c d) →
  is_byte a → is_byte b → is_byte c → is_byte d →
  ssrfControl network address = Ok tt ↔
    (network = "tcp" ∨ network = "tcp4" ∨ network = "tcp6") ∧ ¬ reserved_v4 a b c.
Proof.
  intros Hs Hp Ha Hb Hc Hd. unfold ssrfControl. rewrite Hs. cbn [wrap_err mbind result_bind].
  rewrite Hp. rewrite <- (isPrivateIP_v4 a b c d) by done.
  destruct (bool_decide_reflect (network ∈ ["tcp"; "tcp4"; "tcp6"])) as [Hn|Hn]; cbn [negb].
  - destruct (isPrivateIP _); [split; [done|by intros []]|]. split; [|done]. intros _. split; [|done]. set_solver.
  - split; [done|]. intros [Hn' _]. exfalso. apply Hn. set_solver.
Qed.

(** The IPv6 ranges are incomplete: the unspecified address, which the system
    connects to the local host, an address that reaches a private IPv4 address
    through NAT64, and IPv6 multicast are dialled. *)
Theorem ssrf_ipv6_gaps :
  ssrfControl "tcp" "[::]:8080" = Ok tt ∧ ssrfControl "tcp" "[64:ff9b::a00:1]:80" = Ok tt ∧
  ssrfControl "tcp" "[ff02::1]:80" = Ok tt ∧ is_ok (ssrfControl "tcp" "0.0.0.0:8080") = false.
Proof. vm_compute. done. Qed.
