(* ===== verification/SecretFile.v ===== *)
(** The secrets kept in files: the HMAC secret ([internal/auth/auth.go]) and the
    proxy's token ([internal/daemon/daemon.go]), written through a temporary file
    and a rename.

    The files of the runtime directory are the state; each step the system may
    refuse consults [fs_faults]. A refused step has no effect, and a file is
    written through the handle of [CreateTemp], so it is named by its path. *)

From S2P Require Import Prelude GoStrings GoPath Base64 World Sources HttpProxyLaws.
Local Open Scope Z_scope.

Record fnode := {
  nd_symlink : bool;
  nd_regular : bool;
  nd_mode : Z;
  nd_uid : Z;
  nd_data : bytes;
}.

Record fs := { fs_nodes : gmap string fnode; fs_faults : list bool }.

Definition fs_refused (f : fs) : bool * fs :=
  match fs_faults f with
  | [] => (false, f)
  | b :: bs => (b, {| fs_nodes := fs_nodes f; fs_faults := bs |})
  end.

Definition set_nodes (f : fs) (m : gmap string fnode) : fs := {| fs_nodes := m; fs_faults := fs_faults f |}.

Definition fs_error : error := Sentinel "io".

(** A call without an effect in the model: [MkdirAll], [Sync], [Close]. *)
Definition fs_call (f : fs) : option error * fs :=
  let '(b, f) := fs_refused f in (if b then Some fs_error else None, f).

Definition fs_create_temp (f : fs) (uid : Z) (prefix : string) : result string * fs :=
  match fs_refused f with
  | (true, f) => (Err fs_error, f)
  | (false, f) =>
    let path := temp_name prefix ((λ _, []) <$> fs_nodes f) in
    (Ok path, set_nodes f (<[path := {| nd_symlink := false; nd_regular := true; nd_mode := 0x180;
                                        nd_uid := uid; nd_data := [] |}]> (fs_nodes f)))
  end.

Definition fs_update (f : fs) (path : string) (g : fnode → fnode) : option error * fs :=
  match fs_refused f with
  | (true, f) => (Some fs_error, f)
  | (false, f) => (None, set_nodes f (alter g path (fs_nodes f)))
  end.

Definition set_mode (mode : Z) (n : fnode) : fnode :=
  {| nd_symlink := nd_symlink n; nd_regular := nd_regular n; nd_mode := mode; nd_uid := nd_uid n;
     nd_data := nd_data n |}.
Definition add_data (data : bytes) (n : fnode) : fnode :=
  {| nd_symlink := nd_symlink n; nd_regular := nd_regular n; nd_mode := nd_mode n; nd_uid := nd_uid n;
     nd_data := nd_data n ++ data |}.

(** [os.Rename]: the target is replaced at once. *)
Definition fs_rename (f : fs) (old new : string) : option error * fs :=
  match fs_refused f with
  | (true, f) => (Some fs_error, f)
  | (false, f) =>
    match fs_nodes f !! old with
    | None => (Some fs_error, f)
    | Some n => (None, set_nodes f (<[new := n]> (delete old (fs_nodes f))))
    end
  end.

Definition fs_remove (f : fs) (path : string) : fs :=
  match fs_refused f with (true, f) => f | (false, f) => set_nodes f (delete path (fs_nodes f)) end.

(** [os.Lstat] finds a symbolic link. *)
Definition is_symlink (f : fs) (path : string) : bool :=
  match fs_nodes f !! path with Some n => nd_symlink n | None => false end.

(** The common course of the two writers, with the messages of the first: the
    deferred function removes the temporary file unless it was renamed. [sync]
    is the call only the second makes. *)
Definition write_through (f : fs) (uid : Z) (path tmp_prefix : string) (mode : Z) (data : bytes) (sync : bool)
    (msgs : string → string) : result unit * fs :=
  let dir := Dir path in
  let fail tmp what e f := (Err (Wrapf (msgs what) [] e), fs_remove f tmp) in
  match fs_call f with
  | (Some e, f) => (Err (Wrapf (msgs "mkdir") [FS dir] e), f)
  | (None, f) =>
    if is_symlink f path then (Err (Errorf (msgs "symlink") [FS path]), f)
    else
      match fs_create_temp f uid (PathJoin [dir; tmp_prefix]) with
      | (Err e, f) => (Err (Wrapf (msgs "temp") [] e), f)
      | (Ok tmp, f) =>
        match fs_update f tmp (set_mode mode) with
        | (Some e, f) => let '(_, f) := fs_call f in fail tmp "chmod" e f
        | (None, f) =>
          match fs_update f tmp (add_data data) with
          | (Some e, f) => let '(_, f) := fs_call f in fail tmp "write" e f
          | (None, f) =>
            let '(synced, f) := if sync then fs_call f else (None, f) in
            match synced with
            | Some e => let '(_, f) := fs_call f in fail tmp "sync" e f
            | None =>
              match fs_call f with
              | (Some e, f) => fail tmp "close" e f
              | (None, f) =>
                match fs_rename f tmp path with
                | (Some e, f) => fail tmp "rename" e f
                | (None, f) => (Ok tt, f)
                end
              end
            end
          end
        end
      end
  end.

(** ** [auth.go] *)

Definition SecretSize : Z := 32.
Definition NonceSize : Z := 16.
Definition ErrSecretNotFound : error := Sentinel "ErrSecretNotFound".

(** [rand.Read] of [n] bytes is the argument [random]. *)
Definition GenerateSecret (random : result bytes) : result bytes :=
  wrap_err "failed to generate random secret: %w" [] random.
Definition GenerateNonce (random : result bytes) : result string :=
  wrap_err "failed to generate nonce: %w" [] random ≫= λ nonce, Ok (EncodeToString StdEncoding nonce).

Definition secret_msgs (what : string) : string :=
  if bool_decide (what = "mkdir") then "failed to create directory %s: %w"
  else if bool_decide (what = "symlink") then "refusing to write secret: %s is a symlink"
  else if bool_decide (what = "temp") then "failed to create temp file: %w"
  else if bool_decide (what = "chmod") then "failed to set permissions: %w"
  else if bool_decide (what = "write") then "failed to write secret: %w"
  else if bool_decide (what = "close") then "failed to close temp file: %w"
  else "failed to rename temp file: %w".

Definition line_break : string := String "010" "".

Definition WriteSecretWithMode (f : fs) (uid : Z) (path : string) (secret : bytes) (mode : Z) : result unit * fs :=
  write_through f uid path ".auth-secret-" mode (s2b (EncodeToString StdEncoding secret +:+ line_break)) false
    secret_msgs.
Definition WriteSecret (f : fs) (uid : Z) (path : string) (secret : bytes) : result unit * fs :=
  WriteSecretWithMode f uid path secret 0x180.

Definition LoadSecret (f : fs) (path : string) : result bytes :=
  if is_symlink f path then Err (Errorf "refusing to read secret: %s is a symlink" [FS path])
  else
    match fs_nodes f !! path with
    | None => Err ErrSecretNotFound
    | Some n =>
      match DecodeString StdEncoding (TrimSpace (b2s (nd_data n))) with
      | None => Err (Wrapf "failed to decode secret: %w" [] (Sentinel "base64"))
      | Some secret => Ok secret
      end
    end.

(** ** The proxy's token ([daemon.go]) *)

Definition proxyAuthTokenBytes : Z := 32.
Definition errProxyAuthTokenNotFound : error := Sentinel "errProxyAuthTokenNotFound".

Definition generateProxyAuthToken (random : result bytes) : result string :=
  random ≫= λ buf, Ok (EncodeToString RawURLEncoding buf).

Definition validateProxyAuthToken (token : string) : result unit :=
  if bool_decide (token = "") then Err (Errorf "proxy auth token is empty" [])
  else
    match DecodeString RawURLEncoding token with
    | None => Err (Wrapf "proxy auth token is not valid base64url: %w" [] (Sentinel "base64"))
    | Some decoded =>
      guard_err (negb (blen decoded =? proxyAuthTokenBytes))
        (Errorf "proxy auth token entropy size = %d, want %d" [FZ (blen decoded); FZ proxyAuthTokenBytes])
    end.

Definition loadProxyAuthToken (f : fs) (uid : Z) (path : string) : result string :=
  match fs_nodes f !! path with
  | None => Err errProxyAuthTokenNotFound
  | Some n =>
    if nd_symlink n then Err (Errorf "proxy auth token file must not be a symlink: %s" [FS path])
    else if negb (nd_regular n) then Err (Errorf "proxy auth token file must be a regular file: %s" [FS path])
    else if negb (nd_mode n =? 0x180) then
      Err (Errorf "proxy auth token file permissions must be 0600: %s has %04o" [FS path; FZ (nd_mode n)])
    else if negb (nd_uid n =? uid) then
      Err (Errorf "proxy auth token file owner must match daemon uid: %s owner=%d daemon=%d"
             [FS path; FZ (nd_uid n); FZ uid])
    else
      let token := TrimSpace (b2s (nd_data n)) in
      wrap_err "invalid proxy auth token in %s: %w" [FS path] (validateProxyAuthToken token) ≫= λ _, Ok token
  end.

Definition token_msgs (what : string) : string :=
  if bool_decide (what = "mkdir") then "create proxy auth token dir: %w"
  else if bool_decide (what = "symlink") then "refusing to write proxy auth token: %s is a symlink"
  else if bool_decide (what = "temp") then "create proxy auth token temp file: %w"
  else if bool_decide (what = "chmod") then "chmod proxy auth token temp file: %w"
  else if bool_decide (what = "write") then "write proxy auth token: %w"
  else if bool_decide (what = "sync") then "sync proxy auth token temp file: %w"
  else if bool_decide (what = "close") then "close proxy auth token temp file: %w"
  else "rename proxy auth token file: %w".

Definition writeProxyAuthToken (f : fs) (uid : Z) (path token : string) : result unit * fs :=
  match validateProxyAuthToken token with
  | Err e => (Err e, f)
  | Ok _ => write_through f uid path ".proxy-auth-token-" 0x180 (s2b (token +:+ line_break)) true token_msgs
  end.

(** [ensureProxyAuthToken]: the token the daemon has, the file's, or a new one. *)
Definition ensureProxyAuthToken (f : fs) (uid : Z) (path current : string) (random : result bytes)
    : result string * fs :=
  if negb (bool_decide (current = "")) then (Ok current, f)
  else
    match loadProxyAuthToken f uid path with
    | Ok token => (Ok token, f)
    | Err e =>
      if negb (errors_is e "errProxyAuthTokenNotFound") then (Err e, f)
      else
        match generateProxyAuthToken random with
        | Err e => (Err e, f)
        | Ok token =>
          match writeProxyAuthToken f uid path token with
          | (Err e, f) => (Err e, f)
          | (Ok _, f) => (Ok token, f)
          end
        end
    end.

(** ** Lemmas *)

Definition written (uid mode : Z) (data : bytes) : fnode :=
  {| nd_symlink := false; nd_regular := true; nd_mode := mode; nd_uid := uid; nd_data := data |}.

Lemma fs_refused_nodes f : fs_nodes (fs_refused f).2 = fs_nodes f ∧
  (fs_faults f = [] → (fs_refused f).1 = false ∧ fs_faults (fs_refused f).2 = []).
Proof. unfold fs_refused. destruct (fs_faults f) eqn:E; by cbn; rewrite ?E. Qed.

Lemma fs_call_nodes f : fs_nodes (fs_call f).2 = fs_nodes f.
Proof. unfold fs_call. pose proof (fs_refused_nodes f) as [H _]. by destruct (fs_refused f) as [[]]. Qed.

Lemma fs_remove_other f tmp p : p ≠ tmp → fs_nodes (fs_remove f tmp) !! p = fs_nodes f !! p.
Proof.
  intros Hp. unfold fs_remove. pose proof (fs_refused_nodes f) as [H _].
  destruct (fs_refused f) as [[] f1]; cbn [snd] in H; cbn [set_nodes fs_nodes]; rewrite ?H; [done|].
  by rewrite lookup_delete_ne.
Qed.

Lemma fs_update_other f tmp g p : p ≠ tmp → fs_nodes (fs_update f tmp g).2 !! p = fs_nodes f !! p.
Proof.
  intros Hp. unfold fs_update. pose proof (fs_refused_nodes f) as [H _].
  destruct (fs_refused f) as [[] f1]; cbn [snd] in *; cbn [set_nodes fs_nodes]; rewrite ?H; [done|].
  by rewrite lookup_alter_ne.
Qed.

Lemma fs_update_same f tmp g :
  (fs_update f tmp g).1 = None → fs_nodes (fs_update f tmp g).2 !! tmp = g <$> fs_nodes f !! tmp.
Proof.
  unfold fs_update. pose proof (fs_refused_nodes f) as [H _].
  destruct (fs_refused f) as [[] f1]; cbn [fst snd] in *; [done|]. intros _. cbn [set_nodes fs_nodes].
  by rewrite H, lookup_alter_eq.
Qed.

Lemma fs_temp_spec f uid prefix tmp f' :
  fs_create_temp f uid prefix = (Ok tmp, f') →
  fs_nodes f !! tmp = None ∧ fs_nodes f' = <[tmp := written uid 0x180 []]> (fs_nodes f).
Proof.
  unfold fs_create_temp. pose proof (fs_refused_nodes f) as [H _].
  destruct (fs_refused f) as [[] f1]; cbn [snd] in H; [done|]. intros [= <- <-]. split; [|by rewrite <- H].
  rewrite <- H. pose proof (temp_name_fresh prefix ((λ _, []) <$> fs_nodes f1)) as Hn.
  rewrite lookup_fmap in Hn. by destruct (fs_nodes f1 !! _).
Qed.

Lemma fs_temp_Err f uid prefix e f' : fs_create_temp f uid prefix = (Err e, f') → fs_nodes f' = fs_nodes f.
Proof.
  unfold fs_create_temp. pose proof (fs_refused_nodes f) as [H _].
  destruct (fs_refused f) as [[] f1]; cbn [snd] in H; [by intros [= _ <-]|done].
Qed.

(** Every file other than the temporary one is what it was, except the target
    once the rename has succeeded. *)
Definition write_outcome (f : fs) (uid : Z) (path : string) (mode : Z) (data : bytes) (r : result unit) (f' : fs)
    : Prop :=
  match r with
  | Ok _ => is_symlink f path = false ∧ fs_nodes f' !! path = Some (written uid mode data) ∧
      ∀ p, p ≠ path → is_Some (fs_nodes f !! p) → fs_nodes f' !! p = fs_nodes f !! p
  | Err _ => ∀ p, is_Some (fs_nodes f !! p) → fs_nodes f' !! p = fs_nodes f !! p
  end.

Lemma write_through_outcome f uid path prefix mode data sync msgs r f' :
  write_through f uid path prefix mode data sync msgs = (r, f') → write_outcome f uid path mode data r f'.
Proof.
  unfold write_through. cbv zeta. pose proof (fs_call_nodes f) as H1.
  destruct (fs_call f) as [[e|] f1]; cbn [snd] in H1.
  { intros [= <- <-] p Hp. by rewrite H1. }
  destruct (is_symlink f1 path) eqn:Es; [intros [= <- <-] p Hp; by rewrite H1|].
  unfold is_symlink in Es. rewrite H1 in Es. change (is_symlink f path = false) in Es.
  destruct (fs_create_temp f1 _ _) as [[tmp|e] f2] eqn:Et.
  2: { apply fs_temp_Err in Et. intros [= <- <-] p Hp. by rewrite Et, H1. }
  apply fs_temp_spec in Et as [Hfresh Et]. rewrite H1 in *.
  assert (∀ p, is_Some (fs_nodes f !! p) → p ≠ tmp) as Hne.
  { intros p [n Hn] ->. congruence. }
  assert (∀ p, p ≠ tmp → fs_nodes f2 !! p = fs_nodes f !! p) as H2.
  { intros p Hp. by rewrite Et, lookup_insert_ne. }
  assert (∀ f3 what e, (∀ p, p ≠ tmp → fs_nodes f3 !! p = fs_nodes f !! p) →
    write_outcome f uid path mode data (Err (Wrapf (msgs what) [] e)) (fs_remove f3 tmp)) as Hfail.
  { intros f3 what e H3 p Hp. rewrite fs_remove_other by auto. auto. }
  assert (∀ f3, (∀ p, p ≠ tmp → fs_nodes f3 !! p = fs_nodes f !! p) →
    ∀ p, p ≠ tmp → fs_nodes (fs_call f3).2 !! p = fs_nodes f !! p) as Hcall.
  { intros f3 H3 p Hp. rewrite fs_call_nodes. auto. }
  pose proof (fs_update_same f2 tmp (set_mode mode)) as U3.
  assert (∀ p, p ≠ tmp → fs_nodes (fs_update f2 tmp (set_mode mode)).2 !! p = fs_nodes f !! p) as H3.
  { intros p Hp. rewrite fs_update_other by done. auto. }
  destruct (fs_update f2 _ _) as [[e|] f3]; cbn [fst snd] in *.
  { pose proof (Hcall _ H3) as Hx. destruct (fs_call f3). intros [= <- <-]. by apply Hfail. }
  specialize (U3 eq_refl). rewrite Et, lookup_insert_eq in U3.
  pose proof (fs_update_same f3 tmp (add_data data)) as U4.
  assert (∀ p, p ≠ tmp → fs_nodes (fs_update f3 tmp (add_data data)).2 !! p = fs_nodes f !! p) as H4.
  { intros p Hp. rewrite fs_update_other by done. auto. }
  destruct (fs_update f3 _ _) as [[e|] f4]; cbn [fst snd] in *.
  { pose proof (Hcall _ H4) as Hx. destruct (fs_call f4). intros [= <- <-]. by apply Hfail. }
  specialize (U4 eq_refl). rewrite U3 in U4. cbn [fmap option_fmap option_map] in U4.
  change (fs_nodes f4 !! tmp = Some (written uid mode data)) in U4.
  set (sy := if sync then fs_call f4 else (None, f4)).
  assert (fs_nodes sy.2 = fs_nodes f4) as H5 by (unfold sy; destruct sync; [apply fs_call_nodes|done]).
  destruct sy as [[e|] f5]; cbn [snd] in H5; rewrite <- H5 in H4, U4.
  { pose proof (Hcall _ H4) as Hx. destruct (fs_call f5). intros [= <- <-]. by apply Hfail. }
  pose proof (Hcall _ H4) as H6. pose proof (fs_call_nodes f5) as E6.
  destruct (fs_call f5) as [[e|] f6]; cbn [snd] in *; [intros [= <- <-]; by apply Hfail|].
  rewrite <- E6 in U4. unfold fs_rename. pose proof (fs_refused_nodes f6) as [H7 _].
  destruct (fs_refused f6) as [[] f7]; cbn [snd] in H7; rewrite <- H7 in H6, U4; [intros [= <- <-]; by apply Hfail|].
  rewrite U4. intros [= <- <-]. split; [done|]. cbn [set_nodes fs_nodes].
  split; [apply lookup_insert_eq|]. intros p Hp Hs. rewrite lookup_insert_ne by done.
  rewrite lookup_delete_ne by (by apply not_eq_sym, Hne). by apply H6, Hne.
Qed.

(** Without refusals the write succeeds, and nothing but the target is new. *)
Lemma write_through_total f uid path prefix mode data sync msgs :
  fs_faults f = [] → is_symlink f path = false →
  ∃ f', write_through f uid path prefix mode data sync msgs = (Ok tt, f') ∧ fs_faults f' = [] ∧
    fs_nodes f' = <[path := written uid mode data]> (fs_nodes f).
Proof.
  intros Hf Hs. destruct f as [nodes faults]. cbn in Hf. subst faults.
  unfold write_through. cbv zeta. change (fs_call {| fs_nodes := nodes; fs_faults := [] |})
    with (@None error, {| fs_nodes := nodes; fs_faults := [] |}). cbn iota beta. rewrite Hs.
  unfold fs_create_temp. cbn [fs_refused fs_faults fs_nodes set_nodes].
  set (tmp := temp_name _ _).
  assert (nodes !! tmp = None) as Hn.
  { pose proof (temp_name_fresh (PathJoin [Dir path; prefix]) ((λ _, []) <$> nodes)) as Hn. fold tmp in Hn.
    rewrite lookup_fmap in Hn. by destruct (nodes !! tmp). }
  unfold fs_update, fs_call, fs_rename, fs_refused, set_nodes. cbn [fs_faults fs_nodes].
  rewrite !alter_insert_eq.
  destruct sync; cbn [fs_faults fs_nodes]; rewrite lookup_insert_eq; eexists; (split; [reflexivity|]); cbn [fs_faults fs_nodes];
    (split; [done|]); rewrite delete_insert_eq, delete_id by done; done.
Qed.

(** A base64 text and its line break: [TrimSpace] takes the line break off. *)
Lemma trim_line b : b ≠ [] → Forall visible b → trim_space (b ++ ["010"%char]) = b.
Proof.
  intros Hne Hv. unfold trim_space.
  assert (Forall (λ c, code c < 128) (b ++ ["010"%char])) as Ha.
  { apply Forall_app. split; [|by repeat constructor]. eapply Forall_impl; [exact Hv|]. unfold visible. intros; lia. }
  rewrite visible_segs by done. destruct b as [|c b]; [done|]. cbn [app fmap list_fmap drop_while fst].
  inversion Hv as [|? ? Hc Hb]; subst. rewrite visible_not_space by done.
  destruct (exists_last (l := c :: b)) as (b' & d & E); [done|].
  rewrite fmap_app. change ((λ c, (code c, [c])) <$> ["010"%char]) with [(10, ["010"%char])].
  rewrite app_comm_cons. change ((code c, [c]) :: ((λ c, (code c, [c])) <$> b)) with ((λ c, (code c, [c])) <$> (c :: b)).
  unfold drop_while_end. rewrite reverse_app. change (reverse [(10, ["010"%char])]) with [(10, ["010"%char])].
  cbn [app drop_while fst]. change (is_space 10) with true. cbn iota.
  rewrite E in Hv |- *. apply Forall_app in Hv as [_ Hd]. rewrite Forall_cons in Hd. destruct Hd as [Hd _].
  rewrite fmap_app, reverse_app. cbn [fmap list_fmap]. change (reverse [(code d, [d])]) with [(code d, [d])].
  cbn [app drop_while fst]. rewrite visible_not_space by done. rewrite reverse_cons, reverse_involutive.
  change [(code d, [d])] with ((λ c, (code c, [c])) <$> [d]). rewrite <- fmap_app.
  generalize (b' ++ [d]) as l. clear. induction l as [|x l IH]; [done|]. cbn. by f_equal.
Qed.

Lemma url_visible b : Forall visible (encode RawURLEncoding b).
Proof.
  assert (∀ v, visible (digit RawURLEncoding v)) as Hd.
  { intros v. assert (forallb (λ c, (33 <=? code c) && (code c <? 128)) ("="%char :: url_alphabet) = true) as H
      by (vm_compute; done). rewrite forallb_forall in H.
    assert (In (digit RawURLEncoding v) ("="%char :: url_alphabet)) as Hin.
    { unfold digit. cbn [alphabet RawURLEncoding]. destruct (nth_in_or_default (Z.to_nat v) url_alphabet pad) as [Hi|Hi];
        [by right|left; by rewrite Hi]. }
    specialize (H _ Hin). unfold visible. lia. }
  induction b as [| | |x y z b IH] using bytes_ind3; cbn [encode]; repeat (constructor; [by auto|]); auto.
Qed.

Lemma TrimSpace_line s : s ≠ "" → Forall visible (s2b s) → TrimSpace (s +:+ line_break) = s.
Proof.
  intros Hne Hv. unfold TrimSpace. rewrite s2b_app. change (s2b line_break) with ["010"%char].
  rewrite trim_line; [apply b2s_s2b|by rewrite s2b_nil_iff|done].
Qed.

(** ** Property *)

(** C27: Secrets are written atomically. Whatever step the system refuses, the
    target is left as it was or holds the whole new secret with its mode, no other
    file is changed and no symbolic link is written through; and when nothing is
    refused the secret written is the secret loaded, a generated token is valid,
    is kept for the next start, and is the one loaded then. *)
Theorem secret_files_atomic f uid path :
  (∀ secret mode r f', WriteSecretWithMode f uid path secret mode = (r, f') →
     write_outcome f uid path mode (s2b (EncodeToString StdEncoding secret +:+ line_break)) r f') ∧
  (∀ token r f', writeProxyAuthToken f uid path token = (r, f') →
     write_outcome f uid path 0x180 (s2b (token +:+ line_break)) r f') ∧
  (fs_faults f = [] → is_symlink f path = false →
   (∀ secret mode, secret ≠ [] →
      ∃ f', WriteSecretWithMode f uid path secret mode = (Ok tt, f') ∧ LoadSecret f' path = Ok secret) ∧
   (∀ random, blen random = 32 → fs_nodes f !! path = None →
      ∃ token f', ensureProxyAuthToken f uid path "" (Ok random) = (Ok token, f') ∧
        token = EncodeToString RawURLEncoding random ∧
        ∀ random', ensureProxyAuthToken f' uid path "" random' = (Ok token, f'))).
Proof.
  split; [|split].
  - intros secret mode r f'. apply write_through_outcome.
  - intros token r f'. unfold writeProxyAuthToken. destruct (validateProxyAuthToken token) as [[]|e].
    + apply write_through_outcome.
    + by intros [= <- <-] p Hp.
  - intros Hf Hs. split.
    + intros secret mode Hne. unfold WriteSecretWithMode.
      destruct (write_through_total f uid path ".auth-secret-" mode
        (s2b (EncodeToString StdEncoding secret +:+ line_break)) false secret_msgs Hf Hs) as (f' & -> & _ & En).
      exists f'. split; [done|]. unfold LoadSecret, is_symlink. rewrite En, lookup_insert_eq. cbn [written nd_symlink nd_data].
      rewrite b2s_s2b, TrimSpace_line.
      * by rewrite (DecodeString_EncodeToString StdEncoding).
      * intros E. apply (encode_nonempty _ Hne). apply s2b_nil_iff in E. unfold EncodeToString in E. by rewrite s2b_b2s in E.
      * unfold EncodeToString. rewrite s2b_b2s. apply encode_visible.
    + intros random Hr Hnone. set (token := EncodeToString RawURLEncoding random).
      assert (token ≠ "") as Hne.
      { intros E. apply s2b_nil_iff in E. unfold token, EncodeToString in E. rewrite s2b_b2s in E.
        destruct random as [|x [|y [|z random]]]; [by vm_compute in Hr|done..]. }
      assert (validateProxyAuthToken token = Ok tt) as Hval.
      { unfold validateProxyAuthToken. rewrite bool_decide_eq_false_2 by done. unfold token.
        rewrite (DecodeString_EncodeToString RawURLEncoding). by rewrite Hr. }
      destruct (write_through_total f uid path ".proxy-auth-token-" 0x180 (s2b (token +:+ line_break)) true token_msgs Hf Hs)
        as (f' & Ew & Hf' & En).
      exists token, f'. split.
      { unfold ensureProxyAuthToken, loadProxyAuthToken. rewrite Hnone. cbn. fold token.
        unfold writeProxyAuthToken. by rewrite Hval, Ew. }
      split; [done|]. intros random'. unfold ensureProxyAuthToken, loadProxyAuthToken.
      rewrite En, lookup_insert_eq. cbn [negb bool_decide decide_rel]. cbn [written nd_symlink nd_regular nd_mode nd_uid nd_data].
      assert (TrimSpace (token +:+ line_break) = token) as Htrim.
      { apply TrimSpace_line; [done|]. unfold token, EncodeToString. rewrite s2b_b2s. apply url_visible. }
      rewrite !Z.eqb_refl. cbn [negb]. rewrite b2s_s2b, Htrim, Hval. done.
Qed.
