(* ===== verification/Env.v ===== *)
(** Package [internal/daemon], [executor.go]: the environment a tool runs with.

    Credentials are resolved by a function [resolve] (the credentials component);
    the resolver's only effect on the executor, appending each value it returns
    to [secretValues], is the second result. [url.URL.String] and [user.Current]
    are parameters of the class [Host]. *)

From S2P Require Import Prelude GoStrings GoTime GoPath Paths Regexp ConfigTypes Interpolate Config Settings.
Local Open Scope Z_scope.

Class Host := {
  (** [user.Current()]: home directory and user name *)
  current_user : option (string * string);
  (** [(&url.URL{Scheme: "http", User: url.UserPassword(user, password), Host: host}).String()] *)
  http_url : string → string → string → string;
}.

(** ** The deny list *)

Definition deniedEnvVars : gset string := list_to_set [
  "BASH_ENV"; "ENV"; "CDPATH"; "SHELLOPTS"; "BASHOPTS"; "SHELL"; "IFS"; "GLOBIGNORE"; "PROMPT_COMMAND";
  "PYTHONPATH"; "PYTHONSTARTUP"; "PYTHONHOME"; "PERL5LIB"; "PERL5OPT"; "RUBYLIB"; "RUBYOPT";
  "NODE_OPTIONS"; "NODE_PATH"; "JAVA_TOOL_OPTIONS"; "_JAVA_OPTIONS"; "JAVA_OPTIONS";
  "GIT_SSH_COMMAND"; "EDITOR"; "VISUAL"; "PAGER";
  "http_proxy"; "https_proxy"; "HTTP_PROXY"; "HTTPS_PROXY"; "ftp_proxy"; "FTP_PROXY"; "all_proxy";
  "ALL_PROXY"; "no_proxy"; "NO_PROXY";
  "CURL_CA_BUNDLE"; "SSL_CERT_FILE"; "SSL_CERT_DIR"; "GIT_PROXY_COMMAND"; "GIT_CONFIG_GLOBAL";
  "GIT_CONFIG_SYSTEM"; "GIT_EXEC_PATH"; "GIT_TEMPLATE_DIR"].

Definition deniedEnvPrefixes : list string := ["LD_"; "DYLD_"; "BASH_FUNC_"].

Definition isDeniedEnvVar (key : string) : bool :=
  bool_decide (key ∈ deniedEnvVars) || existsb (λ prefix, HasPrefix key prefix) deniedEnvPrefixes.

Section env.
Context `{RE : Regexp} `{UnicodeCase} `{DurationParser} `{OS} `{Host} `{MapRange}.
Context (resolve : string → CredentialDef → result string).

(** The part of the executor [buildEnvironment] reads. *)
Record env_input := {
  ei_tool : ToolDef;
  ei_cfg : Config;
  ei_req_env : gmap string string;
  ei_req_pty : bool;
  ei_configDir : string;
  ei_proxyAuthToken : string;
}.

Definition buildAuthenticatedProxyURL (listenAddr token : string) : result string :=
  if bool_decide (TrimSpace listenAddr = "") then Err (Errorf "missing proxy listen address" [])
  else if bool_decide (token = "") then Err (Errorf "missing proxy auth token" [])
  else Ok (http_url "claw" token listenAddr).

(** [envMap[name] = value] for the first non-empty of the candidates. *)
Definition base_environment : gmap string string :=
  let path := Getenv "PATH" in
  let envMap := <["PATH" := if bool_decide (path = "") then "/usr/local/bin:/usr/bin:/bin" else path]> ∅ in
  let home := Getenv "HOME" in
  let envMap :=
    if negb (bool_decide (home = "")) then <["HOME" := home]> envMap
    else match current_user with Some (dir, _) => <["HOME" := dir]> envMap | None => envMap end in
  let username := Getenv "USER" in
  let envMap :=
    if negb (bool_decide (username = "")) then <["USER" := username]> envMap
    else match current_user with Some (_, name) => <["USER" := name]> envMap | None => envMap end in
  let term := Getenv "TERM" in
  let envMap := if negb (bool_decide (term = "")) then <["TERM" := term]> envMap else envMap in
  let colorTerm := Getenv "COLORTERM" in
  if negb (bool_decide (colorTerm = "")) then <["COLORTERM" := colorTerm]> envMap else envMap.

(** The closure [credResolver]. *)
Definition credResolver (cfg : Config) (name : string) : result string :=
  match cfg_Credentials cfg !! name with
  | None => Err (Errorf "undefined credential: %s" [FS name])
  | Some credDef =>
    resolve name credDef ≫= λ value,
    if bool_decide (value = "") then Err (Errorf "credential %s returned empty value" [FS name])
    else Ok value
  end.

(** The names a value asks the resolver for, in order, and the secrets it gets. *)
Definition asked (value : string) (credNames : gset string) : list string :=
  match ClassifyEnvValue value credNames with
  | ClassCredential => [value]
  | ClassInterpolate => FindCredentialRefs value
  | ClassLiteral => []
  end.
Definition answers (cfg : Config) (names : list string) : list string :=
  omap (λ n, match credResolver cfg n with Ok v => Some v | Err _ => None end) names.

(** The loop over [tool.Env]: the map, the forced keys, the secrets. *)
Fixpoint tool_env (cfg : Config) (l : list (string * string)) (envMap : gmap string string)
    (forced : gset string) (secrets : list string)
    : result (gmap string string * gset string * list string) :=
  match l with
  | [] => Ok (envMap, forced, secrets)
  | (envVar, value) :: l =>
    let credNames := CredentialNamesSet (cfg_Credentials cfg) in
    wrap_err "env %s: %w" [FS envVar] (ResolveEnvValue value credNames (credResolver cfg)) ≫= λ resolved,
    tool_env cfg l (<[envVar := resolved]> envMap) ({[envVar]} ∪ forced)
      (secrets ++ answers cfg (asked value credNames))
  end.

(** The loop over [tool.ForcedEnv]. *)
Definition forced_env (l : list (string * string)) (st : gmap string string * gset string)
    : gmap string string * gset string :=
  foldl (λ st kv, (<[kv.1 := kv.2]> st.1, {[kv.1]} ∪ st.2)) st l.

(** Whether a request variable is let in. *)
Definition request_allowed (tool : ToolDef) (forced : gset string) (k : string) : bool :=
  if isDeniedEnvVar k then false
  else if bool_decide (k ∈ forced) then false
  else match td_RequestEnv tool with
       | Some allowed => bool_decide (k ∈ allowed)
       | None => true
       end.

(** The loop over [req.Env]: the map and [termFromReq]. *)
Definition request_env (tool : ToolDef) (forced : gset string) (l : list (string * string))
    (st : gmap string string * bool) : gmap string string * bool :=
  foldl (λ st kv,
    if request_allowed tool forced kv.1 then
      (<[kv.1 := kv.2]> st.1, st.2 || bool_decide (kv.1 = "TERM"))
    else st) st l.

(** The terminal fallback. *)
Definition term_fallback (effectivePTY termFromReq : bool) (forced : gset string)
    (envMap : gmap string string) : gmap string string :=
  let termValue := TrimSpace (default "" (envMap !! "TERM")) in
  if bool_decide (termValue = "") then
    <["TERM" := if effectivePTY then "xterm-256color" else "dumb"]> envMap
  else if effectivePTY && EqualFold termValue "dumb" && negb termFromReq
          && negb (bool_decide ("TERM" ∈ forced)) then
    <["TERM" := "xterm-256color"]> envMap
  else envMap.

Definition proxy_env (url certFile : string) (envMap : gmap string string) : gmap string string :=
  <["CURL_CA_BUNDLE" := certFile]> (<["REQUESTS_CA_BUNDLE" := certFile]> (
  <["NODE_EXTRA_CA_CERTS" := certFile]> (<["SSL_CERT_FILE" := certFile]> (
  <["https_proxy" := url]> (<["http_proxy" := url]> (
  <["HTTPS_PROXY" := url]> (<["HTTP_PROXY" := url]> envMap))))))).

(** The part after the request's variables: configuration directory and proxy. *)
Definition finish_env (i : env_input) (envMap : gmap string string) (secrets : list string)
    : result (gmap string string * list string) :=
  let envMap :=
    if negb (bool_decide (ei_configDir i = "")) then <["XDG_CONFIG_HOME" := ei_configDir i]> envMap
    else envMap in
  if td_UseProxy (ei_tool i) && GetHTTPProxyEnabled (ei_cfg i) then
    (if GetHTTPProxyRequireAuth (ei_cfg i) then
       wrap_err "build proxy URL: %w" []
         (buildAuthenticatedProxyURL (GetHTTPProxyListen (ei_cfg i)) (ei_proxyAuthToken i)) ≫= λ proxyURL,
       Ok (proxyURL, secrets ++ [ei_proxyAuthToken i])
     else Ok ("http://" +:+ GetHTTPProxyListen (ei_cfg i), secrets)) ≫= λ '(proxyURL, secrets),
    let caPath := GetHTTPProxyCAPath (ei_cfg i) in
    let caPath := if bool_decide (caPath = "") then CADir else caPath in
    let certFile := PathJoin [caPath; "ca.crt"] in
    Ok (proxy_env proxyURL certFile envMap, secrets)
  else Ok (envMap, secrets).

(** [buildEnvironment]: the map it builds and the secrets it collects. *)
Definition environment_map (i : env_input) (secrets : list string)
    : result (gmap string string * list string) :=
  let tool := ei_tool i in
  tool_env (ei_cfg i) (range (td_Env tool)) base_environment ∅ secrets ≫= λ '(envMap, forcedKeys, secrets),
  let '(envMap, forcedKeys) := forced_env (range (td_ForcedEnv tool)) (envMap, forcedKeys) in
  let '(envMap, termFromReq) := request_env tool forcedKeys (range (ei_req_env i)) (envMap, false) in
  let effectivePTY := ei_req_pty i && GetUsePTY tool in
  let envMap := term_fallback effectivePTY termFromReq forcedKeys envMap in
  finish_env i envMap secrets.

(** The list of [KEY=VALUE] entries handed to the process. *)
Definition env_entry (kv : string * string) : string := kv.1 +:+ "=" +:+ kv.2.
Definition buildEnvironment (i : env_input) (secrets : list string)
    : result (list string * list string) :=
  environment_map i secrets ≫= λ '(envMap, secrets), Ok (env_entry <$> range envMap, secrets).

(** ** What the process sees

    The variable [key] of a process started with a list of entries: [os/exec] keeps
    the last entry of each name, and an entry's name ends at its first [=]. *)
Definition child_getenv (entries : list string) (key : string) : option string :=
  foldl (λ found e, if HasPrefix e (key +:+ "=") then Some (TrimPrefix e (key +:+ "=")) else found)
    None entries.

(** The keys the administrator fixed. *)
Definition admin_keys (tool : ToolDef) : gset string := dom (td_Env tool) ∪ dom (td_ForcedEnv tool).

(** The variables a request cannot touch. *)
Definition protected (tool : ToolDef) (k : string) : Prop :=
  isDeniedEnvVar k = true ∨ k ∈ admin_keys tool ∨ ∃ l, td_RequestEnv tool = Some l ∧ k ∉ l.

(** ** Lemmas *)

Lemma tool_env_forced cfg l envMap forced secrets envMap' forced' secrets' :
  tool_env cfg l envMap forced secrets = Ok (envMap', forced', secrets') →
  forced' = list_to_set l.*1 ∪ forced.
Proof.
  revert envMap forced secrets. induction l as [|[k v] l IH]; intros envMap forced secrets E; simpl in E.
  - injection E as _ <- _. simpl. set_solver.
  - apply bind_Ok in E as (r & _ & E). apply IH in E as ->. simpl. set_solver.
Qed.

Lemma forced_env_keys l st : (forced_env l st).2 = list_to_set l.*1 ∪ st.2.
Proof.
  unfold forced_env. revert st. induction l as [|[k v] l IH]; intros st; simpl; [set_solver|].
  rewrite IH. simpl. set_solver.
Qed.

Lemma range_keys_set {A} (m : gmap string A) : (list_to_set (range m).*1 : gset string) = dom m.
Proof.
  apply set_eq. intros k. rewrite elem_of_list_to_set, elem_of_dom, list_elem_of_fmap. split.
  - intros ([k' x] & -> & Hin%elem_of_range). by exists x.
  - intros [x Hx]. exists (k, x). split; [done|]. by apply elem_of_range.
Qed.

Lemma request_allowed_protected tool forced k :
  forced = admin_keys tool → protected tool k → request_allowed tool forced k = false.
Proof.
  intros -> [Hd|[Hf|(l & Hl & Hn)]]; unfold request_allowed.
  - by rewrite Hd.
  - destruct (isDeniedEnvVar k); [done|]. by rewrite bool_decide_eq_true_2.
  - rewrite Hl. destruct (isDeniedEnvVar k); [done|]. destruct (bool_decide (k ∈ _)); [done|].
    by rewrite bool_decide_eq_false_2.
Qed.

Lemma request_env_protected tool forced l st k :
  request_allowed tool forced k = false →
  (request_env tool forced l st).1 !! k = st.1 !! k ∧
  (k = "TERM" → (request_env tool forced l st).2 = st.2).
Proof.
  intros Hk. unfold request_env. revert st. induction l as [|[k' v'] l IH]; intros st; cbn [foldl fst snd].
  { split; [reflexivity|intros _; reflexivity]. }
  set (st' := if request_allowed tool forced k' then _ else st).
  destruct (IH st') as [IH1 IH2]. rewrite IH1.
  assert (st'.1 !! k = st.1 !! k ∧ (k = "TERM" → st'.2 = st.2)) as [S1 S2].
  { unfold st'. destruct (request_allowed tool forced k') eqn:E.
    - assert (k' ≠ k) as Hne by (intros ->; congruence). cbn [fst snd]. split.
      + apply lookup_insert_ne, Hne.
      + intros Ht. rewrite bool_decide_eq_false_2 by congruence. apply orb_false_r.
    - split; [reflexivity|intros _; reflexivity]. }
  split; [exact S1|]. intros Ht. rewrite (IH2 Ht). exact (S2 Ht).
Qed.

(** The maps built with two request environments agree on the protected keys. *)
Definition agree_on (P : string → Prop) (m1 m2 : gmap string string) : Prop :=
  ∀ k, P k → m1 !! k = m2 !! k.

Lemma insert_agree P m1 m2 k v : agree_on P m1 m2 → agree_on P (<[k:=v]> m1) (<[k:=v]> m2).
Proof.
  intros Ha j Hj. destruct (decide (k = j)) as [->|Hn]; [by rewrite !lookup_insert_eq|].
  rewrite !lookup_insert_ne by done. by apply Ha.
Qed.

Lemma term_fallback_agree P pty t1 t2 forced m1 m2 :
  agree_on P m1 m2 → (P "TERM" → t1 = t2) →
  agree_on P (term_fallback pty t1 forced m1) (term_fallback pty t2 forced m2).
Proof.
  intros Ha Ht k Hk. destruct (decide (k = "TERM")) as [->|Hne].
  - specialize (Ht Hk). subst t2. unfold term_fallback. rewrite (Ha _ Hk).
    case_bool_decide; [by rewrite !lookup_insert_eq|].
    destruct (_ && negb (bool_decide ("TERM" ∈ forced))); [by rewrite !lookup_insert_eq|]. by apply Ha.
  - assert (∀ t m, term_fallback pty t forced m !! k = m !! k) as E.
    { intros t m. unfold term_fallback. case_bool_decide; [by rewrite lookup_insert_ne|].
      destruct (_ && negb (bool_decide ("TERM" ∈ forced))); [by rewrite lookup_insert_ne|done]. }
    rewrite !E. by apply Ha.
Qed.

Lemma finish_env_agree P i1 i2 m1 m2 s :
  ei_tool i1 = ei_tool i2 → ei_cfg i1 = ei_cfg i2 → ei_configDir i1 = ei_configDir i2 →
  ei_proxyAuthToken i1 = ei_proxyAuthToken i2 → agree_on P m1 m2 →
  match finish_env i1 m1 s, finish_env i2 m2 s with
  | Ok (e1, s1), Ok (e2, s2) => agree_on P e1 e2 ∧ s1 = s2
  | Err e1, Err e2 => e1 = e2
  | _, _ => False
  end.
Proof.
  intros E1 E2 E3 E4 Ha. unfold finish_env. rewrite E1, E2, E3, E4.
  set (n1 := if negb (bool_decide (ei_configDir i2 = "")) then _ else m1).
  set (n2 := if negb (bool_decide (ei_configDir i2 = "")) then _ else m2).
  assert (agree_on P n1 n2) as Hn.
  { unfold n1, n2. destruct (negb _); [by apply insert_agree|done]. }
  destruct (_ && _); [|done]. 
  destruct (if GetHTTPProxyRequireAuth (ei_cfg i2) then _ else _) as [[url s']|e]; [|done].
  simpl. split; [|done]. unfold proxy_env. by do 8 apply insert_agree.
Qed.

(** [HasPrefix e (k ++ "=")] identifies the entries of a key without [=]. *)
Definition no_eq (k : string) : Prop := "="%char ∉ s2b k.

Lemma app_sep_inj (a b x y : bytes) c :
  c ∉ a → c ∉ b → a ++ c :: x = b ++ c :: y → a = b ∧ x = y.
Proof.
  revert b. induction a as [|d a IH]; intros [|e b] Ha Hb E; simpl in E.
  - by injection E as ->.
  - injection E as -> _. exfalso. apply Hb. left.
  - injection E as -> _. exfalso. apply Ha. left.
  - injection E as -> E. rewrite !not_elem_of_cons in *. destruct (IH b) as [-> ->]; naive_solver.
Qed.

Lemma env_entry_prefix k k' v :
  no_eq k → no_eq k' →
  HasPrefix (env_entry (k', v)) (k +:+ "=") = bool_decide (k' = k) ∧
  TrimPrefix (env_entry (k, v)) (k +:+ "=") = v.
Proof.
  intros Hk Hk'. unfold env_entry; simpl. split.
  - apply eq_bool_prop_intro. rewrite bool_decide_spec, Is_true_true, HasPrefix_spec. split.
    + intros [t Ht]. apply (f_equal s2b) in Ht. rewrite !s2b_app, <- app_assoc in Ht.
      apply app_sep_inj in Ht as [E _]; [|done|done]. by apply (inj s2b).
    + intros ->. exists v. apply (inj s2b). by rewrite !s2b_app, <- app_assoc.
  - unfold TrimPrefix, trim_prefix. apply (inj s2b). rewrite s2b_b2s.
    rewrite !s2b_app, app_assoc, has_prefix_app. by rewrite drop_app_length.
Qed.

Lemma child_getenv_entries l k :
  no_eq k → Forall (λ kv : string * string, no_eq kv.1) l → NoDup l.*1 →
  ∀ v, child_getenv (env_entry <$> l) k = Some v ↔ (k, v) ∈ l.
Proof.
  intros Hk HF Hnd v. unfold child_getenv.
  assert (∀ found, foldl (λ found e, if HasPrefix e (k +:+ "=") then Some (TrimPrefix e (k +:+ "="))
      else found) found (env_entry <$> l) = Some v ↔
      (k, v) ∈ l ∨ (k ∉ l.*1 ∧ found = Some v)) as HG.
  { induction l as [|[k' v'] l IH]; intros found; simpl.
    - split; [|intros [?%not_elem_of_nil|[_ ?]]; done]. intros ->. right. split; [apply not_elem_of_nil|done].
    - inversion HF as [|? ? Hk' HF']; subst. inversion Hnd as [|? ? Hn Hnd']; subst. simpl in *.
      rewrite (IH HF' Hnd'). destruct (env_entry_prefix k k' v' Hk Hk') as [-> _].
      destruct (bool_decide_reflect (k' = k)) as [->|Hne].
      + destruct (env_entry_prefix k k v' Hk Hk) as [_ ->]. rewrite !elem_of_cons. split.
        * intros [Hin|[_ E]]; [by left; right|]. injection E as ->. left; by left.
        * intros [[E|Hin]|[Hni _]]; [|by left|].
          -- injection E as <-. right. by split.
          -- exfalso. apply Hni. by left.
      + rewrite !elem_of_cons. split.
        * intros [Hin|[Hni E]]; [by left; right|]. right. split; [|done]. intros [?|?]; [congruence|done].
        * intros [[E|Hin]|[Hni E]]; [congruence|by left|]. right. split; [|done]. intros ?. apply Hni. by right. }
  rewrite HG. naive_solver.
Qed.

Lemma child_getenv_map (m : gmap string string) k :
  no_eq k → (∀ j v, m !! j = Some v → no_eq j) →
  child_getenv (env_entry <$> range m) k = m !! k.
Proof.
  intros Hk Hm. apply option_eq. intros v.
  rewrite child_getenv_entries; [by rewrite elem_of_range|done| |apply range_NoDup_fst].
  apply Forall_range. intros j x Hj. by eapply Hm.
Qed.

Definition plain_keys (m : gmap string string) : Prop := ∀ k v, m !! k = Some v → no_eq k.

Lemma plain_insert m k v : no_eq k → plain_keys m → plain_keys (<[k:=v]> m).
Proof.
  intros Hk Hm j x. destruct (decide (k = j)) as [->|Hn]; [done|].
  rewrite lookup_insert_ne by done. apply Hm.
Qed.

Ltac plain_literal := apply (bool_decide_eq_true_1 _); vm_compute; reflexivity.

Lemma base_plain : plain_keys base_environment.
Proof.
  unfold base_environment.
  assert (plain_keys ∅) as Hempty by (intros k v; by rewrite lookup_empty).
  repeat first [ done
    | apply plain_insert; [plain_literal|]
    | match goal with |- plain_keys (match ?x with _ => _ end) => destruct x end ].
Qed.

Lemma tool_env_plain cfg l envMap forced secrets envMap' forced' secrets' :
  tool_env cfg l envMap forced secrets = Ok (envMap', forced', secrets') →
  Forall (λ kv, no_eq kv.1) l → plain_keys envMap → plain_keys envMap'.
Proof.
  revert envMap forced secrets. induction l as [|[k v] l IH]; intros envMap forced secrets E HF Hp; simpl in E.
  - by injection E as <- _ _.
  - apply bind_Ok in E as (r & _ & E). inversion HF; subst. eapply IH; [done|done|]. by apply plain_insert.
Qed.

Lemma forced_env_plain l st :
  Forall (λ kv, no_eq kv.1) l → plain_keys st.1 → plain_keys (forced_env l st).1.
Proof.
  unfold forced_env. revert st. induction l as [|[k v] l IH]; intros st HF Hp; simpl; [done|].
  inversion HF; subst. apply IH; [done|]. by apply plain_insert.
Qed.

Lemma request_env_plain tool forced l st :
  Forall (λ kv, no_eq kv.1) l → plain_keys st.1 → plain_keys (request_env tool forced l st).1.
Proof.
  unfold request_env. revert st. induction l as [|[k v] l IH]; intros st HF Hp; simpl; [done|].
  inversion HF; subst. apply IH; [done|]. destruct (request_allowed _ _ _); [|done]. by apply plain_insert.
Qed.

Lemma finish_plain i m s m' s' :
  finish_env i m s = Ok (m', s') → plain_keys m → plain_keys m'.
Proof.
  intros E Hp. unfold finish_env in E.
  assert (plain_keys (if negb (bool_decide (ei_configDir i = "")) then
    <["XDG_CONFIG_HOME":=ei_configDir i]> m else m)) as Hn.
  { destruct (negb _); [apply plain_insert; [plain_literal|done]|done]. }
  destruct (_ && _); [|by injection E as <- _].
  apply bind_Ok in E as ([url s1] & _ & E). injection E as <- _. unfold proxy_env.
  do 8 (apply plain_insert; [plain_literal|]). done.
Qed.

Lemma environment_plain i secrets m s :
  environment_map i secrets = Ok (m, s) → plain_keys (td_Env (ei_tool i)) →
  plain_keys (td_ForcedEnv (ei_tool i)) → plain_keys (ei_req_env i) → plain_keys m.
Proof.
  unfold environment_map. intros E P1 P2 P3.
  apply bind_Ok in E as ([[m1 f1] s1] & E1 & E).
  destruct (forced_env _ (m1, f1)) as [m2 f2] eqn:E2.
  destruct (request_env _ _ _ (m2, false)) as [m3 t] eqn:E3.
  assert (∀ m : gmap string string, plain_keys m → Forall (λ kv, no_eq kv.1) (range m)) as HR.
  { intros m0 Hm0. apply Forall_range. intros j x Hj. by eapply Hm0. }
  eapply finish_plain; [done|].
  assert (plain_keys m3) as Hm3.
  { change m3 with (m3, t).1. rewrite <- E3. apply request_env_plain; [by apply HR|]. simpl.
    change m2 with (m2, f2).1. rewrite <- E2. apply forced_env_plain; [by apply HR|]. simpl.
    eapply tool_env_plain; [done|by apply HR|apply base_plain]. }
  unfold term_fallback. case_bool_decide; [apply plain_insert; [plain_literal|done]|].
  destruct (_ && negb (bool_decide ("TERM" ∈ f2))); [apply plain_insert; [plain_literal|done]|done].
Qed.

Definition with_request (i : env_input) (env : gmap string string) : env_input :=
  {| ei_tool := ei_tool i; ei_cfg := ei_cfg i; ei_req_env := env; ei_req_pty := ei_req_pty i;
     ei_configDir := ei_configDir i; ei_proxyAuthToken := ei_proxyAuthToken i |}.

Lemma environment_agree i env1 env2 secrets :
  match environment_map (with_request i env1) secrets, environment_map (with_request i env2) secrets with
  | Ok (m1, s1), Ok (m2, s2) => agree_on (protected (ei_tool i)) m1 m2 ∧ s1 = s2
  | Err e1, Err e2 => e1 = e2
  | _, _ => False
  end.
Proof.
  unfold environment_map. simpl.
  destruct (tool_env _ _ _ _ _) as [[[m f] s]|e] eqn:E1; [|done]. simpl.
  apply tool_env_forced in E1. rewrite range_keys_set in E1.
  pose proof (forced_env_keys (range (td_ForcedEnv (ei_tool i))) (m, f)) as E2.
  destruct (forced_env _ (m, f)) as [m2 f2]. simpl in E2. rewrite range_keys_set, E1 in E2.
  assert (f2 = admin_keys (ei_tool i)) as Hf by (unfold admin_keys; set_solver).
  assert (∀ k l, protected (ei_tool i) k →
    (request_env (ei_tool i) f2 l (m2, false)).1 !! k = m2 !! k ∧
    (k = "TERM" → (request_env (ei_tool i) f2 l (m2, false)).2 = false)) as HP.
  { intros k l Hk. apply (request_env_protected (ei_tool i) f2 l (m2, false) k).
    by apply request_allowed_protected. }
  pose proof (λ k Hk, proj1 (HP k (range env1) Hk)) as A1. pose proof (λ k Hk, proj1 (HP k (range env2) Hk)) as A2.
  pose proof (λ Hk, proj2 (HP "TERM" (range env1) Hk) eq_refl) as T1.
  pose proof (λ Hk, proj2 (HP "TERM" (range env2) Hk) eq_refl) as T2.
  destruct (request_env _ f2 (range env1) _) as [n1 t1]. destruct (request_env _ f2 (range env2) _) as [n2 t2].
  simpl in *. apply finish_env_agree; try done. apply term_fallback_agree.
  - intros k Hk. by rewrite A1, A2.
  - intros Hk. by rewrite T1, T2.
Qed.

(** ** Properties *)

(** C32: The caller cannot influence the protected variables of a tool: those on
    the deny list, those the administrator set, and those missing from the
    tool's allowlist have in the process the value they have when the request
    sends no variables at all, whatever it sends, provided the names it sends
    hold no [=]; and what it sends decides neither failure nor the secrets to
    redact. *)
Theorem request_env_noninterference i secrets :
  plain_keys (td_Env (ei_tool i)) → plain_keys (td_ForcedEnv (ei_tool i)) → plain_keys (ei_req_env i) →
  match buildEnvironment i secrets, buildEnvironment (with_request i ∅) secrets with
  | Ok (env1, s1), Ok (env2, s2) => s1 = s2 ∧
      ∀ k, no_eq k → protected (ei_tool i) k → child_getenv env1 k = child_getenv env2 k
  | Err e1, Err e2 => e1 = e2
  | _, _ => False
  end.
Proof.
  intros P1 P2 P3. unfold buildEnvironment.
  pose proof (environment_agree i (ei_req_env i) ∅ secrets) as HA.
  assert (with_request i (ei_req_env i) = i) as Ei by (by destruct i). rewrite Ei in HA.
  pose proof (environment_plain i secrets) as HP1.
  pose proof (environment_plain (with_request i ∅) secrets) as HP2. simpl in HP2.
  destruct (environment_map i secrets) as [[m1 s1]|e1], (environment_map (with_request i ∅) secrets) as [[m2 s2]|e2];
    try done. simpl. destruct HA as [HA ->]. split; [done|]. intros k Hk Hprot.
  rewrite (child_getenv_map m1 k), (child_getenv_map m2 k); [by apply HA|done| |done|].
  - by eapply HP2; [done|..].
  - by eapply HP1.
Qed.

Lemma child_getenv_only entries k v :
  (∃ e, e ∈ entries ∧ HasPrefix e (k +:+ "=") = true) →
  (∀ e, e ∈ entries → HasPrefix e (k +:+ "=") = true → TrimPrefix e (k +:+ "=") = v) →
  child_getenv entries k = Some v.
Proof.
  unfold child_getenv. intros Hex Hall.
  assert (∀ found, (found = Some v ∨ ∃ e, e ∈ entries ∧ HasPrefix e (k +:+ "=") = true) →
    foldl (λ found e, if HasPrefix e (k +:+ "=") then Some (TrimPrefix e (k +:+ "=")) else found)
      found entries = Some v) as HG; [|by apply HG; right].
  clear Hex. induction entries as [|e l IH]; intros found Hf; simpl.
  - destruct Hf as [?|(e & ?%not_elem_of_nil & _)]; done.
  - apply IH; [intros e' He'; apply Hall; by right|].
    destruct (HasPrefix e (k +:+ "=")) eqn:E.
    + left. f_equal. apply Hall; [by left|done].
    + destruct Hf as [->|(e' & [->|Hin]%elem_of_cons & He')]; [by left|congruence|].
      right. by exists e'.
Qed.

Lemma tool_env_lookup cfg l envMap forced secrets envMap' forced' secrets' k :
  tool_env cfg l envMap forced secrets = Ok (envMap', forced', secrets') → k ∉ l.*1 →
  envMap' !! k = envMap !! k.
Proof.
  revert envMap forced secrets. induction l as [|[j v] l IH]; intros envMap forced secrets E Hk; simpl in E, Hk.
  - by injection E as <- _ _.
  - apply bind_Ok in E as (r & _ & E). rewrite not_elem_of_cons in Hk.
    rewrite (IH _ _ _ E) by naive_solver. by rewrite lookup_insert_ne by naive_solver.
Qed.

Lemma forced_env_lookup l st k : k ∉ l.*1 → (forced_env l st).1 !! k = st.1 !! k.
Proof.
  unfold forced_env. revert st. induction l as [|[j v] l IH]; intros st Hk; simpl in *; [done|].
  rewrite not_elem_of_cons in Hk. rewrite IH by naive_solver. simpl.
  by rewrite lookup_insert_ne by naive_solver.
Qed.

Lemma base_other k :
  k ∉ ["PATH"; "HOME"; "USER"; "TERM"; "COLORTERM"] → base_environment !! k = None.
Proof.
  rewrite !not_elem_of_cons. intros (? & ? & ? & ? & ? & _). unfold base_environment.
  repeat first [ by rewrite lookup_empty
    | rewrite lookup_insert_ne by congruence
    | match goal with |- (match ?x with _ => _ end) !! _ = None => destruct x end ].
Qed.

Lemma range_singleton (k v : string) : range ({[k := v]} : gmap string string) = [(k, v)].
Proof.
  pose proof (range_perm ({[k := v]} : gmap string string)) as Hp.
  rewrite map_to_list_singleton in Hp. by apply Permutation_singleton_r in Hp.
Qed.

(** A map that holds one odd key, and otherwise names without [=] other than [d]. *)
Definition odd_map (K v d : string) (m : gmap string string) : Prop :=
  m !! K = Some v ∧ m !! d = None ∧ ∀ k x, m !! k = Some x → k = K ∨ no_eq k.

Lemma odd_map_insert K v d m k x :
  ¬ no_eq K → no_eq k → k ≠ d → odd_map K v d m → odd_map K v d (<[k := x]> m).
Proof.
  intros HK Hk Hd (M1 & M2 & M3). assert (k ≠ K) by (intros ->; done). split; [|split].
  - by rewrite lookup_insert_ne.
  - by rewrite lookup_insert_ne.
  - intros j y. destruct (decide (k = j)) as [->|Hn]; [by right|]. rewrite lookup_insert_ne by done. apply M3.
Qed.

Lemma finish_odd K v d i m s m' s' pty t forced :
  finish_env i (term_fallback pty t forced m) s = Ok (m', s') → ¬ no_eq K →
  d ∉ ["XDG_CONFIG_HOME"; "TERM"; "HTTP_PROXY"; "HTTPS_PROXY"; "http_proxy"; "https_proxy"; "SSL_CERT_FILE";
       "NODE_EXTRA_CA_CERTS"; "REQUESTS_CA_BUNDLE"; "CURL_CA_BUNDLE"] →
  odd_map K v d m → odd_map K v d m'.
Proof.
  rewrite !not_elem_of_cons. intros E HK (? & ? & ? & ? & ? & ? & ? & ? & ? & ? & _) Hm.
  assert (odd_map K v d (term_fallback pty t forced m)) as Ht.
  { unfold term_fallback. case_bool_decide; [apply odd_map_insert; [done|plain_literal|congruence|done]|].
    destruct (_ && negb (bool_decide ("TERM" ∈ forced)));
      [apply odd_map_insert; [done|plain_literal|congruence|done]|done]. }
  unfold finish_env in E. set (m1 := if negb _ then _ else _) in E.
  assert (odd_map K v d m1) as Hm1.
  { unfold m1. destruct (negb _); [apply odd_map_insert; [done|plain_literal|congruence|done]|done]. }
  destruct (_ && _); [|by injection E as <- _].
  apply bind_Ok in E as ([url s1] & _ & E). injection E as <- _. unfold proxy_env.
  do 8 (apply odd_map_insert; [done|plain_literal|congruence|]). done.
Qed.

(** A name that holds [=] defeats the deny list. The request variable named
    [BASH_ENV=/tmp/x] is not the denied name [BASH_ENV], so a tool without a
    request allowlist gets it, and the entry made of it reads as the variable
    [BASH_ENV] in the process. *)
Theorem request_env_bypass i secrets env s v :
  ei_req_env i = {["BASH_ENV=/tmp/x" := v]} → td_RequestEnv (ei_tool i) = None →
  plain_keys (td_Env (ei_tool i)) → plain_keys (td_ForcedEnv (ei_tool i)) →
  "BASH_ENV" ∉ admin_keys (ei_tool i) →
  buildEnvironment i secrets = Ok (env, s) →
  isDeniedEnvVar "BASH_ENV" = true ∧ child_getenv env "BASH_ENV" = Some ("/tmp/x=" +:+ v).
Proof.
  intros Hreq Hallow P1 P2 Hadm E. split; [by vm_compute|].
  set (K := "BASH_ENV=/tmp/x") in *.
  assert (¬ no_eq K) as HK by (unfold no_eq, K; intros HK; apply HK; by apply (bool_decide_eq_true_1 _); vm_compute).
  assert (∀ m : gmap string string, plain_keys m → m !! K = None) as HKm.
  { intros m Hm. destruct (m !! K) as [x|] eqn:Ex; [|done]. by destruct HK; eapply Hm. }
  unfold buildEnvironment in E. apply bind_Ok in E as ([m s1] & E & Eenv). injection Eenv as <- <-.
  unfold environment_map in E. apply bind_Ok in E as ([[m1 f1] s2] & E1 & E).
  pose proof (tool_env_forced _ _ _ _ _ _ _ _ E1) as Hf1. rewrite range_keys_set in Hf1.
  pose proof (forced_env_keys (range (td_ForcedEnv (ei_tool i))) (m1, f1)) as Hf2.
  pose proof (forced_env_plain (range (td_ForcedEnv (ei_tool i))) (m1, f1)) as Hp2.
  assert (∀ m : gmap string string, plain_keys m → Forall (λ kv, no_eq kv.1) (range m)) as HR.
  { intros m0 Hm0. apply Forall_range. intros j x Hj. by eapply Hm0. }
  specialize (Hp2 (HR _ P2)). simpl in Hp2. specialize (Hp2 ltac:(by eapply tool_env_plain; [|apply HR|apply base_plain])).
  destruct (forced_env _ (m1, f1)) as [m2 f2] eqn:Efe. simpl in Hf2, Hp2. rewrite range_keys_set, Hf1 in Hf2.
  assert (∀ k, k ∈ f2 → no_eq k) as Hf2p.
  { intros k. rewrite Hf2, !elem_of_union, !elem_of_dom. intros [[x Hx]|[[x Hx]|Hx]];
      [by eapply P2|by eapply P1|set_solver]. }
  assert (range (ei_req_env i) = [(K, v)]) as HL.
  { rewrite Hreq. apply range_singleton. }
  rewrite HL in E. cbn [request_env foldl] in E.
  assert (request_allowed (ei_tool i) f2 K = true) as Hra.
  { unfold request_allowed. replace (isDeniedEnvVar K) with false by (by vm_compute).
    rewrite bool_decide_eq_false_2, Hallow; [done|]. intros Hin. by apply HK, Hf2p. }
  unfold request_env in E. cbn [foldl fst snd] in E. rewrite Hra in E. cbn [fst snd] in E.
  replace (bool_decide (K = "TERM")) with false in E by (by vm_compute). cbn [orb] in E.
  assert (m2 !! "BASH_ENV" = None) as Hm2.
  { change m2 with (m2, f2).1. rewrite <- Efe. rewrite forced_env_lookup.
    2: { intros Hin. apply Hadm, elem_of_union_r. rewrite <- range_keys_set. by apply elem_of_list_to_set. }
    simpl. rewrite (tool_env_lookup _ _ _ _ _ _ _ _ "BASH_ENV" E1).
    2: { intros Hin. apply Hadm, elem_of_union_l. rewrite <- range_keys_set. by apply elem_of_list_to_set. }
    apply base_other. by apply (bool_decide_eq_true_1 _); vm_compute. }
  assert (odd_map K v "BASH_ENV" m) as (M1 & M2 & M3).
  { eapply finish_odd; [exact E|done|by apply (bool_decide_eq_true_1 _); vm_compute|].
    split; [apply lookup_insert_eq|]. split; [by rewrite lookup_insert_ne|].
    intros k x. destruct (decide (K = k)) as [->|Hn]; [by left|]. rewrite lookup_insert_ne by done.
    right. by eapply Hp2. }
  apply child_getenv_only.
  - exists (env_entry (K, v)). split.
    + apply list_elem_of_fmap. exists (K, v). split; [done|]. by apply elem_of_range.
    + apply HasPrefix_spec. by exists ("/tmp/x=" +:+ v).
  - intros e He Hpre. apply list_elem_of_fmap in He as ([k x] & -> & Hin%elem_of_range).
    destruct (M3 _ _ Hin) as [->|Hk].
    + rewrite M1 in Hin. injection Hin as <-. unfold TrimPrefix. apply (inj s2b). by rewrite s2b_b2s.
    + exfalso. destruct (env_entry_prefix "BASH_ENV" k x) as [Heq _]; [plain_literal|done|].
      rewrite Heq in Hpre. apply bool_decide_eq_true in Hpre as ->. congruence.
Qed.
End env.
