(* ===== verification/Runtime.v ===== *)
(** Package [internal/daemon], the small parts: file modes ([runtime_modes.go]),
    credential previews ([preview.go]), and the rendering of configuration
    templates and of their YAML values ([daemon.go]).

    A file mode is its number; [Perm] keeps the nine permission bits. *)

From S2P Require Import Prelude GoStrings.
Local Open Scope Z_scope.

(** ** File modes *)

Definition Perm (mode : Z) : Z := Z.land mode 511.

Definition allowedAuthFileModes : list Z := [384; 416].
Definition allowedSocketFileModes : list Z := [384; 432].

Definition IsAllowedAuthFileMode (mode : Z) : bool := bool_decide (Perm mode ∈ allowedAuthFileModes).
Definition IsAllowedSocketFileMode (mode : Z) : bool := bool_decide (Perm mode ∈ allowedSocketFileModes).

Definition parsePermMode (raw : string) : result Z :=
  let modeStr := TrimSpace raw in
  if bool_decide (modeStr = "") then Err (Errorf "mode cannot be empty" [])
  else
    let modeStr := TrimPrefix modeStr "0o" in
    match ParseUint modeStr 8 32 with
    | None => Err (Wrapf "invalid mode %q: %w" [FS raw] (Sentinel "strconv"))
    | Some value =>
      if negb (Z.ldiff value 511 =? 0) then
        Err (Errorf "invalid mode %q: only permission bits are allowed" [FS raw])
      else Ok (Perm value)
    end.

Definition ParseAuthFileMode (raw : string) : result Z :=
  parsePermMode raw ≫= λ mode,
  guard_err (negb (IsAllowedAuthFileMode mode))
    (Errorf "invalid auth mode %04o (allowed: 0600, 0640)" [FZ mode]) ≫= λ _, Ok mode.

Definition ParseSocketFileMode (raw : string) : result Z :=
  parsePermMode raw ≫= λ mode,
  guard_err (negb (IsAllowedSocketFileMode mode))
    (Errorf "invalid socket mode %04o (allowed: 0600, 0660)" [FZ mode]) ≫= λ _, Ok mode.

(** ** Previews *)

Definition credentialPreview (value : string) : string :=
  let rs := runes value in
  let n := length rs in
  if (n <=? 4)%nat then "****...****"
  else if (n <? 8)%nat then
    string_of_runes (take 1 rs) +:+ "....." +:+ string_of_runes (drop (n - 1) rs)
  else string_of_runes (take 2 rs) +:+ "....." +:+ string_of_runes (drop (n - 2) rs).

(** ** Templates *)

Definition squote : ascii := "'"%char.

Definition yamlEscapeValue (v : string) : string :=
  let escaped := ReplaceAll v "'" "''" in
  "'" +:+ escaped +:+ "'".

Section template.
Context `{MapRange}.

(** One iteration of [renderTemplate]. *)
Definition render_value (content : string) (kv : string * string) : string :=
  let escaped := yamlEscapeValue kv.2 in
  let placeholder := "{{ ." +:+ kv.1 +:+ " }}" in
  let content := ReplaceAll content placeholder escaped in
  let underscoreName := ReplaceAll kv.1 "-" "_" in
  let placeholder := "{{ ." +:+ underscoreName +:+ " }}" in
  ReplaceAll content placeholder escaped.

Definition renderTemplate (template : string) (values : gmap string string) : string :=
  foldl render_value template (range values).
End template.

(** ** Specification: a single-quoted YAML scalar on one line *)

Fixpoint unquote_body (b : bytes) : option bytes :=
  match b with
  | [] => None
  | c :: b' =>
    if bool_decide (c = squote) then
      match b' with
      | [] => Some []
      | d :: b'' => if bool_decide (d = squote) then cons squote <$> unquote_body b'' else None
      end
    else cons c <$> unquote_body b'
  end.

Definition yaml_unquote (s : string) : option string :=
  match s2b s with
  | c :: b => if bool_decide (c = squote) then b2s <$> unquote_body b else None
  | [] => None
  end.

(** ** Properties *)

Definition double_quotes (b : bytes) : bytes :=
  b ≫= λ c, if bool_decide (c = squote) then [squote; squote] else [c].

Lemma replace_quotes n b :
  (length b ≤ n)%nat → replace_fuel n b [squote] [squote; squote] = double_quotes b.
Proof.
  revert b. induction n as [|n IH]; intros [|c b] Hn; simpl in Hn; try (done || lia).
  unfold double_quotes in *. rewrite bind_cons. cbn [replace_fuel has_prefix].
  rewrite andb_true_r. destruct (decide (squote = c)) as [<-|Hne].
  - rewrite !bool_decide_eq_true_2 by done. change (drop (length [squote]) (squote :: b)) with b. by rewrite IH by lia.
  - rewrite !bool_decide_eq_false_2 by done. cbn [app]. by rewrite IH by lia.
Qed.

(** A credential value of any content is rendered as one single-quoted YAML
    scalar that reads back as the value, so no content of the value ends the
    scalar early. *)
Theorem yaml_escape_roundtrip v : yaml_unquote (yamlEscapeValue v) = Some v.
Proof.
  unfold yamlEscapeValue, yaml_unquote, ReplaceAll. rewrite !s2b_app, s2b_b2s.
  change (s2b "'") with [squote]. change (s2b "''") with [squote; squote]. cbn [app].
  rewrite bool_decide_eq_true_2, replace_quotes by (done || by rewrite s2b_length).
  assert (∀ b, unquote_body (double_quotes b ++ [squote]) = Some b) as ->; [|by simpl; rewrite b2s_s2b].
  induction b as [|c b IH]; [done|]. unfold double_quotes in *. rewrite bind_cons.
  destruct (bool_decide_reflect (c = squote)) as [->|Hne]; cbn [app unquote_body].
  - rewrite !bool_decide_eq_true_2 by done. by rewrite IH.
  - rewrite bool_decide_eq_false_2 by done. by rewrite IH.
Qed.

(** The entries of a map visited backwards: another admissible order. *)
Definition range_reversed : MapRange.
Proof.
  refine {| range A m := reverse (map_to_list m) |}.
  intros A m. by rewrite reverse_Permutation.
Defined.

(** A value is still part of the template while the others are substituted:
    with a credential whose value is the placeholder of another, the result
    depends on the order in which Go visits the map, and in one of the orders
    the second substitution lands inside the first one's quotes, which it
    closes. *)
Theorem renderTemplate_order :
  let values : gmap string string := {[ "a" := "{{ .b }}"; "b" := "x" ]} in
  ∃ M1 M2 : MapRange,
    @renderTemplate M1 "k: {{ .a }}" values = "k: ''x''" ∧
    @renderTemplate M2 "k: {{ .a }}" values = "k: '{{ .b }}'".
Proof.
  intros values. exists range_to_list, range_reversed. split; vm_compute; reflexivity.
Qed.

(** The modes accepted from the command line never open the authentication
    file or the socket to other users: the secret file is at most readable by
    its group, and the socket at most usable by its group. *)
Theorem parsed_modes_private raw mode :
  (ParseAuthFileMode raw = Ok mode → mode ∈ allowedAuthFileModes ∧ Z.land mode 31 = 0) ∧
  (ParseSocketFileMode raw = Ok mode → mode ∈ allowedSocketFileModes ∧ Z.land mode 15 = 0).
Proof.
  assert (∀ m, parsePermMode raw = Ok m → Perm m = m) as Hperm.
  { intros m. unfold parsePermMode. destruct (bool_decide _); [done|]. destruct (ParseUint _ _ _) as [v|]; [|done].
    destruct (negb _); [done|]. intros [= <-]. unfold Perm. by rewrite <- Z.land_assoc, Z.land_diag. }
  split; intros E; apply bind_Ok in E as (m & Em & E); apply bind_Ok in E as (? & Eg%guard_err_Ok & E);
    injection E as ->; apply negb_false_iff in Eg; apply bool_decide_eq_true in Eg;
    rewrite (Hperm _ Em) in Eg; (split; [done|]).
  - unfold allowedAuthFileModes in Eg. rewrite !elem_of_cons in Eg.
    destruct Eg as [->|[->|Eg%not_elem_of_nil]]; done.
  - unfold allowedSocketFileModes in Eg. rewrite !elem_of_cons in Eg.
    destruct Eg as [->|[->|Eg%not_elem_of_nil]]; done.
Qed.

(** A preview depends on at most the first two and the last two characters of
    a secret of eight characters or more; but a secret of five to seven
    characters, which the comment calls fully masked, shows its first and last
    ones. *)
Theorem preview_reveals :
  (∀ v w, (8 ≤ length (runes v))%nat → (8 ≤ length (runes w))%nat →
     take 2 (runes v) = take 2 (runes w) →
     drop (length (runes v) - 2) (runes v) = drop (length (runes w) - 2) (runes w) →
     credentialPreview v = credentialPreview w) ∧
  (∀ v, (length (runes v) ≤ 4)%nat → credentialPreview v = "****...****") ∧
  credentialPreview "hunter2" = "h.....2".
Proof.
  unfold credentialPreview. split; [|split; [|vm_compute; reflexivity]].
  - intros v w Hv Hw E1 E2. 
    rewrite !(proj2 (Nat.leb_gt _ _)) by lia. rewrite !(proj2 (Nat.ltb_ge _ _)) by lia. by rewrite E1, E2.
  - intros v Hv. by rewrite (proj2 (Nat.leb_le _ _)).
Qed.
