(* ===== verification/AuditLog.v ===== *)
(** Package [internal/audit]: the loggers an audit entry is written to.

    A logger is a handle. [Close] closes its file for good; a logger that writes JSON
    keeps the first error of its encoder and returns it for every later entry. The
    writer of the system log connects again when it has no connection, so closing it
    does not end it. Opening files and connections and writing consult the list of
    faults. *)

From S2P Require Import Prelude ConfigTypes.
Local Open Scope Z_scope.

Record Entry := {
  en_Timestamp : string;
  en_Tool : string;
  en_Args : option (list string);
  en_Cwd : string;
  en_CallerPID : Z;
  en_CallerExe : string;
  en_ExitCode : Z;
  en_Timeout : bool;
  en_DurationMs : Z;
  en_OutputHash : string;
  en_OutputBytes : Z;
}.

Inductive sink := SinkFile (path : string) | SinkStdout | SinkSyslog (facility : string).

(** A single logger: its handle and where it writes. *)
Record handle := { h_id : nat; h_sink : sink }.

Inductive Logger := Nop | Single (h : handle) | MultiLogger (loggers : list handle).

(** The state the loggers share: the next handle, the handles whose file is closed,
    the error that the JSON encoder of a handle keeps, the handles of the system log
    without a connection, the entries written to each handle, and the coming
    refusals of the system. *)
Record audit_state := {
  as_next : nat;
  as_closed : gset nat;
  as_broken : gmap nat error;
  as_offline : gset nat;
  as_written : list (handle * Entry);
  as_faults : list bool;
}.

Definition as_refused (s : audit_state) : bool * audit_state :=
  match as_faults s with
  | [] => (false, s)
  | f :: fs => (f, {| as_next := as_next s; as_closed := as_closed s; as_broken := as_broken s;
                      as_offline := as_offline s; as_written := as_written s; as_faults := fs |})
  end.

Definition set_as_closed (s : audit_state) (closed : gset nat) : audit_state :=
  {| as_next := as_next s; as_closed := closed; as_broken := as_broken s; as_offline := as_offline s;
     as_written := as_written s; as_faults := as_faults s |}.
Definition set_broken (s : audit_state) (broken : gmap nat error) : audit_state :=
  {| as_next := as_next s; as_closed := as_closed s; as_broken := broken; as_offline := as_offline s;
     as_written := as_written s; as_faults := as_faults s |}.
Definition set_offline (s : audit_state) (offline : gset nat) : audit_state :=
  {| as_next := as_next s; as_closed := as_closed s; as_broken := as_broken s; as_offline := offline;
     as_written := as_written s; as_faults := as_faults s |}.
Definition add_written (s : audit_state) (h : handle) (entry : Entry) : audit_state :=
  {| as_next := as_next s; as_closed := as_closed s; as_broken := as_broken s; as_offline := as_offline s;
     as_written := as_written s ++ [(h, entry)]; as_faults := as_faults s |}.

Definition closed_error : error := Sentinel "file already closed".
Definition audit_io_error : error := Sentinel "io".

(** [FileLogger.Log], [StreamLogger.Log]: [json.Encoder.Encode], which returns the
    first error of a write ever after. *)
Definition json_Log (h : handle) (entry : Entry) (s : audit_state) : option error * audit_state :=
  let fail err s := (Some err, set_broken s (<[h_id h := err]> (as_broken s))) in
  match as_broken s !! h_id h with
  | Some err => (Some err, s)
  | None =>
    if bool_decide (h_id h ∈ as_closed s) then fail closed_error s
    else
      match as_refused s with
      | (true, s) => fail audit_io_error s
      | (false, s) => (None, add_written s h entry)
      end
  end.

(** [syslog.Writer.writeAndRetry] once its connection failed or is gone: it connects
    again and writes. *)
Definition syslog_reconnect (h : handle) (entry : Entry) (s : audit_state) : option error * audit_state :=
  match as_refused s with
  | (true, s) => (Some audit_io_error, set_offline s ({[h_id h]} ∪ as_offline s))
  | (false, s) =>
    let s := set_offline s (as_offline s ∖ {[h_id h]}) in
    match as_refused s with
    | (true, s) => (Some audit_io_error, s)
    | (false, s) => (None, add_written s h entry)
    end
  end.

(** [syslogLogger.Log]. *)
Definition syslog_Log (h : handle) (entry : Entry) (s : audit_state) : option error * audit_state :=
  if bool_decide (h_id h ∈ as_offline s) then syslog_reconnect h entry s
  else
    match as_refused s with
    | (true, s) => syslog_reconnect h entry s
    | (false, s) => (None, add_written s h entry)
    end.

Definition log_one (h : handle) (entry : Entry) (s : audit_state) : option error * audit_state :=
  match h_sink h with
  | SinkSyslog _ => syslog_Log h entry s
  | _ => json_Log h entry s
  end.

(** [FileLogger.Close], which closes a file once; [syslogLogger.Close], which drops
    the connection; a stream is not closed. *)
Definition close_one (h : handle) (s : audit_state) : option error * audit_state :=
  match h_sink h with
  | SinkStdout => (None, s)
  | SinkSyslog _ => (None, set_offline s ({[h_id h]} ∪ as_offline s))
  | SinkFile _ =>
    if bool_decide (h_id h ∈ as_closed s) then (Some closed_error, s)
    else (None, set_as_closed s ({[h_id h]} ∪ as_closed s))
  end.

(** The loop of [MultiLogger.Log] and [Close]: all are visited, the first error
    is kept. *)
Fixpoint each_logger (f : handle → audit_state → option error * audit_state) (l : list handle)
    (firstErr : option error) (s : audit_state) : option error * audit_state :=
  match l with
  | [] => (firstErr, s)
  | h :: l =>
    let '(err, s) := f h s in
    each_logger f l (match firstErr with None => err | _ => firstErr end) s
  end.

Definition Log (l : Logger) (entry : Entry) (s : audit_state) : option error * audit_state :=
  match l with
  | Nop => (None, s)
  | Single h => log_one h entry s
  | MultiLogger loggers => each_logger (λ h, log_one h entry) loggers None s
  end.

Definition Close (l : Logger) (s : audit_state) : option error * audit_state :=
  match l with
  | Nop => (None, s)
  | Single h => close_one h s
  | MultiLogger loggers => each_logger close_one loggers None s
  end.

(** Opening a sink: a new handle, unless the system refuses. *)
Definition open_sink (k : sink) (s : audit_state) : option handle * audit_state :=
  match as_refused s with
  | (true, s) => (None, s)
  | (false, s) =>
    (Some {| h_id := as_next s; h_sink := k |},
     {| as_next := S (as_next s); as_closed := as_closed s; as_broken := as_broken s;
        as_offline := as_offline s; as_written := as_written s; as_faults := as_faults s |})
  end.

(** [NewStreamLogger] opens nothing. *)
Definition NewStreamLogger (s : audit_state) : handle * audit_state :=
  ({| h_id := as_next s; h_sink := SinkStdout |},
   {| as_next := S (as_next s); as_closed := as_closed s; as_broken := as_broken s;
      as_offline := as_offline s; as_written := as_written s; as_faults := as_faults s |}).

Definition parseFacility (name : string) : string :=
  if bool_decide (name ∈ ["local1"; "local2"; "local3"; "local4"; "local5"; "local6"; "local7"]) then name
  else "local0".

(** The stages of [New]: the stream, the system log, and what is returned. *)
Definition add_stdout (a : AuditConfig) (loggers : list handle) (s : audit_state) : list handle * audit_state :=
  if au_Stdout a then let '(h, s) := NewStreamLogger s in (loggers ++ [h], s) else (loggers, s).

(** A failure is not fatal when there is another logger. *)
Definition add_syslog (a : AuditConfig) (loggers : list handle) (s : audit_state) : result (list handle) * audit_state :=
  if au_Syslog a then
    match open_sink (SinkSyslog (parseFacility (au_SyslogFacility a))) s with
    | (Some h, s) => (Ok (loggers ++ [h]), s)
    | (None, s) =>
      if (0 <? length loggers)%nat then (Ok loggers, s)
      else (Err (Wrapf "audit syslog logger: %w" [] audit_io_error), s)
    end
  else (Ok loggers, s).

Definition one_or_many (loggers : list handle) : Logger :=
  match loggers with [] => Nop | [h] => Single h | _ => MultiLogger loggers end.

Definition New (cfg : option AuditConfig) (s : audit_state) : result Logger * audit_state :=
  match cfg with
  | None => (Ok Nop, s)
  | Some a =>
    if negb (au_Enabled a) then (Ok Nop, s)
    else
      let '(file, s) :=
        if negb (bool_decide (au_File a = "")) then
          match open_sink (SinkFile (au_File a)) s with
          | (None, s) => (Err (Wrapf "audit file logger: %w" [] audit_io_error), s)
          | (Some h, s) => (Ok [h], s)
          end
        else (Ok [], s) in
      match file with
      | Err err => (Err err, s)
      | Ok loggers =>
        let '(loggers, s) := add_stdout a loggers s in
        let '(loggers, s) := add_syslog a loggers s in
        (loggers ≫= λ loggers, Ok (one_or_many loggers), s)
      end
  end.

(** ** Properties *)

Definition handles (l : Logger) : list handle :=
  match l with Nop => [] | Single h => [h] | MultiLogger hs => hs end.

Lemma as_refused_spec s f s' :
  as_refused s = (f, s') →
  as_closed s' = as_closed s ∧ as_next s' = as_next s ∧ as_written s' = as_written s ∧
  as_broken s' = as_broken s ∧ as_offline s' = as_offline s ∧ (as_faults s = [] → f = false ∧ as_faults s' = []).
Proof. unfold as_refused. destruct (as_faults s) eqn:E; intros [= <- <-]; by rewrite ?E. Qed.

(** What a logger that does not return an error has written, and no other one. *)
Definition logged_once (h : handle) (entry : Entry) (s : audit_state) (r : option error * audit_state) : Prop :=
  as_closed r.2 = as_closed s ∧ as_next r.2 = as_next s ∧
  as_written r.2 = as_written s ++ (match r.1 with None => [(h, entry)] | Some _ => [] end).

Lemma json_Log_spec h entry s : logged_once h entry s (json_Log h entry s).
Proof.
  unfold logged_once, json_Log. destruct (as_broken s !! h_id h); [by rewrite app_nil_r|].
  case_bool_decide; [by rewrite app_nil_r|].
  destruct (as_refused s) as [[] s1] eqn:E; apply as_refused_spec in E as (C & N & W & _); cbn;
    rewrite C, N, W; by rewrite ?app_nil_r.
Qed.

Lemma syslog_reconnect_spec h entry s : logged_once h entry s (syslog_reconnect h entry s).
Proof.
  unfold logged_once, syslog_reconnect.
  destruct (as_refused s) as [[] s1] eqn:E; apply as_refused_spec in E as (C & N & W & _); cbn.
  { by rewrite app_nil_r, C, N, W. }
  destruct (as_refused _) as [[] s2] eqn:E2; apply as_refused_spec in E2 as (C2 & N2 & W2 & _); cbn in *;
    rewrite C2, N2, W2, C, N, W; by rewrite ?app_nil_r.
Qed.

Lemma syslog_Log_spec h entry s : logged_once h entry s (syslog_Log h entry s).
Proof.
  unfold syslog_Log. case_bool_decide; [apply syslog_reconnect_spec|].
  destruct (as_refused s) as [[] s1] eqn:E; apply as_refused_spec in E as (C & N & W & _).
  - unfold logged_once. rewrite <- C, <- N, <- W. apply syslog_reconnect_spec.
  - unfold logged_once. cbn. by rewrite C, N, W.
Qed.

Lemma log_one_spec h entry s err s' :
  log_one h entry s = (err, s') →
  as_closed s' = as_closed s ∧ as_next s' = as_next s ∧
  as_written s' = as_written s ++ (match err with None => [(h, entry)] | Some _ => [] end).
Proof.
  intros E. assert (logged_once h entry s (log_one h entry s)) as HL.
  { unfold log_one. destruct (h_sink h); [apply json_Log_spec..|apply syslog_Log_spec]. }
  by rewrite E in HL.
Qed.

(** A logger that can write: the system log always, a file that is open, a stream,
    unless a write of theirs was refused before. *)
Definition writable (s : audit_state) (h : handle) : bool :=
  match h_sink h with
  | SinkSyslog _ => true
  | _ => bool_decide (h_id h ∉ as_closed s) && bool_decide (as_broken s !! h_id h = None)
  end.

Lemma log_one_writable h entry s :
  as_faults s = [] →
  as_faults (log_one h entry s).2 = [] ∧ ((log_one h entry s).1 = None ↔ writable s h = true) ∧
  ∀ k, writable s k = true → writable (log_one h entry s).2 k = true.
Proof.
  intros Hf. unfold log_one, writable, json_Log, syslog_Log, syslog_reconnect, as_refused. rewrite Hf. cbn.
  destruct (h_sink h) as [p| |fac].
  1,2: destruct (as_broken s !! h_id h) as [e|] eqn:Eb;
    [rewrite (bool_decide_eq_false_2 (Some e = None)) by done; by rewrite andb_false_r|];
    rewrite (bool_decide_eq_true_2 (None = None)) by done; rewrite andb_true_r;
    destruct (bool_decide_reflect (h_id h ∈ as_closed s)) as [Hc|Hc]; cbn; rewrite ?Hf;
    [rewrite bool_decide_eq_false_2 by naive_solver|rewrite bool_decide_eq_true_2 by done; by split_and!];
    split; [done|split; [done|]]; intros k; destruct (h_sink k); try done;
    rewrite !andb_true_iff, !bool_decide_eq_true; intros [Hk Hb]; (split; [done|]);
    rewrite lookup_insert_ne by congruence; done.
  case_bool_decide; cbn; rewrite ?Hf; cbn; by rewrite ?Hf.
Qed.

Lemma log_one_others h k entry s :
  h_id k ≠ h_id h → writable (log_one h entry s).2 k = writable s k.
Proof.
  intros Hk. assert (∀ s1 s2, as_closed s2 = as_closed s1 → as_broken s2 !! h_id k = as_broken s1 !! h_id k →
    writable s2 k = writable s1 k) as Hsame by (unfold writable; by intros s1 s2 -> ->).
  assert (∀ s, writable (syslog_reconnect h entry s).2 k = writable s k) as Hrec.
  { intros s0. unfold syslog_reconnect. destruct (as_refused s0) as [[] s1] eqn:E;
      apply as_refused_spec in E as (C & _ & _ & B & _); [by apply Hsame; cbn; rewrite ?C, ?B|].
    destruct (as_refused _) as [[] s2] eqn:E2; apply as_refused_spec in E2 as (C2 & _ & _ & B2 & _); cbn in *;
      apply Hsame; cbn; by rewrite ?C2, ?C, ?B2, ?B. }
  unfold log_one. destruct (h_sink h) as [p| |fac].
  1,2: unfold json_Log; destruct (as_broken s !! h_id h); [done|]; case_bool_decide;
    [apply Hsame; cbn; [done|by rewrite lookup_insert_ne]|];
    destruct (as_refused s) as [[] s1] eqn:E; apply as_refused_spec in E as (C & _ & _ & B & _);
    apply Hsame; cbn; rewrite ?lookup_insert_ne by done; by rewrite ?C, ?B.
  unfold syslog_Log. case_bool_decide; [apply Hrec|].
  destruct (as_refused s) as [[] s1] eqn:E; apply as_refused_spec in E as (C & _ & _ & B & _); [|by apply Hsame; cbn; rewrite ?C, ?B].
  cbn [snd]. rewrite Hrec. apply Hsame; by rewrite ?C, ?B.
Qed.

(** Fan-out. An entry logged through several loggers reaches every one that can
    write, even after another one has failed, each
    at most once, in order; the error returned is the first. *)
Theorem MultiLogger_all_sinks hs entry s :
  as_faults s = [] → NoDup (h_id <$> hs) →
  let '(err, s') := Log (MultiLogger hs) entry s in
  as_written s' = as_written s ++ ((λ h, (h, entry)) <$> filter (λ h, writable s h = true) hs) ∧
  (err = None ↔ Forall (λ h, writable s h = true) hs).
Proof.
  intros Hf Hnd. unfold Log.
  assert (∀ hs first s, as_faults s = [] → NoDup (h_id <$> hs) →
    let '(err, s') := each_logger (λ h, log_one h entry) hs first s in
    as_written s' = as_written s ++ ((λ h, (h, entry)) <$> filter (λ h, writable s h = true) hs) ∧
    (err = None ↔ first = None ∧ Forall (λ h, writable s h = true) hs)) as HG.
  { clear. induction hs as [|h hs IH]; intros first s Hf Hnd.
    - simpl. rewrite app_nil_r. split; [done|]. split; [by split|by intros []].
    - cbn [fmap list_fmap] in Hnd. apply NoDup_cons in Hnd as [Hnin Hnd].
      cbn [each_logger]. destruct (log_one h entry s) as [e s1] eqn:E.
      pose proof (log_one_spec _ _ _ _ _ E) as (_ & _ & Hw).
      pose proof (log_one_writable h entry s Hf) as (Hf1 & He & _). rewrite E in Hf1, He. cbn [fst snd] in *.
      assert (∀ k, k ∈ hs → writable s1 k = writable s k) as Hk.
      { intros k Hin. pose proof (log_one_others h k entry s) as Ho. rewrite E in Ho. apply Ho.
        intros Hid. apply Hnin. rewrite <- Hid. by apply list_elem_of_fmap_2. }
      specialize (IH (match first with None => e | _ => first end) s1 Hf1 Hnd).
      destruct (each_logger _ _ _ _) as [err s']. destruct IH as [-> IH2].
      assert (filter (λ h, writable s1 h = true) hs = filter (λ h, writable s h = true) hs) as ->.
      { clear -Hk. induction hs as [|k hs IH]; [done|]. rewrite !filter_cons.
        rewrite (Hk k) by left. rewrite IH by (intros; apply Hk; by right). done. }
      assert (Forall (λ h, writable s1 h = true) hs ↔ Forall (λ h, writable s h = true) hs) as HF.
      { rewrite !Forall_forall. split; intros H k Hin; [rewrite <- Hk by done|rewrite Hk by done]; by apply H. }
      rewrite Hw. rewrite IH2, Forall_cons, HF, <- He.
      destruct e; [rewrite filter_cons_False by naive_solver|rewrite filter_cons_True by naive_solver];
        cbn [fmap list_fmap]; rewrite <- ?app_assoc, ?app_nil_r; (split; [done|]);
        destruct first; naive_solver. }
  specialize (HG hs None s Hf Hnd). destruct (each_logger _ _ _ _) as [err s'].
  destruct HG as [HG1 HG2]. split; [done|]. rewrite HG2. naive_solver.
Qed.

(** The error of an encoder stays: once a write to a file or a stream was refused,
    every later entry of that logger is refused and written nowhere, until a reload
    makes a new logger. *)
Theorem encoder_error_stays h entry s entry' s' :
  (∀ f, h_sink h ≠ SinkSyslog f) → (log_one h entry s).1 ≠ None →
  as_broken s' = as_broken (log_one h entry s).2 →
  ∃ err, log_one h entry' s' = (Some err, s').
Proof.
  intros Hs Hne Hb. unfold log_one in *.
  assert (is_Some (as_broken (json_Log h entry s).2 !! h_id h)) as [err He].
  { destruct (h_sink h) as [p| |fac]; [| |by destruct (Hs fac)]; revert Hne; unfold json_Log;
      (destruct (as_broken s !! h_id h) eqn:E; [cbn; intros _; by rewrite E|]); (case_bool_decide; [by cbn; rewrite lookup_insert_eq|]);
      by destruct (as_refused s) as [[] s1]; cbn; rewrite ?lookup_insert_eq. }
  exists err. destruct (h_sink h) as [p| |fac]; [| |by destruct (Hs fac)]; unfold json_Log; by rewrite Hb, He.
Qed.

(** The system log survives its [Close]: with no fault, an entry logged after it is
    written. *)
Theorem syslog_reconnects h fac entry s :
  h_sink h = SinkSyslog fac → as_faults s = [] →
  (close_one h s).1 = None ∧
  let s1 := (close_one h s).2 in
  (log_one h entry s1).1 = None ∧ as_written (log_one h entry s1).2 = as_written s ++ [(h, entry)].
Proof.
  intros Hs Hf. unfold close_one, log_one, syslog_Log, syslog_reconnect, as_refused. rewrite Hs. split; [done|]. cbn.
  rewrite bool_decide_eq_true_2 by set_solver. rewrite Hf. cbn. by rewrite Hf.
Qed.

(** ** Closed handles stay closed *)

Lemma each_logger_closed f l first s :
  (∀ h s, as_closed s ⊆ as_closed (f h s).2) → as_closed s ⊆ as_closed (each_logger f l first s).2.
Proof.
  intros Hf. revert first s. induction l as [|h l IH]; intros first s; cbn [each_logger]; [done|].
  specialize (Hf h s). destruct (f h s) as [err s1]. cbn [snd] in Hf. etrans; [exact Hf|apply IH].
Qed.

Lemma log_one_closed h entry s : as_closed (log_one h entry s).2 = as_closed s.
Proof. destruct (log_one h entry s) as [err s'] eqn:E. by apply log_one_spec in E as [? _]. Qed.

Lemma Log_closed l entry s : as_closed s ⊆ as_closed (Log l entry s).2.
Proof.
  destruct l as [|h|hs]; cbn [Log]; [done|by rewrite log_one_closed|].
  apply each_logger_closed. intros h s1. by rewrite log_one_closed.
Qed.

Lemma close_one_closed h s : as_closed s ⊆ as_closed (close_one h s).2.
Proof. unfold close_one. destruct (h_sink h); [|done..]. case_bool_decide; cbn; set_solver. Qed.

Lemma Close_closed l s : as_closed s ⊆ as_closed (Close l s).2.
Proof.
  destruct l as [|h|hs]; cbn [Close]; [done|apply close_one_closed|].
  apply each_logger_closed. intros. apply close_one_closed.
Qed.

Lemma open_sink_closed k s : as_closed (open_sink k s).2 = as_closed s.
Proof. unfold open_sink, as_refused. by destruct (as_faults s) as [|[] fs]. Qed.

Lemma add_stdout_closed a loggers s : as_closed (add_stdout a loggers s).2 = as_closed s.
Proof. unfold add_stdout. by destruct (au_Stdout a). Qed.

Lemma add_syslog_closed a loggers s : as_closed (add_syslog a loggers s).2 = as_closed s.
Proof.
  unfold add_syslog. destruct (au_Syslog a); [|done].
  match goal with |- context [open_sink ?k s] => pose proof (open_sink_closed k s); destruct (open_sink k s) as [[h|] s1] end;
    [done|]. by destruct (0 <? _)%nat.
Qed.

Lemma New_closed cfg s : as_closed (New cfg s).2 = as_closed s.
Proof.
  unfold New. destruct cfg as [a|]; [|done]. destruct (negb _); [done|].
  assert (∀ loggers s1, as_closed s1 = as_closed s →
    as_closed (let '(loggers, s1) := add_stdout a loggers s1 in
               let '(loggers, s1) := add_syslog a loggers s1 in
               (loggers ≫= λ loggers, Ok (one_or_many loggers), s1)).2 = as_closed s) as Htail.
  { intros loggers s1 Hs1. pose proof (add_stdout_closed a loggers s1). destruct (add_stdout _ _ _) as [l s2].
    pose proof (add_syslog_closed a l s2). destruct (add_syslog _ _ _) as [r s3]. cbn in *. congruence. }
  destruct (negb _); [|by apply Htail].
  pose proof (open_sink_closed (SinkFile (au_File a)) s). destruct (open_sink _ s) as [[h|] s1]; [by apply Htail|done].
Qed.

(** A file that is closed takes no entry. *)
Lemma log_one_closed_file h path entry s :
  h_sink h = SinkFile path → h_id h ∈ as_closed s →
  ∃ err s', log_one h entry s = (Some err, s') ∧ as_written s' = as_written s.
Proof.
  intros Hs Hin. unfold log_one, json_Log. rewrite Hs. destruct (as_broken s !! h_id h) as [err|]; [by do 2 eexists|].
  rewrite bool_decide_eq_true_2 by done. by do 2 eexists.
Qed.

Lemma close_one_closes h path s : h_sink h = SinkFile path → h_id h ∈ as_closed (close_one h s).2.
Proof. intros Hs. unfold close_one. rewrite Hs. case_bool_decide; cbn; set_solver. Qed.

(** ** What [New] opens *)

Definition is_syslog (k : sink) : bool := match k with SinkSyslog _ => true | _ => false end.

(** The sinks a configuration asks for, in the order of [New]. *)
Definition sinks_of (cfg : option AuditConfig) : list sink :=
  match cfg with
  | Some a =>
    if au_Enabled a then
      (if bool_decide (au_File a = "") then [] else [SinkFile (au_File a)]) ++
      (if au_Stdout a then [SinkStdout] else []) ++
      (if au_Syslog a then [SinkSyslog (parseFacility (au_SyslogFacility a))] else [])
    else []
  | None => []
  end.

(** A logger writes to these sinks; the system log may be missing if there is another. *)
Definition logs_to (l : Logger) (cfg : option AuditConfig) : Prop :=
  h_sink <$> handles l = sinks_of cfg ∨
  h_sink <$> handles l = filter (λ k, is_syslog k = false) (sinks_of cfg) ∧ handles l ≠ [].

(** Calls that write no entry and only make new handles. *)
Definition opens (s s' : audit_state) (hs : list handle) : Prop :=
  as_written s' = as_written s ∧ as_closed s' = as_closed s ∧ (as_next s ≤ as_next s')%nat ∧
  Forall (λ h, (as_next s ≤ h_id h < as_next s')%nat) hs.

Lemma opens_trans s1 s2 s3 a b : opens s1 s2 a → opens s2 s3 b → opens s1 s3 (a ++ b).
Proof.
  intros (W1 & C1 & N1 & F1) (W2 & C2 & N2 & F2). unfold opens. split_and!; [congruence..|lia|].
  apply Forall_app. split; eapply Forall_impl; try done; cbn; intros; lia.
Qed.

Lemma open_sink_opens k s r s' :
  open_sink k s = (r, s') →
  opens s s' (match r with Some h => [h] | None => [] end) ∧ ∀ h, r = Some h → h_sink h = k.
Proof.
  unfold open_sink. destruct (as_refused s) as [[] s1] eqn:E; apply as_refused_spec in E as (C & N & W & _);
    intros [= <- <-]; unfold opens; cbn; rewrite ?C, ?N, ?W; (split; [|by intros ? [= <-]]); split_and!; try done; try lia.
  constructor; [cbn; lia|done].
Qed.

Lemma add_stdout_opens a loggers s l s' :
  add_stdout a loggers s = (l, s') → ∃ hs, l = loggers ++ hs ∧ opens s s' hs ∧
    h_sink <$> hs = if au_Stdout a then [SinkStdout] else [].
Proof.
  unfold add_stdout. destruct (au_Stdout a); intros [= <- <-]; (eexists; split; [|split]).
  - reflexivity.
  - unfold opens. cbn. split_and!; try done; [lia|]. constructor; [cbn; lia|done].
  - done.
  - by rewrite app_nil_r.
  - unfold opens. by split_and!.
  - done.
Qed.

Lemma add_syslog_opens a loggers s l s' :
  add_syslog a loggers s = (Ok l, s') → ∃ hs, l = loggers ++ hs ∧ opens s s' hs ∧
    (h_sink <$> hs = (if au_Syslog a then [SinkSyslog (parseFacility (au_SyslogFacility a))] else []) ∨ hs = [] ∧ loggers ≠ []).
Proof.
  unfold add_syslog. destruct (au_Syslog a).
  - destruct (open_sink _ s) as [[h|] s1] eqn:E; apply open_sink_opens in E as [O Hk].
    + intros [= <- <-]. exists [h]. split; [done|]. split; [done|]. left. cbn. by rewrite (Hk h).
    + destruct (Nat.ltb_spec 0 (length loggers)); [|done]. intros [= <- <-]. exists []. rewrite app_nil_r.
      split; [done|]. split; [done|]. right. split; [done|]. intros ->. cbn in *. lia.
  - intros [= <- <-]. exists []. rewrite app_nil_r. split; [done|]. split; [|by left]. unfold opens. by split_and!.
Qed.

Lemma handles_one_or_many l : handles (one_or_many l) = l.
Proof. by destruct l as [|h [|h2 l]]. Qed.

(** [New] opens what the configuration asks for, with new handles. *)
Lemma New_spec cfg s l s' : New cfg s = (Ok l, s') → logs_to l cfg ∧ opens s s' (handles l).
Proof.
  unfold New, logs_to, sinks_of. destruct cfg as [a|]; [|intros [= <- <-]; split; [by left|]; unfold opens; by split_and!].
  destruct (au_Enabled a); cbn [negb]; [|intros [= <- <-]; split; [by left|]; unfold opens; by split_and!].
  set (file := if bool_decide (au_File a = "") then [] else _).
  assert (∀ f s1, opens s s1 f → h_sink <$> f = file →
    (let '(loggers, s1) := add_stdout a f s1 in
     let '(loggers, s1) := add_syslog a loggers s1 in (loggers ≫= λ loggers, Ok (one_or_many loggers), s1)) = (Ok l, s') →
    (h_sink <$> handles l = file ++ (if au_Stdout a then [SinkStdout] else []) ++
       (if au_Syslog a then [SinkSyslog (parseFacility (au_SyslogFacility a))] else []) ∨
     h_sink <$> handles l = filter (λ k, is_syslog k = false) (file ++ (if au_Stdout a then [SinkStdout] else []) ++
       (if au_Syslog a then [SinkSyslog (parseFacility (au_SyslogFacility a))] else [])) ∧ handles l ≠ []) ∧
    opens s s' (handles l)) as Htail.
  { intros f s1 O1 Hf. destruct (add_stdout a f s1) as [l1 s2] eqn:E1. apply add_stdout_opens in E1 as (h1 & -> & O2 & K1).
    destruct (add_syslog a _ s2) as [[l2|] s3] eqn:E2; [|done]. apply add_syslog_opens in E2 as (h2 & -> & O3 & K2).
    cbn. intros [= <- <-]. rewrite handles_one_or_many.
    split; [|eapply opens_trans; [by eapply opens_trans|done]]. rewrite !fmap_app, Hf, K1.
    destruct K2 as [->|[-> Hne]]; [left; by rewrite <- app_assoc|]. destruct (au_Syslog a) eqn:Es.
    - right. change (h_sink <$> []) with (@nil sink). rewrite !app_nil_r. split; [|done]. rewrite !filter_app. cbn. rewrite !app_nil_r. f_equal.
      + unfold file. by case_bool_decide.
      + by destruct (au_Stdout a).
    - left. by rewrite <- app_assoc. }
  unfold file in *. destruct (bool_decide (au_File a = "")); cbn [negb].
  - apply Htail; [|done]. unfold opens. by split_and!.
  - destruct (open_sink (SinkFile (au_File a)) s) as [[h|] s1] eqn:E; [|done]. apply open_sink_opens in E as [O Hk].
    apply Htail; [done|]. cbn. by rewrite (Hk h).
Qed.

(** [Close] writes nothing and closes only the logger's own files. *)
Lemma Close_spec l s :
  as_written (Close l s).2 = as_written s ∧ as_next (Close l s).2 = as_next s ∧
  as_closed (Close l s).2 ⊆ as_closed s ∪ list_to_set (h_id <$> handles l).
Proof.
  assert (∀ h s, as_written (close_one h s).2 = as_written s ∧ as_next (close_one h s).2 = as_next s ∧
    as_closed (close_one h s).2 ⊆ as_closed s ∪ {[h_id h]}) as H1.
  { intros h s0. unfold close_one. destruct (h_sink h); [case_bool_decide| |]; cbn; split_and!; try done; set_solver. }
  destruct l as [|h|hs]; cbn [Close handles fmap list_fmap list_to_set].
  - cbn. split_and!; try done. set_solver.
  - destruct (H1 h s) as (W & N & C). split_and!; try done. set_solver.
  - assert (∀ first s, as_written (each_logger close_one hs first s).2 = as_written s ∧
      as_next (each_logger close_one hs first s).2 = as_next s ∧
      as_closed (each_logger close_one hs first s).2 ⊆ as_closed s ∪ list_to_set (h_id <$> hs)) as HG; [|apply HG].
    induction hs as [|h hs IH]; intros first s0; cbn [each_logger fmap list_fmap list_to_set]; [split_and!; try done; set_solver|].
    destruct (H1 h s0) as (W & N & C). destruct (close_one h s0) as [err s1]. cbn [snd] in *.
    destruct (IH (match first with None => err | _ => first end) s1) as (W2 & N2 & C2).
    rewrite W2, N2. split_and!; try done. set_solver.
Qed.

(** Every file of the logger is closed. *)
Lemma Close_closes l h path s : h ∈ handles l → h_sink h = SinkFile path → h_id h ∈ as_closed (Close l s).2.
Proof.
  intros Hin Hs. destruct l as [|k|hs]; cbn [handles Close] in *; [by apply not_elem_of_nil in Hin| |].
  { apply list_elem_of_singleton in Hin as <-. by eapply close_one_closes. }
  generalize (@None error) as first. revert s. induction hs as [|k hs IH]; intros s first; [by apply not_elem_of_nil in Hin|].
  cbn [each_logger]. destruct (close_one k s) as [err s1] eqn:E. apply elem_of_cons in Hin as [<-|Hin]; [|by apply IH].
  pose proof (close_one_closes h path s Hs) as Hc. rewrite E in Hc.
  by apply (each_logger_closed close_one hs _ s1), Hc; intros; apply close_one_closed.
Qed.

Lemma New_failed cfg s err s' : New cfg s = (Err err, s') → as_written s' = as_written s.
Proof.
  unfold New. destruct cfg as [a|]; [|done]. destruct (negb (au_Enabled a)); [done|].
  assert (∀ f s1, as_written s1 = as_written s →
    (let '(loggers, s1) := add_stdout a f s1 in
     let '(loggers, s1) := add_syslog a loggers s1 in (loggers ≫= λ loggers, Ok (one_or_many loggers), s1)) = (Err err, s') →
    as_written s' = as_written s) as Htail.
  { intros f s1 Hw. destruct (add_stdout a f s1) as [l1 s2] eqn:E1. apply add_stdout_opens in E1 as (h1 & -> & (W2 & _) & _).
    unfold add_syslog. destruct (au_Syslog a); [|done].
    destruct (open_sink _ s2) as [[h|] s3] eqn:E; apply open_sink_opens in E as [(W3 & _) _]; [done|].
    destruct (0 <? _)%nat; [done|]. cbn. intros [= _ <-]. congruence. }
  destruct (negb _); [|by apply Htail].
  destruct (open_sink _ s) as [[h|] s1] eqn:E; apply open_sink_opens in E as [(W & _) _]; [by apply Htail|].
  by intros [= _ <-].
Qed.
