(* ===== verification/AuditFile.v ===== *)
(** Package [internal/audit]: the text of the audit log, one line of JSON for an
    entry, and the file it is appended to.

    [Encode] writes with [SetEscapeHTML(false)], the syslog logger uses [Marshal],
    which escapes HTML. The file is a node of [SecretFile.fs]; the logger names it by
    its path. A refused write may have written a part of its line, and the encoder
    keeps its error, so there is at most one such part. *)

From S2P Require Import Prelude GoStrings Json GoPath SecretFile ConfigTypes AuditLog.
Local Open Scope Z_scope.

(** ** The encoding of an entry *)

Definition json_key (k : string) : bytes := quote :: s2b k ++ [quote; ":"%char].

(** [omitempty]: no field for no arguments. *)
Definition args_field (esc : bool) (args : option (list string)) : bytes :=
  match args with
  | None | Some [] => []
  | Some (x :: l) => s2b "," ++ json_key "args" ++ json_qstrings esc (Some (x :: l))
  end.

Definition entry_json (esc : bool) (e : Entry) : bytes :=
  s2b "{" ++ json_key "ts" ++ json_qstring esc (en_Timestamp e)
  ++ s2b "," ++ json_key "tool" ++ json_qstring esc (en_Tool e)
  ++ args_field esc (en_Args e)
  ++ s2b "," ++ json_key "cwd" ++ json_qstring esc (en_Cwd e)
  ++ s2b "," ++ json_key "caller_pid" ++ s2b (FormatInt (en_CallerPID e))
  ++ s2b "," ++ json_key "caller_exe" ++ json_qstring esc (en_CallerExe e)
  ++ s2b "," ++ json_key "exit_code" ++ s2b (FormatInt (en_ExitCode e))
  ++ (if en_Timeout e then s2b "," ++ json_key "timeout" ++ s2b "true" else [])
  ++ (if en_DurationMs e =? 0 then [] else s2b "," ++ json_key "duration_ms" ++ s2b (FormatInt (en_DurationMs e)))
  ++ (if bool_decide (en_OutputHash e = "") then [] else s2b "," ++ json_key "output_hash" ++ json_qstring esc (en_OutputHash e))
  ++ s2b "," ++ json_key "output_bytes" ++ s2b (FormatInt (en_OutputBytes e)) ++ s2b "}".

(** [json.Encoder.Encode]: the text and a line break, in one write. *)
Definition entry_line (e : Entry) : bytes := entry_json false e ++ [newline].

(** ** The file *)

(** [os.OpenFile(path, O_APPEND|O_CREATE|O_WRONLY, 0600)]. *)
Definition fs_open_append (f : fs) (uid umask : Z) (path : string) : option error * fs :=
  match fs_refused f with
  | (true, f) => (Some fs_error, f)
  | (false, f) =>
    (None,
     match fs_nodes f !! path with
     | Some _ => f
     | None => set_nodes f (<[path := {| nd_symlink := false; nd_regular := true; nd_mode := Z.land 0x180 (Z.lnot umask);
                                         nd_uid := uid; nd_data := [] |}]> (fs_nodes f))
     end)
  end.

(** [FileLogger]: its open file and the error its JSON encoder keeps. *)
Record FileLogger := { fl_path : string; fl_err : option error }.

Definition NewFileLogger (f : fs) (uid umask : Z) (path : string) : result FileLogger * fs :=
  match fs_call f with
  | (Some e, f) => (Err (Wrapf "create audit dir: %w" [] e), f)
  | (None, f) =>
    if is_symlink f path then (Err (Errorf "audit file must not be a symlink: %s" [FS path]), f)
    else
      match fs_open_append f uid umask path with
      | (Some e, f) => (Err (Wrapf "open audit file: %w" [] e), f)
      | (None, f) =>
        match fs_update f path (set_mode 0x180) with
        | (Some e, f) => let '(_, f) := fs_call f in (Err (Wrapf "chmod audit file: %w" [] e), f)
        | (None, f) => (Ok {| fl_path := path; fl_err := None |}, f)
        end
      end
  end.

(** [FileLogger.Log]: [json.Encoder.Encode] writes the line at once. Of a refused write
    the system may have written the first [short] bytes, but not the whole line, and
    the error is returned for every later entry too. *)
Definition FileLogger_Log (short : nat) (l : FileLogger) (f : fs) (e : Entry) : option error * FileLogger * fs :=
  let write data f := set_nodes f (alter (add_data data) (fl_path l) (fs_nodes f)) in
  match fl_err l with
  | Some err => (Some err, l, f)
  | None =>
    match fs_refused f with
    | (true, f) =>
      (Some fs_error, {| fl_path := fl_path l; fl_err := Some fs_error |}, write (take short (entry_json false e)) f)
    | (false, f) => (None, l, write (entry_line e) f)
    end
  end.

(** Entries logged in order, with what [Log] returned for each. *)
Fixpoint log_all (short : nat) (l : FileLogger) (f : fs) (es : list Entry) : list (Entry * option error) * fs :=
  match es with
  | [] => ([], f)
  | e :: es =>
    let '(err, l, f) := FileLogger_Log short l f e in
    let '(rs, f) := log_all short l f es in ((e, err) :: rs, f)
  end.

(** The lines of a text, without their ends. *)
Fixpoint lines_of (text : bytes) (line : bytes) : list bytes :=
  match text with
  | [] => if bool_decide (line = []) then [] else [line]
  | c :: text => if bool_decide (c = newline) then line :: lines_of text [] else lines_of text (line ++ [c])
  end.

(** ** Reading an entry back *)

(** An empty list of arguments is left out like a missing one. *)
Definition norm_args (args : option (list string)) : option (list string) :=
  match args with Some [] => None | _ => args end.
Definition norm_entry (e : Entry) : Entry :=
  {| en_Timestamp := en_Timestamp e; en_Tool := en_Tool e; en_Args := norm_args (en_Args e); en_Cwd := en_Cwd e;
     en_CallerPID := en_CallerPID e; en_CallerExe := en_CallerExe e; en_ExitCode := en_ExitCode e;
     en_Timeout := en_Timeout e; en_DurationMs := en_DurationMs e; en_OutputHash := en_OutputHash e;
     en_OutputBytes := en_OutputBytes e |}.

Definition in_int64 (z : Z) : Prop := min_int64 ≤ z ≤ max_int64.

(** Texts of UTF-8 and numbers of 64 bits. *)
Record entry_ok (e : Entry) : Prop := {
  eo_texts : Forall (λ s, ValidString s = true) [en_Timestamp e; en_Tool e; en_Cwd e; en_CallerExe e; en_OutputHash e];
  eo_args : valid_strings (en_Args e) = true;
  eo_numbers : Forall in_int64 [en_CallerPID e; en_ExitCode e; en_DurationMs e; en_OutputBytes e];
}.

Section reading.
Context (esc : bool).

(** The parts that may be left out, each followed by a comma. *)
Lemma args_inv a1 a2 k1 k2 :
  valid_strings a1 = true → valid_strings a2 = true →
  args_field esc a1 ++ s2b "," ++ json_key "cwd" ++ k1 = args_field esc a2 ++ s2b "," ++ json_key "cwd" ++ k2 →
  norm_args a1 = norm_args a2 ∧ k1 = k2.
Proof.
  intros V1 V2. assert (∀ l k1 k2, (s2b "," ++ json_key "args" ++ json_qstrings esc l) ++ k1 ≠ s2b "," ++ json_key "cwd" ++ k2) as Hne by done.
  assert (∀ l1 l2, valid_strings l1 = true → valid_strings l2 = true →
    (s2b "," ++ json_key "args" ++ json_qstrings esc l1) ++ s2b "," ++ json_key "cwd" ++ k1 =
    (s2b "," ++ json_key "args" ++ json_qstrings esc l2) ++ s2b "," ++ json_key "cwd" ++ k2 → l1 = l2 ∧ k1 = k2) as Heq.
  { intros l1 l2 W1 W2 E. rewrite <- !app_assoc in E. apply (inj (app _)), (inj (app _)) in E.
    apply json_qstrings_inv in E as [-> E]; [|done..]. split; [done|]. by do 2 apply (inj (app _)) in E. }
  destruct a1 as [[|x1 l1]|], a2 as [[|x2 l2]|]; cbn [app norm_args args_field]; intros E;
    try (by destruct (Hne _ _ _ E)); try (by destruct (Hne _ _ _ (eq_sym E)));
    try (split; [done|]; by do 2 apply (inj (app _)) in E).
  by apply Heq.
Qed.

Lemma text_inv key s1 s2 k1 k2 :
  ValidString s1 = true → ValidString s2 = true →
  s2b "," ++ json_key key ++ json_qstring esc s1 ++ k1 = s2b "," ++ json_key key ++ json_qstring esc s2 ++ k2 →
  s1 = s2 ∧ k1 = k2.
Proof. intros V1 V2 E. do 2 apply (inj (app _)) in E. by apply json_qstring_inv in E. Qed.

Lemma number_inv key n1 n2 k1 k2 :
  in_int64 n1 → in_int64 n2 →
  match k1 with c :: _ => number_char c = false | [] => True end →
  match k2 with c :: _ => number_char c = false | [] => True end →
  s2b "," ++ json_key key ++ s2b (FormatInt n1) ++ k1 = s2b "," ++ json_key key ++ s2b (FormatInt n2) ++ k2 →
  n1 = n2 ∧ k1 = k2.
Proof. intros R1 R2 H1 H2 E. do 2 apply (inj (app _)) in E. by apply FormatInt_inv in E. Qed.

(** The fields after the exit code. *)
Definition bytes_field (e : Entry) (k : bytes) : bytes :=
  s2b "," ++ json_key "output_bytes" ++ s2b (FormatInt (en_OutputBytes e)) ++ s2b "}" ++ k.
Definition hash_field (e : Entry) (k : bytes) : bytes :=
  (if bool_decide (en_OutputHash e = "") then [] else s2b "," ++ json_key "output_hash" ++ json_qstring esc (en_OutputHash e)) ++ k.
Definition duration_field (e : Entry) (k : bytes) : bytes :=
  (if en_DurationMs e =? 0 then [] else s2b "," ++ json_key "duration_ms" ++ s2b (FormatInt (en_DurationMs e))) ++ k.
Definition timeout_field (e : Entry) (k : bytes) : bytes :=
  (if en_Timeout e then s2b "," ++ json_key "timeout" ++ s2b "true" else []) ++ k.
Definition tail_fields (e : Entry) (k : bytes) : bytes :=
  timeout_field e (duration_field e (hash_field e (bytes_field e k))).

Lemma comma_next e k : match hash_field e (bytes_field e k) with c :: _ => number_char c = false | [] => True end.
Proof. unfold hash_field. by destruct (bool_decide _). Qed.

Lemma hash_inv e1 e2 k1 k2 :
  entry_ok e1 → entry_ok e2 → hash_field e1 (bytes_field e1 k1) = hash_field e2 (bytes_field e2 k2) →
  en_OutputHash e1 = en_OutputHash e2 ∧ bytes_field e1 k1 = bytes_field e2 k2.
Proof.
  intros [T1 _ _] [T2 _ _]. unfold hash_field. do 4 apply Forall_inv_tail in T1, T2. apply Forall_inv in T1, T2.
  destruct (bool_decide_reflect (en_OutputHash e1 = "")) as [->|], (bool_decide_reflect (en_OutputHash e2 = "")) as [->|]; try done.
  rewrite <- !app_assoc. intros E. by apply text_inv in E.
Qed.

Lemma duration_inv e1 e2 k1 k2 :
  entry_ok e1 → entry_ok e2 →
  duration_field e1 (hash_field e1 (bytes_field e1 k1)) = duration_field e2 (hash_field e2 (bytes_field e2 k2)) →
  en_DurationMs e1 = en_DurationMs e2 ∧ hash_field e1 (bytes_field e1 k1) = hash_field e2 (bytes_field e2 k2).
Proof.
  intros [_ _ T1] [_ _ T2]. unfold duration_field. do 2 apply Forall_inv_tail in T1, T2. apply Forall_inv in T1, T2.
  destruct (Z.eqb_spec (en_DurationMs e1) 0) as [->|], (Z.eqb_spec (en_DurationMs e2) 0) as [->|]; [done| | |].
  - intros E. exfalso. revert E. unfold hash_field. by repeat destruct (bool_decide _).
  - intros E. exfalso. revert E. unfold hash_field. by repeat destruct (bool_decide _).
  - rewrite <- !app_assoc. intros E. apply number_inv in E; try done; apply comma_next.
Qed.

Lemma timeout_inv e1 e2 k1 k2 :
  tail_fields e1 k1 = tail_fields e2 k2 →
  en_Timeout e1 = en_Timeout e2 ∧
  duration_field e1 (hash_field e1 (bytes_field e1 k1)) = duration_field e2 (hash_field e2 (bytes_field e2 k2)).
Proof.
  assert (∀ e k k', (s2b "," ++ json_key "timeout" ++ s2b "true") ++ k' ≠ duration_field e (hash_field e (bytes_field e k))) as Hne.
  { intros e k k'. unfold duration_field, hash_field. by destruct (_ =? 0), (bool_decide _). }
  unfold tail_fields, timeout_field. destruct (en_Timeout e1), (en_Timeout e2); intros E; try done.
  - split; [done|]. by apply (inj (app _)) in E.
  - by destruct (Hne _ _ _ E).
  - by destruct (Hne _ _ _ (eq_sym E)).
Qed.

Lemma tail_inv e1 e2 k1 k2 :
  entry_ok e1 → entry_ok e2 → tail_fields e1 k1 = tail_fields e2 k2 →
  en_Timeout e1 = en_Timeout e2 ∧ en_DurationMs e1 = en_DurationMs e2 ∧ en_OutputHash e1 = en_OutputHash e2 ∧
  en_OutputBytes e1 = en_OutputBytes e2 ∧ k1 = k2.
Proof.
  intros O1 O2 (H1 & (H2 & (H3 & E)%hash_inv)%duration_inv)%timeout_inv; try done.
  destruct O1 as [_ _ T1], O2 as [_ _ T2]. do 3 apply Forall_inv_tail in T1, T2. apply Forall_inv in T1, T2.
  apply number_inv in E as [H4 E]; try done. apply (inj (app _)) in E. by split_and!.
Qed.

Lemma tail_comma e k : match tail_fields e k with c :: _ => number_char c = false | [] => True end.
Proof. unfold tail_fields, timeout_field, duration_field, hash_field. by destruct (en_Timeout e), (_ =? 0), (bool_decide _). Qed.

Lemma entry_json_split e k :
  entry_json esc e ++ k =
  s2b "{" ++ json_key "ts" ++ json_qstring esc (en_Timestamp e)
  ++ s2b "," ++ json_key "tool" ++ json_qstring esc (en_Tool e)
  ++ args_field esc (en_Args e)
  ++ s2b "," ++ json_key "cwd" ++ json_qstring esc (en_Cwd e)
  ++ s2b "," ++ json_key "caller_pid" ++ s2b (FormatInt (en_CallerPID e))
  ++ s2b "," ++ json_key "caller_exe" ++ json_qstring esc (en_CallerExe e)
  ++ s2b "," ++ json_key "exit_code" ++ s2b (FormatInt (en_ExitCode e)) ++ tail_fields e k.
Proof. unfold entry_json, tail_fields, timeout_field, duration_field, hash_field, bytes_field. by rewrite <- !app_assoc. Qed.

(** The text of an entry followed by anything determines both. *)
Lemma entry_json_inv e1 e2 k1 k2 :
  entry_ok e1 → entry_ok e2 → entry_json esc e1 ++ k1 = entry_json esc e2 ++ k2 →
  norm_entry e1 = norm_entry e2 ∧ k1 = k2.
Proof.
  intros O1 O2. rewrite !entry_json_split. intros E. pose proof (tail_comma e1 k1) as C1. pose proof (tail_comma e2 k2) as C2.
  pose proof O1 as [T1 A1 N1]. pose proof O2 as [T2 A2 N2]. rewrite !Forall_cons in T1, T2. rewrite !Forall_cons in N1, N2.
  destruct T1 as (T11 & T12 & T13 & T14 & _), T2 as (T21 & T22 & T23 & T24 & _), N1 as (N11 & N12 & _), N2 as (N21 & N22 & _).
  do 2 apply (inj (app _)) in E. apply json_qstring_inv in E as [E1 E]; [|done..].
  apply text_inv in E as [E2 E]; [|done..]. apply args_inv in E as [E3 E]; [|done..].
  apply json_qstring_inv in E as [E4 E]; [|done..]. apply number_inv in E as [E5 E]; [|done..].
  apply text_inv in E as [E6 E]; [|done..]. apply number_inv in E as [E7 E]; [|done..].
  apply tail_inv in E as (E8 & E9 & E10 & E11 & ->); [|done..]. split; [|done].
  unfold norm_entry. by rewrite E1, E2, E3, E4, E5, E6, E7, E8, E9, E10, E11.
Qed.
End reading.

(** ** Lines *)

Lemma no_newline_app (a b : bytes) : newline ∉ a → newline ∉ b → newline ∉ a ++ b.
Proof. rewrite elem_of_app. tauto. Qed.

Lemma FormatInt_no_newline n : newline ∉ s2b (FormatInt n).
Proof.
  intros Hin. pose proof (FormatInt_chars n) as HF. rewrite Forall_forall in HF. specialize (HF _ Hin). by vm_compute in HF.
Qed.

Lemma json_key_no_newline k : newline ∉ s2b k → newline ∉ json_key k.
Proof. intros Hk. unfold json_key. rewrite not_elem_of_cons, elem_of_app. split; [done|]. intros [|Hin]; [done|]. revert Hin. decide_not. Qed.

(** An entry is one line. *)
Lemma entry_json_no_newline esc e : newline ∉ entry_json esc e.
Proof.
  unfold entry_json, args_field.
  repeat match goal with
    | |- newline ∉ (match ?x with _ => _ end) => destruct x
    | |- newline ∉ _ ++ _ => apply no_newline_app
    | |- newline ∉ json_key _ => apply json_key_no_newline
    | |- newline ∉ json_qstring _ _ => apply json_qstring_no_newline
    | |- newline ∉ json_qstrings _ _ => apply json_qstrings_no_newline
    | |- newline ∉ s2b (FormatInt _) => apply FormatInt_no_newline
    end; decide_not.
Qed.

Lemma lines_of_app line acc k : newline ∉ line → lines_of (line ++ newline :: k) acc = (acc ++ line) :: lines_of k [].
Proof.
  revert acc. induction line as [|c line IH]; intros acc Hn; cbn.
  - by rewrite app_nil_r.
  - rewrite bool_decide_eq_false_2 by set_solver. rewrite IH by set_solver. by rewrite <- app_assoc.
Qed.

(** A text without a line break is one line, if it is not empty. *)
Definition last_line (part : bytes) : list bytes := if bool_decide (part = []) then [] else [part].

Lemma lines_of_part part acc : newline ∉ part → lines_of part acc = last_line (acc ++ part).
Proof.
  revert acc. induction part as [|c part IH]; intros acc Hn; cbn [lines_of]; [by rewrite app_nil_r|].
  rewrite bool_decide_eq_false_2 by set_solver. rewrite IH by set_solver. by rewrite <- app_assoc.
Qed.

Lemma lines_of_entries es part :
  newline ∉ part → lines_of ((es ≫= entry_line) ++ part) [] = (entry_json false <$> es) ++ last_line part.
Proof.
  intros Hp. induction es as [|e es IH]; cbn [mbind list_bind fmap list_fmap]; [by apply lines_of_part|].
  unfold entry_line at 1. rewrite <- !app_assoc. cbn [app]. rewrite lines_of_app by apply entry_json_no_newline.
  by rewrite IH.
Qed.

(** ** The file over time *)

Lemma fs_refused_same f b f' : fs_refused f = (b, f') → fs_nodes f' = fs_nodes f.
Proof. unfold fs_refused. destruct (fs_faults f); by intros [= _ <-]. Qed.

(** Opening for appending keeps what the file holds and leaves only its owner to
    read and write it. *)
Lemma NewFileLogger_ok f uid umask path l f' :
  NewFileLogger f uid umask path = (Ok l, f') →
  l = {| fl_path := path; fl_err := None |} ∧ is_symlink f path = false ∧
  ∃ n, fs_nodes f' = <[path := n]> (fs_nodes f) ∧ nd_mode n = 0x180 ∧ nd_symlink n = false ∧
    nd_data n = match fs_nodes f !! path with Some m => nd_data m | None => [] end.
Proof.
  unfold NewFileLogger. destruct (fs_call f) as [[]  f1] eqn:E1; [done|].
  assert (fs_nodes f1 = fs_nodes f) as Hn1.
  { revert E1. unfold fs_call, fs_refused. destruct (fs_faults f) as [|[] bs]; by intros [= <-]. }
  assert (is_symlink f1 path = is_symlink f path) as -> by (unfold is_symlink; by rewrite Hn1).
  destruct (is_symlink f path) eqn:Esym; [done|]. unfold is_symlink in Esym.
  destruct (fs_open_append f1 uid umask path) as [[] f2] eqn:E2; [done|].
  assert (∃ n, fs_nodes f2 = <[path := n]> (fs_nodes f) ∧ nd_symlink n = false ∧
    nd_data n = match fs_nodes f !! path with Some m => nd_data m | None => [] end) as (n & Hn2 & Hs & Hd).
  { revert E2. unfold fs_open_append. destruct (fs_refused f1) as [[] f3] eqn:Er; [done|].
    assert (fs_nodes f3 = fs_nodes f) as Hn3.
    { rewrite <- Hn1. by apply fs_refused_same in Er. }
    rewrite Hn3. destruct (fs_nodes f !! path) as [m|] eqn:Em; intros [= <-].
    - exists m. rewrite insert_id by done. by rewrite ?Hn3.
    - eexists. cbn. by rewrite ?Hn3. }
  unfold fs_update. destruct (fs_refused f2) as [[] f3] eqn:Er; [by destruct (fs_call f3)|]. intros [= <- <-].
  assert (fs_nodes f3 = fs_nodes f2) as Hn3 by (by apply fs_refused_same in Er).
  split; [done|]. split; [done|]. exists (set_mode 0x180 n). cbn. rewrite Hn3, Hn2, alter_insert_eq. by split_and!.
Qed.

(** A link is never written through. *)
Lemma NewFileLogger_symlink f uid umask path :
  is_symlink f path = true →
  is_ok (NewFileLogger f uid umask path).1 = false ∧ fs_nodes (NewFileLogger f uid umask path).2 = fs_nodes f.
Proof.
  intros Hs. unfold NewFileLogger, fs_call, fs_refused. destruct (fs_faults f) as [|[] bs]; cbn; [|done|].
  - by rewrite Hs.
  - unfold is_symlink in *. cbn. by rewrite Hs.
Qed.

Definition logged (rs : list (Entry * option error)) : list Entry :=
  omap (λ r, match r.2 with None => Some r.1 | Some _ => None end) rs.

(** An encoder with an error logs nothing any more. *)
Lemma log_all_failed short l f es err :
  fl_err l = Some err → log_all short l f es = ((λ e, (e, Some err)) <$> es, f).
Proof.
  intros Hl. induction es as [|e es IH]; [done|]. cbn [log_all fmap list_fmap]. unfold FileLogger_Log. rewrite Hl.
  by rewrite IH.
Qed.

Lemma fst_failed (es : list Entry) (err : error) : ((λ e, (e, Some err)) <$> es).*1 = es.
Proof. induction es as [|e es IH]; [done|]. cbn. by f_equal. Qed.

Lemma logged_failed es (err : error) : logged ((λ e, (e, Some err)) <$> es) = [].
Proof. induction es; [done|]. by cbn. Qed.

(** What a refused write left of its line. *)
Definition part_of (short : nat) (bad : list (Entry * option error)) : bytes :=
  match bad with [] => [] | (e, _) :: _ => take short (entry_json false e) end.

(** The results of a sequence: entries logged, then refused ones. *)
Definition logged_then (rs bad : list (Entry * option error)) : Prop :=
  rs = ((λ e, (e, None)) <$> logged rs) ++ bad ∧ Forall (λ r, r.2 ≠ None) bad.

Lemma alter_data p d (n : fnode) (m : gmap string fnode) :
  m !! p = Some n → alter (add_data d) p m = <[p := add_data d n]> m.
Proof.
  intros Hn. apply map_eq. intros q. destruct (decide (q = p)) as [->|];
    [by rewrite lookup_alter_eq, Hn, lookup_insert_eq|by rewrite lookup_alter_ne, lookup_insert_ne by done].
Qed.

Lemma log_all_spec short l f path n es rs f' :
  fs_nodes f !! path = Some n → l = {| fl_path := path; fl_err := None |} → log_all short l f es = (rs, f') →
  rs.*1 = es ∧ ∃ bad n', logged_then rs bad ∧ fs_nodes f' = <[path := n']> (fs_nodes f) ∧ nd_mode n' = nd_mode n ∧
    nd_symlink n' = nd_symlink n ∧ nd_data n' = nd_data n ++ (logged rs ≫= entry_line) ++ part_of short bad.
Proof.
  intros Hn ->. revert f n rs Hn. induction es as [|e es IH]; intros f n rs Hn; cbn [log_all].
  { intros [= <- <-]. split; [done|]. exists [], n. rewrite insert_id by done.
    split; [by split|]. split_and!; try done. by rewrite app_nil_r. }
  unfold FileLogger_Log. cbn [fl_err fl_path]. destruct (fs_refused f) as [b f1] eqn:Er.
  assert (fs_nodes f1 = fs_nodes f) as Hn1 by (by apply fs_refused_same in Er).
  destruct b.
  - rewrite (log_all_failed _ _ _ _ fs_error) by done. intros [= <- <-].
    split; [cbn; by rewrite fst_failed|].
    exists ((e, Some fs_error) :: ((λ e, (e, Some fs_error)) <$> es)), (add_data (take short (entry_json false e)) n).
    unfold logged_then. cbn [logged omap list_omap snd]. fold (logged ((λ e, (e, Some fs_error)) <$> es)).
    rewrite logged_failed. split.
    { split; [done|]. constructor; [done|]. apply Forall_fmap, Forall_forall. done. }
    cbn [set_nodes fs_nodes]. rewrite Hn1, (alter_data _ _ _ _ Hn). by split_and!.
  - destruct (log_all _ _ _ es) as [rs2 f2] eqn:El. intros [= <- <-].
    apply (IH _ (add_data (entry_line e) n)) in El as (Hes & bad & n' & [Hr HB] & Hf & Hm & Hs & Hd);
      [|cbn; by rewrite Hn1, lookup_alter_eq, Hn].
    split; [cbn; by rewrite Hes|]. exists bad, n'. cbn in Hf. rewrite Hf, Hn1, (alter_data _ _ _ _ Hn), insert_insert_eq.
    split; [split; [cbn; f_equal; exact Hr|done]|]. split_and!; try done.
    rewrite Hd. change (logged ((e, None) :: rs2)) with (e :: logged rs2). rewrite bind_cons.
    change (nd_data (add_data (entry_line e) n)) with (nd_data n ++ entry_line e). by rewrite <- !app_assoc.
Qed.

(** ** Properties *)

(** C40: The audit file is read back. After it is opened and entries are logged, with
    whatever calls refused, it holds what it held before, then one line for each
    entry whose [Log] returned no error, in order, and at most the first part of one
    more line, that of the first entry refused; it is readable by its owner alone.
    The lines are those entries' texts whatever their arguments hold, and no other
    entries have the same lines. An entry is refused if its write or an earlier one
    was: the encoder keeps its error. *)
Theorem audit_file_read_back short f uid umask path l f1 es rs f2 :
  NewFileLogger f uid umask path = (Ok l, f1) → log_all short l f1 es = (rs, f2) →
  ∃ n text bad, fs_nodes f2 = <[path := n]> (fs_nodes f) ∧ nd_mode n = 0x180 ∧ nd_symlink n = false ∧
    nd_data n = match fs_nodes f !! path with Some m => nd_data m | None => [] end ++ text ++ part_of short bad ∧
    rs.*1 = es ∧ logged_then rs bad ∧
    lines_of text [] = entry_json false <$> logged rs ∧
    lines_of (text ++ part_of short bad) [] = (entry_json false <$> logged rs) ++ last_line (part_of short bad) ∧
    ∀ es', Forall entry_ok (logged rs) → Forall entry_ok es' → lines_of text [] = entry_json false <$> es' →
      norm_entry <$> es' = norm_entry <$> logged rs.
Proof.
  intros (Hl0 & _ & n1 & Hf1 & Hm & Hs & Hd)%NewFileLogger_ok Hl.
  destruct (log_all_spec short l f1 path n1 es rs f2) as (Hes & bad & n & Hlt & Hf2 & Hm2 & Hs2 & Hd2);
    [by rewrite Hf1, lookup_insert_eq|done..|].
  exists n, (logged rs ≫= entry_line), bad. rewrite Hf2, Hf1, insert_insert_eq.
  assert (newline ∉ part_of short bad) as Hp.
  { destruct bad as [|[e err] bad]; [by apply not_elem_of_nil|]. cbn. intros Hin.
    apply (entry_json_no_newline false e). apply elem_of_take in Hin as (i & Hi & _). by eapply list_elem_of_lookup_2. }
  assert (lines_of (logged rs ≫= entry_line) [] = entry_json false <$> logged rs) as Hlines.
  { rewrite <- (app_nil_r (logged rs ≫= entry_line)), lines_of_entries by apply not_elem_of_nil. apply app_nil_r. }
  rewrite lines_of_entries, Hlines by done.
  split_and!; try congruence; [apply Hlt..|].
  generalize (logged rs) as l1. intros l1 es' O1 O2 E. revert es' O2 E.
  induction O1 as [|e l2 He O1 IH]; intros [|e' es'] O2 E; try done. apply Forall_cons in O2 as [He' O2].
  pose proof (f_equal (hd []) E) as E1. pose proof (f_equal tail E) as E2. cbn [fmap list_fmap hd tail] in *.
  destruct (entry_json_inv false e e' [] []) as [-> _]; [done|done|by rewrite E1|]. f_equal. by apply IH.
Qed.

(** ** Refinement *)

(** The entries written through a handle. *)
Definition entries_of (h : handle) (a : audit_state) : list Entry :=
  omap (λ w, if (h_id w.1 =? h_id h)%nat then Some w.2 else None) (as_written a).

(** The state of the loggers and the file of one of them agree: the text is the
    lines of the entries written through its handle, with a part of a line only if
    the encoder has an error, the encoder is as the state says, and the same calls
    will be refused. *)
Record file_agrees (h : handle) (old : bytes) (a : audit_state) (l : FileLogger) (f : fs) : Prop := {
  fa_data : ∃ n part, fs_nodes f !! fl_path l = Some n ∧ nd_data n = old ++ (entries_of h a ≫= entry_line) ++ part ∧
    (fl_err l = None → part = []);
  fa_faults : as_faults a = fs_faults f;
  fa_open : h_id h ∉ as_closed a;
  fa_err : fl_err l = None ↔ as_broken a !! h_id h = None;
}.

Lemma entries_of_add h a e : entries_of h (add_written a h e) = entries_of h a ++ [e].
Proof. unfold entries_of. cbn [as_written add_written]. rewrite omap_app. cbn. by rewrite Nat.eqb_refl. Qed.

(** The abstract logger is implemented by the file: one step of [log_one] and one of
    [FileLogger.Log] fail together and keep state and file in agreement. *)
Theorem FileLogger_refines h path short old a l f e :
  h_sink h = SinkFile path → file_agrees h old a l f →
  let '(err, l', f') := FileLogger_Log short l f e in
  ((log_one h e a).1 = None ↔ err = None) ∧ file_agrees h old (log_one h e a).2 l' f'.
Proof.
  intros Hs [(n & part & Hn & Hd & Hp) Hf Hc He]. unfold log_one. rewrite Hs. unfold json_Log, FileLogger_Log.
  destruct (fl_err l) as [err|] eqn:El.
  { destruct (as_broken a !! h_id h) as [err'|] eqn:Eb; [|by discriminate (proj2 He eq_refl)].
    split; [done|]. split; [|done..|cbn; by rewrite El, Eb]. exists n, part. by rewrite El. }
  rewrite (proj1 He eq_refl), bool_decide_eq_false_2 by done. rewrite (Hp eq_refl), app_nil_r in Hd.
  assert (∀ d b bs, d = entry_line e → b = false → fs_faults f = bs →
    ∃ n' part', alter (add_data d) (fl_path l) (fs_nodes f) !! fl_path l = Some n' ∧
      nd_data n' = old ++ ((entries_of h a ++ [e]) ≫= entry_line) ++ part' ∧ part' = []) as Hok.
  { intros d b bs -> _ _. exists (add_data (entry_line e) n), []. rewrite lookup_alter_eq, Hn. split; [done|].
    split; [|done]. cbn. rewrite Hd, bind_app. cbn. by rewrite !app_nil_r, <- app_assoc. }
  unfold as_refused, fs_refused. rewrite Hf. destruct (fs_faults f) as [|[] bs] eqn:Ef; cbn [fst snd].
  - split; [done|]. split; [|cbn; by rewrite Hf, Ef|done|cbn; by rewrite El, (proj1 He eq_refl)].
    destruct (Hok _ false [] eq_refl eq_refl eq_refl) as (n' & p' & H1 & H2 & H3). exists n', p'.
    rewrite <- (entries_of_add h a e) in H2. by split.
  - split; [done|]. split; [|done..|cbn; by rewrite lookup_insert_eq].
    exists (add_data (take short (entry_json false e)) n), (take short (entry_json false e)).
    cbn [fs_nodes set_nodes fl_path]. rewrite lookup_alter_eq, Hn. split; [done|]. split; [|done].
    change (nd_data (add_data ?d n)) with (nd_data n ++ d). rewrite Hd. by rewrite <- app_assoc.
  - split; [done|]. split; [|done..|cbn; by rewrite El, (proj1 He eq_refl)].
    destruct (Hok _ false (false :: bs) eq_refl eq_refl eq_refl) as (n' & p' & H1 & H2 & H3). exists n', p'.
    rewrite <- (entries_of_add h a e) in H2. by split.
Qed.

(** ** The system log *)

(** [syslogLogger.Log]: the message, with HTML escaped. *)
Definition syslog_message (e : Entry) : string := b2s (entry_json true e).

(** A message is one line, and tells its entry. *)
Theorem syslog_message_inj e1 e2 :
  entry_ok e1 → entry_ok e2 → syslog_message e1 = syslog_message e2 → norm_entry e1 = norm_entry e2.
Proof.
  intros O1 O2 E%(f_equal s2b). unfold syslog_message in E. rewrite !s2b_b2s in E.
  destruct (entry_json_inv true e1 e2 [] []) as [-> _]; [done|done|by rewrite E|done].
Qed.
