(* ===== verification/Executor.v ===== *)
(** Package [internal/daemon], [executor.go]: one run of a tool.

    The goroutines of an execution are the main one, which waits for the process
    and finishes the run, and the pumpers, which copy the tool's output and the
    wrapper's messages. The reads of the pumpers are events; a [schedule] says
    which events happen between the steps of the main goroutine, so a theorem
    that holds for every schedule holds for every interleaving. One mutex
    protects each buffer and each message sent, which makes an event one step.

    [resolve] is the credentials component; an empty [secretValues] suffix is
    recorded only for the calls that succeed, the others end the run before the
    values are used. SHA-256 is a parameter. Deadlines show as the end events of
    the pumpers; [Drain] has those after the tool's exit in time. *)

From S2P Require Import Prelude GoStrings Base64 Json Protocol GoTime GoPath Paths Regexp ConfigTypes Interpolate Redactor World OutputBuffer Config Settings Env Runtime AuditLog.
Local Open Scope Z_scope.

Class Hash := { sha256 : bytes → bytes }.

(** ** The process, as the executor acts on it *)

Record launch := {
  l_binary : string;
  l_args : list string;
  l_dir : string;
  l_env : list string;
  (** started on a pseudo-terminal, of the size asked for *)
  l_pty : bool;
  l_size : option WinSize;
}.

Record process := {
  p_launch : option launch;
  p_pgid : Z;
  p_signals : list Z;
  (** [stdinPipe] is not nil; its write end is open; the bytes written *)
  p_stdinPipe : bool;
  p_stdin_open : bool;
  p_stdin : bytes;
  p_ptyMaster : bool;
  p_winsize : option WinSize;
  (** the read ends [stdoutR] and [stderrR] are open *)
  p_outputs_open : bool;
}.

Definition no_process : process :=
  {| p_launch := None; p_pgid := 0; p_signals := []; p_stdinPipe := false; p_stdin_open := false;
     p_stdin := []; p_ptyMaster := false; p_winsize := None; p_outputs_open := false |}.

Definition SIGHUP : Z := 1.
Definition SIGINT : Z := 2.
Definition SIGKILL : Z := 9.
Definition SIGTERM : Z := 15.

(** The output streams: of the two pipes, or of the terminal. *)
Inductive stream := Sout | Serr | Spty.
#[export] Instance stream_eq_dec : EqDecision stream.
Proof. solve_decision. Defined.

Section executor.
Context `{RE : Regexp} `{UnicodeCase} `{DurationParser} `{OS} `{Host} `{MapRange} `{Hash}.
Context (resolve : string → CredentialDef → result string).

(** The fields that [NewToolExecutor] sets. *)
Record ToolExecutor := {
  e_req : ProxyRequest;
  e_tool : ToolDef;
  e_cfg : Config;
  e_timeout : duration;
  e_threshold : Z;
  e_maxOutSz : Z;
  e_readMsgTO : duration;
  e_writeTO : duration;
  e_msgSize : Z;
  e_proxyAuthToken : string;
  e_auditLogger : option Logger;
  e_callerPID : Z;
  e_callerExe : string;
}.

Definition NewToolExecutor (req : ProxyRequest) (tool : ToolDef) (cfg : Config) (proxyAuthToken : string)
    (auditLogger : option Logger) (callerPID : Z) (callerExe : string) : result ToolExecutor :=
  if td_UseProxy tool && GetHTTPProxyEnabled cfg && GetHTTPProxyRequireAuth cfg
     && bool_decide (proxyAuthToken = "") then
    Err (Errorf "proxy auth token required for tool %q with use_proxy enabled" [FS (pr_tool req)])
  else
    Ok {| e_req := req; e_tool := tool; e_cfg := cfg; e_timeout := tool_GetTimeout tool (GetTimeout cfg);
          e_threshold := GetInlineThreshold cfg; e_maxOutSz := GetMaxOutputSize cfg;
          e_readMsgTO := GetReadMessageTimeout cfg; e_writeTO := GetWriteTimeout cfg;
          e_msgSize := GetMaxStdinMessageSize cfg; e_proxyAuthToken := proxyAuthToken;
          e_auditLogger := auditLogger; e_callerPID := callerPID; e_callerExe := callerExe |}.

(** ** The state of a run *)

Record run_state := {
  x_w : world;
  x_proc : process;
  x_configDir : string;
  x_workDir : string;
  x_secretValues : list string;
  (** the buffers, nil until the process is started *)
  x_buf : stream → option OutputBuffer;
  (** the pumpers that are running: of each stream, and of the wrapper's messages *)
  x_live : stream → bool;
  x_live_in : bool;
  x_usePTY : bool;
  x_audit : audit_state;
}.

Definition set_w (s : run_state) (w : world) : run_state :=
  {| x_w := w; x_proc := x_proc s; x_configDir := x_configDir s; x_workDir := x_workDir s;
     x_secretValues := x_secretValues s; x_buf := x_buf s; x_live := x_live s; x_live_in := x_live_in s;
     x_usePTY := x_usePTY s; x_audit := x_audit s |}.
Definition set_proc (s : run_state) (p : process) : run_state :=
  {| x_w := x_w s; x_proc := p; x_configDir := x_configDir s; x_workDir := x_workDir s;
     x_secretValues := x_secretValues s; x_buf := x_buf s; x_live := x_live s; x_live_in := x_live_in s;
     x_usePTY := x_usePTY s; x_audit := x_audit s |}.
Definition set_configDir (s : run_state) (dir : string) : run_state :=
  {| x_w := x_w s; x_proc := x_proc s; x_configDir := dir; x_workDir := x_workDir s;
     x_secretValues := x_secretValues s; x_buf := x_buf s; x_live := x_live s; x_live_in := x_live_in s;
     x_usePTY := x_usePTY s; x_audit := x_audit s |}.
Definition set_workDir (s : run_state) (dir : string) : run_state :=
  {| x_w := x_w s; x_proc := x_proc s; x_configDir := x_configDir s; x_workDir := dir;
     x_secretValues := x_secretValues s; x_buf := x_buf s; x_live := x_live s; x_live_in := x_live_in s;
     x_usePTY := x_usePTY s; x_audit := x_audit s |}.
Definition set_secrets (s : run_state) (l : list string) : run_state :=
  {| x_w := x_w s; x_proc := x_proc s; x_configDir := x_configDir s; x_workDir := x_workDir s;
     x_secretValues := l; x_buf := x_buf s; x_live := x_live s; x_live_in := x_live_in s;
     x_usePTY := x_usePTY s; x_audit := x_audit s |}.
Definition set_buf (s : run_state) (k : stream) (b : option OutputBuffer) : run_state :=
  {| x_w := x_w s; x_proc := x_proc s; x_configDir := x_configDir s; x_workDir := x_workDir s;
     x_secretValues := x_secretValues s; x_buf := λ j, if decide (j = k) then b else x_buf s j;
     x_live := x_live s; x_live_in := x_live_in s; x_usePTY := x_usePTY s; x_audit := x_audit s |}.
Definition set_live (s : run_state) (k : stream) (v : bool) : run_state :=
  {| x_w := x_w s; x_proc := x_proc s; x_configDir := x_configDir s; x_workDir := x_workDir s;
     x_secretValues := x_secretValues s; x_buf := x_buf s;
     x_live := λ j, if decide (j = k) then v else x_live s j; x_live_in := x_live_in s;
     x_usePTY := x_usePTY s; x_audit := x_audit s |}.
Definition set_live_in (s : run_state) (v : bool) : run_state :=
  {| x_w := x_w s; x_proc := x_proc s; x_configDir := x_configDir s; x_workDir := x_workDir s;
     x_secretValues := x_secretValues s; x_buf := x_buf s; x_live := x_live s; x_live_in := v;
     x_usePTY := x_usePTY s; x_audit := x_audit s |}.
Definition set_usePTY (s : run_state) (v : bool) : run_state :=
  {| x_w := x_w s; x_proc := x_proc s; x_configDir := x_configDir s; x_workDir := x_workDir s;
     x_secretValues := x_secretValues s; x_buf := x_buf s; x_live := x_live s; x_live_in := x_live_in s;
     x_usePTY := v; x_audit := x_audit s |}.
Definition set_audit (s : run_state) (a : audit_state) : run_state :=
  {| x_w := x_w s; x_proc := x_proc s; x_configDir := x_configDir s; x_workDir := x_workDir s;
     x_secretValues := x_secretValues s; x_buf := x_buf s; x_live := x_live s; x_live_in := x_live_in s;
     x_usePTY := x_usePTY s; x_audit := a |}.

(** The state before [Run]. *)
Definition init_state (w : world) (a : audit_state) : run_state :=
  {| x_w := w; x_proc := no_process; x_configDir := ""; x_workDir := ""; x_secretValues := [];
     x_buf := λ _, None; x_live := λ _, false; x_live_in := false; x_usePTY := false; x_audit := a |}.

(** A system call of the executor that may be refused. *)
Definition syscall (s : run_state) : bool * run_state :=
  let '(f, w) := refused (x_w s) in (f, set_w s w).

(** ** Messages to the wrapper *)

Definition sendMessage (msg : ResponseMessage) (s : run_state) : option error * run_state :=
  let '(err, w) := send (x_w s) msg in (err, set_w s w).
Definition sendError (message : string) (s : run_state) : run_state :=
  (sendMessage (error_msg message) s).2.
Definition sendDone (exitCode : Z) (timeout : bool) (s : run_state) : run_state :=
  (sendMessage (done_msg exitCode timeout) s).2.

(** ** Signals *)

Definition kill_error : error := Sentinel "kill".

Definition killProcessGroup (sig : Z) (s : run_state) : option error * run_state :=
  if p_pgid (x_proc s) =? 0 then (None, s)
  else
    match (let '(f, w) := try (x_w s) (CallSignal sig) in (f, set_w s w)) with
    | (true, s) => (Some kill_error, s)
    | (false, s) =>
      let p := x_proc s in
      (None, set_proc s {| p_launch := p_launch p; p_pgid := p_pgid p; p_signals := p_signals p ++ [sig];
        p_stdinPipe := p_stdinPipe p; p_stdin_open := p_stdin_open p; p_stdin := p_stdin p;
        p_ptyMaster := p_ptyMaster p; p_winsize := p_winsize p; p_outputs_open := p_outputs_open p |})
    end.

Definition forwardSignal (sig : string) (s : run_state) : option error * run_state :=
  if negb (default false (ValidSignals !! sig)) then (Some (Errorf "invalid signal: %s" [FS sig]), s)
  else if bool_decide (sig = "SIGINT") then killProcessGroup SIGINT s
  else if bool_decide (sig = "SIGTERM") then killProcessGroup SIGTERM s
  else if bool_decide (sig = "SIGHUP") then killProcessGroup SIGHUP s
  else (Some (Errorf "unhandled signal: %s" [FS sig]), s).

(** ** The wrapper's messages *)

Definition os_ErrClosed : error := Sentinel "os.ErrClosed".

Definition with_stdin (p : process) (pipe open : bool) (data : bytes) : process :=
  {| p_launch := p_launch p; p_pgid := p_pgid p; p_signals := p_signals p; p_stdinPipe := pipe;
     p_stdin_open := open; p_stdin := data; p_ptyMaster := p_ptyMaster p; p_winsize := p_winsize p;
     p_outputs_open := p_outputs_open p |}.
Definition with_pty (p : process) (master : bool) (size : option WinSize) : process :=
  {| p_launch := p_launch p; p_pgid := p_pgid p; p_signals := p_signals p; p_stdinPipe := p_stdinPipe p;
     p_stdin_open := p_stdin_open p; p_stdin := p_stdin p; p_ptyMaster := master; p_winsize := size;
     p_outputs_open := p_outputs_open p |}.

(** [stdinPipe.Close()], [stdinPipe.Write(data)]. *)
Definition close_stdin (s : run_state) : option error * run_state :=
  let p := x_proc s in
  if p_stdin_open p then (None, set_proc s (with_stdin p (p_stdinPipe p) false (p_stdin p)))
  else (Some os_ErrClosed, s).
Definition write_stdin (data : bytes) (s : run_state) : option error * run_state :=
  let p := x_proc s in
  if negb (p_stdin_open p) then (Some os_ErrClosed, s)
  else
    match syscall s with
    | (true, s) => (Some io_error, s)
    | (false, s) => (None, set_proc s (with_stdin (x_proc s) (p_stdinPipe p) true (p_stdin p ++ data)))
    end.

Definition wrap_opt (format : string) (e : option error) : option error := Wrapf format [] <$> e.

Definition handleWrapperMessage (msg : WrapperMessage) (s : run_state) : option error * run_state :=
  if bool_decide (wm_type msg = MsgTypeStdin) then
    if wm_eof msg then
      if p_stdinPipe (x_proc s) then
        match close_stdin s with
        | (Some err, s) => (Some (Wrapf "close stdin: %w" [] err), s)
        | (None, s) => (None, set_proc s (with_stdin (x_proc s) false (p_stdin_open (x_proc s)) (p_stdin (x_proc s))))
        end
      else (None, s)
    else
      match DecodeString StdEncoding (wm_data msg) with
      | None => (Some (Wrapf "decode stdin: %w" [] (Sentinel "base64")), s)
      | Some data =>
        if p_stdinPipe (x_proc s) then
          let '(err, s) := write_stdin data s in (wrap_opt "write stdin: %w" err, s)
        else (None, s)
      end
  else if bool_decide (wm_type msg = MsgTypeSignal) then
    let '(err, s) := forwardSignal (wm_signal msg) s in (wrap_opt "forward signal: %w" err, s)
  else (None, s).

Definition handlePTYWrapperMessage (msg : WrapperMessage) (s : run_state) : option error * run_state :=
  if bool_decide (wm_type msg = MsgTypeStdin) then
    if wm_eof msg then (None, s)
    else
      match DecodeString StdEncoding (wm_data msg) with
      | None => (Some (Wrapf "decode stdin: %w" [] (Sentinel "base64")), s)
      | Some data =>
        if negb (p_ptyMaster (x_proc s)) then (Some (Wrapf "write pty: %w" [] os_ErrClosed), s)
        else
          match syscall s with
          | (true, s) => (Some (Wrapf "write pty: %w" [] io_error), s)
          | (false, s) =>
            let p := x_proc s in
            (None, set_proc s (with_stdin p (p_stdinPipe p) (p_stdin_open p) (p_stdin p ++ data)))
          end
      end
  else if bool_decide (wm_type msg = MsgTypeSignal) then
    let '(err, s) := forwardSignal (wm_signal msg) s in (wrap_opt "forward signal: %w" err, s)
  else if bool_decide (wm_type msg = MsgTypeWinSize) then
    if negb (p_ptyMaster (x_proc s)) then (Some (Wrapf "set window size: %w" [] os_ErrClosed), s)
    else match syscall s with
    | (true, s) => (Some (Wrapf "set window size: %w" [] io_error), s)
    | (false, s) =>
      (None, set_proc s (with_pty (x_proc s) (p_ptyMaster (x_proc s))
        (Some {| ws_rows := wm_rows msg; ws_cols := wm_cols msg |})))
    end
  else (None, s).

(** ** Preparation *)

(** The loop over the credentials of the configuration file: the values and the
    secrets they add. *)
Fixpoint config_credentials (cfg : Config) (names : list string) (values : gmap string string)
    (secrets : list string) : result (gmap string string * list string) :=
  match names with
  | [] => Ok (values, secrets)
  | credName :: names =>
    match cfg_Credentials cfg !! credName with
    | None => Err (Errorf "missing credential config: %s" [FS credName])
    | Some credDef =>
      wrap_err "fetch credential %s: %w" [FS credName] (resolve credName credDef) ≫= λ value,
      if bool_decide (value = "") then Err (Errorf "empty credential: %s" [FS credName])
      else config_credentials cfg names (<[credName := value]> values) (secrets ++ [value])
    end
  end.

(** The umask in force while the files are created. *)
Definition setup_umask : Z := 127.

(** The components [os.MkdirAll] creates below the new directory. *)
Definition subdir_comps (sub : string) : list string := b2s <$> clean_comps false (s2b sub).

Definition setupConfigFile (e : ToolExecutor) (s : run_state) : result unit * run_state :=
  match td_ConfigFile (e_tool e) with
  | None => (Ok tt, s)
  | Some def =>
    match mkdir_temp (x_w s) (TempDir +:+ "claw-wrap-config-") setup_umask with
    | (Err err, w) => (Err (Wrapf "create temp dir: %w" [] err), set_w s w)
    | (Ok tempDir, w) =>
      let s := set_configDir (set_w s w) tempDir in
      let configPath := PathJoin [tempDir; cf_XDGSubdir def] in
      match mkdir_under (x_w s) tempDir (subdir_comps (cf_XDGSubdir def)) setup_umask with
      | (Some err, w) => (Err (Wrapf "create config subdir: %w" [] err), set_w s w)
      | (None, w) =>
        let s := set_w s w in
        match config_credentials (e_cfg e) (cf_Credentials def) ∅ (x_secretValues s) with
        | Err err => (Err err, s)
        | Ok (credValues, secrets) =>
          let s := set_secrets s secrets in
          let content := renderTemplate (cf_Template def) credValues in
          let configFile := PathJoin [configPath; cf_Filename def] in
          match write_file (x_w s) configPath configFile (s2b content) with
          | (Some err, w) => (Err (Wrapf "write config file: %w" [] err), set_w s w)
          | (None, w) => (Ok tt, set_w s w)
          end
        end
      end
    end
  end.

(** The executor's view of [buildEnvironment]. *)
Definition env_of (e : ToolExecutor) (s : run_state) : env_input :=
  {| ei_tool := e_tool e; ei_cfg := e_cfg e; ei_req_env := pr_env (e_req e);
     ei_req_pty := pr_use_pty (e_req e); ei_configDir := x_configDir s;
     ei_proxyAuthToken := e_proxyAuthToken e |}.

Definition wants_hash (e : ToolExecutor) : bool :=
  match GetAuditConfig (Some (e_cfg e)) with
  | Some a => au_Enabled a && GetIncludeOutputHash a
  | None => false
  end.

(** A buffer as [startProcess] sets it up: its redactor and its hash. *)
Definition new_buffer (e : ToolExecutor) (secrets : list string) (name : string) (threshold : Z) : OutputBuffer :=
  let b := NewOutputBuffer name threshold (e_maxOutSz e) in
  let b :=
    match NewOutputRedactorWithSecrets (td_RedactOutput (e_tool e)) secrets with
    | Some r => SetRedactor b (Some r)
    | None => b
    end in
  if wants_hash e then SetTee b else b.

Definition args_of (req : ProxyRequest) : list string := default [] (pr_args req).

Definition startProcessWithPTY (e : ToolExecutor) (env : list string) (pid : Z) (s : run_state)
    : result unit * run_state :=
  match syscall s with
  | (true, s) => (Err (Wrapf "pty start: %w" [] io_error), s)
  | (false, s) =>
    let s := set_proc s
      {| p_launch := Some {| l_binary := td_Binary (e_tool e); l_args := args_of (e_req e); l_dir := x_workDir s;
           l_env := env; l_pty := true; l_size := pr_window_size (e_req e) |};
         p_pgid := pid; p_signals := []; p_stdinPipe := false; p_stdin_open := false; p_stdin := [];
         p_ptyMaster := true; p_winsize := pr_window_size (e_req e); p_outputs_open := false |} in
    let s := set_buf s Spty (Some (new_buffer e (x_secretValues s) MsgTypeStdout 0)) in
    (Ok tt, set_live_in (set_live s Spty true) true)
  end.

(** The pipes of the process, open. *)
Definition with_outputs (p : process) (open : bool) : process :=
  {| p_launch := p_launch p; p_pgid := p_pgid p; p_signals := p_signals p; p_stdinPipe := p_stdinPipe p;
     p_stdin_open := p_stdin_open p; p_stdin := p_stdin p; p_ptyMaster := p_ptyMaster p;
     p_winsize := p_winsize p; p_outputs_open := open |}.

Definition with_launch (p : process) (l : launch) (pid : Z) : process :=
  {| p_launch := Some l; p_pgid := pid; p_signals := p_signals p; p_stdinPipe := p_stdinPipe p;
     p_stdin_open := p_stdin_open p; p_stdin := p_stdin p; p_ptyMaster := p_ptyMaster p;
     p_winsize := p_winsize p; p_outputs_open := p_outputs_open p |}.

(** [cmd.StdinPipe()], when the tool reads its input. *)
Definition open_stdin (e : ToolExecutor) (s : run_state) : result unit * run_state :=
  if GetUseStdin (e_tool e) then
    match syscall s with
    | (true, s) => (Err (Wrapf "stdin pipe: %w" [] io_error), s)
    | (false, s) => (Ok tt, set_proc s (with_stdin (x_proc s) true true []))
    end
  else (Ok tt, s).

Definition startProcess (e : ToolExecutor) (env : list string) (pid : Z) (s : run_state)
    : result unit * run_state :=
  let s := set_usePTY s (pr_use_pty (e_req e) && GetUsePTY (e_tool e)) in
  if x_usePTY s then startProcessWithPTY e env pid s
  else
    match syscall s with
    | (true, s) => (Err (Wrapf "stdout pipe: %w" [] io_error), s)
    | (false, s) =>
      match syscall s with
      | (true, s) => (Err (Wrapf "stderr pipe: %w" [] io_error), s)
      | (false, s) =>
        let s := set_proc s (with_outputs (x_proc s) true) in
        match open_stdin e s with
        | (Err err, s) => (Err err, s)
        | (Ok _, s) =>
          let s := set_buf s Sout (Some (new_buffer e (x_secretValues s) MsgTypeStdout (e_threshold e))) in
          let s := set_buf s Serr (Some (new_buffer e (x_secretValues s) MsgTypeStderr (e_threshold e))) in
          match syscall s with
          | (true, s) => (Err (Wrapf "start: %w" [] io_error), s)
          | (false, s) =>
            let l := {| l_binary := td_Binary (e_tool e); l_args := args_of (e_req e);
                        l_dir := x_workDir s; l_env := env; l_pty := false; l_size := None |} in
            let s := set_proc s (with_launch (x_proc s) l pid) in
            (Ok tt, set_live_in (set_live (set_live s Sout true) Serr true) true)
          end
        end
      end
    end.

(** ** The pumpers *)

Inductive event :=
  | EvOutput (k : stream) (data : bytes)
  | EvOutputEnd (k : stream)
  | EvMessage (msg : WrapperMessage)
  | EvMessageEnd.

(** One read of [stdoutPumper], [stderrPumper] or [ptyOutputPumper]. *)
Definition output_pumper (k : stream) (data : bytes) (s : run_state) : run_state :=
  match x_buf s k with
  | None => s
  | Some b =>
    let '(res, b, w) := Write b data (x_w s) in
    let s := set_w (set_buf s k (Some b)) w in
    match res with
    | Err err =>
      if errors_is err "ErrOutputLimitExceeded" then set_live (killProcessGroup SIGKILL s).2 k false else s
    | Ok _ => s
    end
  end.

(** The end of [stdinPumper]: the tool's input is closed. *)
Definition message_end (s : run_state) : run_state :=
  set_live_in (if p_stdinPipe (x_proc s) then (close_stdin s).2 else s) false.

Definition step_event (ev : event) (s : run_state) : run_state :=
  match ev with
  | EvOutput k data => if x_live s k then output_pumper k data s else s
  | EvOutputEnd k => if x_live s k then set_live s k false else s
  | EvMessage msg =>
    if x_live_in s then
      (if x_usePTY s then handlePTYWrapperMessage msg s else handleWrapperMessage msg s).2
    else s
  | EvMessageEnd => if x_live_in s then message_end s else s
  end.

Definition run_events (evs : list event) (s : run_state) : run_state :=
  foldl (λ s ev, step_event ev s) s evs.

(** ** The end of a run *)

(** [streamFile]: the file in pieces of at most 32 KiB. *)
Definition chunk_size : nat := N.to_nat 32768.
Fixpoint chunks_fuel (fuel : nat) (data : bytes) : list bytes :=
  match fuel, data with
  | S fuel, _ :: _ => take chunk_size data :: chunks_fuel fuel (drop chunk_size data)
  | _, _ => []
  end.
Definition chunks (data : bytes) : list bytes := chunks_fuel (length data) data.

Fixpoint send_chunks (streamType : string) (l : list bytes) (s : run_state) : option error * run_state :=
  match l with
  | [] => (None, s)
  | c :: l =>
    match sendMessage (output_msg streamType (EncodeToString StdEncoding c)) s with
    | (Some err, s) => (Some err, s)
    | (None, s) => send_chunks streamType l s
    end
  end.

Definition streamFile (path streamType : string) (s : run_state) : option error * run_state :=
  match syscall s with
  | (true, s) => (Some io_error, s)
  | (false, s) =>
    match w_files (x_w s) !! path with
    | None => (Some (Sentinel "os.ErrNotExist"), s)
    | Some data => send_chunks streamType (chunks data) s
    end
  end.

(** [finalizeStream] of the buffer [k], and the terminal's branch of [finalizeOutput]. *)
Definition finalizeStream (k : stream) (streamType : string) (s : run_state) : option error * run_state :=
  match x_buf s k with
  | None => (None, s)
  | Some b =>
    match Finalize b (x_w s) with
    | (Err err, b, w) => (Some (Wrapf "finalize %s: %w" [FS streamType] err), set_w (set_buf s k (Some b)) w)
    | (Ok path, b, w) =>
      let s := set_w (set_buf s k (Some b)) w in
      if bool_decide (path = "") then (None, s)
      else
        match streamFile path streamType s with
        | (Some err, s) => (Some (Wrapf "stream %s file: %w" [FS streamType] err), s)
        | (None, s) => (None, set_w s (remove_file (x_w s) path))
        end
    end
  end.

Definition finalizeOutput (s : run_state) : option error * run_state :=
  if x_usePTY s then finalizeStream Spty MsgTypeStdout s
  else
    let '(e1, s) := finalizeStream Sout MsgTypeStdout s in
    let '(e2, s) := finalizeStream Serr MsgTypeStderr s in
    (match e1, e2 with
     | Some a, Some b => Some (Joined a b)
     | Some a, None => Some a
     | None, e2 => e2
     end, s).

Definition hex_bytes (b : bytes) : string :=
  b2s (b ≫= λ c, [hex_digit (code c / 16); hex_digit (code c mod 16)]).

(** [Accumulated()] of a buffer that may be nil; the sum is an [int64]. *)
Definition accumulated_of (b : option OutputBuffer) : Z := from_option Accumulated 0 b.

Definition outputBytes (s : run_state) : Z :=
  if x_usePTY s && bool_decide (is_Some (x_buf s Spty)) then accumulated_of (x_buf s Spty)
  else int64 (accumulated_of (x_buf s Sout) + accumulated_of (x_buf s Serr)).

(** The hash of a stream exists when its buffer has a [tee], whose bytes it is of. *)
Definition stream_hash (b : option OutputBuffer) : option bytes := b ≫= λ b, sha256 <$> ob_tee b.

Definition outputHash (s : run_state) : string :=
  match (if x_usePTY s then stream_hash (x_buf s Spty) else None) with
  | Some h => "sha256:" +:+ hex_bytes h
  | None =>
    match stream_hash (x_buf s Sout) with
    | Some h => "sha256:" +:+ hex_bytes (sha256 (h ++ default [] (stream_hash (x_buf s Serr))))
    | None => ""
    end
  end.

Definition audit_entry (e : ToolExecutor) (a : AuditConfig) (start elapsed : time) (exitCode : Z) (timeout : bool)
    (s : run_state) : Entry :=
  {| en_Timestamp := FormatRFC3339 start; en_Tool := pr_tool (e_req e);
     en_Args := if GetIncludeArgs a then pr_args (e_req e) else None;
     en_Cwd := x_workDir s; en_CallerPID := e_callerPID e; en_CallerExe := e_callerExe e;
     en_ExitCode := exitCode; en_Timeout := timeout;
     en_DurationMs := if GetIncludeDuration a then elapsed / Millisecond else 0;
     en_OutputHash := if GetIncludeOutputHash a then outputHash s else "";
     en_OutputBytes := outputBytes s |}.

Definition emitAuditEntry (e : ToolExecutor) (start elapsed : time) (exitCode : Z) (timeout : bool)
    (s : run_state) : run_state :=
  match e_auditLogger e with
  | None => s
  | Some logger =>
    match GetAuditConfig (Some (e_cfg e)) with
    | None => s
    | Some a =>
      if negb (au_Enabled a) then s
      else set_audit s (Log logger (audit_entry e a start elapsed exitCode timeout s) (x_audit s)).2
    end
  end.

(** How the run goes on outside of the executor: the clock, the working
    directory, the process, and the events between the steps of the main
    goroutine. *)
Inductive outcome :=
  (** [Wait] returns; the tool's exit code *)
  | Exited (exitCode : Z)
  (** [Wait] fails otherwise *)
  | WaitFailed
  (** the timeout comes first; whether the process then ends within the grace *)
  | TimedOut (endsInGrace : bool).

Record schedule := {
  sd_start : time;
  sd_elapsed : time;
  sd_workdir_missing : bool;
  sd_pid : Z;
  sd_running : list event;
  sd_outcome : outcome;
  (** after SIGTERM, until the process ends or the grace is over *)
  sd_grace : list event;
  (** until the pumpers are done or the drain is given up *)
  sd_drain : list event;
  (** after the output is finalized; after the last message *)
  sd_late : list event;
  sd_after : list event;
}.

(** [cmd.Wait] closes the tool's input. *)
Definition wait_returns (s : run_state) : run_state := (close_stdin s).2.

(** The common end of [runIOLoop] and [handleTimeout]. The output is finalized in one
    step; pumpers act before and after it. *)
Definition finish (e : ToolExecutor) (sd : schedule) (exitCode : Z) (timeout : bool) (s : run_state)
    : run_state :=
  let s := run_events (sd_drain sd) s in
  let s := (finalizeOutput s).2 in
  let s := run_events (sd_late sd) s in
  let s := emitAuditEntry e (sd_start sd) (sd_elapsed sd) exitCode timeout s in
  run_events (sd_after sd) (sendDone exitCode timeout s).

Definition handleTimeout (e : ToolExecutor) (sd : schedule) (endsInGrace : bool) (s : run_state) : run_state :=
  let s := (killProcessGroup SIGTERM s).2 in
  let s := run_events (sd_grace sd) s in
  let s := if endsInGrace then wait_returns s else (killProcessGroup SIGKILL s).2 in
  finish e sd (-1) true s.

Definition DeadlineExceeded : error := Sentinel "context.DeadlineExceeded".

Definition runIOLoop (e : ToolExecutor) (sd : schedule) (s : run_state) : option error * run_state :=
  let s := run_events (sd_running sd) s in
  match sd_outcome sd with
  | Exited exitCode => (None, finish e sd exitCode false (wait_returns s))
  | WaitFailed => (Some io_error, run_events (sd_after sd) (sendError "process error" (wait_returns s)))
  | TimedOut endsInGrace => (Some DeadlineExceeded, handleTimeout e sd endsInGrace s)
  end.

(** ** [cleanup]

    It closes the tool's input ([close_stdin]: the write end of the pipe and the
    reference to it), the output pipes and the terminal, kills the process group, and
    removes what the buffers and the configuration file left. No pumper acts from
    its start on. *)

Definition cleanup_buf (k : stream) (s : run_state) : run_state :=
  match x_buf s k with
  | None => s
  | Some b => let '(b, w) := Cleanup b (x_w s) in set_w (set_buf s k (Some b)) w
  end.

Definition cleanup_process (s : run_state) : run_state :=
  let s :=
    if p_stdinPipe (x_proc s) then
      let s := (close_stdin s).2 in
      set_proc s (with_stdin (x_proc s) false (p_stdin_open (x_proc s)) (p_stdin (x_proc s)))
    else s in
  let s := set_proc s (with_outputs (x_proc s) false) in
  let s := set_proc s (with_pty (x_proc s) false (p_winsize (x_proc s))) in
  if negb (p_pgid (x_proc s) =? 0) then (killProcessGroup SIGKILL s).2 else s.

Definition cleanup_dir (s : run_state) : run_state :=
  if negb (bool_decide (x_configDir s = "")) then
    set_w s (remove_all (x_w s) (x_configDir s)).2
  else s.

Definition cleanup (s : run_state) : run_state :=
  cleanup_dir (cleanup_buf Spty (cleanup_buf Serr (cleanup_buf Sout (cleanup_process s)))).

(** ** [Run] *)

Definition run_body (e : ToolExecutor) (sd : schedule) (s : run_state) : option error * run_state :=
  let s := set_workDir s
    (if negb (bool_decide (td_WorkingDir (e_tool e) = "")) then td_WorkingDir (e_tool e)
     else pr_cwd (e_req e)) in
  if negb (IsAbs (x_workDir s)) then
    (Some (Errorf "relative working directory: %s" [FS (x_workDir s)]),
     sendError "invalid working directory" s)
  else if sd_workdir_missing sd then
    (Some (Sentinel "os.ErrNotExist"), sendError "invalid working directory" s)
  else
    match setupConfigFile e s with
    | (Err err, s) => (Some err, sendError "internal error" s)
    | (Ok _, s) =>
      match buildEnvironment resolve (env_of e s) (x_secretValues s) with
      | Err err => (Some err, sendError "internal error" s)
      | Ok (env, secrets) =>
        match startProcess e env (sd_pid sd) (set_secrets s secrets) with
        | (Err err, s) => (Some err, sendError "failed to start tool" s)
        | (Ok _, s) => runIOLoop e sd s
        end
      end
    end.

Definition Run (e : ToolExecutor) (sd : schedule) (s : run_state) : option error * run_state :=
  let '(err, s) := run_body e sd s in (err, cleanup s).
End executor.
