(* ===== verification/Drain.v ===== *)
(** Package [internal/daemon], [executor.go]: the end of a tool's output in time.

    When the tool has exited its pipes may still hold output, and a process the
    tool left behind may hold their other ends. [runIOLoop] and [handleTimeout]
    give every pipe a deadline that its pumper renews after each chunk, and wait
    for the pumpers five seconds, or two. This file follows one pumper from the
    exit of the tool: how long each write of a chunk takes the client decides, how
    long the pumper waits for the processor the scheduler; both are given in a
    list. The events it has produced when the output is finalized are the
    [sd_drain] of [Executor]. *)

From S2P Require Import Prelude GoStrings GoTime Protocol World OutputBuffer Env AuditLog Executor.
Local Open Scope Z_scope.

Definition outputDrainGrace : duration := Second.

(** How long the main goroutine waits for the pumpers. *)
Definition drain_limit (timeout : bool) : duration := if timeout then 2 * Second else 5 * Second.

(** The read end of a pipe: what it holds, what will be written to it and when,
    whether a process holds the other end for ever, and its read deadline. *)
Record pipe := {
  pi_data : bytes;
  pi_later : list (time * bytes);
  pi_held : bool;
  pi_deadline : option time;
}.

Definition SetReadDeadline (p : pipe) (t : time) : pipe :=
  {| pi_data := pi_data p; pi_later := pi_later p; pi_held := pi_held p; pi_deadline := Some t |}.

Definition extendDrainDeadline (p : pipe) (now : time) : pipe := SetReadDeadline p (Add now outputDrainGrace).

(** [e.draining] is set before the deadlines are. *)
Definition setOutputDrainDeadline (p : pipe) (now : time) : bool * pipe := (true, extendDrainDeadline p now).
Definition extendOutputDeadline (draining : bool) (p : pipe) (now : time) : pipe :=
  if draining then extendDrainDeadline p now else p.

(** ** Reading a pipe *)

Inductive read_result :=
  | ReadChunk (at_ : time) (data : bytes) (p : pipe)
  | ReadDeadline (at_ : time)
  | ReadEOF (at_ : time)
  | ReadForever.

Definition expired (deadline : option time) (now : time) : bool :=
  match deadline with Some d => d <=? now | None => false end.

Fixpoint arrive (now : time) (later : list (time * bytes)) (data : bytes) : bytes * list (time * bytes) :=
  match later with
  | (t, b) :: rest => if t <=? now then arrive now rest (data ++ b) else (data, later)
  | [] => (data, [])
  end.

Definition read_some (at_ : time) (data : bytes) (later : list (time * bytes)) (held : bool) (deadline : option time)
    : read_result :=
  ReadChunk at_ (take chunk_size data)
    {| pi_data := drop chunk_size data; pi_later := later; pi_held := held; pi_deadline := deadline |}.

(** An empty pipe: the read waits for a write, the deadline or the end. *)
Fixpoint read_wait (now : time) (later : list (time * bytes)) (held : bool) (deadline : option time) : read_result :=
  match later with
  | (t, b) :: rest =>
    if expired deadline t then ReadDeadline (default now deadline)
    else match b with [] => read_wait now rest held deadline | _ => read_some t b rest held deadline end
  | [] => if held then match deadline with Some d => ReadDeadline d | None => ReadForever end else ReadEOF now
  end.

(** [r.Read] of 32 KiB: a deadline that has passed comes before the data. *)
Definition os_Read (p : pipe) (now : time) : read_result :=
  if expired (pi_deadline p) now then ReadDeadline now
  else
    let '(data, later) := arrive now (pi_later p) (pi_data p) in
    match data with
    | [] => read_wait now later (pi_held p) (pi_deadline p)
    | _ => read_some now data later (pi_held p) (pi_deadline p)
    end.

(** ** The pumper *)

Inductive pump_end := Stopped (at_ : time) | Blocked.

(** The loop of [stdoutPumper] or [stderrPumper]: when it read which chunk, and
    how it ends. [work] has for each chunk how long the write takes and how long
    it is until the next read; at its end the pumper is in a write. *)
Fixpoint pump (draining : bool) (work : list (duration * duration)) (p : pipe) (now : time)
    : list (time * bytes) * pump_end :=
  match os_Read p now with
  | ReadDeadline t | ReadEOF t => ([], Stopped t)
  | ReadForever => ([], Blocked)
  | ReadChunk t c p =>
    match work with
    | [] => ([(t, c)], Blocked)
    | (write, gap) :: work =>
      let done := t + write in
      let '(l, e) := pump draining work (extendOutputDeadline draining p done) (done + gap) in ((t, c) :: l, e)
    end
  end.

(** A pumper from the exit of the tool at [T]: it waits for output, or it is in the
    write of a chunk. *)
Definition pump_after_exit (T : time) (busy : option (duration * duration)) (work : list (duration * duration))
    (p : pipe) : list (time * bytes) * pump_end :=
  let '(draining, p) := setOutputDrainDeadline p T in
  match busy with
  | None => pump draining work p T
  | Some (write, gap) => pump draining work (extendOutputDeadline draining p (T + write)) (T + write + gap)
  end.

(** What it has written when the main goroutine finalizes the output; a write that
    has begun holds the buffer. *)
Definition drain_events (k : stream) (T : time) (timeout : bool) (r : list (time * bytes) * pump_end) : list event :=
  let until := T + drain_limit timeout in
  (EvOutput k ∘ snd <$> filter (λ x, x.1 < until) r.1) ++
  match r.2 with Stopped t => if t <? until then [EvOutputEnd k] else [] | Blocked => [] end.

(** ** Properties *)

Definition total (work : list (duration * duration)) : duration := foldr (λ x n, x.1 + x.2 + n) 0 work.

(** Times that can be: the pumper is given the processor within a second. *)
Definition prompt (x : duration * duration) : Prop := 0 ≤ x.1 ∧ 0 ≤ x.2 < outputDrainGrace.

Definition idle_time (held : bool) : duration := if held then outputDrainGrace else 0.

Lemma total_pos work : Forall prompt work → 0 ≤ total work.
Proof. unfold total. induction 1 as [|x work [??] _ IH]; cbn [foldr]; [done|lia]. Qed.

(** A pumper nobody writes to any more empties its pipe. *)
Lemma pump_quiet fuel work data held d now :
  now < d → d ≤ now + outputDrainGrace → (length data ≤ fuel)%nat → Forall prompt work →
  (length (chunks_fuel fuel data) ≤ length work)%nat →
  ∃ times t, pump true work {| pi_data := data; pi_later := []; pi_held := held; pi_deadline := Some d |} now =
      (zip times (chunks_fuel fuel data), Stopped t) ∧ length times = length (chunks_fuel fuel data) ∧
    Forall (λ u, u ≤ now + total work) times ∧ t ≤ now + total work + idle_time held.
Proof.
  assert (0 < chunk_size)%nat as Hcs by (unfold chunk_size; lia).
  revert work data d now. induction fuel as [|fuel IH]; intros work data d now Hd Hd' Hf Hw Hl;
    pose proof (total_pos _ Hw) as Hpos.
  1: assert (data = []) as -> by (destruct data; [done|cbn in Hf; lia]).
  2: destruct data as [|c data].
  1-2: exists [], (if held then d else now); (split_and!; [|done|apply Forall_nil_2|unfold idle_time; destruct held; lia]).
  1-2: destruct work as [|[??] ?]; cbn [pump]; unfold os_Read; cbn [pi_deadline pi_later pi_data expired arrive];
       rewrite (proj2 (Z.leb_gt _ _) Hd); cbn [read_wait pi_held]; by destruct held.
  cbn [chunks_fuel] in Hl |- *. cbn [length] in Hl. destruct work as [|[w g] work]; [cbn in Hl; lia|].
  inversion Hw as [|? ? [Hw1 Hw2] Hw3]; subst. cbn [fst snd] in *. cbn [pump]. unfold os_Read.
  cbn [pi_deadline pi_later pi_data expired arrive]. rewrite (proj2 (Z.leb_gt _ _) Hd). cbn [read_some pi_held].
  unfold extendOutputDeadline, extendDrainDeadline, SetReadDeadline, Add. cbn [pi_data pi_later pi_held read_some].
  destruct (IH work (drop chunk_size (c :: data)) (now + w + outputDrainGrace) (now + w + g))
    as (times & t & -> & Hn & Ht & Hend); [lia|lia| |done|cbn [length] in Hl; lia|].
  { rewrite length_drop. cbn [length] in *. lia. }
  pose proof (total_pos _ Hw3) as Hpos'. change (total ((w, g) :: work)) with (w + g + total work) in *.
  exists (now :: times), t. cbn [zip zip_with length]. split_and!; [done|by f_equal| |lia].
  constructor; [lia|]. eapply Forall_impl; [exact Ht|]. cbn beta. intros u Hu. lia.
Qed.

Lemma filter_all {A} (P : A → Prop) `{∀ x, Decision (P x)} l : Forall P l → filter P l = l.
Proof. induction 1 as [|x l Hx _ IH]; [done|]. by rewrite filter_cons_True, IH. Qed.

Lemma zip_before (times : list time) (l : list bytes) until :
  length times = length l → Forall (λ u, u < until) times →
  snd <$> filter (λ x : time * bytes, x.1 < until) (zip times l) = l.
Proof.
  intros Hn Ht. rewrite filter_all.
  - revert l Hn. induction times as [|u times IH]; intros [|x l] Hn; try done. inversion Ht; subst.
    cbn. f_equal. apply IH; [done|]. by injection Hn.
  - revert l Hn. induction times as [|u times IH]; intros [|x l] Hn; [done..|]. inversion Ht; subst.
    constructor; [done|]. apply IH; [done|]. by injection Hn.
Qed.

(** Output is whole when the client keeps up. When the tool exits and nothing
    more is written to its pipe, also if a process left behind holds it for ever,
    the pumper writes all that the pipe held and then stops before the output is
    finalized, if the writes it has to do and the second of grace fit in the time
    the main goroutine waits. *)
Theorem drain_empties k T timeout busy work p :
  pi_later p = [] → Forall prompt work → from_option prompt True busy →
  (length (chunks (pi_data p)) ≤ length work)%nat →
  from_option (λ x, x.1 + x.2) 0 busy + total work + idle_time (pi_held p) < drain_limit timeout →
  drain_events k T timeout (pump_after_exit T busy work p) = (EvOutput k <$> chunks (pi_data p)) ++ [EvOutputEnd k].
Proof.
  destruct p as [data later held d0]. cbn [pi_later pi_data pi_held]. intros -> Hw Hb Hl Ht.
  set (n0 := from_option (λ x, x.1 + x.2) 0 busy) in *.
  assert (∃ d, T + n0 < d ≤ T + n0 + outputDrainGrace ∧ pump_after_exit T busy work
    {| pi_data := data; pi_later := []; pi_held := held; pi_deadline := d0 |} =
    pump true work {| pi_data := data; pi_later := []; pi_held := held; pi_deadline := Some d |} (T + n0))
    as (d & Hd & ->).
  { assert (0 < outputDrainGrace) by done. destruct busy as [[w g]|]; cbn [from_option fst snd] in *.
    - destruct Hb as [? ?]. cbn [fst snd] in *. exists (T + w + outputDrainGrace). split; [lia|].
      unfold n0. by rewrite Z.add_assoc.
    - exists (T + outputDrainGrace). unfold n0. rewrite Z.add_0_r. split; [lia|done]. }
  destruct (pump_quiet (length data) work data held d (T + n0)) as (times & t & E & Hn & Htimes & Hend);
    [lia..|done|done|]. rewrite E. unfold drain_events. cbn [fst snd].
  assert (0 ≤ idle_time held) by (by destruct held).
  rewrite (proj2 (Z.ltb_lt _ _)) by lia. f_equal. rewrite list_fmap_compose, zip_before; [done|done|].
  eapply Forall_impl; [exact Htimes|]. cbn beta. intros. lia.
Qed.

Lemma filter_none {A} (P : A → Prop) `{∀ x, Decision (P x)} l : Forall (λ x, ¬ P x) l → filter P l = [].
Proof. induction 1 as [|x l Hx _ IH]; [done|]. by rewrite filter_cons_False. Qed.

(** Time goes on. *)
Lemma pump_late work p now :
  pi_later p = [] → Forall prompt work →
  Forall (λ x, now ≤ x.1) (pump true work p now).1 ∧
  ∀ t, (pump true work p now).2 = Stopped t → now ≤ t.
Proof.
  intros Hp Hw. revert p now Hp. induction Hw as [|[w g] work [Hw Hg] _ IH]; intros [data later held d] now Hp;
    cbn [pi_later] in Hp; subst later; cbn [pump]; unfold os_Read; cbn [pi_deadline pi_later pi_data pi_held];
    destruct (expired d now) eqn:Ed; try (split; [apply Forall_nil_2|by intros t [= <-]]);
    cbn [arrive]; (destruct data as [|c data]; [cbn [read_wait]|]).
  1, 3: destruct held; [destruct d as [d|]|]; (split; [apply Forall_nil_2|]); intros t; try done; intros [= <-]; cbn in Ed; lia.
  - unfold read_some. split; [by repeat constructor|done].
  - unfold read_some. cbn [fst snd] in *.
    match goal with |- context [pump true work ?q ?n] =>
      destruct (IH q n eq_refl) as [H1 H2]; destruct (pump true work q n) as [l e] end.
    cbn [fst snd] in *. split; [|intros t Ht; specialize (H2 t Ht); lia].
    constructor; [done|]. eapply Forall_impl; [exact H1|]. cbn beta. intros. lia.
Qed.

(** A client that does not keep up loses output: a pumper that reads one chunk when
    the tool has exited and whose write takes as long as the main goroutine waits
    has written that chunk alone when the output is finalized, whatever the pipe
    still held. *)
Theorem drain_cut_off k T timeout w g work p :
  pi_later p = [] → (chunk_size < length (pi_data p))%nat → drain_limit timeout ≤ w → 0 ≤ g →
  Forall prompt work →
  drain_events k T timeout (pump_after_exit T None ((w, g) :: work) p) = [EvOutput k (take chunk_size (pi_data p))].
Proof.
  destruct p as [data later held d0]. cbn [pi_later pi_data]. intros -> Hl Hw Hg Hp.
  unfold pump_after_exit, setOutputDrainDeadline, extendDrainDeadline, SetReadDeadline.
  cbn [pump]. unfold os_Read. cbn [pi_deadline pi_later pi_data pi_held expired arrive].
  assert (Add T outputDrainGrace <=? T = false) as -> by (apply Z.leb_gt; unfold Add; assert (0 < outputDrainGrace) by done; lia).
  destruct data as [|c data]; [cbn in Hl; lia|]. unfold read_some.
  match goal with |- context [pump true work ?q ?now] =>
    destruct (pump_late work q now eq_refl Hp) as [H1 H2]; destruct (pump true work q now) as [l e] end.
  cbn [fst snd] in *. unfold drain_events. cbn [fst snd].
  assert (0 < drain_limit timeout) by (by destruct timeout).
  rewrite filter_cons_True by (cbn [fst]; lia). rewrite (filter_none _ l).
  - destruct e as [t|]; [|done]. specialize (H2 t eq_refl). by rewrite (proj2 (Z.ltb_ge _ _)) by lia.
  - eapply Forall_impl; [exact H1|]. cbn beta. intros. lia.
Qed.

Lemma drain_empties_witness :
  let p := {| pi_data := s2b "the last lines"; pi_later := []; pi_held := true; pi_deadline := None |} in
  drain_events Serr 7 false (pump_after_exit 7 (Some (Second, 5)) [(2 * Second, 1)] p) =
    [EvOutput Serr (s2b "the last lines"); EvOutputEnd Serr].
Proof.
  intros p. assert (chunks (pi_data p) = [s2b "the last lines"]) as El by (vm_compute; reflexivity).
  rewrite (drain_empties Serr 7 false (Some (Second, 5)) [(2 * Second, 1)] p), El; [reflexivity|reflexivity|..].
  - constructor; [split; done|constructor].
  - split; done.
  - rewrite El. done.
  - reflexivity.
Defined.
