(* ===== verification/Daemon.v ===== *)
(** Package [internal/daemon], [daemon.go], [peercred_linux.go]: the daemon that
    accepts connections on a Unix socket, decides who may ask for what, runs
    tools, reloads its configuration and manages the HTTP proxy.

    A connection is what the daemon reads from it and learns of its peer; the
    answers are the messages written back. Whatever the daemon asks of the
    system at start-up and on reload is an argument ([startup_io], [reload_io]).
    Log messages and deadlines are left out. *)

From S2P Require Import Prelude GoStrings Json GoTime GoPath Paths Protocol Auth Replay Regexp ConfigTypes ArgsPolicy.
From S2P Require Import Framing Interpolate World Config Settings Env Runtime AuditLog Executor Sources HttpProxy SecretFile.
Local Open Scope Z_scope.

Record Ucred := { uc_PID : Z; uc_UID : Z; uc_GID : Z }.

(** ** What the system says about processes and paths *)

Class Peers := {
  (** [os.Readlink("/proc/<pid>/exe")], [os.ReadFile("/proc/<pid>/cmdline")] *)
  readlink_exe : Z → result string;
  read_cmdline : Z → result bytes;
  EvalSymlinks : string → result string;
  filepath_Abs : string → result string;
  (** the first HMAC key argument then the message *)
  hmac_sha256 : bytes → bytes → bytes;
  (** the keys of a JSON object whose value is not null *)
  json_object : bytes → option (gset string);
}.

Section peers.
Context `{Peers}.

Definition resolvePeerExecutable (pid : Z) : result string :=
  readlink_exe pid ≫= λ exe,
  if bool_decide (exe = "") then Err (Errorf "empty executable path" []) else Ok exe.

Definition resolvePeerArgv0 (pid : Z) : result string :=
  read_cmdline pid ≫= λ data,
  if bool_decide (data = []) then Err (Errorf "empty cmdline" [])
  else
    let argv0 := (Cut (b2s data) NULs).1.1 in
    if bool_decide (argv0 = "") then Err (Errorf "empty argv0" []) else Ok argv0.

Definition normalizeExecutablePath (p : string) : string :=
  let p := match EvalSymlinks p with Ok resolved => resolved | Err _ => p end in
  let p := match filepath_Abs p with Ok abs => abs | Err _ => p end in
  Clean p.
End peers.

(** ** Metrics *)

Abbreviation securityMetrics := (gmap string Z).
(** [m.counters[key]++] on [uint64] counters. *)
Definition Inc (key : string) (m : securityMetrics) : securityMetrics :=
  <[key := (default 0 (m !! key) + 1) mod 2 ^ 64]> m.

(** ** The daemon *)

Definition defaultAuthFileMode : Z := 0x180.
Definition defaultSocketFileMode : Z := 0x180.
Definition defaultRuntimeDirMode : Z := 0x1C0.
Definition sharedRuntimeDirMode : Z := 0x1E8.

Section daemon.
Context `{RE : Regexp} `{UnicodeCase} `{DurationParser} `{OS} `{Host} `{MapRange} `{Hash} `{Peers}.
Context `{Codec ProxyRequest} `{Codec AdminRequest}.
Context (resolve : string → CredentialDef → result string).

Record Daemon := {
  d_socketPath : string;
  d_configPath : string;
  d_allowedUID : Z;
  d_runtimeGID : Z;
  d_authFileMode : Z;
  d_socketFileMode : Z;
  d_allowedBinaries : list string;
  d_version : string;
  d_secret : bytes;
  d_cfg : option Config;
  (** [connSem]: its capacity and the tokens in it *)
  d_connCap : Z;
  d_connUsed : Z;
  d_replayCache : option ReplayCache;
  d_metrics : securityMetrics;
  d_httpProxy : option Proxy;
  d_proxyAuthToken : string;
  d_proxyAuthTokenPath : string;
  d_auditLogger : option Logger;
}.

Definition DaemonOption := Daemon → Daemon.

Definition update (d : Daemon) (cfg : option Config) (replay : option ReplayCache) (metrics : securityMetrics)
    (proxy : option Proxy) (token : string) (audit : option Logger) : Daemon :=
  {| d_socketPath := d_socketPath d; d_configPath := d_configPath d; d_allowedUID := d_allowedUID d;
     d_runtimeGID := d_runtimeGID d; d_authFileMode := d_authFileMode d; d_socketFileMode := d_socketFileMode d;
     d_allowedBinaries := d_allowedBinaries d; d_version := d_version d; d_secret := d_secret d;
     d_cfg := cfg; d_connCap := d_connCap d; d_connUsed := d_connUsed d; d_replayCache := replay;
     d_metrics := metrics; d_httpProxy := proxy; d_proxyAuthToken := token;
     d_proxyAuthTokenPath := d_proxyAuthTokenPath d; d_auditLogger := audit |}.

Definition set_replay (d : Daemon) (c : option ReplayCache) : Daemon :=
  update d (d_cfg d) c (d_metrics d) (d_httpProxy d) (d_proxyAuthToken d) (d_auditLogger d).
Definition inc_metric (key : string) (d : Daemon) : Daemon :=
  update d (d_cfg d) (d_replayCache d) (Inc key (d_metrics d)) (d_httpProxy d) (d_proxyAuthToken d)
    (d_auditLogger d).
Definition set_httpProxy (d : Daemon) (p : option Proxy) : Daemon :=
  update d (d_cfg d) (d_replayCache d) (d_metrics d) p (d_proxyAuthToken d) (d_auditLogger d).
Definition set_token (d : Daemon) (token : string) : Daemon :=
  update d (d_cfg d) (d_replayCache d) (d_metrics d) (d_httpProxy d) token (d_auditLogger d).
Definition set_auditLogger (d : Daemon) (l : option Logger) : Daemon :=
  update d (d_cfg d) (d_replayCache d) (d_metrics d) (d_httpProxy d) (d_proxyAuthToken d) l.
Definition set_cfg (d : Daemon) (cfg : Config) : Daemon :=
  update d (Some cfg) (d_replayCache d) (d_metrics d) (d_httpProxy d) (d_proxyAuthToken d) (d_auditLogger d).
Definition set_conns (d : Daemon) (cap used : Z) : Daemon :=
  {| d_socketPath := d_socketPath d; d_configPath := d_configPath d; d_allowedUID := d_allowedUID d;
     d_runtimeGID := d_runtimeGID d; d_authFileMode := d_authFileMode d; d_socketFileMode := d_socketFileMode d;
     d_allowedBinaries := d_allowedBinaries d; d_version := d_version d; d_secret := d_secret d;
     d_cfg := d_cfg d; d_connCap := cap; d_connUsed := used; d_replayCache := d_replayCache d;
     d_metrics := d_metrics d; d_httpProxy := d_httpProxy d; d_proxyAuthToken := d_proxyAuthToken d;
     d_proxyAuthTokenPath := d_proxyAuthTokenPath d; d_auditLogger := d_auditLogger d |}.

(** The fields the options set. *)
Definition set_static (d : Daemon) (socket config : string) (uid gid auth_mode socket_mode : Z)
    (binaries : list string) (version : string) : Daemon :=
  {| d_socketPath := socket; d_configPath := config; d_allowedUID := uid; d_runtimeGID := gid;
     d_authFileMode := auth_mode; d_socketFileMode := socket_mode; d_allowedBinaries := binaries;
     d_version := version; d_secret := d_secret d; d_cfg := d_cfg d; d_connCap := d_connCap d;
     d_connUsed := d_connUsed d; d_replayCache := d_replayCache d; d_metrics := d_metrics d;
     d_httpProxy := d_httpProxy d; d_proxyAuthToken := d_proxyAuthToken d;
     d_proxyAuthTokenPath := d_proxyAuthTokenPath d; d_auditLogger := d_auditLogger d |}.

Definition WithSocketPath (path : string) : DaemonOption := λ d,
  set_static d path (d_configPath d) (d_allowedUID d) (d_runtimeGID d) (d_authFileMode d) (d_socketFileMode d)
    (d_allowedBinaries d) (d_version d).
Definition WithConfigPath (path : string) : DaemonOption := λ d,
  set_static d (d_socketPath d) path (d_allowedUID d) (d_runtimeGID d) (d_authFileMode d) (d_socketFileMode d)
    (d_allowedBinaries d) (d_version d).
Definition WithAllowedUID (uid : Z) : DaemonOption := λ d,
  set_static d (d_socketPath d) (d_configPath d) uid (d_runtimeGID d) (d_authFileMode d) (d_socketFileMode d)
    (d_allowedBinaries d) (d_version d).
Definition WithRuntimeGID (gid : Z) : DaemonOption := λ d,
  set_static d (d_socketPath d) (d_configPath d) (d_allowedUID d) gid (d_authFileMode d) (d_socketFileMode d)
    (d_allowedBinaries d) (d_version d).
Definition WithAuthFileMode (mode : Z) : DaemonOption := λ d,
  set_static d (d_socketPath d) (d_configPath d) (d_allowedUID d) (d_runtimeGID d) mode (d_socketFileMode d)
    (d_allowedBinaries d) (d_version d).
Definition WithSocketFileMode (mode : Z) : DaemonOption := λ d,
  set_static d (d_socketPath d) (d_configPath d) (d_allowedUID d) (d_runtimeGID d) (d_authFileMode d) mode
    (d_allowedBinaries d) (d_version d).
Definition WithAllowedBinaries (binaries : list string) : DaemonOption := λ d,
  set_static d (d_socketPath d) (d_configPath d) (d_allowedUID d) (d_runtimeGID d) (d_authFileMode d)
    (d_socketFileMode d) binaries (d_version d).
Definition WithVersion (v : string) : DaemonOption := λ d,
  set_static d (d_socketPath d) (d_configPath d) (d_allowedUID d) (d_runtimeGID d) (d_authFileMode d)
    (d_socketFileMode d) (d_allowedBinaries d) v.

(** [New] before its options: the daemon's own binary and the path it was invoked
    by are allowed. [exe] is [os.Executable()], [args] is [os.Args]. *)
Definition default_binaries (exe : result string) (args : list string) : list string :=
  let selfPath :=
    match exe with
    | Ok exe => match EvalSymlinks exe with Ok resolved => resolved | Err _ => "/usr/local/bin/claw-wrap" end
    | Err _ => "/usr/local/bin/claw-wrap"
    end in
  match args with
  | [] => [selfPath]
  | arg0 :: _ =>
    let arg0 := match filepath_Abs arg0 with Ok abs => abs | Err _ => arg0 end in
    if negb (bool_decide (arg0 = selfPath)) then [selfPath; arg0] else [selfPath]
  end.

Definition daemon_New (exe : result string) (args : list string) (uid : Z) (opts : list DaemonOption) : Daemon :=
  foldl (λ d opt, opt d)
    {| d_socketPath := SocketPath; d_configPath := ConfigPath; d_allowedUID := uid; d_runtimeGID := -1;
       d_authFileMode := defaultAuthFileMode; d_socketFileMode := defaultSocketFileMode;
       d_allowedBinaries := default_binaries exe args; d_version := ""; d_secret := []; d_cfg := None;
       d_connCap := 0; d_connUsed := 0; d_replayCache := None; d_metrics := ∅; d_httpProxy := None;
       d_proxyAuthToken := ""; d_proxyAuthTokenPath := ProxyAuthTokenPath; d_auditLogger := None |} opts.

Definition isAllowedBinary (d : Daemon) (exe : string) : bool :=
  existsb (λ allowed, bool_decide (normalizeExecutablePath allowed = normalizeExecutablePath exe))
    (d_allowedBinaries d).

(** ** Connection slots *)

Definition acquireConnSlot (d : Daemon) : bool * Daemon :=
  if d_connUsed d <? d_connCap d then (true, set_conns d (d_connCap d) (d_connUsed d + 1)) else (false, d).

Definition releaseConnSlot (d : Daemon) : Daemon :=
  if 0 <? d_connUsed d then set_conns d (d_connCap d) (d_connUsed d - 1) else d.

Definition Snapshot (m : securityMetrics) : gmap string Z := m.

(** ** Requests *)

(** What is written back: a JSON object with an [error], a framed error message,
    or the answer to an administrator. *)
Inductive answer :=
  | RawError (msg : string)
  | FramedError (msg : string)
  | FramedFailure (err : error)
  | AnswerList (resp : AdminListResponse)
  | AnswerCheck (resp : AdminCheckResponse).

(** [sendError] and [sendProxyError]: what goes on the wire. *)
Definition sendError (msg : string) : bytes :=
  "{"%char :: json_string "error" ++ ":"%char :: json_string msg ++ ["}"%char].

Definition sendProxyError `{Codec ResponseMessage} (out : bytes) (message : string) : bytes * result unit :=
  Encode out (error_msg message).

Definition authorizeAdminCheckCaller (d : Daemon) (pid : Z) : result unit :=
  wrap_err "resolve caller executable: %w" [] (resolvePeerExecutable pid) ≫= λ exe,
  guard_err (negb (isAllowedBinary d exe)) (Errorf "caller executable not allowed: %q" [FS exe]) ≫= λ _,
  wrap_err "resolve caller argv0: %w" [] (resolvePeerArgv0 pid) ≫= λ argv0,
  guard_err (negb (bool_decide (Base argv0 = "claw-wrap"))) (Errorf "unexpected caller argv0 %q" [FS argv0]).

(** [d.replayCache.SeenOrStore]. *)
Definition seen (d : Daemon) (key : string) (now : time) : bool * Daemon :=
  match d_replayCache d with
  | None => (false, d)
  | Some c => let '(b, c) := SeenOrStore c key now in (b, set_replay d (Some c))
  end.

Definition admin_list (d : Daemon) (cfg : Config) : AdminListResponse :=
  {| al_tools := (λ tool, {| ti_binary := td_Binary tool;
                             ti_mode := match td_ConfigFile tool with Some _ => "config_file" | None => "env" end |})
                   <$> cfg_Tools cfg;
     al_version := d_version d |}.

Definition credential_info (name : string) (c : CredentialDef) : CredentialInfo :=
  match resolve name c with
  | Ok value =>
    if bool_decide (value = "") then {| ci_status := "failed"; ci_preview := "" |}
    else {| ci_status := "ok"; ci_preview := credentialPreview value |}
  | Err _ => {| ci_status := "failed"; ci_preview := "" |}
  end.

(** [httpproxy.DefaultCAPath]. *)
Definition DefaultCAPath : string := CADir.

Definition admin_check (d : Daemon) (cfg : Config) : AdminCheckResponse :=
  {| ac_credentials := map_imap (λ name c, Some (credential_info name c)) (cfg_Credentials cfg);
     ac_http_proxy :=
       match cfg_HTTPProxy cfg with
       | Some h =>
         if hp_Enabled h then
           let caPath := GetHTTPProxyCAPath cfg in
           let caPath := if bool_decide (caPath = "") then DefaultCAPath else caPath in
           Some {| hi_enabled := true; hi_listen := GetHTTPProxyListen cfg;
                   hi_ca_cert_path := PathJoin [caPath; "ca.crt"];
                   hi_auth_token_path := if GetRequireAuth h then d_proxyAuthTokenPath d else "" |}
         else None
       | None => None
       end;
     ac_version := d_version d |}.

(** [handleAdminRequest]; the clock is read when the signature is checked ([t1])
    and when the replay cache is asked ([t2]). *)
Definition handleAdminRequest (d : Daemon) (data : bytes) (cfg : Config) (uid pid : Z) (t1 t2 : time)
    : list answer * Daemon :=
  match unmarshal data : option AdminRequest with
  | None => ([RawError "invalid request"], d)
  | Some req =>
    if negb (ar_version req =? ProtocolVersion) then ([RawError "protocol version mismatch"], d)
    else
      match VerifyHMAC hmac_sha256 t1 (d_secret d) (ar_timestamp req) ("admin:" +:+ ar_admin req) "" None
              (ar_nonce req) (ar_hmac req) with
      | Err _ => ([RawError "authentication failed"], inc_metric "auth_fail" d)
      | Ok _ =>
        let replayKey := FormatInt uid +:+ ":admin:" +:+ ar_hmac req in
        match seen d replayKey t2 with
        | (true, d) => ([RawError "authentication failed"], inc_metric "replay_reject" d)
        | (false, d) =>
          if bool_decide (ar_admin req = "check") && negb (is_ok (authorizeAdminCheckCaller d pid)) then
            ([RawError "authentication failed"], inc_metric "caller_verify_fail" d)
          else if bool_decide (ar_admin req = "list") then ([AnswerList (admin_list d cfg)], d)
          else if bool_decide (ar_admin req = "check") then ([AnswerCheck (admin_check d cfg)], d)
          else ([RawError "unknown admin command"], d)
        end
      end
  end.

(** The fields a proxy request's signature covers. *)
Definition signed_of (req : ProxyRequest) : signed :=
  {| sg_timestamp := pr_timestamp req; sg_tool := pr_tool req; sg_cwd := pr_cwd req; sg_args := pr_args req;
     sg_env := pr_env req; sg_nonce := pr_nonce req; sg_pty := pr_use_pty req |}.

Definition proxy_replay_key (uid : Z) (req : ProxyRequest) : string :=
  FormatInt uid +:+ ":proxy:" +:+ pr_hmac req.

(** [handleProxyRequest]: the answers, and the executor whose [Run] follows. *)
Definition handleProxyRequest (d : Daemon) (data : bytes) (cfg : Config) (callerPID : Z) (callerExe : string)
    (uid : Z) (t1 t2 : time) : list answer * option ToolExecutor * Daemon :=
  match unmarshal data : option ProxyRequest with
  | None => ([FramedError "invalid request"], None, d)
  | Some req =>
    if negb (pr_version req =? ProtocolVersion) then ([FramedError "protocol version mismatch"], None, d)
    else
      match VerifyHMACWithPTY hmac_sha256 t1 (d_secret d) (signed_of req) (pr_hmac req) with
      | Err _ => ([FramedError "authentication failed"], None, inc_metric "auth_fail" d)
      | Ok _ =>
        match seen d (proxy_replay_key uid req) t2 with
        | (true, d) => ([FramedError "authentication failed"], None, inc_metric "replay_reject" d)
        | (false, d) =>
          match cfg_Tools cfg !! pr_tool req with
          | None => ([FramedError "unknown tool"], None, d)
          | Some tool =>
            let '(allowed, msg) := checkToolArgs (default [] (pr_args req)) tool in
            if negb allowed then ([FramedError ("blocked: " +:+ msg)], None, inc_metric "args_denied" d)
            else
              match NewToolExecutor req tool cfg (d_proxyAuthToken d) (d_auditLogger d) callerPID callerExe with
              | Err err => ([FramedFailure err], None, d)
              | Ok executor => ([], Some executor, d)
              end
          end
        end
      end
  end.

(** ** Connections *)

Inductive read_result := ReadData (data : bytes) | ReadTimeout | ReadFailed.

Record conn := {
  cn_read : read_result;
  cn_unix : bool;
  cn_peer : result Ucred;
}.

Definition header_size : Z := 64 * 1024.

(** [handleConnection] up to the executor's run. *)
Definition handleConnection (d : Daemon) (cfg : Config) (c : conn) (t1 t2 : time)
    : list answer * option ToolExecutor * Daemon :=
  match cn_read c with
  | ReadTimeout => ([RawError "request read timeout"], None, inc_metric "read_timeout" d)
  | ReadFailed => ([], None, d)
  | ReadData data =>
    let buf := take (Z.to_nat header_size) data in
    if blen buf =? header_size then ([RawError "request too large"], None, inc_metric "oversized_msg" d)
    else
      let payload := trim_space buf in
      if bool_decide (payload = []) then ([RawError "empty request"], None, d)
      else
        match json_object payload with
        | None => ([RawError "invalid json"], None, d)
        | Some keys =>
          let isProxy := bool_decide ("hmac" ∈ keys) in
          let errSend msg := if isProxy then FramedError msg else RawError msg in
          let deny msg d := ([errSend msg], None, inc_metric "caller_verify_fail" d) in
          if negb (cn_unix c) then deny "internal error: not a unix connection" d
          else
            match cn_peer c with
            | Err _ => deny "failed to verify caller" d
            | Ok ucred =>
              if negb (uc_UID ucred =? d_allowedUID d) then deny "unauthorized caller" d
              else
                match (match resolvePeerExecutable (uc_PID ucred) with
                       | Err _ => if DenyUnverifiedCallerExe cfg then None else Some ""
                       | Ok exe => if negb (isAllowedBinary d exe) then None else Some exe
                       end) with
                | None => deny "unauthorized caller" d
                | Some callerExe =>
                  if bool_decide ("admin" ∈ keys) then
                    let '(answers, d) := handleAdminRequest d payload cfg (uc_UID ucred) (uc_PID ucred) t1 t2 in
                    (answers, None, d)
                  else if isProxy then
                    handleProxyRequest d payload cfg (uc_PID ucred) callerExe (uc_UID ucred) t1 t2
                  else ([RawError "invalid request: use proxy protocol"], None, d)
                end
            end
        end
  end.

(** One accepted connection, with the run of the tool it asks for. The run starts
    with the daemon's audit state and an outside world. *)
Definition serve (d : Daemon) (cfg : Config) (c : conn) (t1 t2 : time) (sd : schedule) (w : world)
    (a : audit_state) : list answer * option (option error * run_state) * Daemon :=
  let '(answers, executor, d) := handleConnection d cfg c t1 t2 in
  (answers, (λ e, Run resolve e sd (init_state w a)) <$> executor, d).

(** ** The accept loop: which handlers are running *)

Inductive accept_event := Accepted | Finished.

Inductive accept_result := Started | Busy | Released.

(** The loop and the handlers' deferred releases; [running] counts the handlers. *)
Definition accept_step (d : Daemon) (running : Z) (ev : accept_event) : accept_result * Daemon * Z :=
  match ev with
  | Accepted =>
    match acquireConnSlot d with
    | (true, d) => (Started, d, running + 1)
    | (false, d) => (Busy, inc_metric "rate_limited" d, running)
    end
  | Finished => (Released, releaseConnSlot d, running - 1)
  end.

(** The events of a run: a handler finishes only while one runs. *)
Inductive accept_run (d : Daemon) : list accept_event → Daemon → Z → Prop :=
  | accept_nil : accept_run d [] d 0
  | accept_cons evs d' running ev :
      accept_run d evs d' running → (ev = Finished → 0 < running) →
      accept_run d (evs ++ [ev]) (accept_step d' running ev).1.2 (accept_step d' running ev).2.

(** ** Reload *)

Definition auditConfigChanged (old new : option Config) : bool :=
  match old, new with
  | None, None => false
  | None, Some _ | Some _, None => true
  | Some old, Some new =>
    match cfg_Audit old, cfg_Audit new with
    | None, None => false
    | None, Some _ | Some _, None => true
    | Some oa, Some na =>
      negb (bool_decide (au_Enabled oa = au_Enabled na)) || negb (bool_decide (au_File oa = au_File na))
      || negb (bool_decide (au_Stdout oa = au_Stdout na)) || negb (bool_decide (au_Syslog oa = au_Syslog na))
      || negb (bool_decide (au_SyslogFacility oa = au_SyslogFacility na))
    end
  end.

(** What starting and stopping the proxy depends on. *)
Record proxy_io := {
  io_mitm : result unit;
  io_watch : result unit;
  io_listen : result unit;
  io_close : result unit;
  io_random : result bytes;
  io_euid : Z;
}.

(** The daemon with the files of its runtime directory and its audit log. *)
Record node := { n_daemon : Daemon; n_fs : fs; n_audit : audit_state }.
Definition set_daemon (n : node) (d : Daemon) : node :=
  {| n_daemon := d; n_fs := n_fs n; n_audit := n_audit n |}.

(** [startHTTPProxy]. *)
Definition startHTTPProxy (cfg : Config) (io : proxy_io) (n : node) : result unit * node :=
  match GetHTTPProxyConfig cfg with
  | Some httpCfg =>
    if negb (hp_Enabled httpCfg) then (Ok tt, n)
    else
      let requireAuth := GetRequireAuth httpCfg in
      let d := n_daemon n in
      let '(r, n) :=
        if requireAuth then
          let '(r, f) := ensureProxyAuthToken (n_fs n) (io_euid io) (d_proxyAuthTokenPath d) (d_proxyAuthToken d)
                           (io_random io) in
          match r with
          | Ok token => (Ok tt, {| n_daemon := set_token d token; n_fs := f; n_audit := n_audit n |})
          | Err e => (Err (Wrapf "initialize HTTP proxy auth token: %w" [] e),
                      {| n_daemon := d; n_fs := f; n_audit := n_audit n |})
          end
        else (Ok tt, n) in
      match r with
      | Err e => (Err e, n)
      | Ok _ =>
        let d := n_daemon n in
        let proxy := HttpProxy.New httpCfg (cfg_Credentials cfg)
          [proxy_WithPassBinary (GetPassBinary cfg); proxy_WithOPBinary (GetOPBinary cfg);
           proxy_WithBWBinary (GetBWBinary cfg); proxy_WithVaultBinary (GetVaultBinary cfg);
           WithAuthToken (d_proxyAuthToken d); WithRequireAuth requireAuth] in
        match Start proxy (ListenAddr proxy) (io_mitm io) (io_watch io) (io_listen io) with
        | Err e => (Err (Wrapf "start HTTP proxy: %w" [] e), n)
        | Ok proxy => (Ok tt, set_daemon n (set_httpProxy d (Some proxy)))
        end
      end
  | None => (Ok tt, n)
  end.

Definition stopHTTPProxy (io : proxy_io) (d : Daemon) : result unit * Daemon :=
  match d_httpProxy d with
  | Some proxy => ((Stop proxy (io_close io)).1, set_httpProxy d None)
  | None => (Ok tt, d)
  end.

Definition stop_failed (d : Daemon) (proxy : Proxy) : Daemon := set_httpProxy d (Some proxy).

(** The settings of the proxy that need a restart. *)
Definition needs_restart (old new : HTTPProxyConfig) : bool :=
  negb (bool_decide (hp_Listen old = hp_Listen new))
  || negb (bool_decide (GetRequireAuth old = GetRequireAuth new))
  || negb (bool_decide (ca_Path (hp_CA old) = ca_Path (hp_CA new))).

(** The first part of [reloadConfig]: the proxy follows the configuration. *)
Definition reload_proxy (newCfg : Config) (io : proxy_io) (n : node) : result unit * node :=
  let d := n_daemon n in
  let enabled := GetHTTPProxyEnabled newCfg in
  match d_httpProxy d with
  | Some proxy =>
    if negb enabled then
      match Stop proxy (io_close io) with
      | (Err e, proxy) => (Err (Wrapf "stop HTTP proxy: %w" [] e), set_daemon n (stop_failed d proxy))
      | (Ok _, _) => (Ok tt, set_daemon n (set_httpProxy d None))
      end
    else
      match d_cfg d ≫= GetHTTPProxyConfig, GetHTTPProxyConfig newCfg with
      | Some oldCfg, Some newHTTPCfg =>
        if needs_restart oldCfg newHTTPCfg then
          match Stop proxy (io_close io) with
          | (Err e, proxy) => (Err (Wrapf "stop HTTP proxy for restart: %w" [] e), set_daemon n (stop_failed d proxy))
          | (Ok _, _) =>
            let '(r, n) := startHTTPProxy newCfg io (set_daemon n (set_httpProxy d None)) in
            (wrap_err "restart HTTP proxy: %w" [] r, n)
          end
        else (Ok tt, set_daemon n (set_httpProxy d (Some (ReloadConfig proxy newHTTPCfg (cfg_Credentials newCfg)))))
      | _, _ => (Err (Sentinel "nil pointer dereference"), n)
      end
  | None =>
    if enabled then
      let '(r, n) := startHTTPProxy newCfg io n in (wrap_err "start HTTP proxy: %w" [] r, n)
    else (Ok tt, n)
  end.

(** The second part: the audit log. *)
Definition reload_audit (newCfg : Config) (n : node) : result unit * node :=
  let d := n_daemon n in
  if auditConfigChanged (d_cfg d) (Some newCfg) then
    let a := match d_auditLogger d with Some l => (Close l (n_audit n)).2 | None => n_audit n end in
    match AuditLog.New (GetAuditConfig (Some newCfg)) a with
    | (Err e, a) =>
      (Err (Wrapf "reload audit logger: %w" [] e), {| n_daemon := d; n_fs := n_fs n; n_audit := a |})
    | (Ok newLogger, a) =>
      (Ok tt, {| n_daemon := set_auditLogger d (Some newLogger); n_fs := n_fs n; n_audit := a |})
    end
  else (Ok tt, n).

(** [reloadConfig]; [loaded] is [config.Load(d.configPath)]. The settings handed to
    the credential backends at the end are the configuration's own. *)
Definition reloadConfig (loaded : result Config) (io : proxy_io) (n : node) : result unit * node :=
  match loaded with
  | Err e => (Err e, n)
  | Ok newCfg =>
    match reload_proxy newCfg io n with
    | (Err e, n) => (Err e, n)
    | (Ok _, n) =>
      match reload_audit newCfg n with
      | (Err e, n) => (Err e, n)
      | (Ok _, n) =>
        let d := set_cfg (n_daemon n) newCfg in
        let d := set_replay d ((λ c, UpdateSettings c (GetReplayCacheTTL newCfg) (GetReplayCacheMaxEntries newCfg))
                                 <$> d_replayCache d) in
        (Ok tt, set_daemon n d)
      end
    end
  end.

(** ** The configuration watcher *)

Definition configWatchDebounce : duration := 500 * Millisecond.
Definition kubernetesDataLink : string := "..data".

(** The operations of [fsnotify] that matter: write, create, chmod, rename. *)
Record fs_event := { ev_name : string; ev_relevant_op : bool }.

Inductive watch_event :=
  | WatchEvent (e : fs_event) (now : time)
  | WatchTimer (now : time)
  | WatchError.

(** One round of [configWatchLoop]: the deadline of the debounce timer, and
    whether the configuration is reloaded. *)
Definition watch_step (configPath : string) (deadline : option time) (ev : watch_event) : option time * bool :=
  match ev with
  | WatchEvent e now =>
    if negb (bool_decide (Base (ev_name e) = Base configPath))
       && negb (bool_decide (Base (ev_name e) = kubernetesDataLink)) then (deadline, false)
    else if negb (ev_relevant_op e) then (deadline, false)
    else (Some (Add now configWatchDebounce), false)
  | WatchTimer now =>
    match deadline with
    | Some t => if Before now t then (deadline, false) else (None, true)
    | None => (None, false)
    end
  | WatchError => (deadline, false)
  end.

(** The watcher, when there is one; [dir] is the directory it watches. *)
Definition startConfigWatcher (d : Daemon) (watcher : option string) (new : result unit) (add : string → result unit)
    : result unit * option string :=
  match watcher with
  | Some _ => (Ok tt, watcher)
  | None =>
    let dir := Dir (d_configPath d) in
    match wrap_err "create config watcher: %w" [] new with
    | Err e => (Err e, None)
    | Ok _ =>
      match wrap_err "watch config directory %s: %w" [FS dir] (add dir) with
      | Err e => (Err e, None)
      | Ok _ => (Ok tt, Some dir)
      end
    end
  end.

Definition stopConfigWatcher (watcher : option string) : option string :=
  match watcher with Some _ => None | None => watcher end.

(** ** Start-up *)

(** What the system answers about a path: [os.Stat] (its group, then its
    permissions), [os.Chown], [os.Chmod]. *)
Record path_io := {
  pi_stat_gid : result Z;
  pi_chown : result unit;
  pi_stat_perm : result Z;
  pi_chmod : result unit;
}.

Definition runtimeDirMode (d : Daemon) : Z :=
  if 0 <=? d_runtimeGID d then sharedRuntimeDirMode else defaultRuntimeDirMode.

Definition applyRuntimePathOwnership (d : Daemon) (p : path_io) : result unit :=
  if d_runtimeGID d <? 0 then Ok tt
  else
    pi_stat_gid p ≫= λ gid,
    if gid =? d_runtimeGID d then Ok tt else pi_chown p.

Definition applyRuntimeDirPermissions (d : Daemon) (p : path_io) : result unit :=
  applyRuntimePathOwnership d p ≫= λ _,
  pi_stat_perm p ≫= λ perm,
  if perm =? runtimeDirMode d then Ok tt else pi_chmod p.

(** [sweepStaleTempDirs]: the directories the pattern matches; a removal that
    fails is passed over. *)
Definition sweepStaleTempDirs (glob : string → result (list string)) (remove : string → bool)
    (dirs : gset string) : gset string :=
  match glob (PathJoin [os_TempDir; "claw-wrap-config-*"]) with
  | Err _ => dirs
  | Ok matches => foldl (λ dirs m, if remove m then dirs ∖ {[m]} else dirs) dirs matches
  end.

(** Each call of [Run] before the accept loop, in order. *)
Record startup_io := {
  su_load : result Config;
  su_secret : result bytes;
  su_write_secret : result unit;
  su_secret_path : path_io;
  su_mkdir : result unit;
  su_dir : path_io;
  su_remove_socket : option error;
  su_listen : result unit;
  su_chmod_socket : result unit;
  su_socket_path : path_io;
}.

(** [os.Remove] of the stale socket, which may be missing. *)
Definition remove_stale (r : option error) : result unit :=
  match r with
  | Some e => if bool_decide (e = ENOENT) then Ok tt else Err (Wrapf "remove stale socket: %w" [] e)
  | None => Ok tt
  end.

(** The audit logger is opened after the configuration is loaded; the proxy's
    failure to start is not an error. *)
Definition Run_startup (su : startup_io) (io : proxy_io) (n : node) : result unit * node :=
  let d := n_daemon n in
  match
    ValidateRuntimeDirEnv ≫= λ _,
    guard_err (d_runtimeGID d <? -1) (Errorf "runtime gid must be >= 0 when set" []) ≫= λ _,
    guard_err (negb (IsAllowedAuthFileMode (d_authFileMode d)))
      (Errorf "invalid auth file mode %04o" [FZ (d_authFileMode d)]) ≫= λ _,
    guard_err (negb (IsAllowedSocketFileMode (d_socketFileMode d)))
      (Errorf "invalid socket file mode %04o" [FZ (d_socketFileMode d)]) ≫= λ _,
    wrap_err "load config: %w" [] (su_load su)
  with
  | Err e => (Err e, n)
  | Ok cfg =>
    match AuditLog.New (GetAuditConfig (Some cfg)) (n_audit n) with
    | (Err e, a) =>
      (Err (Wrapf "init audit logger: %w" [] e), {| n_daemon := d; n_fs := n_fs n; n_audit := a |})
    | (Ok logger, a) =>
      let d := set_auditLogger d (Some logger) in
      let n := {| n_daemon := d; n_fs := n_fs n; n_audit := a |} in
      match
        wrap_err "generate HMAC secret: %w" [] (su_secret su) ≫= λ secret,
        wrap_err "write HMAC secret: %w" [] (su_write_secret su) ≫= λ _,
        wrap_err "chgrp auth file: %w" [] (applyRuntimePathOwnership d (su_secret_path su)) ≫= λ _,
        wrap_err "create runtime dir: %w" [] (su_mkdir su) ≫= λ _,
        wrap_err "chmod runtime dir: %w" [] (applyRuntimeDirPermissions d (su_dir su)) ≫= λ _,
        remove_stale (su_remove_socket su) ≫= λ _,
        wrap_err "listen: %w" [] (su_listen su) ≫= λ _,
        wrap_err "chmod socket: %w" [] (su_chmod_socket su) ≫= λ _,
        wrap_err "chgrp socket: %w" [] (applyRuntimePathOwnership d (su_socket_path su)) ≫= λ _, Ok secret
      with
      | Err e =>
        (* the deferred [d.auditLogger.Close()] *)
        (Err e, {| n_daemon := d; n_fs := n_fs n; n_audit := (Close logger a).2 |})
      | Ok secret =>
        let d := set_cfg d cfg in
        let d := {| d_socketPath := d_socketPath d; d_configPath := d_configPath d; d_allowedUID := d_allowedUID d;
                    d_runtimeGID := d_runtimeGID d; d_authFileMode := d_authFileMode d;
                    d_socketFileMode := d_socketFileMode d; d_allowedBinaries := d_allowedBinaries d;
                    d_version := d_version d; d_secret := secret; d_cfg := d_cfg d;
                    d_connCap := GetMaxConnections cfg; d_connUsed := 0;
                    d_replayCache := Some (NewReplayCache (GetReplayCacheTTL cfg) (GetReplayCacheMaxEntries cfg));
                    d_metrics := d_metrics d; d_httpProxy := d_httpProxy d; d_proxyAuthToken := d_proxyAuthToken d;
                    d_proxyAuthTokenPath := d_proxyAuthTokenPath d; d_auditLogger := d_auditLogger d |} in
        let '(_, n) := startHTTPProxy cfg io (set_daemon n d) in
        (Ok tt, n)
      end
    end
  end.
End daemon.
