(* ===== verification/Service.v ===== *)
(** Package [internal/daemon], [Run]: the life of a daemon after its start-up, in
    which connections, signals, changes of the configuration file and runs of
    tools take turns.

    The goroutines meet at their locks and channels; what they do between two of
    them is one event of this file. A handler takes a slot before it starts, reads
    the configuration when it starts, and decides later, on the configuration it
    read and the replay cache and audit logger of that moment. *)

From S2P Require Import Prelude GoStrings Json GoTime GoPath Paths Protocol Auth Replay Regexp ConfigTypes ArgsPolicy.
From S2P Require Import Interpolate World Config Settings Env Runtime AuditLog Executor Sources HttpProxy SecretFile Daemon.
Local Open Scope Z_scope.

Section service.
Context `{RE : Regexp} `{UnicodeCase} `{DurationParser} `{OS} `{Host} `{MapRange} `{Hash} `{Peers}.
Context `{Codec ProxyRequest} `{Codec AdminRequest}.
Context (resolve : string → CredentialDef → result string).

(** The goroutine of a connection. *)
Inductive handler :=
  | HandlerNew (c : conn)
  | HandlerReading (c : conn) (cfg : Config)
  | HandlerRunning (e : ToolExecutor)
  | HandlerDone.

Record service := {
  sv_node : node;
  sv_handlers : list handler;
  (** the directory watched, and the deadline of the debounce timer *)
  sv_watcher : option string;
  sv_debounce : option time;
  (** the signal goroutine reads; the listener is open *)
  sv_signals : bool;
  sv_listening : bool;
  (** the logger of [defer d.auditLogger.Close()]: the receiver is evaluated
      when the call is deferred *)
  sv_deferred : option Logger;
  sv_exited : bool;
}.

Definition sv_daemon (s : service) : Daemon := n_daemon (sv_node s).

Definition with_node (s : service) (n : node) : service :=
  {| sv_node := n; sv_handlers := sv_handlers s; sv_watcher := sv_watcher s; sv_debounce := sv_debounce s;
     sv_signals := sv_signals s; sv_listening := sv_listening s; sv_deferred := sv_deferred s;
     sv_exited := sv_exited s |}.
Definition with_handlers (s : service) (d : Daemon) (l : list handler) : service :=
  {| sv_node := set_daemon (sv_node s) d; sv_handlers := l; sv_watcher := sv_watcher s;
     sv_debounce := sv_debounce s; sv_signals := sv_signals s; sv_listening := sv_listening s;
     sv_deferred := sv_deferred s; sv_exited := sv_exited s |}.

(** [Run] up to its loops: the configuration watcher may fail to start. *)
Definition start_service (su : startup_io) (io : proxy_io) (watch_new : result unit) (watch_add : string → result unit)
    (n : node) : result service :=
  match Run_startup su io n with
  | (Err e, _) => Err e
  | (Ok _, n) =>
    let '(_, watcher) := startConfigWatcher (n_daemon n) None watch_new watch_add in
    Ok {| sv_node := n; sv_handlers := []; sv_watcher := watcher; sv_debounce := None; sv_signals := true;
          sv_listening := true; sv_deferred := d_auditLogger (n_daemon n); sv_exited := false |}
  end.

Inductive service_event :=
  (** [Accept] returns a connection; it fails because the listener is closed *)
  | EvConnect (c : conn)
  | EvAcceptClosed
  (** the handler at an index: starts and reads the configuration; decides; logs
      the entry of its run; returns *)
  | EvBegin (i : nat)
  | EvHandle (i : nat) (t1 t2 : time)
  | EvLog (i : nat) (entry : Entry)
  | EvFinish (i : nat)
  (** SIGHUP; SIGINT or SIGTERM *)
  | EvHangup (loaded : result Config) (io : proxy_io)
  | EvTerminate (io : proxy_io)
  (** the watcher's loop; what a reload would find *)
  | EvWatch (w : watch_event) (loaded : result Config) (io : proxy_io).

Inductive service_output :=
  | OutBusy (c : conn) (b : bytes)
  | OutAnswers (answers : list answer)
  | OutRun (e : ToolExecutor)
  | OutLogged (err : option error)
  | OutReload (r : result unit).

(** The accept loop. *)
Definition step_connect (s : service) (c : conn) : list service_output * service :=
  match acquireConnSlot (sv_daemon s) with
  | (false, d) =>
    ([OutBusy c (sendError "server busy")], with_handlers s (inc_metric "rate_limited" d) (sv_handlers s))
  | (true, d) => ([], with_handlers s d (sv_handlers s ++ [HandlerNew c]))
  end.

(** [Run] returns; the deferred call closes the logger. *)
Definition step_exit (s : service) : service :=
  let n := sv_node s in
  let a := match sv_deferred s with Some l => (Close l (n_audit n)).2 | None => n_audit n end in
  {| sv_node := {| n_daemon := n_daemon n; n_fs := n_fs n; n_audit := a |}; sv_handlers := sv_handlers s;
     sv_watcher := sv_watcher s; sv_debounce := sv_debounce s; sv_signals := sv_signals s;
     sv_listening := sv_listening s; sv_deferred := sv_deferred s; sv_exited := true |}.

(** The steps of a handler's goroutine. *)
Definition step_begin (s : service) (i : nat) : option (list service_output * service) :=
  match sv_handlers s !! i, d_cfg (sv_daemon s) with
  | Some (HandlerNew c), Some cfg =>
    Some ([], with_handlers s (sv_daemon s) (<[i := HandlerReading c cfg]> (sv_handlers s)))
  | _, _ => None
  end.

Definition step_handle (s : service) (i : nat) (t1 t2 : time) : option (list service_output * service) :=
  match sv_handlers s !! i with
  | Some (HandlerReading c cfg) =>
    match handleConnection resolve (sv_daemon s) cfg c t1 t2 with
    | (answers, Some e, d) =>
      Some ([OutAnswers answers; OutRun e], with_handlers s d (<[i := HandlerRunning e]> (sv_handlers s)))
    | (answers, None, d) => Some ([OutAnswers answers], with_handlers s d (<[i := HandlerDone]> (sv_handlers s)))
    end
  | _ => None
  end.

Definition step_log (s : service) (i : nat) (entry : Entry) : option (list service_output * service) :=
  match sv_handlers s !! i with
  | Some (HandlerRunning e) =>
    match e_auditLogger e with
    | None => None
    | Some l =>
      let n := sv_node s in
      let '(err, a) := Log l entry (n_audit n) in
      Some ([OutLogged err], with_node s {| n_daemon := n_daemon n; n_fs := n_fs n; n_audit := a |})
    end
  | _ => None
  end.

Definition step_finish (s : service) (i : nat) : option (list service_output * service) :=
  match sv_handlers s !! i with
  | Some (HandlerRunning _ | HandlerDone) =>
    Some ([], with_handlers s (releaseConnSlot (sv_daemon s)) (delete i (sv_handlers s)))
  | _ => None
  end.

Definition step_reload (s : service) (loaded : result Config) (io : proxy_io) : list service_output * service :=
  let '(r, n) := reloadConfig loaded io (sv_node s) in ([OutReload r], with_node s n).

(** The signal goroutine's last round. *)
Definition step_terminate (s : service) (io : proxy_io) : service :=
  let watcher := stopConfigWatcher (sv_watcher s) in
  let '(_, d) := stopHTTPProxy io (sv_daemon s) in
  {| sv_node := set_daemon (sv_node s) d; sv_handlers := sv_handlers s; sv_watcher := watcher;
     sv_debounce := sv_debounce s; sv_signals := false; sv_listening := false; sv_deferred := sv_deferred s;
     sv_exited := sv_exited s |}.

Definition step_watch (s : service) (w : watch_event) (loaded : result Config) (io : proxy_io)
    : list service_output * service :=
  let '(deadline, reload) := watch_step (d_configPath (sv_daemon s)) (sv_debounce s) w in
  let s :=
    {| sv_node := sv_node s; sv_handlers := sv_handlers s; sv_watcher := sv_watcher s; sv_debounce := deadline;
       sv_signals := sv_signals s; sv_listening := sv_listening s; sv_deferred := sv_deferred s;
       sv_exited := sv_exited s |} in
  if reload then step_reload s loaded io else ([], s).

(** One event, when it can happen. *)
Definition service_step (s : service) (ev : service_event) : option (list service_output * service) :=
  if sv_exited s then None
  else
    match ev with
    | EvConnect c => if sv_listening s then Some (step_connect s c) else None
    | EvAcceptClosed => if sv_listening s then None else Some ([], step_exit s)
    | EvBegin i => step_begin s i
    | EvHandle i t1 t2 => step_handle s i t1 t2
    | EvLog i entry => step_log s i entry
    | EvFinish i => step_finish s i
    | EvHangup loaded io => if sv_signals s then Some (step_reload s loaded io) else None
    | EvTerminate io => if sv_signals s then Some ([], step_terminate s io) else None
    | EvWatch w loaded io => match sv_watcher s with Some _ => Some (step_watch s w loaded io) | None => None end
    end.

Fixpoint life (s : service) (evs : list service_event) : option (list service_output * service) :=
  match evs with
  | [] => Some ([], s)
  | ev :: evs =>
    '(out, s) ← service_step s ev;
    '(outs, s) ← life s evs;
    Some (out ++ outs, s)
  end.
End service.
