(* ===== verification/CaManager.v ===== *)
(** Package [internal/httpproxy], [ca.go] and the two functions of [proxy.go] that
    use it: the certificate authority of the proxy, kept in two files, generated
    and rotated when the program manages it itself, watched and reloaded when
    something else does.

    Certificates and keys are an interface ([X509]), with what [crypto/tls],
    [crypto/x509] and [encoding/pem] document of a certificate just made. The files
    are those of [SecretFile.fs]: what a path leads to. The clock is an argument,
    [AddDate] counts days of 24 hours (UTC). *)

From S2P Require Import Prelude GoStrings GoTime GoPath Paths Regexp ConfigTypes SecretFile Daemon.
Local Open Scope Z_scope.

Definition DefaultCAValidityDays : Z := 365.
Definition DefaultCAOrganization : string := "claw-wrap".
Definition CAKeyBits : Z := 4096.
Definition RotationBuffer : Z := 30.

(** What the program reads of a certificate. *)
Record x509_cert := {
  xc_IsCA : bool;
  xc_CertSign : bool;
  xc_NotBefore : time;
  xc_NotAfter : time;
}.

(** The fields of the template that are not constant. *)
Record cert_template := {
  ct_SerialNumber : Z;
  ct_Organization : list string;
  ct_CommonName : string;
  ct_NotBefore : time;
  ct_NotAfter : time;
}.

(** Certificates carry whole seconds. *)
Definition whole_seconds (t : time) : time := t / Second * Second.

Class X509 := {
  (** [*tls.Certificate] and its chain; [*rsa.PrivateKey] *)
  certificate : Type;
  chain : certificate → list bytes;
  rsa_key : Type;
  (** [tls.X509KeyPair], [x509.ParseCertificate], the latter and [x509.CreateCertificate]
      for a template that signs itself, [pem.EncodeToMemory], [x509.MarshalPKCS1PrivateKey] *)
  X509KeyPair : bytes → bytes → result certificate;
  ParseCertificate : bytes → result x509_cert;
  CreateCertificate : cert_template → rsa_key → result bytes;
  EncodeToMemory : string → bytes → bytes;
  MarshalPKCS1PrivateKey : rsa_key → bytes;
  created_parses t k der : CreateCertificate t k = Ok der →
    ParseCertificate der = Ok {| xc_IsCA := true; xc_CertSign := true; xc_NotBefore := whole_seconds (ct_NotBefore t);
                                 xc_NotAfter := whole_seconds (ct_NotAfter t) |};
  created_pair t k der : CreateCertificate t k = Ok der →
    ∃ c, X509KeyPair (EncodeToMemory "CERTIFICATE" der) (EncodeToMemory "RSA PRIVATE KEY" (MarshalPKCS1PrivateKey k)) = Ok c;
  pair_chain der key c : X509KeyPair (EncodeToMemory "CERTIFICATE" der) key = Ok c → chain c = [der];
}.

(** [t.AddDate(0, 0, days)]. *)
Definition AddDays (t : time) (days : Z) : time := t + days * (24 * 60 * Minute).

(** ** Files *)

Definition ErrNotExist : error := Sentinel "os.ErrNotExist".

Definition new_file (mode uid : Z) : fnode :=
  {| nd_symlink := false; nd_regular := true; nd_mode := mode; nd_uid := uid; nd_data := [] |}.
Definition truncate (n : fnode) : fnode :=
  {| nd_symlink := nd_symlink n; nd_regular := nd_regular n; nd_mode := nd_mode n; nd_uid := nd_uid n; nd_data := [] |}.

Definition fs_stat (f : fs) (path : string) : result fnode * fs :=
  match fs_refused f with
  | (true, f) => (Err fs_error, f)
  | (false, f) => (match fs_nodes f !! path with Some n => Ok n | None => Err ErrNotExist end, f)
  end.

Definition fs_read (f : fs) (path : string) : result bytes * fs :=
  let '(r, f) := fs_stat f path in (r ≫= λ n, Ok (nd_data n), f).

(** [os.WriteFile(path, data, mode)]: opened and truncated, written, closed; only
    a new file gets the mode, less the umask. *)
Definition fs_write_file (f : fs) (uid umask : Z) (path : string) (data : bytes) (mode : Z) : option error * fs :=
  match fs_refused f with
  | (true, f) => (Some fs_error, f)
  | (false, f) =>
    let n := match fs_nodes f !! path with
             | Some n => truncate n
             | None => new_file (Z.land mode (Z.lnot umask)) uid
             end in
    match fs_update (set_nodes f (<[path := n]> (fs_nodes f))) path (add_data data) with
    | (Some e, f) => let '(_, f) := fs_call f in (Some e, f)
    | (None, f) => fs_call f
    end
  end.

Section manager.
Context `{OS} `{X509}.

Record CAManager := {
  m_certPath : string;
  m_keyPath : string;
  m_config : CAConfig;
  m_external : bool;
  m_cert : option certificate;
  (** the directory that is watched; [watcherInit] *)
  m_watcher : option string;
}.

Definition set_cert (m : CAManager) (c : option certificate) : CAManager :=
  {| m_certPath := m_certPath m; m_keyPath := m_keyPath m; m_config := m_config m; m_external := m_external m;
     m_cert := c; m_watcher := m_watcher m |}.
Definition set_watcher (m : CAManager) (w : option string) : CAManager :=
  {| m_certPath := m_certPath m; m_keyPath := m_keyPath m; m_config := m_config m; m_external := m_external m;
     m_cert := m_cert m; m_watcher := w |}.

Definition NewCAManager (cfg : CAConfig) : CAManager :=
  let path := ca_Path cfg in
  let path := if bool_decide (path = "") then DefaultCAPath else path in
  let certFile := ca_CertFile cfg in
  let certFile := if bool_decide (certFile = "") then "ca.crt" else certFile in
  let keyFile := ca_KeyFile cfg in
  let keyFile := if bool_decide (keyFile = "") then "ca.key" else keyFile in
  {| m_certPath := PathJoin [path; certFile]; m_keyPath := PathJoin [path; keyFile]; m_config := cfg;
     m_external := ca_External cfg; m_cert := None; m_watcher := None |}.

Definition Certificate (m : CAManager) : option certificate := m_cert m.
Definition CertPath (m : CAManager) : string := m_certPath m.
Definition External (m : CAManager) : bool := m_external m.

(** ** Checks *)

Definition validateCA (now : time) (cert : certificate) : result unit :=
  match chain cert with
  | [] => Err (Errorf "certificate chain is empty" [])
  | der :: _ =>
    wrap_err "parse certificate: %w" [] (ParseCertificate der) ≫= λ x,
    guard_err (negb (xc_IsCA x)) (Errorf "certificate is not a CA (IsCA=false)" []) ≫= λ _,
    guard_err (negb (xc_CertSign x)) (Errorf "certificate lacks KeyUsageCertSign" []) ≫= λ _,
    guard_err (Before now (xc_NotBefore x))
      (Errorf "certificate not yet valid (NotBefore: %s)" [FS (FormatRFC3339 (xc_NotBefore x))]) ≫= λ _,
    guard_err (After now (xc_NotAfter x)) (Errorf "certificate expired on %s" [FS (FormatRFC3339 (xc_NotAfter x))])
  end.

Definition needsRotation (now : time) (cert : certificate) : bool :=
  match chain cert with
  | [] => true
  | der :: _ =>
    match ParseCertificate der with
    | Err _ => true
    | Ok x => Before (xc_NotAfter x) (AddDays now RotationBuffer)
    end
  end.

Definition NeedsRotation (m : CAManager) (now : time) : bool :=
  match m_cert m with None => true | Some cert => needsRotation now cert end.

(** ** Loading *)

(** [tls.LoadX509KeyPair]. *)
Definition LoadX509KeyPair (f : fs) (certFile keyFile : string) : result certificate * fs :=
  match fs_read f certFile with
  | (Err e, f) => (Err e, f)
  | (Ok certPEM, f) =>
    match fs_read f keyFile with
    | (Err e, f) => (Err e, f)
    | (Ok keyPEM, f) => (X509KeyPair certPEM keyPEM, f)
    end
  end.

Definition loadCA (m : CAManager) (f : fs) : result certificate * fs :=
  if m_external m then LoadX509KeyPair f (m_certPath m) (m_keyPath m)
  else
    match fs_stat f (m_keyPath m) with
    | (Err e, f) => (Err e, f)
    | (Ok info, f) =>
      if nd_mode info >? 0x180 then
        (Err (Errorf "CA key has insecure permissions %04o (want 0600 or stricter)" [FZ (nd_mode info)]), f)
      else LoadX509KeyPair f (m_certPath m) (m_keyPath m)
    end.

(** ** Generation *)

(** The random numbers of a generation, the user and the umask. *)
Record ca_io := {
  ci_key : result rsa_key;
  ci_serial : result Z;
  ci_uid : Z;
  ci_umask : Z;
}.

Definition validity_days (m : CAManager) : Z :=
  if ca_ValidityDays (m_config m) <=? 0 then DefaultCAValidityDays else ca_ValidityDays (m_config m).
Definition organization (m : CAManager) : string :=
  if bool_decide (ca_Organization (m_config m) = "") then DefaultCAOrganization else ca_Organization (m_config m).

Definition ca_template (m : CAManager) (serial : Z) (now : time) : cert_template :=
  {| ct_SerialNumber := serial; ct_Organization := [organization m]; ct_CommonName := organization m +:+ " CA";
     ct_NotBefore := now; ct_NotAfter := AddDays now (validity_days m) |}.

(** The two files, the key's mode, and what is undone when a step fails. *)
Definition save_ca (m : CAManager) (io : ca_io) (certPEM keyPEM : bytes) (f : fs) : result unit * fs :=
  match fs_write_file f (ci_uid io) (ci_umask io) (m_certPath m) certPEM 0x1A4 with
  | (Some e, f) => (Err (Wrapf "write certificate: %w" [] e), f)
  | (None, f) =>
    match fs_write_file f (ci_uid io) (ci_umask io) (m_keyPath m) keyPEM 0x180 with
    | (Some e, f) => (Err (Wrapf "write key: %w" [] e), fs_remove f (m_certPath m))
    | (None, f) =>
      match fs_update f (m_keyPath m) (set_mode 0x180) with
      | (Some e, f) => (Err (Wrapf "chmod key: %w" [] e), fs_remove (fs_remove f (m_certPath m)) (m_keyPath m))
      | (None, f) => (Ok tt, f)
      end
    end
  end.

(** The pair that was written is read back and served without a check; nobody else
    writes the two files in between. *)
Definition generateAndSaveCA (m : CAManager) (io : ca_io) (now : time) (f : fs) : result certificate * CAManager * fs :=
  match fs_call f with
  | (Some e, f) => (Err (Wrapf "create CA directory: %w" [] e), m, f)
  | (None, f) =>
    match
      wrap_err "generate RSA key: %w" [] (ci_key io) ≫= λ key,
      wrap_err "generate serial number: %w" [] (ci_serial io) ≫= λ serial,
      wrap_err "create certificate: %w" [] (CreateCertificate (ca_template m serial now) key) ≫= λ der, Ok (key, der)
    with
    | Err e => (Err e, m, f)
    | Ok (key, der) =>
      match save_ca m io (EncodeToMemory "CERTIFICATE" der)
              (EncodeToMemory "RSA PRIVATE KEY" (MarshalPKCS1PrivateKey key)) f with
      | (Err e, f) => (Err e, m, f)
      | (Ok _, f) =>
        match LoadX509KeyPair f (m_certPath m) (m_keyPath m) with
        | (Err e, f) => (Err (Wrapf "load generated CA: %w" [] e), m, f)
        | (Ok cert, f) => (Ok cert, set_cert m (Some cert), f)
        end
      end
    end
  end.

(** [sanitizePath]: control characters are replaced in what is logged. *)
Definition sanitizePath (path : string) : string :=
  string_of_runes ((λ r, if (r <? 32) || (r =? 127) then 63 else r) <$> runes path).

(** The time is read when the certificate is checked ([t1]), when its end is
    compared ([t2]) and when a new one is made ([t3]). *)
Definition EnsureCA (m : CAManager) (io : ca_io) (t1 t2 t3 : time) (f : fs) : result certificate * CAManager * fs :=
  match loadCA m f with
  | (Ok cert, f) =>
    match validateCA t1 cert with
    | Err e => (Err (Wrapf "CA validation failed: %w" [] e), m, f)
    | Ok _ =>
      if negb (m_external m) && needsRotation t2 cert then generateAndSaveCA m io t3 f
      else (Ok cert, set_cert m (Some cert), f)
    end
  | (Err e, f) =>
    if m_external m then
      (Err (Wrapf "external CA not found at %s: %w (hint: ensure cert-manager secret is mounted)"
              [FS (sanitizePath (m_certPath m))] e), m, f)
    else generateAndSaveCA m io t3 f
  end.

(** ** The watcher *)

(** [new] and [add] are [fsnotify.NewWatcher] and [watcher.Add]. *)
Definition StartWatcher (m : CAManager) (new : result unit) (add : string → result unit) : result unit * CAManager :=
  if negb (m_external m) then (Ok tt, m)
  else
    match m_watcher m with
    | Some _ => (Ok tt, m)
    | None =>
      let dir := Dir (m_certPath m) in
      match wrap_err "create watcher: %w" [] new ≫= λ _, wrap_err "watch directory %s: %w" [FS (sanitizePath dir)] (add dir) with
      | Err e => (Err e, m)
      | Ok _ => (Ok tt, set_watcher m (Some dir))
      end
    end.

Definition StopWatcher (m : CAManager) : CAManager :=
  match m_watcher m with None => m | Some _ => set_watcher m None end.

Definition reloadCA (m : CAManager) (now : time) (f : fs) : result unit * CAManager * fs :=
  match loadCA m f with
  | (Err e, f) => (Err e, m, f)
  | (Ok cert, f) =>
    match validateCA now cert with
    | Err e => (Err (Wrapf "validation failed: %w" [] e), m, f)
    | Ok _ => (Ok tt, set_cert m (Some cert), f)
    end
  end.

(** One round of [watchLoop]; [ev_relevant_op] is a write, a creation or a change
    of mode. *)
Definition watchLoop_step (m : CAManager) (e : fs_event) (now : time) (f : fs) : CAManager * fs :=
  let eventFile := Base (ev_name e) in
  let isRelevantFile := bool_decide (eventFile = Base (m_certPath m)) || bool_decide (eventFile = Base (m_keyPath m)) in
  let isK8sSymlink := bool_decide (eventFile = "..data") in
  if negb isRelevantFile && negb isK8sSymlink then (m, f)
  else if negb (ev_relevant_op e) then (m, f)
  else let '(_, m, f) := reloadCA m now f in (m, f).

(** ** The proxy's use of it ([proxy.go]) *)

(** [setupMITM]: also the result that [Proxy.Start] awaits. *)
Definition setupMITM (m : CAManager) (io : ca_io) (t1 t2 t3 : time) (f : fs) : result unit * CAManager * fs :=
  let '(r, m, f) := EnsureCA m io t1 t2 t3 f in (wrap_err "ensure CA: %w" [] r ≫= λ _, Ok tt, m, f).

(** The configuration a TLS connection is given: the certificate it is signed with. *)
Definition makeLazyTLSConfig (m : CAManager) : result certificate :=
  match Certificate m with
  | None => Err (Errorf "CA certificate not loaded" [])
  | Some cert => Ok cert
  end.
End manager.
