(* ===== verification/Cli.v ===== *)
(** The command line, [cmd/claw-wrap/main.go] and [sudo_unix.go]: which mode the
    program runs in, the daemon's flags, the verdict of [check], and the
    installation of the tools' symbolic links.

    The installation works on a directory tree given by what each path names;
    [filepath.EvalSymlinks] over it is an interface. What is printed is left out but
    for the outcome it reports. *)

From S2P Require Import Prelude GoStrings GoPath Paths Protocol Regexp ConfigTypes Config Runtime Daemon.
Local Open Scope Z_scope.

(** ** Dispatch *)

Inductive action :=
  | RunAsTool (toolName : string) (args : list string)
  | RunDaemon | RunList | RunCheck | RunInstall | RunKeychainSetup | PrintVersion
  | PrintHelp (exit_code : Z)
  | UnknownCommand (command : string).

(** [main]; [argv] is [os.Args], [keychain] whether the platform has one. *)
Definition main (keychain : bool) (argv : list string) : action :=
  let execName := Base (hd "" argv) in
  if negb (bool_decide (execName = "claw-wrap")) then RunAsTool execName (tl argv)
  else
    match argv !! 1%nat with
    | None => PrintHelp 0
    | Some cmd =>
      if bool_decide (cmd = "daemon") then RunDaemon
      else if bool_decide (cmd = "list") then RunList
      else if bool_decide (cmd = "check") then RunCheck
      else if bool_decide (cmd = "install") then RunInstall
      else if bool_decide (cmd = "keychain-setup") then (if keychain then RunKeychainSetup else UnknownCommand cmd)
      else if bool_decide (cmd ∈ ["version"; "-v"; "--version"]) then PrintVersion
      else if bool_decide (cmd ∈ ["help"; "-h"; "--help"]) then PrintHelp 0
      else UnknownCommand cmd
    end.

(** [^[A-Za-z0-9._-]+$], as in the validation of the configuration. *)
Definition safeToolNameRegex (s : string) : bool :=
  match runes s with
  | [] => false
  | r => forallb (λ d, is_alnum d || (d =? 46) || (d =? 95) || (d =? 45)) r
  end.

(** ** [daemon] *)

(** [strconv.Atoi] on a 64-bit system. *)
Definition Atoi (s : string) : option Z := ParseInt64 s.
Definition strconv_error : error := Sentinel "strconv".

(** The options the flags give; [None] is the help. The loop takes a flag with the
    argument after it, and passes over what it does not know. *)
Section flags.
Context `{RE : Regexp}.

Fixpoint daemon_flags (args : list string) (opts : list DaemonOption) : result (option (list DaemonOption)) :=
  match args with
  | [] => Ok (Some opts)
  | arg :: rest =>
    let skip := if bool_decide (arg ∈ ["-h"; "--help"]) then Ok None else daemon_flags rest opts in
    match rest with
    | [] => skip
    | value :: rest' =>
      if bool_decide (arg = "--socket") then daemon_flags rest' (opts ++ [WithSocketPath value])
      else if bool_decide (arg = "--config") then daemon_flags rest' (opts ++ [WithConfigPath value])
      else if bool_decide (arg = "--uid") then
        match ParseUint value 10 32 with
        | None => Err (Wrapf "invalid --uid value %q: %w" [FS value] strconv_error)
        | Some uid => daemon_flags rest' (opts ++ [WithAllowedUID uid])
        end
      else if bool_decide (arg = "--runtime-gid") then
        match Atoi value with
        | Some gid =>
          if gid <? 0 then Err (Errorf "invalid --runtime-gid value %q (must be >= 0)" [FS value])
          else daemon_flags rest' (opts ++ [WithRuntimeGID gid])
        | None => Err (Errorf "invalid --runtime-gid value %q (must be >= 0)" [FS value])
        end
      else if bool_decide (arg = "--auth-mode") then
        match ParseAuthFileMode value with
        | Err e => Err (Wrapf "invalid --auth-mode: %w" [] e)
        | Ok mode => daemon_flags rest' (opts ++ [WithAuthFileMode mode])
        end
      else if bool_decide (arg = "--socket-mode") then
        match ParseSocketFileMode value with
        | Err e => Err (Wrapf "invalid --socket-mode: %w" [] e)
        | Ok mode => daemon_flags rest' (opts ++ [WithSocketFileMode mode])
        end
      else skip
    end
  end.

(** [runDaemon] up to [d.Run()]: the daemon that is run, if one is. *)
Definition runDaemon `{OS} `{Peers} (version : string) (argv : list string) (exe : result string) (uid : Z)
    : result (option Daemon) :=
  match daemon_flags (drop 2 argv) [] with
  | Err e => Err e
  | Ok None => Ok None
  | Ok (Some opts) => Ok (Some (daemon_New exe argv uid (opts ++ [WithVersion version])))
  end.
End flags.

(** ** [check] and [list] *)

Definition warnVersionMismatch `{OS} (version daemonVersion : string) : option string :=
  if negb (bool_decide (daemonVersion = "")) && negb (bool_decide (daemonVersion = version)) then Some RestartHint
  else None.

(** The verdict of [runCheck] once the daemon has answered. *)
Definition runCheck (resp : result AdminCheckResponse) : result unit :=
  match resp with
  | Err e => Err e
  | Ok resp =>
    let allOk := forallb (λ p : string * CredentialInfo, bool_decide (ci_status p.2 = "ok")) (map_to_list (ac_credentials resp)) in
    guard_err (negb allOk) (Errorf "some credentials failed" [])
  end.

Definition runList (resp : result AdminListResponse) : result (gmap string ToolInfo) := 
  match resp with Err e => Err e | Ok resp => Ok (al_tools resp) end.

(** ** [install] *)

Inductive entry := EFile (data : bytes) | EDir | ELink (target : string).

#[global] Instance entry_eq_dec : EqDecision entry.
Proof. unfold EqDecision. intros x y. unfold Decision. decide equality; apply decide; apply _. Defined.

Record ifs := { if_entries : gmap string entry; if_faults : list bool }.

Definition if_set (f : ifs) (m : gmap string entry) : ifs := {| if_entries := m; if_faults := if_faults f |}.
Definition if_refused (f : ifs) : bool * ifs :=
  match if_faults f with
  | [] => (false, f)
  | b :: bs => (b, {| if_entries := if_entries f; if_faults := bs |})
  end.

(** [filepath.EvalSymlinks] over a tree, [filepath.Abs], [os.Executable],
    [os.Getuid], [exec.LookPath]. *)
Class Install := {
  evalSymlinks : gmap string entry → string → result string;
  abs_path : string → result string;
  os_Executable : result string;
  os_uid : Z;
  look_path : string → result string;
}.

Definition if_error : error := Sentinel "os".
Definition if_not_exist : error := Sentinel "os.ErrNotExist".

Section install.
Context `{RE : Regexp} `{OSi : OS} `{IN : Install}.

Definition os_Lstat (f : ifs) (path : string) : result entry * ifs :=
  match if_refused f with
  | (true, f) => (Err if_error, f)
  | (false, f) => (match if_entries f !! path with Some e => Ok e | None => Err if_not_exist end, f)
  end.
Definition os_Stat (f : ifs) (path : string) : result entry * ifs :=
  match if_refused f with
  | (true, f) => (Err if_error, f)
  | (false, f) =>
    (match evalSymlinks (if_entries f) path with
     | Ok q => match if_entries f !! q with Some e => Ok e | None => Err if_not_exist end
     | Err _ => Err if_not_exist
     end, f)
  end.
Definition os_Readlink (f : ifs) (path : string) : result string * ifs :=
  match if_refused f with
  | (true, f) => (Err if_error, f)
  | (false, f) => (match if_entries f !! path with Some (ELink t) => Ok t | _ => Err if_error end, f)
  end.
Definition os_Remove (f : ifs) (path : string) : option error * ifs :=
  match if_refused f with
  | (true, f) => (Some if_error, f)
  | (false, f) =>
    match if_entries f !! path with
    | None => (Some if_not_exist, f)
    | Some _ => (None, if_set f (delete path (if_entries f)))
    end
  end.
Definition os_Symlink (f : ifs) (target path : string) : option error * ifs :=
  match if_refused f with
  | (true, f) => (Some if_error, f)
  | (false, f) =>
    match if_entries f !! path with
    | Some _ => (Some if_error, f)
    | None => (None, if_set f (<[path := ELink target]> (if_entries f)))
    end
  end.

(** What a link's target means from where the link is. *)
Definition link_target (path target : string) : string :=
  if IsAbs target then target else PathJoin [Dir path; target].

(** The file [os.Create] opens: a link is followed, also one to nothing. *)
Definition created_path (m : gmap string entry) (path : string) : string :=
  match evalSymlinks m path with
  | Ok q => q
  | Err _ => match m !! path with Some (ELink t) => link_target path t | _ => path end
  end.

(** [os.Create]: the file is made, or truncated. *)
Definition os_Create (f : ifs) (path : string) : option error * ifs :=
  match if_refused f with
  | (true, f) => (Some if_error, f)
  | (false, f) =>
    let q := created_path (if_entries f) path in
    match if_entries f !! q with
    | Some EDir => (Some if_error, f)
    | _ => (None, if_set f (<[q := EFile []]> (if_entries f)))
    end
  end.

Definition removeInstallTarget (path : string) (info : entry) (f : ifs) : option error * ifs :=
  match info with
  | EDir => (Some (Errorf "%s exists and is a directory (will not remove)" [FS path]), f)
  | _ => os_Remove f path
  end.

Definition canWriteDir (dir : string) (f : ifs) : bool * bool * ifs :=
  match os_Stat f dir with
  | (Ok EDir, f) =>
    let testFile := PathJoin [dir; ".claw-wrap-test"] in
    match os_Create f testFile with
    | (Some _, f) => (false, true, f)
    | (None, f) => (true, true, (os_Remove f testFile).2)
    end
  | (_, f) => (false, false, f)
  end.

Definition normalizeInstallPath (f : ifs) (path : string) : string :=
  let path := match evalSymlinks (if_entries f) path with Ok resolved => resolved | Err _ => path end in
  let path := match abs_path path with Ok abs => abs | Err _ => path end in
  Clean path.

Definition symlinkPointsTo (linkPath targetPath : string) (f : ifs) : result bool * ifs :=
  match os_Readlink f linkPath with
  | (Err e, f) => (Err e, f)
  | (Ok actualTarget, f) =>
    (Ok (bool_decide (normalizeInstallPath f (link_target linkPath actualTarget) = normalizeInstallPath f targetPath)), f)
  end.

Definition selfExePath : result string :=
  wrap_err "detect executable path: %w" [] os_Executable ≫= λ exe,
  wrap_err "resolve absolute path: %w" [] (abs_path exe) ≫= λ abs, Ok (Clean abs).

(** What is reported of a tool. *)
Inductive status := Created | Replaced | Unchanged | Conflict | Refused.

(** One round of the loop over the tools. *)
Definition install_tool (clawWrapPath installDir : string) (force : bool) (toolName : string) (f : ifs) : status * ifs :=
  if negb (safeToolNameRegex toolName) then (Refused, f)
  else
    let linkPath := PathJoin [installDir; toolName] in
    let link (ok : status) (f : ifs) :=
      match os_Symlink f clawWrapPath linkPath with (Some _, f) => (Refused, f) | (None, f) => (ok, f) end in
    let replace (info : entry) (f : ifs) :=
      if negb force then (Conflict, f)
      else
        match removeInstallTarget linkPath info f with
        | (Some _, f) => (Refused, f)
        | (None, f) => link Replaced f
        end in
    match os_Lstat f linkPath with
    | (Ok info, f) =>
      match info with
      | ELink _ =>
        match symlinkPointsTo linkPath clawWrapPath f with
        | (Err _, f) => (Refused, f)
        | (Ok true, f) => (Unchanged, f)
        | (Ok false, f) => replace info f
        end
      | _ => replace info f
      end
    | (Err e, f) => if bool_decide (e = if_not_exist) then link Created f else (Refused, f)
    end.

Fixpoint install_all (clawWrapPath installDir : string) (force : bool) (names : list string) (f : ifs)
    : list (string * status) * ifs :=
  match names with
  | [] => ([], f)
  | name :: names =>
    let '(s, f) := install_tool clawWrapPath installDir force name f in
    let '(l, f) := install_all clawWrapPath installDir force names f in ((name, s) :: l, f)
  end.

Definition count (p : status → bool) (l : list (string * status)) : Z := Z.of_nat (length (filter (λ x, p x.2 = true) l)).
Definition is_failed (s : status) : bool := match s with Conflict | Refused => true | _ => false end.
Definition is_conflict (s : status) : bool := match s with Conflict => true | _ => false end.

(** The error of an installation in which some tools failed. *)
Definition install_verdict (force : bool) (l : list (string * status)) : result unit :=
  let failed := count is_failed l in
  let conflicts := count is_conflict l in
  let total := Z.of_nat (length l) in
  if failed >? 0 then
    if (conflicts >? 0) && negb force then
      Err (Errorf "%d/%d symlinks failed (%d conflicts) — re-run with --force to replace existing targets"
             [FZ failed; FZ total; FZ conflicts])
    else Err (Errorf "%d/%d symlinks failed" [FZ failed; FZ total])
  else Ok tt.

(** The flags: directory, configuration, force. *)
Fixpoint install_flags (args : list string) (acc : string * string * bool) : string * string * bool :=
  match args with
  | [] => acc
  | arg :: rest =>
    let '(installDir, configPath, force) := acc in
    match rest with
    | value :: rest' =>
      if bool_decide (arg = "--install-dir") then install_flags rest' (value, configPath, force)
      else if bool_decide (arg = "--config") then install_flags rest' (installDir, value, force)
      else install_flags rest (installDir, configPath, bool_decide (arg = "--force") || force)
    | [] => (installDir, configPath, bool_decide (arg = "--force") || force)
    end
  end.

(** [reexecWithSudo]: the command that takes over, on success. *)
Definition reexecWithSudo (argv : list string) : result (list string) :=
  wrap_err "sudo not found: %w" [] (look_path "sudo") ≫= λ sudo,
  wrap_err "cannot find executable: %w" [] os_Executable ≫= λ exe,
  Ok (sudo :: exe :: tl argv).

Definition isRoot : bool := os_uid =? 0.

Inductive installed :=
  | Done (l : list (string * status)) (verdict : result unit)
  | Stopped (e : error)
  | ReExec (argv : list string).

(** [runInstall]; [load] is [config.Load], [names] the order of its tools. *)
Definition runInstall (load : string → result Config) (names : gmap string ToolDef → list string) (argv : list string)
    (f : ifs) : installed * ifs :=
  let '(installDir, configPath, force) := install_flags (drop 2 argv) ("", "", false) in
  let configPath := if bool_decide (configPath = "") then ConfigPath else configPath in
  match load configPath with
  | Err e => (Stopped e, f)
  | Ok cfg =>
    if bool_decide (cfg_Tools cfg = ∅) then (Stopped (Errorf "no tools configured in %s" [FS configPath]), f)
    else
      match selfExePath with
      | Err e => (Stopped e, f)
      | Ok clawWrapPath =>
        let installDir := if bool_decide (installDir = "") then "/usr/local/bin" else installDir in
        match canWriteDir installDir f with
        | (_, false, f) => (Stopped (Errorf "install directory does not exist: %s" [FS installDir]), f)
        | (false, true, f) =>
          if isRoot then (Stopped (Errorf "cannot write to %s even as root" [FS installDir]), f)
          else (match reexecWithSudo argv with Ok argv => ReExec argv | Err e => Stopped e end, f)
        | (true, true, f) =>
          let '(l, f) := install_all clawWrapPath installDir force (names (cfg_Tools cfg)) f in
          (Done l (install_verdict force l), f)
        end
      end
  end.
End install.
