(* ===== verification/Wrapper.v ===== *)
(** Package [internal/wrapper]: the client that asks the daemon to run a tool and
    relays its input and output, and the requests of administrators.

    The client's goroutines are the steps of [client_step]: the reader of standard
    input fills a channel of sixteen chunks, the reader of responses hands over
    one message at a time, and the main loop picks one ready case of its [select].
    A run is a list of choices, so a theorem that holds for every list holds for
    every schedule. The connection to the daemon is any [Writer] and a [reader]. *)

From S2P Require Import Prelude GoStrings Base64 Json Protocol Framing GoTime Paths Auth SecretFile Env.
Local Open Scope Z_scope.

Record Wrapper := { wr_socketPath : string; wr_authPath : string }.

Definition WrapperOption := Wrapper → Wrapper.
Definition wrapper_WithSocketPath (path : string) : WrapperOption := λ w,
  {| wr_socketPath := path; wr_authPath := wr_authPath w |}.
Definition WithAuthPath (path : string) : WrapperOption := λ w,
  {| wr_socketPath := wr_socketPath w; wr_authPath := path |}.

Definition wrapper_New `{OS} (opts : list WrapperOption) : Wrapper :=
  foldl (λ w opt, opt w) {| wr_socketPath := SocketPath; wr_authPath := AuthPath |} opts.

(** ** The terminal *)

(** [term.IsTerminal]; [term.GetSize]: the width then the height. *)
Class Terminal := {
  isTerminal : Z → bool;
  getSize : Z → result (Z * Z);
}.

Definition fd_stdin : Z := 0.
Definition fd_stdout : Z := 1.
Definition fd_stderr : Z := 2.

Definition uint16 (n : Z) : Z := n mod 2 ^ 16.

Fixpoint detect_from (seen : gset Z) (fds : list Z) (isTerminal : Z → bool) (getSize : Z → result (Z * Z))
    : option WinSize :=
  match fds with
  | [] => None
  | fd :: fds =>
    if bool_decide (fd ∈ seen) then detect_from seen fds isTerminal getSize
    else
      let seen := {[fd]} ∪ seen in
      if negb (isTerminal fd) then detect_from seen fds isTerminal getSize
      else
        match getSize fd with
        | Err _ => detect_from seen fds isTerminal getSize
        | Ok (cols, rows) =>
          if (cols <=? 0) || (rows <=? 0) then detect_from seen fds isTerminal getSize
          else Some {| ws_rows := uint16 rows; ws_cols := uint16 cols |}
        end
  end.
Definition detectWindowSizeFromFDs (fds : list Z) (isTerminal : Z → bool) (getSize : Z → result (Z * Z))
    : option WinSize := detect_from ∅ fds isTerminal getSize.

Definition detectWindowSize `{Terminal} : option WinSize :=
  detectWindowSizeFromFDs [fd_stdout; fd_stdin; fd_stderr] isTerminal getSize.

Definition callerTerminalEnv `{OS} : gmap string string :=
  let env : gmap string string := ∅ in
  let termValue := TrimSpace (Getenv "TERM") in
  let env := if negb (bool_decide (termValue = "")) then <["TERM" := termValue]> env else env in
  let colorTerm := TrimSpace (Getenv "COLORTERM") in
  if negb (bool_decide (colorTerm = "")) then <["COLORTERM" := colorTerm]> env else env.

(** ** Requests *)

Section requests.
Context `{OS} `{Terminal} `{MapRange} (hmac_sha256 : bytes → bytes → bytes).

(** [RunTool] up to the connection: the request, signed with the secret of the
    file [authPath]. [cwd] is [os.Getwd()], [now] the clock, [random] the nonce. *)
Definition tool_request (w : Wrapper) (f : fs) (cwd : result string) (now : time) (random : result bytes)
    (toolName : string) (args : list string) : result ProxyRequest :=
  wrap_err "load secret: %w" [] (LoadSecret f (wr_authPath w)) ≫= λ secret,
  wrap_err "get cwd: %w" [] cwd ≫= λ cwd,
  let usePTY := isTerminal fd_stdin in
  let winSize := if usePTY then detectWindowSize else None in
  let reqEnv := if usePTY then callerTerminalEnv else ∅ in
  let timestamp := FormatInt (ToUnix now) in
  wrap_err "generate nonce: %w" [] (GenerateNonce random) ≫= λ nonce,
  let hmac := ComputeHMACWithPTY hmac_sha256 secret
    {| sg_timestamp := timestamp; sg_tool := toolName; sg_cwd := cwd; sg_args := Some args; sg_env := reqEnv;
       sg_nonce := nonce; sg_pty := usePTY |} in
  Ok {| pr_version := ProtocolVersion; pr_tool := toolName; pr_args := Some args; pr_cwd := cwd;
        pr_timestamp := timestamp; pr_nonce := nonce; pr_hmac := hmac; pr_env := reqEnv; pr_use_pty := usePTY;
        pr_window_size := winSize |}.

Definition buildAdminRequest (w : Wrapper) (f : fs) (now : time) (random : result bytes) (command : string)
    : result AdminRequest :=
  wrap_err "load secret: %w" [] (LoadSecret f (wr_authPath w)) ≫= λ secret,
  let timestamp := FormatInt (ToUnix now) in
  wrap_err "generate nonce: %w" [] (GenerateNonce random) ≫= λ nonce,
  let hmac := ComputeHMAC hmac_sha256 secret timestamp ("admin:" +:+ command) "" None nonce in
  Ok {| ar_version := ProtocolVersion; ar_admin := command; ar_timestamp := timestamp; ar_nonce := nonce;
        ar_hmac := hmac |}.
End requests.

(** ** The client's loop *)

Section client.
Context `{Terminal} `{Codec ResponseMessage} `{Codec WrapperMessage} {W : Type} `{Writer W}.

Record client := {
  cl_conn : W;
  (** what the daemon sends, and whether the goroutine that reads it runs *)
  cl_in : reader;
  cl_reading : bool;
  (** [stdinCh]; [stdinEOF] was closed; its case is still enabled *)
  cl_stdinCh : list bytes;
  cl_stdin_closed : bool;
  cl_stdinEOF : bool;
  cl_stdout : bytes;
  cl_stderr : bytes;
  (** the terminal is in raw mode *)
  cl_raw : bool;
}.

Inductive outcome := Exited (code : Z) | Failed (e : error).

Definition set_conn (c : client) (conn : W) : client :=
  {| cl_conn := conn; cl_in := cl_in c; cl_reading := cl_reading c; cl_stdinCh := cl_stdinCh c;
     cl_stdin_closed := cl_stdin_closed c; cl_stdinEOF := cl_stdinEOF c; cl_stdout := cl_stdout c;
     cl_stderr := cl_stderr c; cl_raw := cl_raw c |}.
Definition set_in (c : client) (r : reader) (reading : bool) : client :=
  {| cl_conn := cl_conn c; cl_in := r; cl_reading := reading; cl_stdinCh := cl_stdinCh c;
     cl_stdin_closed := cl_stdin_closed c; cl_stdinEOF := cl_stdinEOF c; cl_stdout := cl_stdout c;
     cl_stderr := cl_stderr c; cl_raw := cl_raw c |}.
Definition set_stdin (c : client) (ch : list bytes) (closed enabled : bool) : client :=
  {| cl_conn := cl_conn c; cl_in := cl_in c; cl_reading := cl_reading c; cl_stdinCh := ch;
     cl_stdin_closed := closed; cl_stdinEOF := enabled; cl_stdout := cl_stdout c;
     cl_stderr := cl_stderr c; cl_raw := cl_raw c |}.
Definition set_output (c : client) (out err : bytes) : client :=
  {| cl_conn := cl_conn c; cl_in := cl_in c; cl_reading := cl_reading c; cl_stdinCh := cl_stdinCh c;
     cl_stdin_closed := cl_stdin_closed c; cl_stdinEOF := cl_stdinEOF c; cl_stdout := out;
     cl_stderr := err; cl_raw := cl_raw c |}.
(** [term.Restore], deferred or before [os.Exit]. *)
Definition restore (c : client) : client :=
  {| cl_conn := cl_conn c; cl_in := cl_in c; cl_reading := cl_reading c; cl_stdinCh := cl_stdinCh c;
     cl_stdin_closed := cl_stdin_closed c; cl_stdinEOF := cl_stdinEOF c; cl_stdout := cl_stdout c;
     cl_stderr := cl_stderr c; cl_raw := false |}.

Definition base64_error : error := Sentinel "base64".

Definition handleResponse (msg : ResponseMessage) (c : client) : result bool * client :=
  if bool_decide (rm_type msg = MsgTypeStdout) then
    match DecodeString StdEncoding (rm_data msg) with
    | None => (Err (Wrapf "decode stdout: %w" [] base64_error), c)
    | Some data => (Ok false, set_output c (cl_stdout c ++ data) (cl_stderr c))
    end
  else if bool_decide (rm_type msg = MsgTypeStderr) then
    match DecodeString StdEncoding (rm_data msg) with
    | None => (Err (Wrapf "decode stderr: %w" [] base64_error), c)
    | Some data => (Ok false, set_output c (cl_stdout c) (cl_stderr c ++ data))
    end
  else if bool_decide (rm_type msg = MsgTypeFile) then
    (Err (Errorf "daemon returned deprecated file response" []), c)
  else if bool_decide (rm_type msg = MsgTypeDone) then (Ok true, c)
  else if bool_decide (rm_type msg = MsgTypeError) then (Err (Errorf "daemon error: %s" [FS (rm_message msg)]), c)
  else (Ok false, c).

Definition stdin_msg (data : string) (eof : bool) : WrapperMessage :=
  {| wm_type := MsgTypeStdin; wm_data := data; wm_eof := eof; wm_signal := ""; wm_files := []; wm_rows := 0;
     wm_cols := 0 |}.
Definition signal_msg (name : string) : WrapperMessage :=
  {| wm_type := MsgTypeSignal; wm_data := ""; wm_eof := false; wm_signal := name; wm_files := []; wm_rows := 0;
     wm_cols := 0 |}.
Definition winsize_msg (size : WinSize) : WrapperMessage :=
  {| wm_type := MsgTypeWinSize; wm_data := ""; wm_eof := false; wm_signal := ""; wm_files := [];
     wm_rows := ws_rows size; wm_cols := ws_cols size |}.

Definition sendWindowSize (c : client) : result unit * client :=
  match detectWindowSize with
  | None => (Ok tt, c)
  | Some winSize =>
    let '(conn, r) := NDJSONWrite (cl_conn c) (winsize_msg winSize) in
    (wrap_err "send winsize: %w" [] r, set_conn c conn)
  end.

(** The signals the client registers for. *)
Inductive client_signal := SigInt | SigTerm | SigHup.
Definition signal_name (sig : client_signal) : string :=
  match sig with SigInt => "SIGINT" | SigTerm => "SIGTERM" | SigHup => "SIGHUP" end.

(** What happens next: the standard-input goroutine reads a chunk or reaches the
    end, or the main loop picks a case. *)
Inductive choice :=
  | StdinRead (chunk : bytes) | StdinEnd
  | PickResponse | PickStdin | PickEOF | PickSignal (sig : client_signal) | PickWinSize.

#[global] Instance choice_eq_dec : EqDecision choice.
Proof. unfold EqDecision. intros x y. unfold Decision. repeat decide equality. Defined.

Definition stdin_chunk_size : Z := 32 * 1024.
Definition stdin_channel_size : nat := 16.

(** One step; [None] when the choice is not ready. [pty] says which of the two
    loops it is; an outcome ends the loop. *)
Definition client_step (pty : bool) (ch : choice) (c : client) : option (client * option outcome) :=
  match ch with
  | StdinRead chunk =>
    if cl_stdin_closed c || bool_decide (chunk = []) || (blen chunk >? stdin_chunk_size)
       || (stdin_channel_size <=? length (cl_stdinCh c))%nat then None
    else Some (set_stdin c (cl_stdinCh c ++ [chunk]) false (cl_stdinEOF c), None)
  | StdinEnd => if cl_stdin_closed c then None else Some (set_stdin c (cl_stdinCh c) true (cl_stdinEOF c), None)
  | PickResponse =>
    if negb (cl_reading c) then None
    else
      match Decode (cl_in c) with
      | (Err e, r) =>
        if bool_decide (e = io_EOF) then Some (set_in c r false, None)
        else Some (restore (set_in c r false), Some (Failed (Wrapf "read response: %w" [] e)))
      | (Ok msg, r) =>
        match handleResponse msg (set_in c r true) with
        | (Err e, c) => Some (restore c, Some (Failed e))
        | (Ok true, c) => Some (restore c, Some (Exited (rm_exit_code msg)))
        | (Ok false, c) => Some (c, None)
        end
      end
  | PickStdin =>
    match cl_stdinCh c with
    | [] => None
    | chunk :: ch =>
      match NDJSONWrite (cl_conn c) (stdin_msg (EncodeToString StdEncoding chunk) false) with
      | (conn, r) =>
        let c := set_conn (set_stdin c ch (cl_stdin_closed c) (cl_stdinEOF c)) conn in
        match r with
        | Err e => Some (restore c, Some (Failed (Wrapf "send stdin: %w" [] e)))
        | Ok _ => Some (c, None)
        end
      end
    end
  | PickEOF =>
    if cl_stdin_closed c && cl_stdinEOF c then
      Some (set_stdin (set_conn c (NDJSONWrite (cl_conn c) (stdin_msg "" true)).1) (cl_stdinCh c) true false, None)
    else None
  | PickSignal sig => Some (set_conn c (NDJSONWrite (cl_conn c) (signal_msg (signal_name sig))).1, None)
  | PickWinSize =>
    if negb pty then None
    else
      match sendWindowSize c with
      | (Err e, c) => Some (restore c, Some (Failed e))
      | (Ok _, c) => Some (c, None)
      end
  end.

(** A run of the loop: it stops at the first outcome. *)
Fixpoint client_run (pty : bool) (chs : list choice) (c : client) : option (client * option outcome) :=
  match chs with
  | [] => Some (c, None)
  | ch :: chs =>
    match client_step pty ch c with
    | None => None
    | Some (c, Some o) => Some (c, Some o)
    | Some (c, None) => client_run pty chs c
    end
  end.

Definition client_start (conn : W) (r : reader) (raw : bool) : client :=
  {| cl_conn := conn; cl_in := r; cl_reading := true; cl_stdinCh := []; cl_stdin_closed := false;
     cl_stdinEOF := true; cl_stdout := []; cl_stderr := []; cl_raw := raw |}.

Definition ioLoop (conn : W) (r : reader) (chs : list choice) : option (client * option outcome) :=
  client_run false chs (client_start conn r false).

(** [ioLoopPTY]; whether raw mode can be set is [makeRaw]. *)
Definition ioLoopPTY (makeRaw : result unit) (conn : W) (r : reader) (chs : list choice)
    : option (client * option outcome) :=
  match makeRaw with
  | Err _ => ioLoop conn r chs
  | Ok _ =>
    match sendWindowSize (client_start conn r true) with
    | (Err e, c) => Some (restore c, Some (Failed e))
    | (Ok _, c) => client_run true chs c
    end
  end.

(** [RunTool]; [dial] is the connection [net.Dial] gives. *)
Definition RunTool `{OS} `{MapRange} `{Codec ProxyRequest} (hmac : bytes → bytes → bytes) (w : Wrapper) (f : fs)
    (cwd : result string) (now : time) (random : result bytes) (toolName : string) (args : list string)
    (dial : result (W * reader)) (makeRaw : result unit) (chs : list choice) : option (option client * option outcome) :=
  match tool_request hmac w f cwd now random toolName args with
  | Err e => Some (None, Some (Failed e))
  | Ok req =>
    match dial with
    | Err e => Some (None, Some (Failed (Wrapf "connect: %w" [] e)))
    | Ok (conn, r) =>
      match NDJSONWrite conn req with
      | (_, Err e) => Some (None, Some (Failed (Wrapf "send request: %w" [] e)))
      | (conn, Ok _) =>
        '(c, o) ← (if pr_use_pty req then ioLoopPTY makeRaw conn r chs else ioLoop conn r chs);
        Some (Some c, o)
      end
    end
  end.
End client.

Arguments client : clear implicits.

(** ** Administrators *)

Section admin.
Context `{OS} `{MapRange} `{Codec AdminRequest} `{Codec AdminListResponse} `{Codec AdminCheckResponse}.
Context {W : Type} `{Writer W}.
(** [json.Unmarshal] into a [map[string]string]. *)
Context (read_string_map : bytes → option (gmap string string)).

(** [sendAdminRequest]: one read of at most 64 KiB; [reply] is what it gives. *)
Definition sendAdminRequest (dial : result W) (req : AdminRequest) (reply : result bytes) : result bytes * option W :=
  match dial with
  | Err e => (Err (Wrapf "connect to socket: %w" [] e), None)
  | Ok conn =>
    match marshal req with
    | None => (Err (Wrapf "marshal request: %w" [] json_error), Some conn)
    | Some data =>
      match write conn data with
      | (conn, Some e) => (Err (Wrapf "write request: %w" [] e), Some conn)
      | (conn, None) =>
        (wrap_err "read response: %w" [] reply ≫= λ buf,
         let data := take (Z.to_nat 65536) buf in
         match read_string_map data ≫= (.!! "error") with
         | Some msg =>
           if negb (bool_decide (msg = "")) then Err (Errorf "daemon error: %s" [FS msg]) else Ok data
         | None => Ok data
         end, Some conn)
      end
    end
  end.

(** [List] and [Check]. *)
Definition admin_call {R} `{Codec R} (hmac : bytes → bytes → bytes) (w : Wrapper) (f : fs) (now : time)
    (random : result bytes) (dial : result W) (reply : result bytes) (command : string) : result R :=
  buildAdminRequest hmac w f now random command ≫= λ req,
  (sendAdminRequest dial req reply).1 ≫= λ data,
  match unmarshal data with
  | None => Err (Wrapf "unmarshal response: %w" [] json_error)
  | Some resp => Ok resp
  end.
Definition List hmac w f now random dial reply : result AdminListResponse :=
  admin_call hmac w f now random dial reply "list".
Definition Check hmac w f now random dial reply : result AdminCheckResponse :=
  admin_call hmac w f now random dial reply "check".
End admin.
