(* ===== verification/ExecutorLaws.v ===== *)
(** Properties of a tool run ([Executor.v]), for every schedule of the pumpers and
    every list of refused system calls. *)

From S2P Require Import Prelude GoStrings Base64 Protocol GoTime GoPath Paths Regexp ConfigTypes Interpolate Redactor World OutputBuffer Config Settings Env Runtime AuditLog Executor.
Local Open Scope Z_scope.

(** ** What a step may do to the world *)

(** The calls [cs] were made: what was sent are the messages not refused, only
    messages of [P] were tried, and without faults nothing was refused. *)
Definition made (P : ResponseMessage → Prop) (w w' : world) (cs : list (call * bool)) : Prop :=
  w_calls w' = w_calls w ++ cs ∧ w_sent w' = w_sent w ++ sent_of cs ∧ Forall (λ m, P m.1) (messages_of cs) ∧
  (w_faults w = [] → Forall (λ c, c.2 = false) cs ∧ w_faults w' = []).

(** Some calls were made, and no directory changed. *)
Definition ext (P : ResponseMessage → Prop) (w w' : world) : Prop :=
  (∃ cs, made P w w' cs) ∧ w_dirs w' = w_dirs w ∧ w_root w' = w_root w.

Lemma made_nil P w w' :
  w_calls w' = w_calls w → w_sent w' = w_sent w → (w_faults w = [] → w_faults w' = []) → made P w w' [].
Proof.
  intros Hc Hs Hf. split; [by rewrite app_nil_r|]. split; [cbn; by rewrite app_nil_r|]. split; [by constructor|].
  intros Hn. split; [by constructor|auto].
Qed.

Lemma made_app P w1 w2 w3 c1 c2 : made P w1 w2 c1 → made P w2 w3 c2 → made P w1 w3 (c1 ++ c2).
Proof.
  intros (C1 & S1 & F1 & N1) (C2 & S2 & F2 & N2). unfold made.
  rewrite C2, C1, S2, S1, sent_of_app, messages_of_app, !app_assoc. split_and!; try done; [by apply Forall_app|].
  intros Hf. destruct (N1 Hf) as [G1 Hf1]. destruct (N2 Hf1) as [G2 ?]. split; [|done]. by apply Forall_app.
Qed.

Lemma made_weaken (P Q : ResponseMessage → Prop) w w' cs : (∀ m, P m → Q m) → made P w w' cs → made Q w w' cs.
Proof. intros HPQ (C & S & F & N). split_and!; try done. eapply Forall_impl; [exact F|]. intros m. apply HPQ. Qed.

Lemma ext_faults P w w' : ext P w w' → w_faults w = [] → w_faults w' = [].
Proof. intros ((cs & _ & _ & _ & H) & _) Hf. by apply H. Qed.

Lemma ext_refl P w : ext P w w.
Proof. split; [|done]. exists []. by apply made_nil. Qed.

Lemma ext_trans P w1 w2 w3 : ext P w1 w2 → ext P w2 w3 → ext P w1 w3.
Proof.
  intros ((c1 & M1) & D1 & R1) ((c2 & M2) & D2 & R2). split; [|split; congruence].
  exists (c1 ++ c2). by eapply made_app.
Qed.

Lemma ext_weaken (P Q : ResponseMessage → Prop) w w' : (∀ m, P m → Q m) → ext P w w' → ext Q w w'.
Proof. intros HPQ ((cs & M) & H). split; [|done]. exists cs. by eapply made_weaken. Qed.

(** The messages sent. *)
Lemma ext_sent P w w' : ext P w w' → ∃ ms, w_sent w' = w_sent w ++ ms ∧ Forall P ms.
Proof.
  intros ((cs & _ & S & F & _) & _). exists (sent_of cs). split; [done|]. unfold sent_of.
  apply Forall_forall. intros m Hm. apply list_elem_of_omap in Hm as ([m' f] & Hin & Hm).
  pose proof (proj1 (Forall_forall _ _) F _ Hin) as HP. destruct f; [done|]. by injection Hm as <-.
Qed.

Lemma refused_ext P w f w' : refused w = (f, w') → ext P w w'.
Proof.
  unfold refused. destruct (w_faults w) as [|f0 fs] eqn:E; intros [= <- <-]; [apply ext_refl|].
  split; [|done]. exists []. apply made_nil; [done..|]. by rewrite E.
Qed.

(** A call that sends no message. *)
Lemma try_ext P w c f w' : (∀ m, c ≠ CallSend m) → try w c = (f, w') → ext P w w'.
Proof.
  intros Hc E. pose proof (try_same _ _ _ _ E) as [_ Hs]. apply try_spec in E as (Hcs & Hf & Hd & Hr).
  split; [|done]. exists [(c, f)]. assert (messages_of [(c, f)] = []) as Hm by (destruct c; [by destruct (Hc msg)|done..]).
  unfold made, sent_of. rewrite Hm. cbn. rewrite app_nil_r. split_and!; try done.
  intros Hn. destruct (Hf Hn) as [-> ?]. split; [by constructor|done].
Qed.

(** The system refused to remove the path, in between. *)
Definition stuck (w w' : world) (p : string) : Prop :=
  ∃ cs, w_calls w' = w_calls w ++ cs ∧ removal_refused cs p.

Lemma stuck_before P w1 w2 w3 p : ext P w1 w2 → stuck w2 w3 p → stuck w1 w3 p.
Proof.
  intros ((c1 & C1 & _) & _) (c2 & C2 & H). exists (c1 ++ c2). rewrite C2, C1, app_assoc. split; [done|].
  apply removal_refused_app. by right.
Qed.

Lemma stuck_after P w1 w2 w3 p : stuck w1 w2 p → ext P w2 w3 → stuck w1 w3 p.
Proof.
  intros (c1 & C1 & H) ((c2 & C2 & _) & _). exists (c1 ++ c2). rewrite C2, C1, app_assoc. split; [done|].
  apply removal_refused_app. by left.
Qed.

Lemma not_stuck P w w' p : ext P w w' → w_faults w = [] → ¬ stuck w w' p.
Proof.
  intros ((cs & C & _ & _ & N) & _) Hf (cs' & C' & H). rewrite C in C'. apply app_inv_head in C' as <-.
  destruct (N Hf) as [HF _]. by eapply removal_not_refused.
Qed.

Lemma refused_none w f w' : refused w = (f, w') → w_faults w = [] → f = false ∧ w' = w.
Proof. unfold refused. intros E Hf. rewrite Hf in E. by injection E as <- <-. Qed.

Lemma set_files_ext P w files : ext P w (set_files w files).
Proof. split; [|done]. exists []. by apply made_nil. Qed.

Lemma send_made (P : ResponseMessage → Prop) w msg e w' :
  P msg → send w msg = (e, w') →
  ∃ f, made P w w' [(CallSend msg, f)] ∧ w_dirs w' = w_dirs w ∧ w_root w' = w_root w.
Proof.
  intros HP. unfold send. destruct (try w _) as [f w1] eqn:E. pose proof (try_same _ _ _ _ E) as [_ Hs].
  apply try_spec in E as (Hcs & Hf & Hd & Hr). intros He. exists f.
  assert (w_calls w' = w_calls w ++ [(CallSend msg, f)] ∧ w_sent w' = w_sent w ++ sent_of [(CallSend msg, f)] ∧
    w_faults w' = w_faults w1 ∧ w_dirs w' = w_dirs w ∧ w_root w' = w_root w) as (C & S & F & D & R).
  { destruct f; injection He as <- <-; cbn; rewrite ?Hs, ?app_nil_r; by split_and!. }
  split; [|done]. split_and!; try done; [by constructor|].
  rewrite F. intros Hn. destruct (Hf Hn) as [-> ?]. split; [by constructor|done].
Qed.

Lemma send_ext (P : ResponseMessage → Prop) w msg e w' : P msg → send w msg = (e, w') → ext P w w'.
Proof. intros HP Hs. destruct (send_made P _ _ _ _ HP Hs) as (f & M & ?). split; [by eexists|done]. Qed.

Lemma remove_file_ext P w path : ext P w (remove_file w path).
Proof.
  unfold remove_file. destruct (try w _) as [[] w1] eqn:E; apply (try_ext P) in E; done.
Qed.

(** A removal removes, unless it is refused. *)
Lemma remove_file_sub w path p : is_Some (w_files (remove_file w path) !! p) → is_Some (w_files w !! p).
Proof.
  unfold remove_file. destruct (try w _) as [[] w1] eqn:E; apply try_same in E as [E _]; simpl; rewrite E; [done|].
  rewrite lookup_delete. case_decide; [by intros [? ?]|done].
Qed.

Lemma remove_file_gone w path p :
  is_Some (w_files (remove_file w path) !! p) →
  is_Some (w_files w !! p) ∧ p ≠ path ∨ p = path ∧ stuck w (remove_file w path) p.
Proof.
  intros Hp. pose proof (remove_file_sub _ _ _ Hp) as Hin. revert Hp. unfold remove_file.
  destruct (try w _) as [[] w1] eqn:E; pose proof (try_same _ _ _ _ E) as [Hf _]; apply try_spec in E as (Hc & _).
  - intros _. destruct (decide (p = path)) as [->|]; [right|by left]. split; [done|].
    exists [(CallRemove path, true)]. split; [done|]. left. by left.
  - cbn. rewrite lookup_delete. case_decide; [by intros [? ?]|by left].
Qed.

Lemma refused_made P w f w' : refused w = (f, w') → made P w w' [].
Proof.
  intros E. pose proof (refused_same _ _ _ E) as [_ Hs]. apply refused_calls in E as [Hc Hf].
  apply made_nil; [done..|]. intros Hn. by apply Hf.
Qed.

(** A call that is no message. *)
Lemma try_made P w c f w' : (∀ m, c ≠ CallSend m) → try w c = (f, w') → made P w w' [(c, f)].
Proof.
  intros Hc E. pose proof (try_same _ _ _ _ E) as [_ Hs]. apply try_spec in E as (Hcs & Hf & _).
  assert (messages_of [(c, f)] = []) as Hm by (destruct c; [by destruct (Hc msg)|done..]).
  unfold made, sent_of. rewrite Hm. cbn. rewrite app_nil_r. split_and!; try done.
  intros Hn. destruct (Hf Hn) as [-> ?]. split; [by constructor|done].
Qed.

Lemma remove_file_made P w path : ∃ f, made P w (remove_file w path) [(CallRemove path, f)].
Proof. unfold remove_file. destruct (try w _) as [f w1] eqn:E. exists f. apply (try_made P) in E; [|done]. by destruct f. Qed.

(** Without refusals everything tried was sent. *)
Lemma sent_all cs : Forall (λ c, c.2 = false) cs → sent_of cs = (messages_of cs).*1.
Proof.
  induction 1 as [|[c f] cs Hc _ IH]; [done|]. cbn in Hc. subst f.
  change (sent_of ((c, false) :: cs)) with (sent_of ([(c, false)] ++ cs)).
  change (messages_of ((c, false) :: cs)) with (messages_of ([(c, false)] ++ cs)).
  rewrite sent_of_app, messages_of_app, fmap_app, IH. by destruct c.
Qed.

(** ** One buffer *)

Section buffers.
Context `{RE : Regexp}.

(** The mode, the path and the open file agree. *)
Definition path_mode (b : OutputBuffer) : Prop :=
  ob_inlineMode b = bool_decide (ob_tempPath b = "") ∧ ∀ p, ob_tempFile b = Some p → p = ob_tempPath b.

(** A message of output: what it carries, in base64. *)
Definition output_of (ty : string) (m : ResponseMessage) : Prop :=
  ∃ data, m = output_msg ty (EncodeToString StdEncoding data).

Definition of_stream (b : OutputBuffer) (m : ResponseMessage) : Prop := output_of (ob_stream b) m.

(** The only file a step can leave behind is the buffer's, or one whose removal the
    system refused. *)
Definition leaves (w w' : world) (path : string) : Prop :=
  ∀ p, is_Some (w_files w' !! p) → is_Some (w_files w !! p) ∨ (p = path ∧ p ≠ "") ∨ stuck w w' p.

Definition bstep (b : OutputBuffer) (w : world) (b' : OutputBuffer) (w' : world) : Prop :=
  ext (of_stream b) w w' ∧ ob_stream b' = ob_stream b ∧ path_mode b' ∧
  (ob_tempPath b ≠ "" → ob_tempPath b' = ob_tempPath b) ∧ leaves w w' (ob_tempPath b').

Lemma bstep_same b w b' w' :
  path_mode b → ext (of_stream b) w w' → w_files w' = w_files w → ob_stream b' = ob_stream b →
  ob_tempPath b' = ob_tempPath b → ob_inlineMode b' = ob_inlineMode b →
  (ob_tempFile b' = None ∨ ob_tempFile b' = ob_tempFile b) → bstep b w b' w'.
Proof.
  intros [Hp1 Hp2] He Hf Hs Ht Hm Htf. split; [done|]. split; [done|]. split.
  { split; [by rewrite Hm, Ht|]. intros p Hp. rewrite Ht. destruct Htf; [congruence|]. apply Hp2. congruence. }
  split; [done|]. intros p. rewrite Hf. by left.
Qed.

Lemma bstep_trans b1 w1 b2 w2 b3 w3 :
  bstep b1 w1 b2 w2 → bstep b2 w2 b3 w3 → bstep b1 w1 b3 w3.
Proof.
  intros (E1 & S1 & P1 & T1 & L1) (E2 & S2 & P2 & T2 & L2). split.
  { eapply ext_trans; [done|]. eapply ext_weaken; [|done]. unfold of_stream. by rewrite S1. }
  split; [congruence|]. split; [done|].
  assert (ob_tempPath b2 ≠ "" → ob_tempPath b3 = ob_tempPath b2) as T2' by done.
  split; [intros Hn; specialize (T1 Hn); rewrite T2'; congruence|].
  intros p Hp. destruct (L2 p Hp) as [Hp2|[|Hst]]; [|by right; left|right; right; by eapply stuck_before].
  destruct (L1 p Hp2) as [|[[Hq Hn]|Hst]]; [by left| |right; right; by eapply stuck_after].
  right; left. split; [|done]. rewrite T2'; congruence.
Qed.

Lemma switch_bstep b w res b' w' :
  switchToFileMode b w = (res, b', w') → path_mode b → ob_inlineMode b = true → bstep b w b' w'.
Proof.
  intros E Hp Hi. unfold switchToFileMode, create_temp in E.
  destruct (refused w) as [[] w1] eqn:Er; pose proof (refused_same _ _ _ Er) as [Hf1 _];
    pose proof (refused_ext (of_stream b) _ _ _ Er) as He1.
  { injection E as <- <- <-. apply bstep_same; auto. }
  set (f := temp_name _ _) in E.
  assert (ob_tempPath b = "") as Hemp.
  { destruct Hp as [Hp _]. rewrite Hi in Hp. symmetry in Hp. by apply bool_decide_eq_true in Hp. }
  assert (f ≠ "") as Hfn by (apply temp_name_not_empty; by destruct (ob_stream b)).
  set (w2 := set_files w1 _) in E.
  assert (ext (of_stream b) w w2) as He2 by (eapply ext_trans; [done|apply set_files_ext]).
  unfold chmod in E. destruct (refused w2) as [[] w3] eqn:Er3;
    pose proof (refused_same _ _ _ Er3) as [Hf3 _]; pose proof (refused_ext (of_stream b) _ _ _ Er3) as He3.
  - unfold close_file, chmod in E. destruct (refused w3) as [f3 w4] eqn:Er4.
    pose proof (refused_ext (of_stream b) _ _ _ Er4) as He4.
    injection E as <- <- <-. split.
    { eapply ext_trans; [exact He2|]. eapply ext_trans; [exact He3|]. eapply ext_trans; [exact He4|].
      apply remove_file_ext. }
    split; [done|]. split; [done|]. split; [done|]. intros p Hx.
    destruct (remove_file_gone w4 f p Hx) as [[Hin Hne]|[-> Hst]].
    + left. apply refused_same in Er4 as [Hf4 _]. rewrite Hf4, Hf3 in Hin. unfold w2 in Hin. cbn in Hin.
      apply lookup_insert_is_Some in Hin as [Hx2|[_ Hin]]; [by destruct Hne|]. by rewrite Hf1 in Hin.
    + right; right. eapply stuck_before; [exact He2|]. eapply stuck_before; [exact He3|].
      by eapply stuck_before.
  - injection E as <- <- <-. split; [by eapply ext_trans|]. split; [done|]. split.
    { split; simpl; [by rewrite bool_decide_eq_false_2|]. by intros p [= ->]. }
    split; [congruence|]. intros p. rewrite Hf3. simpl. rewrite Hf1.
    destruct (decide (p = f)) as [->|Hn]; [by right; left|]. rewrite lookup_insert_ne by congruence. by left.
Qed.

Lemma emit_bstep b data w res b' w' :
  emit b data w = (res, b', w') → path_mode b → bstep b w b' w'.
Proof.
  intros E Hp. unfold emit in E. destruct (ob_inlineMode b) eqn:Hi.
  - destruct (send w _) as [[err|] w1] eqn:Es; pose proof (send_spec _ _ _ _ Es) as [Hf _];
      apply (send_ext (of_stream b)) in Es; try (by eexists); injection E as <- <- <-; apply bstep_same; auto.
  - destruct (ob_tempFile b) as [path|] eqn:Et.
    2: { injection E as <- <- <-. apply bstep_same; auto. apply ext_refl. }
    unfold append_file in E.
    destruct (refused w) as [[] w1] eqn:Er; pose proof (refused_same _ _ _ Er) as [Hf1 _];
      pose proof (refused_ext (of_stream b) _ _ _ Er) as He; injection E as <- <- <-;
      [apply bstep_same; auto|].
    split; [eapply ext_trans; [done|apply set_files_ext]|]. split; [done|]. split; [done|].
    split; [done|]. intros p. simpl. rewrite Hf1. destruct Hp as [Hp1 Hp2].
    destruct (decide (p = path)) as [->|Hn]; [|rewrite lookup_insert_ne by congruence; by left].
    right; left. split; [by apply Hp2|]. rewrite (Hp2 _ Et). rewrite Hi in Hp1. symmetry in Hp1.
    by apply bool_decide_eq_false in Hp1.
Qed.

Lemma writeLocked_bstep b data w res b' w' :
  writeLocked b data w = (res, b', w') → path_mode b → bstep b w b' w'.
Proof.
  intros E Hp. unfold writeLocked in E.
  destruct data as [|c data']; [injection E as <- <- <-; apply bstep_same; auto; apply ext_refl|].
  revert E. generalize (c :: data') as data. intros data E.
  destruct (_ && _) eqn:El; [injection E as <- <- <-; apply bstep_same; auto; apply ext_refl|].
  destruct (write_tee b data w) as [[rt b1] w1] eqn:Et.
  assert (bstep b w b1 w1) as H1.
  { unfold write_tee in Et. destruct (ob_tee b) eqn:Etee.
    - destruct (refused w) as [[] w2] eqn:Er; pose proof (refused_same _ _ _ Er) as [Hf _];
        apply (refused_ext (of_stream b)) in Er; injection Et as <- <- <-; apply bstep_same; auto.
    - injection Et as <- <- <-. apply bstep_same; auto. apply ext_refl. }
  destruct rt as [u|err]; [|by injection E as <- <- <-].
  pose proof H1 as (_ & _ & Hp1 & _).
  destruct (ob_inlineMode b1 && _ && _) eqn:Esw.
  - destruct (switchToFileMode b1 w1) as [[[u1|err] b2] w2] eqn:E2.
    all: apply switch_bstep in E2; [|done|by destruct (ob_inlineMode b1)].
    + pose proof E2 as (_ & _ & Hp2 & _). apply emit_bstep in E; [|done].
      eapply bstep_trans; [done|]. by eapply bstep_trans.
    + injection E as <- <- <-. by eapply bstep_trans.
  - apply emit_bstep in E; [|done]. by eapply bstep_trans.
Qed.

Lemma Write_bstep b data w res b' w' :
  Write b data w = (res, b', w') → path_mode b → bstep b w b' w'.
Proof.
  intros E Hp. unfold Write in E.
  destruct data as [|c data']; [injection E as <- <- <-; apply bstep_same; auto; apply ext_refl|].
  destruct (ob_redactor b) as [r|]; [|by apply writeLocked_bstep in E].
  destruct (RedactChunk r _ false) as [out r'].
  assert (bstep b w (SetRedactor b (Some r')) w) as H1 by (apply bstep_same; auto; apply ext_refl).
  destruct out as [|o out']; [by injection E as <- <- <-|].
  apply writeLocked_bstep in E; [|done]. by eapply bstep_trans.
Qed.

Lemma Finalize_bstep b w res b' w' :
  Finalize b w = (res, b', w') → path_mode b →
  bstep b w b' w' ∧ ∀ path, res = Ok path → path = ob_tempPath b'.
Proof.
  intros E Hp. unfold Finalize in E.
  set (fl := match ob_redactor b with None => _ | Some r => _ end) in E.
  destruct fl as [[f b1] w1] eqn:Efl.
  assert (bstep b w b1 w1) as H1.
  { unfold fl in Efl. destruct (ob_redactor b) as [r|].
    - destruct (RedactChunk r [] true) as [tail r'].
      assert (bstep b w (SetRedactor b (Some r')) w) as H0 by (apply bstep_same; auto; apply ext_refl).
      destruct (writeLocked _ tail w) as [[[u|err] b2] w2] eqn:E2;
        injection Efl as <- <- <-; apply writeLocked_bstep in E2; try done; by eapply bstep_trans.
    - injection Efl as <- <- <-. apply bstep_same; auto. apply ext_refl. }
  clear fl Efl. pose proof H1 as (_ & _ & Hpm & _). pose proof Hpm as [Hm1 _].
  destruct f as [u|err]; [|injection E as <- <- <-; split; [done|congruence]].
  destruct (ob_inlineMode b1) eqn:Ei.
  { injection E as <- <- <-. split; [done|]. intros ? [= <-]. symmetry in Hm1.
    by apply bool_decide_eq_true in Hm1. }
  destruct (ob_tempFile b1) eqn:Et; [|injection E as <- <- <-; split; [done|congruence]].
  unfold close_file, chmod in E. destruct (refused w1) as [[] w2] eqn:Er;
    pose proof (refused_same _ _ _ Er) as [Hf _]; apply (refused_ext (of_stream b1)) in Er;
    injection E as <- <- <-.
  - split; [|done]. eapply bstep_trans; [exact H1|]. apply bstep_same; auto.
  - split; [|by intros ? [= <-]]. eapply bstep_trans; [exact H1|]. apply bstep_same; auto.
Qed.

Lemma Cleanup_bstep P b w :
  let '(b', w') := Cleanup b w in
  ext P w w' ∧ ob_tempPath b' = "" ∧ ob_tempFile b' = None ∧ ob_stream b' = ob_stream b ∧
  (∀ p, is_Some (w_files w' !! p) → is_Some (w_files w !! p) ∧ ((p = ob_tempPath b → p = "") ∨ stuck w w' p)).
Proof.
  unfold Cleanup.
  set (cl := match ob_tempFile b with None => _ | Some _ => _ end).
  destruct cl as [b1 w1] eqn:Ecl.
  assert (ext P w w1 ∧ w_files w1 = w_files w ∧ ob_tempFile b1 = None ∧
    ob_tempPath b1 = ob_tempPath b ∧ ob_stream b1 = ob_stream b) as (He & Hf & Ht & Hpp & Hs).
  { unfold cl in Ecl. destruct (ob_tempFile b) eqn:Et.
    - unfold close_file, chmod in Ecl. destruct (refused w) as [f w2] eqn:Er.
      pose proof (refused_same _ _ _ Er) as [Hf _]. apply (refused_ext P) in Er.
      by injection Ecl as <- <-.
    - injection Ecl as <- <-. split; [apply ext_refl|done]. }
  clear cl Ecl. destruct (bool_decide_reflect (ob_tempPath b1 = "")) as [Ee|Ee]; cbn [negb].
  - split; [done|]. split; [done|]. split; [done|]. split; [done|]. intros p. rewrite Hf.
    split; [done|left; congruence].
  - split; [eapply ext_trans; [done|apply remove_file_ext]|]. split; [done|]. split; [done|]. split; [done|].
    intros p Hx. destruct (remove_file_gone _ _ _ Hx) as [[Hin Hne]|[-> Hst]].
    + rewrite Hf in Hin. split; [done|]. left. intros ->. congruence.
    + pose proof (remove_file_sub _ _ _ Hx) as Hin. rewrite Hf in Hin. split; [done|]. right.
      by eapply stuck_before.
Qed.
(** It signals nobody. *)
Lemma Cleanup_calls P b w : ∃ cs, made P w (Cleanup b w).2 cs ∧ signals_of cs = [].
Proof.
  unfold Cleanup. set (cl := match ob_tempFile b with None => _ | Some _ => _ end).
  assert (made P w cl.2 []) as Hm.
  { unfold cl, close_file, chmod. destruct (ob_tempFile b); [|by apply made_nil].
    destruct (refused w) as [f w2] eqn:Er. by eapply refused_made. }
  destruct cl as [b1 w1]. destruct (negb _); [|by exists []].
  destruct (remove_file_made P w1 (ob_tempPath b1)) as [f Hr]. eexists. split; [by eapply made_app|done].
Qed.
End buffers.
