(* ===== verification/RunLaws.v ===== *)
(** What a whole run of a tool guarantees ([Executor.v]): its messages, its
    signals, what it leaves behind and what it records, for every schedule. *)

From S2P Require Import Prelude GoStrings Base64 Protocol GoTime GoPath Paths Regexp ConfigTypes Interpolate Redactor World OutputBuffer Config Settings Env Runtime AuditLog Executor ExecutorLaws.
Local Open Scope Z_scope.

Section run.
Context `{RE : Regexp} `{UC : UnicodeCase} `{DP : DurationParser} `{OSi : OS} `{HO : Host} `{MR : MapRange}
  `{HA : Hash}.
Context (resolve : string → CredentialDef → result string).

Definition stream_name (k : stream) : string :=
  match k with Serr => MsgTypeStderr | _ => MsgTypeStdout end.
Definition is_stream (m : ResponseMessage) : Prop := output_of MsgTypeStdout m ∨ output_of MsgTypeStderr m.
Definition allowed_signals : list Z := [SIGHUP; SIGINT; SIGTERM; SIGKILL].

Definition bufs_ok (s : run_state) : Prop :=
  ∀ k b, x_buf s k = Some b → ob_stream b = stream_name k ∧ path_mode b.
(** The temporary files the buffers still know of. *)
Definition tracked (s : run_state) (p : string) : Prop :=
  p ≠ "" ∧ ∃ k b, x_buf s k = Some b ∧ ob_tempPath b = p.

(** An open write end of the tool's input is known to [stdinPipe]. *)
Definition stdin_ok (p : process) : Prop := p_stdin_open p = true → p_stdinPipe p = true.

(** What a step after the start of the process may do. *)
Record evolves (P : ResponseMessage → Prop) (s s' : run_state) : Prop := {
  ev_ext : ext P (x_w s) (x_w s');
  ev_bufs : bufs_ok s';
  ev_launch : p_launch (x_proc s') = p_launch (x_proc s);
  ev_pgid : p_pgid (x_proc s') = p_pgid (x_proc s);
  ev_config : x_configDir s' = x_configDir s;
  ev_signals : ∃ sigs, p_signals (x_proc s') = p_signals (x_proc s) ++ sigs ∧ Forall (.∈ allowed_signals) sigs;
  ev_tracked : ∀ p, tracked s p → tracked s' p;
  ev_files : ∀ p, is_Some (w_files (x_w s') !! p) →
    is_Some (w_files (x_w s) !! p) ∨ tracked s' p ∨ stuck (x_w s) (x_w s') p;
  ev_stdin : stdin_ok (x_proc s) → stdin_ok (x_proc s');
}.
Abbreviation evolve := (evolves is_stream).

Lemma evolve_refl P s : bufs_ok s → evolves P s s.
Proof. intros Hb. split; try done; [apply ext_refl| |]; [exists []; by rewrite app_nil_r|by left]. Qed.

Lemma evolve_trans P s1 s2 s3 : evolves P s1 s2 → evolves P s2 s3 → evolves P s1 s3.
Proof.
  intros [] []. split; try congruence; [by eapply ext_trans|done| |auto| |auto].
  - destruct ev_signals0 as (a & E1 & F1), ev_signals1 as (b & E2 & F2). exists (a ++ b).
    rewrite E2, E1, app_assoc. split; [done|]. by apply Forall_app.
  - intros p Hp. destruct (ev_files1 p Hp) as [Hp2|[|]]; [|by right; left|right; right; by eapply stuck_before].
    destruct (ev_files0 p Hp2) as [|[Ht|]]; [by left|right; left; auto|right; right; by eapply stuck_after].
Qed.

Lemma evolve_weaken (P Q : ResponseMessage → Prop) s s' :
  (∀ m, P m → Q m) → evolves P s s' → evolves Q s s'.
Proof. intros HPQ []. split; try done. by eapply ext_weaken. Qed.

Lemma evolve_quiet P s s' sigs :
  bufs_ok s → ext P (x_w s) (x_w s') → w_files (x_w s') = w_files (x_w s) →
  x_buf s' = x_buf s → p_launch (x_proc s') = p_launch (x_proc s) → p_pgid (x_proc s') = p_pgid (x_proc s) →
  x_configDir s' = x_configDir s →
  p_signals (x_proc s') = p_signals (x_proc s) ++ sigs → Forall (.∈ allowed_signals) sigs →
  (stdin_ok (x_proc s) → stdin_ok (x_proc s')) → evolves P s s'.
Proof.
  intros Hb He Hf Hx Hl Hg Hc Hs HF Hst. split; try done.
  - unfold bufs_ok. by rewrite Hx.
  - by exists sigs.
  - intros p (? & k & b & ? & ?). split; [done|]. exists k, b. by rewrite Hx.
  - intros p. rewrite Hf. by left.
Qed.

Section any_message.
Context {P : ResponseMessage → Prop}.

(** A step that only changes the process, after a system call or not. *)
Lemma evolve_proc s w p :
  bufs_ok s → ext P (x_w s) w → w_files w = w_files (x_w s) →
  p_launch p = p_launch (x_proc s) → p_pgid p = p_pgid (x_proc s) → p_signals p = p_signals (x_proc s) →
  (stdin_ok (x_proc s) → stdin_ok p) → evolves P s (set_proc (set_w s w) p).
Proof. intros. apply (evolve_quiet _ _ _ []); try done; simpl. by rewrite app_nil_r. Qed.

Lemma syscall_quiet s f s1 :
  syscall s = (f, s1) → ∃ w, s1 = set_w s w ∧ ext P (x_w s) w ∧ w_files w = w_files (x_w s).
Proof.
  unfold syscall. destruct (refused (x_w s)) as [g w] eqn:E. intros [= -> <-]. exists w.
  split; [done|]. split; [by eapply refused_ext|]. by eapply refused_same.
Qed.

Lemma evolve_w s w : bufs_ok s → ext P (x_w s) w → w_files w = w_files (x_w s) → evolves P s (set_w s w).
Proof. intros. apply (evolve_quiet _ _ _ []); try done. by rewrite app_nil_r. Qed.

Lemma evolve_p s p :
  bufs_ok s → p_launch p = p_launch (x_proc s) → p_pgid p = p_pgid (x_proc s) →
  p_signals p = p_signals (x_proc s) → (stdin_ok (x_proc s) → stdin_ok p) → evolves P s (set_proc s p).
Proof. intros. apply (evolve_quiet _ _ _ []); try done; simpl; [apply ext_refl|by rewrite app_nil_r]. Qed.

Ltac by_syscall E :=
  let w := fresh "w" in apply syscall_quiet in E as (w & -> & ? & ?).

Lemma kill_evolve sig s : bufs_ok s → sig ∈ allowed_signals → evolves P s (killProcessGroup sig s).2.
Proof.
  intros Hb Hs. unfold killProcessGroup. destruct (_ =? 0); [by apply evolve_refl|].
  destruct (try (x_w s) (CallSignal sig)) as [f w] eqn:E. pose proof (try_same _ _ _ _ E) as [Hf _].
  apply (try_ext P) in E; [|done]. destruct f; [by apply evolve_w|].
  apply (evolve_quiet _ _ _ [sig]); try done. by constructor.
Qed.

Lemma forward_evolve sig s : bufs_ok s → evolves P s (forwardSignal sig s).2.
Proof.
  intros Hb. unfold forwardSignal.
  repeat case_match; try (by apply evolve_refl); apply kill_evolve; try done;
    unfold allowed_signals; rewrite !elem_of_cons; auto.
Qed.

Lemma close_stdin_evolve s : bufs_ok s → evolves P s (close_stdin s).2.
Proof.
  intros Hb. unfold close_stdin. destruct (p_stdin_open _); [|by apply evolve_refl].
  by apply evolve_p.
Qed.

Lemma close_stdin_closes s : p_stdin_open (x_proc (close_stdin s).2) = false.
Proof. unfold close_stdin. destruct (p_stdin_open (x_proc s)) eqn:E; [done|exact E]. Qed.

Lemma message_evolve msg s : bufs_ok s → evolves P s (handleWrapperMessage msg s).2.
Proof.
  intros Hb. unfold handleWrapperMessage. destruct (bool_decide _).
  - destruct (wm_eof msg).
    + destruct (p_stdinPipe (x_proc s)); [|by apply evolve_refl].
      pose proof (close_stdin_evolve s Hb) as Hc. pose proof (close_stdin_closes s) as Hcl.
      destruct (close_stdin s) as [[err|] s1]; simpl in *; [done|].
      eapply evolve_trans; [done|]. apply evolve_p; [by apply ev_bufs in Hc|done..|].
      unfold stdin_ok; cbn. by rewrite Hcl.
    + destruct (DecodeString _ _) as [data|]; [|by apply evolve_refl].
      destruct (p_stdinPipe (x_proc s)) eqn:Ep; [|by apply evolve_refl].
      unfold write_stdin. destruct (negb _); [by apply evolve_refl|].
      destruct (syscall s) as [[] s1] eqn:E; by_syscall E; [by apply evolve_w|apply evolve_proc; try done; intros _ _; exact Ep].
  - destruct (bool_decide _); [|by apply evolve_refl].
    pose proof (forward_evolve (wm_signal msg) s Hb) as Hf. by destruct (forwardSignal _ s).
Qed.

Lemma pty_message_evolve msg s : bufs_ok s → evolves P s (handlePTYWrapperMessage msg s).2.
Proof.
  intros Hb. unfold handlePTYWrapperMessage. destruct (bool_decide _).
  - destruct (wm_eof msg); [by apply evolve_refl|].
    destruct (DecodeString _ _) as [data|]; [|by apply evolve_refl].
    destruct (negb _); [by apply evolve_refl|].
    destruct (syscall s) as [[] s1] eqn:E; by_syscall E; [by apply evolve_w|by apply evolve_proc].
  - destruct (bool_decide _).
    { pose proof (forward_evolve (wm_signal msg) s Hb) as Hf. by destruct (forwardSignal _ s). }
    destruct (bool_decide _); [|by apply evolve_refl]. destruct (negb _); [by apply evolve_refl|].
    destruct (syscall s) as [[] s1] eqn:E; by_syscall E; [by apply evolve_w|by apply evolve_proc].
Qed.

End any_message.

Ltac by_syscall E :=
  let w := fresh "w" in apply (syscall_quiet (P := is_stream)) in E as (w & -> & ? & ?).

(** Replacing a buffer by what one of its steps makes of it. *)
Lemma buffer_evolve s k b b' w' :
  bufs_ok s → x_buf s k = Some b → bstep b (x_w s) b' w' → evolve s (set_w (set_buf s k (Some b')) w').
Proof.
  intros Hb Hk (He & Hs & Hp & Ht & Hl). destruct (Hb _ _ Hk) as [Hn _].
  assert (∀ p, tracked s p → tracked (set_w (set_buf s k (Some b')) w') p) as Htr.
  { intros p (Hp0 & j & c & Hj & Hc). split; [done|]. simpl. destruct (decide (j = k)) as [->|Hne].
    - exists k, b'. rewrite decide_True by done. split; [done|]. rewrite Hk in Hj. injection Hj as <-.
      rewrite Ht; congruence.
    - exists j, c. by rewrite decide_False. }
  split; try done.
  - eapply ext_weaken; [|done]. intros m Hm. unfold of_stream in Hm. unfold is_stream. rewrite Hn in Hm.
    destruct k; simpl; auto.
  - intros j c. simpl. destruct (decide (j = k)) as [->|]; [|by apply Hb]. intros [= <-]. by rewrite Hs.
  - exists []. by rewrite app_nil_r.
  - intros p Hx. destruct (Hl p Hx) as [|[[-> Hne]|]]; [by left| |by right; right]. right; left. split; [done|].
    exists k, b'. simpl. by rewrite decide_True.
Qed.

Lemma evolve_live s k v : bufs_ok s → evolve s (set_live s k v).
Proof. intros. apply (evolve_quiet _ _ _ []); try done; [apply ext_refl|by rewrite app_nil_r]. Qed.
Lemma evolve_live_in s v : bufs_ok s → evolve s (set_live_in s v).
Proof. intros. apply (evolve_quiet _ _ _ []); try done; [apply ext_refl|by rewrite app_nil_r]. Qed.

Lemma event_evolve ev s : bufs_ok s → evolve s (step_event ev s).
Proof.
  intros Hb. destruct ev as [k data|k|msg|]; simpl.
  - destruct (x_live s k); [|by apply evolve_refl]. unfold output_pumper.
    destruct (x_buf s k) as [b|] eqn:Ek; [|by apply evolve_refl].
    destruct (Write b data (x_w s)) as [[res b'] w'] eqn:E. apply Write_bstep in E; [|by eapply Hb].
    pose proof (buffer_evolve _ _ _ _ _ Hb Ek E) as H1. destruct res as [u|err]; [done|].
    destruct (errors_is _ _); [|done]. eapply evolve_trans; [done|]. pose proof (ev_bufs _ _ _ H1) as Hb1.
    pose proof (kill_evolve (P := is_stream) SIGKILL _ Hb1 ltac:(by apply (bool_decide_eq_true_1 _); vm_compute)) as H2.
    eapply evolve_trans; [done|]. apply evolve_live. by apply ev_bufs in H2.
  - destruct (x_live s k); [by apply evolve_live|by apply evolve_refl].
  - destruct (x_live_in s); [|by apply evolve_refl].
    destruct (x_usePTY s); [by apply pty_message_evolve|by apply message_evolve].
  - destruct (x_live_in s); [|by apply evolve_refl]. unfold message_end.
    destruct (p_stdinPipe _); [|by apply evolve_live_in].
    pose proof (close_stdin_evolve (P := is_stream) s Hb) as Hc. eapply evolve_trans; [done|]. apply evolve_live_in.
    by apply ev_bufs in Hc.
Qed.

Lemma events_evolve evs s : bufs_ok s → evolve s (run_events evs s).
Proof.
  unfold run_events. revert s. induction evs as [|ev evs IH]; intros s Hb; cbn [foldl]; [by apply evolve_refl|].
  pose proof (event_evolve ev s Hb) as H1. eapply evolve_trans; [done|]. apply IH. by apply ev_bufs in H1.
Qed.

(** ** The end of a run *)

Lemma evolve_files_sub s w :
  bufs_ok s → ext is_stream (x_w s) w →
  (∀ p, is_Some (w_files w !! p) → is_Some (w_files (x_w s) !! p)) → evolve s (set_w s w).
Proof.
  intros Hb He Hf. split; try done; [exists []; by rewrite app_nil_r|]. intros p Hp. left. by apply Hf.
Qed.

Lemma send_evolve (P : ResponseMessage → Prop) msg s err s1 :
  bufs_ok s → P msg → sendMessage msg s = (err, s1) → evolves P s s1.
Proof.
  intros Hb HP. unfold sendMessage. destruct (send (x_w s) msg) as [e w] eqn:E. intros [= <- <-].
  pose proof (send_spec _ _ _ _ E) as [Hf _]. apply (send_ext P) in E; [|done].
  apply (evolve_quiet _ _ _ []); try done. simpl. by rewrite app_nil_r.
Qed.

Lemma send_chunks_evolve ty l s err s1 :
  (ty = MsgTypeStdout ∨ ty = MsgTypeStderr) → bufs_ok s → send_chunks ty l s = (err, s1) → evolve s s1.
Proof.
  intros Ht. revert s. induction l as [|c l IH]; intros s Hb; cbn [send_chunks].
  { intros [= <- <-]. by apply evolve_refl. }
  assert (is_stream (output_msg ty (EncodeToString StdEncoding c))) as Hm
    by (destruct Ht as [-> | ->]; [left|right]; by exists c).
  destruct (sendMessage _ s) as [[e|] s2] eqn:E; apply (send_evolve is_stream) in E; try done.
  - by intros [= <- <-].
  - intros E2. eapply evolve_trans; [done|]. apply IH; [by apply ev_bufs in E|done].
Qed.

Lemma streamFile_evolve path ty s err s1 :
  (ty = MsgTypeStdout ∨ ty = MsgTypeStderr) → bufs_ok s → streamFile path ty s = (err, s1) → evolve s s1.
Proof.
  intros Ht Hb. unfold streamFile. destruct (syscall s) as [[] s2] eqn:E; by_syscall E.
  { intros [= <- <-]. by apply evolve_w. }
  assert (evolve s (set_w s w)) as H1 by by apply evolve_w.
  destruct (w_files _ !! path) as [data|]; [|by intros [= <- <-]].
  intros E2. eapply evolve_trans; [done|]. apply send_chunks_evolve in E2; try done.
Qed.

Lemma remove_evolve s path : bufs_ok s → evolve s (set_w s (remove_file (x_w s) path)).
Proof.
  intros Hb. apply evolve_files_sub; [done|apply remove_file_ext|]. intros p. apply remove_file_sub.
Qed.

Lemma finalizeStream_evolve k ty s err s1 :
  (ty = MsgTypeStdout ∨ ty = MsgTypeStderr) → bufs_ok s → finalizeStream k ty s = (err, s1) → evolve s s1.
Proof.
  intros Ht Hb. unfold finalizeStream. destruct (x_buf s k) as [b|] eqn:Ek; [|intros [= <- <-]; by apply evolve_refl].
  destruct (Finalize b (x_w s)) as [[res b'] w'] eqn:E. apply Finalize_bstep in E as [E _]; [|by eapply Hb].
  pose proof (buffer_evolve _ _ _ _ _ Hb Ek E) as H1. destruct res as [path|e]; [|by intros [= <- <-]].
  destruct (bool_decide _); [by intros [= <- <-]|].
  destruct (streamFile path ty _) as [[e|] s2] eqn:E2; apply streamFile_evolve in E2; try done;
    try by eapply ev_bufs. 
  - intros [= <- <-]. by eapply evolve_trans.
  - intros [= <- <-]. eapply evolve_trans; [done|]. eapply evolve_trans; [done|].
    apply remove_evolve. by eapply ev_bufs.
Qed.

Lemma finalizeOutput_evolve s : bufs_ok s → evolve s (finalizeOutput s).2.
Proof.
  intros Hb. unfold finalizeOutput. destruct (x_usePTY s).
  { destruct (finalizeStream _ _ s) as [e s1] eqn:E. apply finalizeStream_evolve in E; auto. }
  destruct (finalizeStream Sout _ s) as [e1 s1] eqn:E1. apply finalizeStream_evolve in E1; auto.
  destruct (finalizeStream Serr _ s1) as [e2 s2] eqn:E2.
  apply finalizeStream_evolve in E2; auto; [by eapply evolve_trans|by eapply ev_bufs].
Qed.

Lemma emit_evolve e t0 dt code t s : bufs_ok s → evolve s (emitAuditEntry e t0 dt code t s).
Proof.
  intros Hb. unfold emitAuditEntry. repeat case_match; try (by apply evolve_refl).
  apply (evolve_quiet _ _ _ []); try done; [apply ext_refl|]. by rewrite app_nil_r.
Qed.

(** *** The messages of the end of a run: the terminal one, among those of the streams. *)
Definition any_msg (m : ResponseMessage) : Prop := True.

Definition silent (evs : list event) : Prop := Forall (λ ev, match ev with EvOutput _ _ => False | _ => True end) evs.

(** One terminal message [t] was tried, [f] says whether the system refused it, and
    only output before and after it. *)
Definition ends_with (t : ResponseMessage) (quiet_end : Prop) (w w' : world) : Prop :=
  ∃ cs pre f post, made any_msg w w' cs ∧ messages_of cs = pre ++ (t, f) :: post ∧
    Forall (λ m, is_stream m.1) pre ∧ Forall (λ m, is_stream m.1) post ∧ (quiet_end → post = []).

Definition concludes (t : ResponseMessage) (quiet_end : Prop) (s s' : run_state) : Prop :=
  evolves any_msg s s' ∧ ends_with t quiet_end (x_w s) (x_w s').

Lemma ends_with_before t q w1 w2 w3 : ext is_stream w1 w2 → ends_with t q w2 w3 → ends_with t q w1 w3.
Proof.
  intros ((c1 & M1) & _) (cs & pre & f & post & M & Hm & F1 & F2 & Hq). pose proof M1 as (_ & _ & F & _).
  exists (c1 ++ cs), (messages_of c1 ++ pre), f, post. split.
  { eapply made_app; [|exact M]. by eapply made_weaken. }
  rewrite messages_of_app, Hm, app_assoc. split; [done|]. split; [by apply Forall_app|done].
Qed.

Lemma ends_with_after t q w1 w2 w3 cs : ends_with t q w1 w2 → made (λ _, False) w2 w3 cs → ends_with t q w1 w3.
Proof.
  rename cs into c2. intros (cs & pre & f & post & M & Hm & F1 & F2 & Hq) M2. pose proof M2 as (_ & _ & F & _).
  exists (cs ++ c2), pre, f, post. split; [eapply made_app; [exact M|]; by eapply made_weaken|].
  assert (messages_of c2 = []) as Hn by (destruct (messages_of c2); [done|by inversion F]).
  by rewrite messages_of_app, Hm, Hn, app_nil_r.
Qed.

Lemma evolve_then_concludes s1 s2 s3 t q :
  evolve s1 s2 → concludes t q s2 s3 → concludes t q s1 s3.
Proof.
  intros E1 (E2 & H). split; [eapply evolve_trans; [|done]; by eapply evolve_weaken|].
  eapply ends_with_before; [apply E1|done].
Qed.

Lemma silent_evolve evs s : silent evs → bufs_ok s → evolves (λ _, False) s (run_events evs s).
Proof.
  unfold run_events. intros Hs. revert s. induction Hs as [|ev evs Hev Hs IH]; intros s Hb; cbn [foldl].
  { by apply evolve_refl. }
  assert (evolves (λ _, False) s (step_event ev s)) as H1.
  { destruct ev as [k data|k|msg|]; simpl; [done|..].
    - destruct (x_live s k); [|by apply evolve_refl].
      apply (evolve_quiet _ _ _ []); try done; [apply ext_refl|by rewrite app_nil_r].
    - destruct (x_live_in s); [|by apply evolve_refl].
      destruct (x_usePTY s); [by apply pty_message_evolve|by apply message_evolve].
    - destruct (x_live_in s); [|by apply evolve_refl].
      assert (∀ s, bufs_ok s → evolves (λ _, False) s (set_live_in s false)) as HL.
      { intros s0 Hb0. apply (evolve_quiet _ _ _ []); try done; [apply ext_refl|by rewrite app_nil_r]. }
      unfold message_end. destruct (p_stdinPipe _); [|by apply HL].
      pose proof (close_stdin_evolve (P := λ _, False) s Hb) as Hc. eapply evolve_trans; [done|].
      apply HL. by apply ev_bufs in Hc. }
  eapply evolve_trans; [done|]. apply IH. by apply ev_bufs in H1.
Qed.

Lemma sendMessage_send msg s err s1 : sendMessage msg s = (err, s1) → send (x_w s) msg = (err, x_w s1).
Proof. unfold sendMessage. destruct (send (x_w s) msg) as [e w]. by intros [= <- <-]. Qed.

(** A terminal message, and what the pumpers still send after it. *)
Lemma terminal_concludes t evs s err s1 :
  bufs_ok s → sendMessage t s = (err, s1) →
  concludes t (silent evs) s (run_events evs s1).
Proof.
  intros Hb E. pose proof (send_evolve any_msg t s err s1 Hb I E) as H1.
  pose proof (ev_bufs _ _ _ H1) as Hb1. pose proof (events_evolve evs s1 Hb1) as H2.
  split; [eapply evolve_trans; [done|by eapply evolve_weaken]|].
  destruct (send_made any_msg (x_w s) t err (x_w s1)) as (f & M & Hm); [done|by apply sendMessage_send|].
  destruct (ev_ext _ _ _ H2) as ((cs & M2) & _). pose proof M2 as (_ & _ & F & _).
  exists ([(CallSend t, f)] ++ cs), [], f, (messages_of cs). split.
  { eapply made_app; [exact M|]. by eapply made_weaken. }
  split; [done|]. split; [constructor|]. split; [done|]. intros Hs.
  destruct (ev_ext _ _ _ (silent_evolve evs s1 Hs Hb1)) as ((cs' & M3) & _).
  destruct M2 as (C2 & _), M3 as (C3 & _ & F3 & _). rewrite C2 in C3. apply app_inv_head in C3 as <-.
  destruct (messages_of cs); [done|by inversion F3].
Qed.

Definition final_message (o : outcome) : ResponseMessage :=
  match o with
  | Exited exitCode => done_msg exitCode false
  | WaitFailed => error_msg "process error"
  | TimedOut _ => done_msg (-1) true
  end.

Lemma finish_concludes e sd code t s :
  bufs_ok s → concludes (done_msg code t) (silent (sd_after sd)) s (finish e sd code t s).
Proof.
  intros Hb. unfold finish. set (s1 := run_events (sd_drain sd) s).
  assert (evolve s s1) as H1 by by apply events_evolve.
  set (s2 := (finalizeOutput s1).2). assert (evolve s1 s2) as H2 by (apply finalizeOutput_evolve; by eapply ev_bufs).
  set (s3 := run_events (sd_late sd) s2). assert (evolve s2 s3) as H3 by (apply events_evolve; by eapply ev_bufs).
  set (s4 := emitAuditEntry _ _ _ _ _ s3). assert (evolve s3 s4) as H4 by (apply emit_evolve; by eapply ev_bufs).
  eapply evolve_then_concludes; [exact H1|]. eapply evolve_then_concludes; [exact H2|].
  eapply evolve_then_concludes; [exact H3|]. eapply evolve_then_concludes; [exact H4|].
  unfold sendDone. destruct (sendMessage _ s4) as [err s5] eqn:E. eapply terminal_concludes; [|done].
  by eapply ev_bufs.
Qed.

Lemma runIOLoop_concludes e sd s :
  bufs_ok s → concludes (final_message (sd_outcome sd)) (silent (sd_after sd)) s (runIOLoop e sd s).2.
Proof.
  intros Hb. unfold runIOLoop. set (s1 := run_events (sd_running sd) s).
  assert (evolve s s1) as H1 by by apply events_evolve. pose proof (ev_bufs _ _ _ H1) as Hb1.
  eapply evolve_then_concludes; [exact H1|].
  assert (∀ s, bufs_ok s → evolve s (wait_returns s)) as HW by (intros; by apply close_stdin_evolve).
  destruct (sd_outcome sd) as [code| |g]; cbn [snd final_message].
  - eapply evolve_then_concludes; [by apply HW|]. apply finish_concludes. by eapply ev_bufs, HW.
  - eapply evolve_then_concludes; [by apply HW|]. unfold sendError.
    destruct (sendMessage _ _) as [err s5] eqn:E. eapply terminal_concludes; [|done]. by eapply ev_bufs, HW.
  - unfold handleTimeout. set (s2 := (killProcessGroup SIGTERM s1).2).
    assert (evolve s1 s2) as H2 by (apply kill_evolve; [done|by apply (bool_decide_eq_true_1 _); vm_compute]).
    set (s3 := run_events _ s2). assert (evolve s2 s3) as H3 by (apply events_evolve; by eapply ev_bufs).
    eapply evolve_then_concludes; [exact H2|]. eapply evolve_then_concludes; [exact H3|].
    set (s4 := if g then _ else _). assert (evolve s3 s4) as H4.
    { unfold s4. destruct g; [apply HW; by eapply ev_bufs|].
      apply kill_evolve; [by eapply ev_bufs|by apply (bool_decide_eq_true_1 _); vm_compute]. }
    eapply evolve_then_concludes; [exact H4|]. apply finish_concludes. by eapply ev_bufs.
Qed.
End run.
