(* ===== verification/RunSafety.v ===== *)
(** What a run of a tool leaves behind ([Executor.v]): its preparation, its
    cleanup, and the guarantees of [Run] as a whole. *)

From S2P Require Import Prelude GoStrings Base64 Protocol GoTime GoPath Paths Regexp ConfigTypes Interpolate Redactor World OutputBuffer Config Settings ConfigLaws Env Runtime AuditLog Executor ExecutorLaws RunLaws.
Local Open Scope Z_scope.

(** ** Paths below a directory *)

Lemma root_path_below d cs : d ≠ [] → below (root_path d) (root_path (d ++ cs)) = true.
Proof.
  intros Hd. unfold below. destruct cs as [|c cs].
  - rewrite app_nil_r. by rewrite bool_decide_eq_true_2.
  - apply orb_true_iff. right. apply HasPrefix_spec. exists (b2s (join_comps (c :: cs))).
    unfold root_path. apply (inj s2b). rewrite !s2b_app, !s2b_b2s, join_comps_app by done.
    change (s2b "/") with [slash]. by rewrite <- app_assoc.
Qed.

Lemma good_comps_app d cs :
  good_comps d → Forall (λ w, slash ∉ w) cs → Forall plain_comp cs → good_comps (d ++ cs).
Proof.
  intros (H1 & H2 & H3) Hs Hp. split; [by destruct d|]. split; by apply Forall_app.
Qed.

(** The names [os.MkdirTemp] chooses. *)
Lemma temp_name_zeros fuel prefix files :
  ∃ n, temp_name_from fuel prefix files = prefix +:+ b2s (replicate n "0"%char).
Proof.
  revert prefix. induction fuel as [|fuel IH]; intros prefix; simpl.
  { exists 0%nat. apply (inj s2b). by rewrite s2b_app, s2b_b2s, app_nil_r. }
  case_bool_decide.
  - destruct (IH (prefix +:+ "0")) as [n ->]. exists (S n). apply (inj s2b).
    rewrite !s2b_app, !s2b_b2s, <- app_assoc. done.
  - exists 0%nat. apply (inj s2b). by rewrite s2b_app, s2b_b2s, app_nil_r.
Qed.

Definition config_prefix := "claw-wrap-config-".
Lemma temp_dir_comps files :
  ∃ d, good_comps d ∧ temp_name (TempDir +:+ config_prefix) files = root_path d.
Proof.
  destruct (temp_name_zeros (S (size files)) (TempDir +:+ config_prefix) files) as [n Hn].
  set (x := s2b config_prefix ++ replicate n "0"%char).
  assert (slash ∉ x) as Hx.
  { unfold x. rewrite not_elem_of_app. split.
    - by apply (bool_decide_eq_true_1 _); vm_compute.
    - intros Hin. apply elem_of_replicate in Hin as [Hin _]. discriminate. }
  exists [s2b "tmp"; x]. split.
  - split; [done|]. split.
    + constructor; [by apply (bool_decide_eq_true_1 _); vm_compute|]. by constructor.
    + constructor; [done|]. constructor; [|done]. done.
  - unfold temp_name. rewrite Hn. unfold root_path. apply (inj s2b). rewrite !s2b_app, !s2b_b2s. done.
Qed.

(** ** The configuration file *)

Lemma mkdir_temp_spec w prefix um r w' :
  mkdir_temp w prefix um = (r, w') →
  ext (λ _, False) w (set_dirs w' (w_dirs w)) ∧ w_files w' = w_files w ∧ w_root w' = w_root w ∧
  match r with
  | Ok path => path = temp_name prefix (w_files w ∪ ((λ _, []) <$> w_dirs w)) ∧
      w_dirs w' = <[path := Z.ldiff 448 um]> (w_dirs w)
  | Err _ => w_dirs w' = w_dirs w
  end.
Proof.
  unfold mkdir_temp. destruct (refused w) as [[] w1] eqn:E; pose proof (refused_same _ _ _ E) as [Hf _];
    apply (refused_ext (λ _, False)) in E; pose proof E as (_ & Hd & Hr); intros [= <- <-]; simpl.
  - split; [|done]. rewrite <- Hd. by destruct w1.
  - split; [rewrite <- Hd; by destruct w1|]. split; [done|]. split; [done|]. by rewrite Hd, Hf.
Qed.

(** What a step may do to the directories: only new ones below [root]. *)
Definition dirs_step (root : string) (w w' : world) : Prop :=
  ext (λ _, False) w (set_dirs w' (w_dirs w)) ∧ w_files w' = w_files w ∧ w_root w' = w_root w ∧
  ∀ p, is_Some (w_dirs w' !! p) → is_Some (w_dirs w !! p) ∨ below root p = true.

Lemma ext_dirs w w' d : ext (λ _, False) w w' → ext (λ _, False) (set_dirs w d) (set_dirs w' d).
Proof. intros ((cs & M) & Hd & Hr). split; [|done]. by exists cs. Qed.

Lemma mkdir_under_spec r0 d comps um w e w' :
  mkdir_under w (root_path (r0 ++ d)) (b2s <$> comps) um = (e, w') → good_comps (r0 ++ d) → r0 ≠ [] →
  Forall (λ c, slash ∉ c) comps → Forall plain_comp comps → dirs_step (root_path r0) w w'.
Proof.
  revert d w. induction comps as [|c comps IH]; intros d w E Hg Hr Hs Hp; cbn [mkdir_under fmap list_fmap] in E.
  { injection E as <- <-. split; [|naive_solver]. split; [|done]. exists []. by apply made_nil. }
  inversion Hs as [|? ? Hc Hs']; subst. inversion Hp as [|? ? Hcp Hp']; subst.
  assert (split_char slash (s2b (b2s c)) = [c]) as Hsplit.
  { rewrite s2b_b2s. by apply split_char_none. }
  rewrite PathJoin_under, root_path_app, Hsplit in E; [|apply Hg|done|by rewrite Hsplit; constructor].
  rewrite <- app_assoc in E.
  assert (good_comps (r0 ++ d ++ [c])) as Hg'.
  { rewrite app_assoc. apply good_comps_app; [done|by constructor|by constructor]. }
  destruct (bool_decide _); [by apply IH in E|].
  destruct (negb (can_create _ _)).
  { injection E as <- <-. split; [|naive_solver]. split; [|done]. exists []. by apply made_nil. }
  destruct (refused w) as [[] w1] eqn:Er; pose proof (refused_same _ _ _ Er) as [Hf1 _];
    apply (refused_ext (λ _, False)) in Er; pose proof Er as (_ & Hd1 & Hr1).
  - injection E as <- <-. split; [|rewrite Hd1; naive_solver]. rewrite <- Hd1. by destruct w1.
  - apply IH in E; try done. destruct E as (He & Hf & Hro & Hd).
    split.
    { eapply ext_trans; [exact Er|]. rewrite <- Hd1.
      apply (ext_dirs _ _ (w_dirs w1)) in He. simpl in He. by destruct w1, w'. }
    split; [by rewrite Hf|]. split; [by rewrite Hro|]. intros p Hp0. destruct (Hd p Hp0) as [Hin|]; [|by right].
    simpl in Hin. rewrite Hd1 in Hin. destruct (decide (p = root_path (r0 ++ d ++ [c]))) as [->|Hne].
    + right. by apply root_path_below.
    + rewrite lookup_insert_ne in Hin by congruence. by left.
Qed.

Section run.
Context `{RE : Regexp} `{UC : UnicodeCase} `{DP : DurationParser} `{OSi : OS} `{HO : Host} `{MR : MapRange}
  `{HA : Hash}.
Context (resolve : string → CredentialDef → result string).

(** The preparation of a run: it sends nothing, starts nothing, and what it
    creates is in the configuration directory. *)
Definition in_config (s : run_state) (p : string) : Prop :=
  x_configDir s ≠ "" ∧ below (x_configDir s) p = true.

Record prepares (s s' : run_state) : Prop := {
  pre_ext : ext (λ _, False) (x_w s) (set_dirs (x_w s') (w_dirs (x_w s)));
  pre_proc : x_proc s' = x_proc s;
  pre_buf : x_buf s' = x_buf s;
  pre_audit : x_audit s' = x_audit s;
  pre_workDir : x_workDir s' = x_workDir s;
  pre_files : ∀ p, is_Some (w_files (x_w s') !! p) → is_Some (w_files (x_w s) !! p) ∨ in_config s' p;
  pre_dirs : ∀ p, is_Some (w_dirs (x_w s') !! p) → is_Some (w_dirs (x_w s) !! p) ∨ in_config s' p;
}.

Lemma ext_none w : ext (λ _, False) w (set_dirs w (w_dirs w)).
Proof. split; [|done]. exists []. by apply made_nil. Qed.

Lemma write_file_spec w dir path data e w' :
  write_file w dir path data = (e, w') →
  ext (λ _, False) w w' ∧ ∀ p, is_Some (w_files w' !! p) → is_Some (w_files w !! p) ∨ p = path.
Proof.
  unfold write_file. destruct (negb _); [intros [= <- <-]; split; [apply ext_refl|by left]|].
  destruct (refused w) as [[] w1] eqn:Er; pose proof (refused_same _ _ _ Er) as [Hf _];
    apply (refused_ext (λ _, False)) in Er; intros [= <- <-].
  - split; [done|]. intros p. rewrite Hf. by left.
  - split; [eapply ext_trans; [done|apply set_files_ext]|]. intros p. simpl. rewrite Hf.
    destruct (decide (p = path)) as [->|Hne]; [by right|]. rewrite lookup_insert_ne by congruence. by left.
Qed.

Lemma ext_compose w1 w2 w3 d :
  ext (λ _, False) w1 (set_dirs w2 (w_dirs w1)) → ext (λ _, False) w2 (set_dirs w3 d) →
  ext (λ _, False) w1 (set_dirs w3 (w_dirs w1)).
Proof.
  intros H1 H2. eapply ext_trans; [exact H1|]. apply (ext_dirs _ _ (w_dirs w1)) in H2. exact H2.
Qed.

Lemma setup_prepares e s r s' :
  setupConfigFile resolve e s = (r, s') → x_configDir s = "" →
  (∀ def, td_ConfigFile (e_tool e) = Some def → validateConfigFileDef def = Ok tt) →
  prepares s s'.
Proof.
  intros E Hc Hdef. unfold setupConfigFile in E.
  destruct (td_ConfigFile (e_tool e)) as [def|].
  2: { injection E as <- <-. split; try done; [apply ext_none|by left|by left]. }
  specialize (Hdef def eq_refl). unfold validateConfigFileDef in Hdef. inv_ok.
  apply validateSafeRelativePath_comps in H as (Hsub & Hsubp & _).
  apply validateSafeRelativePath_comps in H0 as (Hfn & Hfnp & _).
  destruct (mkdir_temp (x_w s) _ _) as [[tempDir|err] w1] eqn:E1; apply mkdir_temp_spec in E1 as (X1 & F1 & R1 & D1).
  2: { injection E as <- <-. split; try done; simpl; [rewrite F1; by left|rewrite D1; by left]. }
  destruct D1 as [Ht D1].
  destruct (temp_dir_comps (w_files (x_w s) ∪ ((λ _, []) <$> w_dirs (x_w s)))) as (d & Hg & Hd).
  change (TempDir +:+ config_prefix) with (TempDir +:+ "claw-wrap-config-") in Hd. rewrite <- Ht in Hd.
  clear Ht. subst tempDir. pose proof Hg as (Hdn & Hds & Hdp).
  assert (root_path d ≠ "") as Hrn.
  { unfold root_path. intros Hx. apply (f_equal s2b) in Hx. by rewrite s2b_b2s in Hx. }
  assert (∀ p, is_Some (w_dirs w1 !! p) → is_Some (w_dirs (x_w s) !! p) ∨ below (root_path d) p = true) as D1'.
  { intros p. rewrite D1. destruct (decide (p = root_path d)) as [->|Hne].
    - right. rewrite <- (app_nil_r d) at 2. by apply root_path_below.
    - rewrite lookup_insert_ne by congruence. by left. }
  set (s1 := set_configDir (set_w s w1) (root_path d)) in E.
  assert (subdir_comps (cf_XDGSubdir def) = b2s <$> split_char slash (s2b (cf_XDGSubdir def))) as Hcomps.
  { unfold subdir_comps, clean_comps. rewrite foldl_clean_plain by done. by rewrite app_nil_r, reverse_involutive. }
  rewrite Hcomps in E.
  destruct (mkdir_under _ _ _ _) as [e2 w2] eqn:E2. rewrite <- (app_nil_r d) in E2.
  apply mkdir_under_spec in E2 as (X2 & F2 & R2 & D2); [|by rewrite app_nil_r|done|apply split_char_no_sep|done].
  change (x_w s1) with w1 in *.
  assert (prepares s (set_w s1 w2)) as H2.
  { split; try done; simpl.
    - by eapply ext_compose.
    - intros p. rewrite F2, F1. by left.
    - intros p Hp. destruct (D2 p Hp) as [Hp1|]; [|by right].
      destruct (D1' p Hp1) as [|]; [by left|by right]. }
  destruct e2 as [err|]; [by injection E as <- <-|].
  destruct (config_credentials _ _ _ _ _) as [[vals secrets]|err]; [|by injection E as <- <-].
  destruct (write_file _ _ _ _) as [e3 w3] eqn:E3. apply write_file_spec in E3 as (X3 & F3).
  change (x_w (set_secrets (set_w s1 w2) secrets)) with w2 in *.
  assert (prepares s (set_w (set_secrets (set_w s1 w2) secrets) w3)) as H3.
  { pose proof X3 as (_ & Dx & _).
    destruct H2. split; try done; simpl in *.
    - apply (ext_compose _ w2 _ (w_dirs w2)); [done|]. rewrite <- Dx. by destruct w3.
    - intros p Hp. destruct (F3 p Hp) as [Hp2| ->]; [by apply pre_files0|]. right. split; [done|]. simpl.
      rewrite PathJoin_under by done. rewrite root_path_app by done. rewrite PathJoin_under; [|apply good_comps_app; [done|apply split_char_no_sep|done]|done].
      rewrite root_path_app, <- app_assoc by (intros Hx; apply app_eq_nil in Hx as [? _]; done).
      by apply root_path_below.
    - intros p. rewrite Dx. apply pre_dirs0. }
  by destruct e3; injection E as <- <-.
Qed.

(** ** The start *)

Definition launch_of (e : ToolExecutor) (env : list string) (dir : string) : launch :=
  let pty := pr_use_pty (e_req e) && GetUsePTY (e_tool e) in
  {| l_binary := td_Binary (e_tool e); l_args := args_of (e_req e); l_dir := dir; l_env := env; l_pty := pty;
     l_size := if pty then pr_window_size (e_req e) else None |}.

Record starts (e : ToolExecutor) (env : list string) (pid : Z) (s s' : run_state) (r : result unit) : Prop := {
  st_ext : ext (λ _, False) (x_w s) (x_w s');
  st_files : w_files (x_w s') = w_files (x_w s);
  st_config : x_configDir s' = x_configDir s;
  st_audit : x_audit s' = x_audit s;
  st_bufs : bufs_ok s';
  st_untracked : ∀ p, ¬ tracked s' p;
  st_stdin : stdin_ok (x_proc s');
  st_proc : match r with
    | Ok _ => p_launch (x_proc s') = Some (launch_of e env (x_workDir s)) ∧ p_pgid (x_proc s') = pid ∧
        p_signals (x_proc s') = []
    | Err _ => p_launch (x_proc s') = None ∧ p_pgid (x_proc s') = 0 ∧ p_signals (x_proc s') = []
    end;
}.

Lemma new_buffer_fields e secrets name th :
  ob_stream (new_buffer e secrets name th) = name ∧ ob_tempPath (new_buffer e secrets name th) = "" ∧
  ob_tempFile (new_buffer e secrets name th) = None ∧ ob_inlineMode (new_buffer e secrets name th) = true.
Proof. unfold new_buffer. by destruct (NewOutputRedactorWithSecrets _ _), (wants_hash e). Qed.

(** Buffers that are all new. *)
Definition fresh_bufs (s : run_state) : Prop :=
  ∀ k b, x_buf s k = Some b → ob_stream b = stream_name k ∧ ob_tempPath b = "" ∧ ob_tempFile b = None ∧
    ob_inlineMode b = true.

Lemma fresh_ok s : fresh_bufs s → bufs_ok s ∧ ∀ p, ¬ tracked s p.
Proof.
  intros Hf. split.
  - intros k b Hb. destruct (Hf k b Hb) as (? & Hp & Ht & Hi). split; [done|]. split; [by rewrite Hp, Hi|].
    intros p. by rewrite Ht.
  - intros p (Hn & k & b & Hb & Hp). destruct (Hf k b Hb) as (? & Hp' & _). congruence.
Qed.

Lemma fresh_set s k e secrets th :
  fresh_bufs s → fresh_bufs (set_buf s k (Some (new_buffer e secrets (stream_name k) th))).
Proof.
  intros Hf j b. simpl. destruct (decide (j = k)) as [->|]; [|apply Hf]. intros [= <-]. apply new_buffer_fields.
Qed.

Lemma start_none e env pid s s' err :
  ext (λ _, False) (x_w s) (x_w s') → w_files (x_w s') = w_files (x_w s) → x_configDir s' = x_configDir s →
  x_audit s' = x_audit s → fresh_bufs s' → stdin_ok (x_proc s') → p_launch (x_proc s') = None →
  p_pgid (x_proc s') = 0 → p_signals (x_proc s') = [] → starts e env pid s s' (Err err).
Proof. intros ? ? ? ? [? ?]%fresh_ok ? ? ? ?. by split. Qed.

Lemma startProcess_starts e env pid s r s' :
  startProcess e env pid s = (r, s') → x_proc s = no_process → x_buf s = (λ _, None) →
  starts e env pid s s' r.
Proof.
  intros E Hp Hb. unfold startProcess in E.
  set (s0 := set_usePTY s _) in E.
  assert (fresh_bufs s0) as Hf0 by (intros k b; simpl; by rewrite Hb).
  change (x_usePTY s0) with (pr_use_pty (e_req e) && GetUsePTY (e_tool e)) in E.
  destruct (pr_use_pty (e_req e) && GetUsePTY (e_tool e)) eqn:Epty.
  - unfold startProcessWithPTY in E.
    destruct (syscall s0) as [[] s1] eqn:E1; apply (syscall_quiet (P := λ _, False)) in E1 as (w1 & -> & X1 & F1);
      injection E as <- <-.
    + apply start_none; simpl; rewrite ?Hp; done.
    + assert (∀ s1, fresh_bufs s1 → fresh_bufs (set_live_in (set_live s1 Spty true) true)) as HL by done.
      match goal with |- starts _ _ _ _ ?x _ => assert (fresh_bufs x) as Hf by (apply HL, (fresh_set _ Spty); done) end.
      apply fresh_ok in Hf as [? ?]. split; try done. simpl. unfold launch_of. by rewrite Epty.
  - destruct (syscall s0) as [[] s1] eqn:E1; apply (syscall_quiet (P := λ _, False)) in E1 as (w1 & -> & X1 & F1).
    { injection E as <- <-. apply start_none; simpl; rewrite ?Hp; done. }
    destruct (syscall _) as [[] s2] eqn:E2; apply (syscall_quiet (P := λ _, False)) in E2 as (w2 & -> & X2 & F2).
    { injection E as <- <-. simpl in *. apply start_none; simpl; rewrite ?Hp; try done;
        [by eapply ext_trans|by rewrite F2]. }
    simpl in X2, F2. assert (ext (λ _, False) (x_w s) w2) as X02 by by eapply ext_trans.
    assert (w_files w2 = w_files (x_w s)) as F02 by by rewrite F2.
    unfold open_stdin in E.
    set (t := set_proc _ (with_outputs _ true)) in E.
    assert (fresh_bufs t ∧ ext (λ _, False) (x_w s) (x_w t) ∧ w_files (x_w t) = w_files (x_w s) ∧
      x_configDir t = x_configDir s ∧ x_audit t = x_audit s ∧ x_workDir t = x_workDir s ∧ stdin_ok (x_proc t) ∧
      p_launch (x_proc t) = None ∧ p_pgid (x_proc t) = 0 ∧ p_signals (x_proc t) = [])
      as (Hft & Xt & Ft & Ct & At & Wt & It & Lt & Gt & St).
    { unfold t. simpl. rewrite Hp. done. }
    clearbody t. clear X1 F1 X2 F2 X02 F02 w1 w2 Hf0.
    set (o := if GetUseStdin (e_tool e) then _ else _) in E.
    destruct o as [ro u] eqn:Eo.
    assert (fresh_bufs u ∧ ext (λ _, False) (x_w s) (x_w u) ∧ w_files (x_w u) = w_files (x_w s) ∧
      x_configDir u = x_configDir s ∧ x_audit u = x_audit s ∧ x_workDir u = x_workDir s ∧ stdin_ok (x_proc u) ∧
      p_launch (x_proc u) = None ∧ p_pgid (x_proc u) = 0 ∧ p_signals (x_proc u) = [])
      as (Hfu & Xu & Fu & Cu & Au & Wu & Iu & Lu & Gu & Su).
    { unfold o in Eo. destruct (GetUseStdin _); [|by injection Eo as <- <-].
      destruct (syscall t) as [[] s1] eqn:E1; apply (syscall_quiet (P := λ _, False)) in E1 as (w1 & -> & X1 & F1);
        injection Eo as <- <-; simpl; (split; [done|]); (split; [by eapply ext_trans|]);
        (split; [by rewrite F1|]); done. }
    clear o Eo. destruct ro as [[]|err]; [|injection E as <- <-; by apply start_none].
    set (v := set_buf (set_buf u _ _) _ _) in E.
    assert (fresh_bufs v) as Hfv by (apply (fresh_set _ Serr), (fresh_set _ Sout); done).
    destruct (syscall v) as [[] s1] eqn:E1; apply (syscall_quiet (P := λ _, False)) in E1 as (w1 & -> & X1 & F1);
      injection E as <- <-; simpl in X1, F1.
    + apply start_none; simpl; try done; [by eapply ext_trans|by rewrite F1].
    + assert (∀ p v, fresh_bufs v → fresh_bufs (set_live_in (set_live (set_live (set_proc v p) Sout true) Serr true) true)) as HL by done.
      match goal with |- starts _ _ _ _ ?x _ => assert (fresh_bufs x) as Hf by (apply HL; done) end.
      apply fresh_ok in Hf as [? ?]. split; try done; simpl; [by eapply ext_trans|by rewrite F1|].
      unfold launch_of. rewrite Epty, Wu. done.
Qed.

(** ** The cleanup *)

(** The calls of the cleanup that signal the process group. *)
Definition kill_calls (s : run_state) (cs : list (call * bool)) : Prop :=
  if bool_decide (p_pgid (x_proc s) = 0) then signals_of cs = [] else ∃ f, signals_of cs = [(SIGKILL, f)].

Lemma cleanup_process_spec s :
  bufs_ok s →
  let s' := cleanup_process s in
  evolves (λ _, False) s s' ∧ w_files (x_w s') = w_files (x_w s) ∧ x_buf s' = x_buf s ∧
  x_audit s' = x_audit s ∧
  p_stdinPipe (x_proc s') = false ∧ p_ptyMaster (x_proc s') = false ∧ p_outputs_open (x_proc s') = false ∧
  (stdin_ok (x_proc s) → p_stdin_open (x_proc s') = false) ∧
  ∃ cs, made (λ _, False) (x_w s) (x_w s') cs ∧ kill_calls s cs ∧
    p_signals (x_proc s') = p_signals (x_proc s) ++ signalled cs.
Proof.
  intros Hb. unfold cleanup_process.
  set (s1 := if p_stdinPipe (x_proc s) then _ else s).
  assert (p_stdinPipe (x_proc s1) = false ∧ x_w s1 = x_w s ∧ x_buf s1 = x_buf s ∧ x_audit s1 = x_audit s ∧
    x_configDir s1 = x_configDir s ∧ p_launch (x_proc s1) = p_launch (x_proc s) ∧
    p_pgid (x_proc s1) = p_pgid (x_proc s) ∧ p_signals (x_proc s1) = p_signals (x_proc s) ∧
    (stdin_ok (x_proc s) → p_stdin_open (x_proc s1) = false))
    as (P1 & W1 & B1 & A1 & C1 & L1 & G1 & S1 & I1).
  { unfold s1. destruct (p_stdinPipe (x_proc s)) eqn:Ep.
    - pose proof (close_stdin_closes s) as Hcl. revert Hcl. unfold close_stdin. by destruct (p_stdin_open (x_proc s)).
    - split_and!; try done. unfold stdin_ok. rewrite Ep. by destruct (p_stdin_open (x_proc s)); [intros H; specialize (H eq_refl)|]. }
  clearbody s1. set (s2 := set_proc (set_proc s1 _) _).
  assert (p_stdinPipe (x_proc s2) = false ∧ p_ptyMaster (x_proc s2) = false ∧ p_outputs_open (x_proc s2) = false ∧
    x_w s2 = x_w s ∧ x_buf s2 = x_buf s ∧ x_audit s2 = x_audit s ∧ x_configDir s2 = x_configDir s ∧
    p_launch (x_proc s2) = p_launch (x_proc s) ∧ p_pgid (x_proc s2) = p_pgid (x_proc s) ∧
    p_signals (x_proc s2) = p_signals (x_proc s) ∧ (stdin_ok (x_proc s) → p_stdin_open (x_proc s2) = false))
    as (P2 & Y2 & O2 & W2 & B2 & A2 & C2 & L2 & G2 & S2 & I2) by done.
  clearbody s2. clear s1 P1 W1 B1 A1 C1 L1 G1 S1 I1.
  assert (evolves (λ _, False) s s2) as H2.
  { apply (evolve_quiet _ _ _ []); try done; rewrite ?W2, ?S2, ?app_nil_r; try done; [apply ext_refl|].
    intros Hi Ho. by rewrite I2 in Ho. }
  rewrite G2. unfold kill_calls. destruct (bool_decide_reflect (p_pgid (x_proc s) = 0)) as [G0|G0].
  { rewrite (proj2 (Z.eqb_eq _ _)) by done. cbn [negb]. rewrite W2. split_and!; try done.
    exists []. split; [by apply made_nil|]. split; [done|]. by rewrite S2, app_nil_r. }
  rewrite (proj2 (Z.eqb_neq _ _)) by done. cbn [negb].
  split; [eapply evolve_trans; [done|]; apply kill_evolve; [by eapply ev_bufs|by apply (bool_decide_eq_true_1 _); vm_compute]|].
  unfold killProcessGroup. rewrite G2, (proj2 (Z.eqb_neq _ _)) by done.
  destruct (try (x_w s2) (CallSignal SIGKILL)) as [f w] eqn:Er. pose proof (try_same _ _ _ _ Er) as [Hf _].
  apply (try_made (λ _, False)) in Er; [|done]. rewrite W2 in Er, Hf.
  destruct f; cbn; rewrite ?Hf; split_and!; try done; (eexists; split; [exact Er|]); (split; [by eexists|]);
    cbn; by rewrite ?S2, ?app_nil_r.
Qed.

(** The removal of one buffer's file. *)
Lemma cleanup_buf_spec k s :
  let s' := cleanup_buf k s in
  ext (λ _, False) (x_w s) (x_w s') ∧ x_proc s' = x_proc s ∧ x_configDir s' = x_configDir s ∧
  x_audit s' = x_audit s ∧ (∀ j, j ≠ k → x_buf s' j = x_buf s j) ∧
  (∀ b, x_buf s' k = Some b → ob_tempFile b = None ∧ ob_tempPath b = "") ∧
  (∀ p, is_Some (w_files (x_w s') !! p) → is_Some (w_files (x_w s) !! p) ∧
     ((∀ b, x_buf s k = Some b → p = ob_tempPath b → p = "") ∨ stuck (x_w s) (x_w s') p)) ∧
  ∃ cs, made (λ _, False) (x_w s) (x_w s') cs ∧ signals_of cs = [].
Proof.
  unfold cleanup_buf. destruct (x_buf s k) as [b|] eqn:Ek.
  2: { simpl. split; [apply ext_refl|]. rewrite Ek. split_and!; try done; [naive_solver|].
       exists []. split; [by apply made_nil|done]. }
  pose proof (Cleanup_bstep (λ _, False) b (x_w s)) as HC.
  pose proof (Cleanup_calls (λ _, False) b (x_w s)) as Hcs.
  destruct (Cleanup b (x_w s)) as [b' w']. destruct HC as (X & P & T & S & F). simpl.
  split; [done|]. split; [done|]. split; [done|]. split; [done|]. split; [intros j Hj; by rewrite decide_False|].
  split; [rewrite decide_True by done; by intros ? [= <-]|]. split; [|done].
  intros p Hp. destruct (F p Hp) as [F1 [F2|F2]]; (split; [done|]); [left|by right]. by intros ? [= <-].
Qed.

Lemma remove_all_spec w dir e w' :
  remove_all w dir = (e, w') →
  (∃ f, made (λ _, False) w w' [(CallRemoveAll dir, f)]) ∧
  (∀ p, is_Some (w_files w' !! p) → is_Some (w_files w !! p) ∧ (below dir p = false ∨ stuck w w' p)) ∧
  (∀ p, is_Some (w_dirs w' !! p) → is_Some (w_dirs w !! p) ∧ (below dir p = false ∨ stuck w w' p)).
Proof.
  unfold remove_all. destruct (try w _) as [f w1] eqn:Er. pose proof (try_same _ _ _ _ Er) as [Hf _].
  pose proof (try_spec _ _ _ _ Er) as (_ & _ & Hd & _). apply (try_made (λ _, False)) in Er; [|done].
  assert (f = true → ∀ p, below dir p = false ∨ stuck w w1 p) as Hst.
  { intros -> p. destruct (below dir p) eqn:Eb; [right|by left]. exists [(CallRemoveAll dir, true)].
    split; [apply Er|]. right. exists dir. split; [by left|done]. }
  destruct f; intros [= <- <-]; (split; [by eexists|]); cbn; rewrite Hf, Hd.
  - split; intros p Hp; (split; [done|]); by apply Hst.
  - split; intros p [x Hx]; apply map_lookup_filter_Some in Hx as [Hx Hb]; cbn in Hb; (split; [done|by left]).
Qed.

(** Removing the configuration directory. *)
Lemma cleanup_dir_spec s :
  let s' := cleanup_dir s in
  x_proc s' = x_proc s ∧ x_buf s' = x_buf s ∧ x_audit s' = x_audit s ∧
  (∃ cs, made (λ _, False) (x_w s) (x_w s') cs ∧ signals_of cs = []) ∧
  (∀ p, is_Some (w_files (x_w s') !! p) → is_Some (w_files (x_w s) !! p) ∧ (¬ in_config s p ∨ stuck (x_w s) (x_w s') p)) ∧
  (∀ p, is_Some (w_dirs (x_w s') !! p) → is_Some (w_dirs (x_w s) !! p) ∧ (¬ in_config s p ∨ stuck (x_w s) (x_w s') p)).
Proof.
  unfold cleanup_dir, in_config. destruct (bool_decide_reflect (x_configDir s = "")) as [Hc|Hc]; cbn [negb].
  { split_and!; try done; [exists []; split; [by apply made_nil|done]|..]; intros p Hp; (split; [done|left]); by intros [? _]. }
  destruct (remove_all (x_w s) (x_configDir s)) as [er w'] eqn:Er. apply remove_all_spec in Er as ([f M] & Ef & Ed).
  cbn. split_and!; try done; [by eexists|..]; intros p Hp;
    [destruct (Ef p Hp) as [Hin [Hb|]]|destruct (Ed p Hp) as [Hin [Hb|]]]; (split; [done|]); try (by right);
    left; intros [_ Hx]; congruence.
Qed.

(** Everything a run created is gone, unless the system refused to remove it. *)
Lemma cleanup_spec s :
  bufs_ok s →
  let s' := cleanup s in
  p_launch (x_proc s') = p_launch (x_proc s) ∧ x_audit s' = x_audit s ∧
  p_stdinPipe (x_proc s') = false ∧ p_ptyMaster (x_proc s') = false ∧ p_outputs_open (x_proc s') = false ∧
  (stdin_ok (x_proc s) → p_stdin_open (x_proc s') = false) ∧
  (∀ k b, x_buf s' k = Some b → ob_tempFile b = None ∧ ob_tempPath b = "") ∧
  (∃ cs, made (λ _, False) (x_w s) (x_w s') cs ∧ kill_calls s cs ∧
     p_signals (x_proc s') = p_signals (x_proc s) ++ signalled cs) ∧
  (∀ p, is_Some (w_files (x_w s') !! p) →
     is_Some (w_files (x_w s) !! p) ∧ (¬ tracked s p ∧ ¬ in_config s p ∨ stuck (x_w s) (x_w s') p)) ∧
  (∀ p, is_Some (w_dirs (x_w s') !! p) →
     is_Some (w_dirs (x_w s) !! p) ∧ (¬ in_config s p ∨ stuck (x_w s) (x_w s') p)).
Proof.
  intros Hb. unfold cleanup.
  destruct (cleanup_process_spec s Hb) as (V & F0 & B0 & A0 & P1 & P2 & P3 & P4 & c0 & M0 & K0 & S0).
  set (s0 := cleanup_process s) in *. destruct V as [X0 _ L0 _ C0 _ _ _ _].
  destruct (cleanup_buf_spec Sout s0) as (X1 & Q1 & C1 & A1 & O1 & N1 & F1 & c1 & M1 & K1). set (s1 := cleanup_buf Sout s0) in *.
  destruct (cleanup_buf_spec Serr s1) as (X2 & Q2 & C2 & A2 & O2 & N2 & F2 & c2 & M2 & K2). set (s2 := cleanup_buf Serr s1) in *.
  destruct (cleanup_buf_spec Spty s2) as (X3 & Q3 & C3 & A3 & O3 & N3 & F3 & c3 & M3 & K3). set (s3 := cleanup_buf Spty s2) in *.
  destruct (cleanup_dir_spec s3) as (Q4 & B4 & A4 & (c4 & M4 & K4) & F4 & D4). set (s4 := cleanup_dir s3) in *.
  assert (x_configDir s3 = x_configDir s) as C by congruence.
  assert (∀ p, in_config s3 p ↔ in_config s p) as HI by (intros p; unfold in_config; by rewrite C).
  assert (ext (λ _, False) (x_w s) (x_w s1)) as X01 by by eapply ext_trans.
  assert (ext (λ _, False) (x_w s) (x_w s2)) as X02 by by eapply ext_trans.
  assert (ext (λ _, False) (x_w s) (x_w s3)) as X03 by by eapply ext_trans.
  assert (x_proc s4 = x_proc s0) as Q by congruence.
  assert (∀ p, stuck (x_w s) (x_w s3) p → stuck (x_w s) (x_w s4) p) as Hfwd.
  { intros p (ca & Ca & Ha). exists (ca ++ c4). destruct M4 as (C4 & _). rewrite C4, Ca, app_assoc. split; [done|].
    apply removal_refused_app. by left. }
  rewrite Q, L0, A4, A3, A2, A1, A0. split_and!; try done.
  - intros k b. rewrite B4. destruct k; [|..|apply N3].
    + rewrite O3, O2 by done. apply N1.
    + rewrite O3 by done. apply N2.
  - exists (c0 ++ c1 ++ c2 ++ c3 ++ c4). split.
    { eapply made_app; [exact M0|]. eapply made_app; [exact M1|]. eapply made_app; [exact M2|]. by eapply made_app. }
    assert (signals_of (c1 ++ c2 ++ c3 ++ c4) = []) as Hn by (by rewrite !signals_of_app, K1, K2, K3, K4).
    split; [unfold kill_calls in *; by rewrite signals_of_app, Hn, app_nil_r|].
    assert (signalled (c1 ++ c2 ++ c3 ++ c4) = []) as Hs by (unfold signalled; by rewrite Hn).
    by rewrite signalled_app, S0, Hs, app_nil_r.
  - intros p Hp. destruct (F4 p Hp) as [H3 HC4]. destruct (F3 p H3) as [H2 HC3]. destruct (F2 p H2) as [H1 HC2].
    destruct (F1 p H1) as [H0 HC1]. rewrite F0 in H0. split; [done|].
    destruct HC4 as [HC4|]; [|right; eapply stuck_before; [exact X03|done]]. rewrite HI in HC4.
    destruct HC3 as [HC3|]; [|right; apply Hfwd; eapply stuck_before; [exact X02|done]].
    destruct HC2 as [HC2|]; [|right; apply Hfwd; eapply stuck_after; [eapply stuck_before; [exact X01|done]|exact X3]].
    destruct HC1 as [HC1|]; [|right; apply Hfwd; eapply stuck_after; [|exact X3]; eapply stuck_after; [eapply stuck_before; [exact X0|done]|exact X2]].
    left. split; [|done]. intros (Hn & k & b & Hk & Hbp). rewrite <- B0 in Hk. destruct k.
    + by apply Hn, (HC1 b).
    + apply Hn, (HC2 b); [|done]. by rewrite O1.
    + apply Hn, (HC3 b); [|done]. by rewrite O2, O1.
  - intros p Hp. destruct (D4 p Hp) as [H3 HC4]. rewrite HI in HC4. destruct X03 as (Y & Hd & Z). rewrite Hd in H3.
    split; [done|]. destruct HC4 as [|]; [by left|right]. by eapply (stuck_before _ _ _ _ _ (conj Y (conj Hd Z))).
Qed.

Lemma kill_calls_allowed s cs : kill_calls s cs → Forall (.∈ allowed_signals) (signalled cs).
Proof.
  unfold kill_calls, signalled. case_bool_decide; [by intros ->|]. intros ([] & ->); cbn; [done|].
  constructor; [|done]. by apply (bool_decide_eq_true_1 _); vm_compute.
Qed.

(** Calls that try no message send none. *)
Lemma made_silent w w' cs : made (λ _, False) w w' cs → w_sent w' = w_sent w.
Proof.
  intros (_ & S & F & _). rewrite S. unfold sent_of. destruct (messages_of cs); [by rewrite app_nil_r|by inversion F].
Qed.

Lemma cleanup_sent s : bufs_ok s → w_sent (x_w (cleanup s)) = w_sent (x_w s).
Proof.
  intros Hb. destruct (cleanup_spec s Hb) as (_ & _ & _ & _ & _ & _ & _ & (cs & M & _) & _). by eapply made_silent.
Qed.

(** ** The run *)

Definition valid_config_file (e : ToolExecutor) : Prop :=
  ∀ def, td_ConfigFile (e_tool e) = Some def → validateConfigFileDef def = Ok tt.

(** The texts of the errors of a run that did not start its tool. *)
Definition start_errors : list string :=
  ["invalid working directory"; "internal error"; "failed to start tool"].

(** The terminal message of a run. *)
Definition is_terminal_of (sd : schedule) (s : run_state) (t : ResponseMessage) : Prop :=
  match p_launch (x_proc s) with
  | Some _ => t = final_message (sd_outcome sd)
  | None => ∃ text, text ∈ start_errors ∧ t = error_msg text
  end.

(** The messages of a run: of all it tried to send exactly one is terminal, the
    others carry output. [f] says whether the system refused that one message; the
    messages sent are those not refused. *)
Definition reports (sd : schedule) (w : world) (s : run_state) : Prop :=
  ∃ cs t pre f post,
    w_calls (x_w s) = w_calls w ++ cs ∧ w_sent (x_w s) = w_sent w ++ sent_of cs ∧
    messages_of cs = pre ++ (t, f) :: post ∧ is_terminal_of sd s t ∧
    Forall (λ m, is_stream m.1) pre ∧ Forall (λ m, is_stream m.1) post ∧
    (silent (sd_after sd) → post = []) ∧ (w_faults w = [] → f = false).

Lemma ends_with_reports sd w s t :
  ends_with t (silent (sd_after sd)) w (x_w s) → is_terminal_of sd s t → reports sd w s.
Proof.
  intros (cs & pre & f & post & (C & S & _ & N) & Hm & F1 & F2 & Hq) Ht. exists cs, t, pre, f, post.
  split_and!; try done. intros Hf. destruct (N Hf) as [HF _].
  assert ((CallSend t, f) ∈ cs) as Hin.
  { assert ((t, f) ∈ messages_of cs) as Hin by (rewrite Hm; apply elem_of_app; right; left).
    unfold messages_of in Hin. apply list_elem_of_omap in Hin as ([c g] & Hin & E).
    destruct c; try done. by injection E as -> ->. }
  by apply (proj1 (Forall_forall _ _) HF _ Hin).
Qed.

(** What is new in the file system is known to the run, or could not be removed. *)
Definition accounted (w : world) (s : run_state) : Prop :=
  (∀ p, is_Some (w_files (x_w s) !! p) →
     is_Some (w_files w !! p) ∨ tracked s p ∨ in_config s p ∨ stuck w (x_w s) p) ∧
  (∀ p, is_Some (w_dirs (x_w s) !! p) → is_Some (w_dirs w !! p) ∨ in_config s p).

(** A run from a state that was prepared: what holds once it is over. *)
Lemma ran_from sd w t s1 s :
  ext (λ _, False) w (set_dirs (x_w s1) (w_dirs w)) → bufs_ok s1 →
  (∀ p, is_Some (w_files (x_w s1) !! p) → is_Some (w_files w !! p) ∨ in_config s1 p) →
  (∀ p, is_Some (w_dirs (x_w s1) !! p) → is_Some (w_dirs w !! p) ∨ in_config s1 p) →
  p_signals (x_proc s1) = [] → stdin_ok (x_proc s1) → is_terminal_of sd s1 t →
  concludes t (silent (sd_after sd)) s1 s →
  bufs_ok s ∧ ends_with t (silent (sd_after sd)) w (x_w s) ∧ is_terminal_of sd s t ∧ accounted w s ∧
  Forall (.∈ allowed_signals) (p_signals (x_proc s)) ∧ stdin_ok (x_proc s) ∧
  p_launch (x_proc s) = p_launch (x_proc s1) ∧ p_pgid (x_proc s) = p_pgid (x_proc s1).
Proof.
  intros X0 Hb HF HD Hs Hi Ht (V & HE). destruct V as [X B L G C S T F I].
  split; [done|]. split.
  { destruct X0 as ((c0 & M0) & _), HE as (cs & pre & f & post & M & Hm & F1 & F2 & Hq).
    assert (messages_of c0 = []) as Hn by (destruct M0 as (_ & _ & F0 & _); destruct (messages_of c0); [done|by inversion F0]).
    exists (c0 ++ cs), pre, f, post. split.
    { apply (made_app _ _ (x_w s1)); [|exact M]. eapply made_weaken; [|exact M0]. done. }
    by rewrite messages_of_app, Hn. }
  split; [unfold is_terminal_of; by rewrite L|]. split.
  { split.
    - intros p Hp. destruct (F p Hp) as [Hp1|[|Hst]]; [|by right; left|right; right; right].
      + destruct (HF p Hp1) as [|Hc]; [by left|right; right; left]. unfold in_config in *. by rewrite C.
      + destruct X0 as ((c0 & C0 & _) & _), Hst as (cs & Cs & Hr). exists (c0 ++ cs). cbn in C0.
        rewrite Cs, C0, app_assoc. split; [done|]. apply removal_refused_app. by right.
    - intros p. destruct X as (_ & Hd & _). rewrite Hd. intros Hp. destruct (HD p Hp) as [|Hc]; [by left|right].
      unfold in_config in *. by rewrite C. }
  split; [destruct S as (sigs & -> & FS); by rewrite Hs|]. split; [by apply I|done].
Qed.

Lemma fail_concludes text sd s :
  bufs_ok s → concludes (error_msg text) (silent (sd_after sd)) s (sendError text s).
Proof.
  intros Hb. unfold sendError. destruct (sendMessage _ s) as [err s1] eqn:E.
  destruct (terminal_concludes (error_msg text) [] s err s1 Hb E) as (V & cs & pre & f & post & M & Hm & F1 & F2 & Hq).
  split; [done|]. exists cs, pre, f, post. do 4 (split; [done|]). intros _. apply Hq. constructor.
Qed.

Definition work_dir (e : ToolExecutor) : string :=
  if negb (bool_decide (td_WorkingDir (e_tool e) = "")) then td_WorkingDir (e_tool e) else pr_cwd (e_req e).

(** The process a run may have started. *)
Definition launched_as (e : ToolExecutor) (sd : schedule) (s : run_state) : Prop :=
  ∀ l, p_launch (x_proc s) = Some l → p_pgid (x_proc s) = sd_pid sd ∧ IsAbs (work_dir e) = true ∧
    ∃ s1 env secrets, buildEnvironment resolve (env_of e s1) (x_secretValues s1) = Ok (env, secrets) ∧
      l = launch_of e env (work_dir e).

(** What holds of a run before its cleanup. *)
Record ran (e : ToolExecutor) (sd : schedule) (w : world) (s : run_state) : Prop := {
  ran_bufs : bufs_ok s;
  ran_ends : ∃ t, ends_with t (silent (sd_after sd)) w (x_w s) ∧ is_terminal_of sd s t;
  ran_files : accounted w s;
  ran_signals : Forall (.∈ allowed_signals) (p_signals (x_proc s));
  ran_stdin : stdin_ok (x_proc s);
  ran_launched : launched_as e sd s;
}.

Lemma run_body_spec e sd w a err s :
  run_body resolve e sd (init_state w a) = (err, s) → valid_config_file e → ran e sd w s.
Proof.
  intros E Hdef. unfold run_body in E. set (s0 := set_workDir _ _) in E.
  assert (bufs_ok s0) as Hb0 by done.
  assert (∀ text s1 s, prepares s0 s1 → s = sendError text s1 → text ∈ start_errors → ran e sd w s) as Hfail.
  { intros text s1 s2 [X P B A W F D] -> Hin.
    assert (bufs_ok s1) as Hb1 by (unfold bufs_ok; by rewrite B).
    destruct (ran_from sd w (error_msg text) s1 (sendError text s1)) as (R1 & R2 & R3 & R4 & R5 & R6 & R7 & R8); try done.
    - by rewrite P.
    - by rewrite P.
    - unfold is_terminal_of. rewrite P. by exists text.
    - by apply fail_concludes.
    - split; try done; [by eexists|]. unfold launched_as. rewrite R7, P. done. }
  assert (prepares s0 s0) as H00.
  { split; try done; [apply ext_none|by left|by left]. }
  destruct (negb (IsAbs (x_workDir s0))) eqn:Habs.
  { injection E as <- <-. eapply Hfail; [exact H00|done|by left]. }
  destruct (sd_workdir_missing sd).
  { injection E as <- <-. eapply Hfail; [exact H00|done|by left]. }
  destruct (setupConfigFile resolve e s0) as [r1 s1] eqn:E1. apply setup_prepares in E1; [|done|done].
  destruct r1 as [[]|e1].
  2: { injection E as <- <-. eapply Hfail; [exact E1|done|right; by left]. }
  destruct (buildEnvironment _ _ _) as [[env secrets]|e2] eqn:Eenv.
  2: { injection E as <- <-. eapply Hfail; [exact E1|done|right; by left]. }
  destruct E1 as [X1 P1 B1 A1 W1 F1 D1].
  destruct (startProcess e env (sd_pid sd) _) as [r2 s2] eqn:E2.
  apply startProcess_starts in E2; [|exact P1|exact B1].
  destruct E2 as [X2 F2 C2 A2 B2 T2 I2 Q2]. simpl in X2, F2, C2.
  pose proof X2 as (_ & Dd & _). simpl in Dd.
  assert (ext (λ _, False) w (set_dirs (x_w s2) (w_dirs w))) as X.
  { apply (ext_compose _ (x_w s1) _ (w_dirs (x_w s1))); [done|]. rewrite <- Dd. by destruct (x_w s2). }
  assert (∀ p, is_Some (w_files (x_w s2) !! p) → is_Some (w_files w !! p) ∨ in_config s2 p) as F.
  { intros p. rewrite F2. unfold in_config. rewrite C2. apply F1. }
  assert (∀ p, is_Some (w_dirs (x_w s2) !! p) → is_Some (w_dirs w !! p) ∨ in_config s2 p) as D.
  { intros p. rewrite Dd. unfold in_config. rewrite C2. apply D1. }
  destruct r2 as [[]|e3].
  - destruct Q2 as (L & G & S).
    pose proof (runIOLoop_concludes e sd s2 B2) as HC. rewrite E in HC. simpl in HC.
    destruct (ran_from sd w _ s2 s X B2 F D S I2 ltac:(unfold is_terminal_of; by rewrite L) HC)
      as (R1 & R2 & R3 & R4 & R5 & R6 & R7 & R8).
    split; try done; [by eexists|]. intros l Hl. rewrite R7, L in Hl. injection Hl as <-. split; [by rewrite R8|].
    split; [by apply negb_false_iff|]. exists s1, env, secrets. split; [exact Eenv|].
    simpl. by rewrite W1.
  - injection E as <- <-. destruct Q2 as (L & G & S).
    destruct (ran_from sd w (error_msg "failed to start tool") s2 (sendError "failed to start tool" s2))
      as (R1 & R2 & R3 & R4 & R5 & R6 & R7 & R8); try done.
    + unfold is_terminal_of. rewrite L. eexists. split; [|done]. right. right. by left.
    + by apply fail_concludes.
    + split; try done; [by eexists|]. unfold launched_as. rewrite R7, L. done.
Qed.

(** ** Properties *)

(** C5: A run tries to send exactly one terminal message, on every path and whatever
    the tool, the wrapper, the scheduler and the system do: [done] with the exit code
    or the timeout when the tool was started, [error] with one of four fixed texts
    otherwise or when waiting for it failed. All other messages carry output. It is
    the last one unless a pumper that the drain gave up on still writes output after
    it. It is sent unless the system refuses that very message, and what is sent is
    what was tried and not refused, in order. *)
Theorem Run_one_terminal e sd w a err s :
  Run resolve e sd (init_state w a) = (err, s) → valid_config_file e → reports sd w s.
Proof.
  unfold Run. destruct (run_body _ _ _ _) as [err1 s1] eqn:E. intros [= <- <-] Hv.
  destruct (run_body_spec _ _ _ _ _ _ E Hv) as [Hb (t & HE & Ht) _ _ _ _].
  destruct (cleanup_spec s1 Hb) as (El & _ & _ & _ & _ & _ & _ & (cs & M & _) & _).
  eapply ends_with_reports; [|unfold is_terminal_of in *; rewrite El; exact Ht].
  eapply ends_with_after; [exact HE|exact M].
Qed.

(** C6: When a run returns, on every path and whatever the system refused, its input
    pipe is closed at its write end, its output pipes and its terminal are closed and
    no buffer has a temporary file. A file or a directory that was not there before
    is left only if the system refused to remove it or the directory it is in. The
    process group of a tool that was started is sent SIGKILL last, unless the system
    refuses that signal. No other signals than SIGHUP, SIGINT, SIGTERM and SIGKILL
    are sent. Without faults no call is refused, so nothing is left. *)
Theorem Run_cleans_up e sd w a err s :
  Run resolve e sd (init_state w a) = (err, s) → valid_config_file e →
  p_stdinPipe (x_proc s) = false ∧ p_stdin_open (x_proc s) = false ∧
  p_ptyMaster (x_proc s) = false ∧ p_outputs_open (x_proc s) = false ∧
  (∀ k b, x_buf s k = Some b → ob_tempFile b = None ∧ ob_tempPath b = "") ∧
  Forall (.∈ allowed_signals) (p_signals (x_proc s)) ∧
  ∃ cs, w_calls (x_w s) = w_calls w ++ cs ∧
    (∀ p, is_Some (w_files (x_w s) !! p) → is_Some (w_files w !! p) ∨ removal_refused cs p) ∧
    (∀ p, is_Some (w_dirs (x_w s) !! p) → is_Some (w_dirs w !! p) ∨ removal_refused cs p) ∧
    (p_launch (x_proc s) ≠ None → sd_pid sd ≠ 0 →
       ∃ f, last (signals_of cs) = Some (SIGKILL, f) ∧ (f = false → last (p_signals (x_proc s)) = Some SIGKILL)) ∧
    (w_faults w = [] → Forall (λ c, c.2 = false) cs).
Proof.
  unfold Run. destruct (run_body _ _ _ _) as [err1 s1] eqn:E. intros [= <- <-] Hv.
  destruct (run_body_spec _ _ _ _ _ _ E Hv) as [Hb (t & HE & _) (AF & AD) HS HI HL].
  destruct (cleanup_spec s1 Hb) as (El & _ & P1 & P2 & P3 & P4 & HN & (c2 & M2 & K2 & S2) & CF & CD).
  destruct HE as (c1 & pre & f & post & M1 & _).
  assert (∀ p, stuck w (x_w s1) p → removal_refused (c1 ++ c2) p) as H1.
  { intros p (c & C & Hr). destruct M1 as (C1 & _). rewrite C1 in C. apply app_inv_head in C as <-.
    apply removal_refused_app. by left. }
  assert (∀ p, stuck (x_w s1) (x_w (cleanup s1)) p → removal_refused (c1 ++ c2) p) as H2.
  { intros p (c & C & Hr). destruct M2 as (C2 & _). rewrite C2 in C. apply app_inv_head in C as <-.
    apply removal_refused_app. by right. }
  split_and!; try done; [by apply P4| |].
  { rewrite S2. apply Forall_app. split; [done|]. eapply kill_calls_allowed; exact K2. }
  exists (c1 ++ c2). split; [destruct M1 as (C1 & _), M2 as (C2 & _); by rewrite C2, C1, app_assoc|]. split_and!.
  - intros p Hp. destruct (CF p Hp) as [Hp1 [[Ht Hc]|]]; [|right; by apply H2].
    destruct (AF p Hp1) as [|[|[|]]]; [by left|done|done|right; by apply H1].
  - intros p Hp. destruct (CD p Hp) as [Hp1 [Hc|]]; [|right; by apply H2]. destruct (AD p Hp1) as [|]; [by left|done].
  - intros Hl Hpid. rewrite El in Hl. destruct (p_launch (x_proc s1)) as [l|] eqn:El1; [|done].
    destruct (HL l El1) as [Hg _]. unfold kill_calls in K2. rewrite bool_decide_eq_false_2 in K2 by congruence.
    destruct K2 as [f2 K2]. exists f2. rewrite signals_of_app, K2, last_snoc. split; [done|]. intros ->.
    rewrite S2. unfold signalled. rewrite K2. cbn. by rewrite last_snoc.
  - intros Hf. destruct M1 as (_ & _ & _ & N1), M2 as (_ & _ & _ & N2). destruct (N1 Hf) as [G1 Hf1].
    destruct (N2 Hf1) as [G2 _]. by apply Forall_app.
Qed.

(** C7: A run starts at most the tool's own binary, with the arguments of the
    request and the environment built for it, in an absolute directory, which
    is the tool's when it has one. *)
Theorem Run_launches e sd w a err s l :
  Run resolve e sd (init_state w a) = (err, s) → valid_config_file e → p_launch (x_proc s) = Some l →
  l_binary l = td_Binary (e_tool e) ∧ l_args l = args_of (e_req e) ∧ l_dir l = work_dir e ∧
  IsAbs (l_dir l) = true ∧ (l_pty l = true → pr_use_pty (e_req e) = true ∧ GetUsePTY (e_tool e) = true) ∧
  ∃ s1 secrets, buildEnvironment resolve (env_of e s1) (x_secretValues s1) = Ok (l_env l, secrets).
Proof.
  unfold Run. destruct (run_body _ _ _ _) as [err1 s1] eqn:E. intros [= <- <-] Hv Hl.
  destruct (run_body_spec _ _ _ _ _ _ E Hv) as [Hb _ _ _ _ HL].
  destruct (cleanup_spec s1 Hb) as (El & _). rewrite El in Hl.
  destruct (HL l Hl) as (_ & Ha & s2 & env & secrets & Ee & ->). simpl.
  repeat (split; [done|]). split; [by intros [? ?]%andb_true_iff|]. by exists s2, secrets.
Qed.

(** *** Audit *)

Lemma kill_audit sig s : x_audit (killProcessGroup sig s).2 = x_audit s.
Proof. unfold killProcessGroup, syscall. repeat case_match; simplify_eq; done. Qed.

Lemma forward_audit sig s : x_audit (forwardSignal sig s).2 = x_audit s.
Proof. unfold forwardSignal. repeat case_match; try done; apply kill_audit. Qed.

Lemma close_stdin_audit s : x_audit (close_stdin s).2 = x_audit s.
Proof. unfold close_stdin. by destruct (p_stdin_open _). Qed.

Lemma syscall_audit s f s' : syscall s = (f, s') → x_audit s' = x_audit s.
Proof. unfold syscall. destruct (refused _). by intros [= _ <-]. Qed.

Lemma message_audit msg s : x_audit (handleWrapperMessage msg s).2 = x_audit s.
Proof.
  unfold handleWrapperMessage, write_stdin.
  pose proof (close_stdin_audit s) as Hc. pose proof (forward_audit (wm_signal msg) s) as Hf.
  destruct (bool_decide _); [destruct (wm_eof msg)|].
  - destruct (p_stdinPipe _); [|done]. by destruct (close_stdin s) as [[err|] s1].
  - destruct (DecodeString _ _) as [data|]; [|done]. destruct (p_stdinPipe _); [|done]. destruct (negb _); [done|].
    by destruct (syscall s) as [[] s1] eqn:E; apply syscall_audit in E.
  - destruct (bool_decide _); [|done]. by destruct (forwardSignal _ s).
Qed.

Lemma pty_message_audit msg s : x_audit (handlePTYWrapperMessage msg s).2 = x_audit s.
Proof.
  unfold handlePTYWrapperMessage. pose proof (forward_audit (wm_signal msg) s) as Hf.
  destruct (bool_decide _); [destruct (wm_eof msg); [done|]|destruct (bool_decide _)].
  - destruct (DecodeString _ _) as [data|]; [|done]. destruct (negb _); [done|].
    by destruct (syscall s) as [[] s1] eqn:E; apply syscall_audit in E.
  - by destruct (forwardSignal _ s).
  - destruct (bool_decide _); [|done]. destruct (negb _); [done|].
    by destruct (syscall s) as [[] s1] eqn:E; apply syscall_audit in E.
Qed.

Lemma events_audit evs s : x_audit (run_events evs s) = x_audit s.
Proof.
  unfold run_events. revert s. induction evs as [|ev evs IH]; intros s; cbn [foldl]; [done|]. rewrite IH.
  destruct ev as [k data|k|msg|]; simpl.
  - destruct (x_live s k); [|done]. unfold output_pumper. destruct (x_buf s k) as [b|]; [|done].
    destruct (Write b data (x_w s)) as [[[u|err] b'] w']; [done|]. destruct (errors_is _ _); [|done].
    simpl. by rewrite kill_audit.
  - by destruct (x_live s k).
  - destruct (x_live_in s); [|done]. destruct (x_usePTY s); [apply pty_message_audit|apply message_audit].
  - destruct (x_live_in s); [|done]. unfold message_end. destruct (p_stdinPipe _); [|done]. apply close_stdin_audit.
Qed.

Lemma send_audit msg s : x_audit (sendMessage msg s).2 = x_audit s.
Proof. unfold sendMessage. by destruct (send _ _). Qed.

Lemma send_chunks_audit ty l s : x_audit (send_chunks ty l s).2 = x_audit s.
Proof.
  revert s. induction l as [|c l IH]; intros s; cbn [send_chunks]; [done|].
  pose proof (send_audit (output_msg ty (EncodeToString StdEncoding c)) s) as Hs.
  destruct (sendMessage _ s) as [[err|] s1]; [done|]. by rewrite IH.
Qed.

Lemma finalizeStream_audit k ty s : x_audit (finalizeStream k ty s).2 = x_audit s.
Proof.
  unfold finalizeStream. destruct (x_buf s k) as [b|]; [|done].
  destruct (Finalize b (x_w s)) as [[[path|err] b'] w']; [|done]. destruct (bool_decide _); [done|].
  unfold streamFile, syscall. destruct (refused _) as [[] w]; [done|].
  destruct (w_files _ !! path) as [data|]; [|done].
  pose proof (send_chunks_audit ty (chunks data) (set_w (set_w (set_buf s k (Some b')) w') w)) as Hc.
  by destruct (send_chunks _ _ _) as [[err|] s1].
Qed.

Lemma finalizeOutput_audit s : x_audit (finalizeOutput s).2 = x_audit s.
Proof.
  unfold finalizeOutput. destruct (x_usePTY s); [apply finalizeStream_audit|].
  pose proof (finalizeStream_audit Sout MsgTypeStdout s) as H1.
  destruct (finalizeStream Sout _ s) as [e1 s1]. pose proof (finalizeStream_audit Serr MsgTypeStderr s1) as H2.
  destruct (finalizeStream Serr _ s1) as [e2 s2]. simpl in *. by rewrite H2.
Qed.

(** The facts of a run that its audit entry must state. *)
Definition entry_of (e : ToolExecutor) (a : AuditConfig) (code : Z) (timeout : bool) (en : Entry) : Prop :=
  en_Tool en = pr_tool (e_req e) ∧ en_ExitCode en = code ∧ en_Timeout en = timeout ∧
  en_CallerPID en = e_callerPID e ∧ en_CallerExe en = e_callerExe e ∧
  en_Args en = (if GetIncludeArgs a then pr_args (e_req e) else None).

(** The audit log after a run, given how it ended. *)
Definition audited (e : ToolExecutor) (before : audit_state) (launched : option launch) (o : outcome)
    (after : audit_state) : Prop :=
  match launched, o, e_auditLogger e, cfg_Audit (e_cfg e) with
  | Some _, (Exited _ | TimedOut _), Some logger, Some a =>
    if au_Enabled a then
      ∃ en, entry_of e a (match o with Exited c => c | _ => -1 end)
        (match o with TimedOut _ => true | _ => false end) en ∧
        after = (Log logger en before).2
    else after = before
  | _, _, _, _ => after = before
  end.

Lemma finish_audit e sd code t s :
  x_audit (finish e sd code t s) =
    match e_auditLogger e, cfg_Audit (e_cfg e) with
    | Some logger, Some a =>
      if au_Enabled a then
        let s3 := run_events (sd_late sd) (finalizeOutput (run_events (sd_drain sd) s)).2 in
        (Log logger (audit_entry e a (sd_start sd) (sd_elapsed sd) code t s3) (x_audit s)).2
      else x_audit s
    | _, _ => x_audit s
    end.
Proof.
  unfold finish. rewrite events_audit. unfold sendDone. rewrite send_audit. unfold emitAuditEntry.
  set (s3 := run_events (sd_late sd) _).
  assert (x_audit s3 = x_audit s) as H3 by (unfold s3; by rewrite events_audit, finalizeOutput_audit, events_audit).
  destruct (e_auditLogger e); [|done]. unfold GetAuditConfig. cbn [mbind option_bind].
  destruct (cfg_Audit (e_cfg e)) as [a|]; [|done]. destruct (au_Enabled a); [|done]. simpl. by rewrite H3.
Qed.

Lemma finish_entry e sd code t s before l o :
  x_audit s = before → (o = Exited code ∧ t = false ∨ (∃ g, o = TimedOut g) ∧ code = -1 ∧ t = true) →
  audited e before (Some l) o (x_audit (finish e sd code t s)).
Proof.
  intros Hb Ho. rewrite finish_audit, Hb. unfold audited.
  destruct (e_auditLogger e) as [lg|], (cfg_Audit (e_cfg e)) as [a|];
    try (by destruct Ho as [(-> & ->)|((g & ->) & -> & ->)]).
  destruct (au_Enabled a); [|by destruct Ho as [(-> & ->)|((g & ->) & -> & ->)]].
  destruct Ho as [(-> & ->)|((g & ->) & -> & ->)]; (eexists; split; [|reflexivity]); by repeat split.
Qed.

(** C8: Every tool run that is not lost by the system gets exactly one audit
    entry: one for a tool that ended, with its exit code, one for a timeout,
    naming the tool, the caller and, if configured, the arguments; a run that
    never started its tool gets none. *)
Theorem Run_audited e sd w a err s :
  Run resolve e sd (init_state w a) = (err, s) → valid_config_file e →
  audited e a (p_launch (x_proc s)) (sd_outcome sd) (x_audit s).
Proof.
  unfold Run. destruct (run_body _ _ _ _) as [err1 s1] eqn:E. intros [= <- <-] Hv.
  destruct (run_body_spec _ _ _ _ _ _ E Hv) as [Hb _ _ _ _ _].
  destruct (cleanup_spec s1 Hb) as (-> & -> & _). clear Hb.
  unfold run_body in E. set (s0 := set_workDir _ _) in E.
  assert (∀ text s, p_launch (x_proc s) = None → x_audit s = a →
    audited e a (p_launch (x_proc (sendError text s))) (sd_outcome sd) (x_audit (sendError text s))) as Hfail.
  { intros text s2 HL HA2. unfold sendError. rewrite send_audit, HA2.
    unfold sendMessage. destruct (send _ _). simpl. by rewrite HL. }
  destruct (negb (IsAbs (x_workDir s0))); [injection E as <- <-; by apply Hfail|].
  destruct (sd_workdir_missing sd); [injection E as <- <-; by apply Hfail|].
  destruct (setupConfigFile resolve e s0) as [[[]|e1] s2] eqn:E1; apply setup_prepares in E1; try done;
    destruct E1 as [_ P1 B1 A1 _ _ _]; [|injection E as <- <-; apply Hfail; by rewrite ?P1, ?A1].
  destruct (buildEnvironment _ _ _) as [[env secrets]|e2]; [|injection E as <- <-; apply Hfail; by rewrite ?P1, ?A1].
  destruct (startProcess e env (sd_pid sd) _) as [r2 s3] eqn:E2.
  apply startProcess_starts in E2; [|exact P1|exact B1]. destruct E2 as [_ _ _ A2 B2 _ _ Q2]. simpl in A2.
  destruct r2 as [[]|e3].
  2: { injection E as <- <-. destruct Q2 as (L & _). apply Hfail; [done|by rewrite A2, A1]. }
  destruct Q2 as (L & _).
  pose proof (runIOLoop_concludes e sd s3 B2) as [V _]. rewrite E in V. simpl in V.
  rewrite (ev_launch _ _ _ V), L. unfold runIOLoop in E.
  assert (∀ evs s, x_audit (wait_returns (run_events evs s)) = x_audit s) as HW.
  { intros. unfold wait_returns. by rewrite close_stdin_audit, events_audit. }
  destruct (sd_outcome sd) as [c| |g]; injection E as <- <-.
  - apply finish_entry; [|by left]. by rewrite HW, A2, A1.
  - unfold audited. rewrite events_audit. unfold sendError. rewrite send_audit, HW, A2, A1.
    by destruct (e_auditLogger e), (cfg_Audit (e_cfg e)).
  - unfold handleTimeout. apply finish_entry; [|right; eauto].
    destruct g; [rewrite HW|rewrite kill_audit, events_audit]; by rewrite kill_audit, events_audit, A2, A1.
Qed.

(** A tool with a configuration file cannot run unless the daemon is root: the
    umask in force while the directory is made takes away its search bit, so
    the daemon may not create anything in its own directory, and the request
    ends with an internal error before the tool starts. *)
Theorem config_file_needs_root e sd w a def err s :
  Run resolve e sd (init_state w a) = (err, s) →
  td_ConfigFile (e_tool e) = Some def → validateConfigFileDef def = Ok tt →
  w_root w = false → w_dirs w = ∅ → w_faults w = [] →
  IsAbs (work_dir e) = true → sd_workdir_missing sd = false →
  err = Some (Wrapf "create config subdir: %w" [] EACCES) ∧ p_launch (x_proc s) = None ∧
  w_sent (x_w s) = w_sent w ++ [error_msg "internal error"].
Proof.
  unfold Run. destruct (run_body _ _ _ _) as [err1 s1] eqn:E. intros [= <- <-] Hdef Hv Hroot Hdirs Hf Habs Hm.
  assert (valid_config_file e) as Hvc by (intros d0 Hd0; rewrite Hdef in Hd0; by injection Hd0 as <-).
  destruct (run_body_spec _ _ _ _ _ _ E Hvc) as [Hb _ _ _ _ _].
  destruct (cleanup_spec s1 Hb) as (-> & _ & _ & _ & _ & _ & _ & (cc & Mc & _) & _). apply made_silent in Mc as ->. clear Hb.
  unfold run_body in E. set (s0 := set_workDir _ _) in E.
  change (x_workDir s0) with (work_dir e) in E. rewrite Habs, Hm in E. cbn [negb] in E.
  unfold setupConfigFile in E. rewrite Hdef in E.
  unfold validateConfigFileDef in Hv. inv_ok.
  match goal with Hx : validateSafeRelativePath (cf_XDGSubdir def) true = Ok tt |- _ =>
    apply validateSafeRelativePath_comps in Hx as (Hsub & Hsubp & _) end.
  assert (subdir_comps (cf_XDGSubdir def) = b2s <$> split_char slash (s2b (cf_XDGSubdir def))) as Hcomps.
  { unfold subdir_comps, clean_comps. rewrite foldl_clean_plain by done. by rewrite app_nil_r, reverse_involutive. }
  unfold mkdir_temp, refused in E. change (x_w s0) with w in E. rewrite Hf in E. rewrite Hcomps in E.
  set (tmp := temp_name _ _) in E. cbn [x_w set_configDir set_w] in E.
  destruct (split_char slash (s2b (cf_XDGSubdir def))) as [|c cs] eqn:Es; [by destruct (split_char_not_nil slash (s2b (cf_XDGSubdir def)))|].
  cbn [fmap list_fmap mkdir_under set_dirs w_dirs] in E. rewrite Hdirs in E.
  assert (tmp ≠ PathJoin [tmp; b2s c]) as Hne.
  { destruct (temp_dir_comps (w_files w ∪ ((λ _, []) <$> w_dirs w))) as (d & Hg & Hd).
    change (temp_name _ _) with tmp in Hd. rewrite Hd.
    assert (Forall plain_comp (split_char slash (s2b (b2s c)))) as Hc.
    { rewrite s2b_b2s. pose proof (split_char_no_sep slash (s2b (cf_XDGSubdir def))) as Hns. rewrite Es in Hns.
      inversion Hns; inversion Hsubp; subst. rewrite split_char_none by done. by constructor. }
    rewrite PathJoin_under by done. intros Hx. apply (f_equal (λ x, length (s2b x))) in Hx.
    rewrite !s2b_app, !length_app in Hx. simpl in Hx. lia. }
  rewrite insert_empty, lookup_singleton_ne in E by done.
  rewrite bool_decide_eq_false_2 in E by (by intros [? ?]).
  unfold can_create in E. cbn [w_root w_dirs set_dirs] in E. rewrite Hroot, lookup_singleton_eq in E.
  change (Z.testbit (Z.ldiff 448 setup_umask) 6) with false in E. cbn [orb andb negb] in E.
  injection E as <- <-. split; [done|]. unfold sendError, sendMessage, send, try, refused. simpl. rewrite Hf. done.
Qed.
End run.
