(* ===== verification/StreamLaws.v ===== *)
(** What the client is sent of a tool's output over a whole run ([Executor.v]): in
    a run without refused system calls and within the output limit, exactly the
    redaction of what the tool wrote, whatever the interleaving of its streams. *)

From S2P Require Import Prelude GoStrings Base64 Protocol GoTime GoPath Paths Regexp ConfigTypes Interpolate Redactor World OutputBuffer Config Settings Env Runtime AuditLog Executor ExecutorLaws RunLaws RunSafety.
Local Open Scope Z_scope.

(** ** One buffer, without refusals *)

Section buffer.
Context `{RE : Regexp}.

(** A file that was opened is open. *)
Definition file_open (b : OutputBuffer) : Prop := ob_inlineMode b = false → is_Some (ob_tempFile b).

Definition within (b : OutputBuffer) (n : Z) : Prop :=
  n ≤ max_int64 ∧ (ob_maxOutputSize b > 0 → n ≤ ob_maxOutputSize b).

(** The buffer shows [T] in the end, if [rest] is still written to it. *)
Record fits (b : OutputBuffer) (w : world) (rest : list bytes) (T : bytes) : Prop := {
  ft_inv : buffer_inv b w;
  ft_mode : path_mode b;
  ft_open : file_open b;
  ft_log : byte_log b w ++ emitted (ob_redactor b) rest = T;
  ft_within : within b (blen T);
}.

Lemma not_refused w : w_faults w = [] → refused w = (false, w).
Proof. intros Hf. unfold refused. by rewrite Hf. Qed.

Lemma remove_file_none w path :
  w_faults w = [] → remove_file w path = note (set_files w (delete path (w_files w))) (CallRemove path) false.
Proof. intros Hf. unfold remove_file, try. by rewrite not_refused. Qed.

Lemma send_none w msg : w_faults w = [] → send w msg = (None, {| w_files := w_files w; w_sent := w_sent w ++ [msg];
  w_faults := w_faults w; w_calls := w_calls w ++ [(CallSend msg, false)]; w_dirs := w_dirs w; w_root := w_root w |}).
Proof. intros Hf. destruct w. cbn in *. by subst. Qed.

(** Other files: a step of [b] leaves a file that exists and is not its own. *)
Definition keeps_files (b : OutputBuffer) (w : world) (b' : OutputBuffer) (w' : world) : Prop :=
  ∀ p, is_Some (w_files w !! p) → p ≠ ob_tempPath b → w_files w' !! p = w_files w !! p ∧ p ≠ ob_tempPath b'.

Lemma keeps_same b w : keeps_files b w b w.
Proof. by intros p. Qed.

Lemma switch_none b w :
  w_faults w = [] → ob_inlineMode b = true →
  ∃ path w', switchToFileMode b w = (Ok tt, set_temp b (Some path) path false, w') ∧ w_faults w' = [] ∧
    keeps_files b w (set_temp b (Some path) path false) w'.
Proof.
  intros Hf Hi. unfold switchToFileMode, create_temp, chmod. rewrite (not_refused w) by done. cbn iota beta zeta. rewrite not_refused by done.
  do 2 eexists. split; [reflexivity|]. split; [done|]. intros p Hp _. cbn [w_files set_files set_temp ob_tempPath].
  pose proof (temp_name_fresh (TempDir +:+ "claw-wrap-" +:+ ob_stream b +:+ "-") (w_files w)) as Hn.
  destruct (decide (p = temp_name (TempDir +:+ "claw-wrap-" +:+ ob_stream b +:+ "-") (w_files w))) as [->|Hne].
  - rewrite Hn in Hp. by destruct Hp.
  - by rewrite lookup_insert_ne by congruence.
Qed.

Lemma emit_none b data w :
  w_faults w = [] → file_open b → path_mode b →
  ∃ b' w', emit b data w = (Ok tt, b', w') ∧ w_faults w' = [] ∧ file_open b' ∧ keeps_files b w b' w'.
Proof.
  intros Hf Ho [Hm Ht]. unfold emit. destruct (ob_inlineMode b) eqn:Hi.
  - rewrite send_none by done. do 2 eexists. split; [reflexivity|]. split; [done|]. split; [|by intros p].
    unfold file_open. cbn [add_accumulated ob_inlineMode]. congruence.
  - destruct (Ho Hi) as [path Hp]. rewrite Hp. unfold append_file. rewrite not_refused by done.
    do 2 eexists. split; [reflexivity|]. split; [done|]. split; [done|]. intros p Hs Hne.
    cbn [add_accumulated ob_tempPath set_files w_files]. rewrite (Ht _ Hp). by rewrite lookup_insert_ne by congruence.
Qed.

Lemma write_tee_none b data w :
  w_faults w = [] → write_tee b data w = (Ok tt, set_tee b ((λ t, t ++ data) <$> ob_tee b), w).
Proof.
  intros Hf. unfold write_tee. destruct (ob_tee b) eqn:E; [by rewrite not_refused|].
  cbn [fmap option_fmap option_map]. rewrite <- E. by destruct b.
Qed.

Lemma keeps_trans b1 w1 b2 w2 b3 w3 :
  keeps_files b1 w1 b2 w2 → keeps_files b2 w2 b3 w3 → keeps_files b1 w1 b3 w3.
Proof.
  intros H1 H2 p Hp Hne. destruct (H1 p Hp Hne) as [E1 N1]. rewrite <- E1. apply H2; [by rewrite E1|done].
Qed.

(** A write below the limit succeeds. *)
Lemma writeLocked_none b data w :
  w_faults w = [] → buffer_inv b w → file_open b → path_mode b → within b (blen (byte_log b w) + blen data) →
  ∃ b' w', writeLocked b data w = (Ok tt, b', w') ∧ w_faults w' = [] ∧ file_open b' ∧ path_mode b' ∧
    keeps_files b w b' w'.
Proof.
  intros Hf Hi Ho Hp [Hmax Hlim].
  assert (∃ b' w', writeLocked b data w = (Ok tt, b', w') ∧ w_faults w' = [] ∧ file_open b' ∧ keeps_files b w b' w') as H.
  2: { destruct H as (b' & w' & E & ? & ? & ?). exists b', w'. pose proof (writeLocked_bstep _ _ _ _ _ _ E Hp) as (_ & _ & Hp' & _).
       done. }
  unfold writeLocked. destruct data as [|c data'] eqn:Ed; [exists b, w; split_and!; done || apply keeps_same|].
  rewrite <- Ed in *. clear Ed. pose proof Hi as (Ha & _).
  assert (0 ≤ ob_accumulated b ∧ ob_accumulated b + blen data ≤ max_int64) as [H0 H1]
    by (rewrite Ha in *; unfold blen in *; lia).
  rewrite (int64_add b data) by done.
  assert ((ob_maxOutputSize b >? 0) && (ob_accumulated b + blen data >? ob_maxOutputSize b) = false) as ->.
  { apply andb_false_iff. destruct (Z.gtb_spec (ob_maxOutputSize b) 0); [right|by left].
    destruct (Z.gtb_spec (ob_accumulated b + blen data) (ob_maxOutputSize b)); [|done]. rewrite Ha in *. lia. }
  rewrite write_tee_none by done. set (b1 := set_tee _ _).
  destruct (ob_inlineMode b1 && _ && _) eqn:Esw.
  - apply andb_true_iff in Esw as [[Ein _]%andb_true_iff _].
    destruct (switch_none b1 w Hf Ein) as (path & w2 & E2 & Hf2 & K2). rewrite E2.
    destruct (emit_none (set_temp b1 (Some path) path false) data w2 Hf2) as (b3 & w3 & E3 & Hf3 & Ho3 & K3).
    + intros _. by eexists.
    + apply switch_bstep in E2; [|done|done]. by destruct E2 as (_ & _ & ? & _).
    + exists b3, w3. split_and!; [done..|]. eapply keeps_trans; [exact K2|exact K3].
  - destruct (emit_none b1 data w Hf) as (b3 & w3 & E3 & Hf3 & Ho3 & K3); [done|done|].
    exists b3, w3. split_and!; [done..|exact K3].
Qed.

Lemma SetRedactor_fits_inv b r w : buffer_inv b w → file_open b → path_mode b →
  buffer_inv (SetRedactor b r) w ∧ file_open (SetRedactor b r) ∧ path_mode (SetRedactor b r).
Proof. done. Qed.

Lemma blen_app (a b : bytes) : blen (a ++ b) = blen a + blen b.
Proof. unfold blen. rewrite length_app. lia. Qed.
Lemma blen_pos (a : bytes) : 0 ≤ blen a.
Proof. unfold blen. lia. Qed.

(** What a write that is redacted to [out] does. *)
Lemma writeLocked_fits b out w rest T :
  w_faults w = [] → buffer_inv b w → file_open b → path_mode b →
  byte_log b w ++ out ++ emitted (ob_redactor b) rest = T → within b (blen T) →
  ∃ b' w', writeLocked b out w = (Ok tt, b', w') ∧ w_faults w' = [] ∧ fits b' w' rest T ∧ keeps_files b w b' w' ∧
    ob_stream b' = ob_stream b.
Proof.
  intros Hf Hi Ho Hp HT [Hw1 Hw2]. assert (blen (byte_log b w) + blen out ≤ blen T) as Hle.
  { rewrite <- HT, !blen_app. pose proof (blen_pos (emitted (ob_redactor b) rest)). lia. }
  destruct (writeLocked_none b out w Hf Hi Ho Hp) as (b' & w' & E & Hf' & Ho' & Hp' & K).
  { split; [lia|]. intros. specialize (Hw2 ltac:(done)). lia. }
  exists b', w'. split; [done|]. split; [done|].
  apply writeLocked_spec in E; [|done|lia]. destruct E as ((Es & _ & Em & _) & Er & Hi' & HL).
  split; [|done]. split; try done.
  - by rewrite HL, Er, <- app_assoc.
  - split; [done|]. by rewrite Em.
Qed.

Lemma Write_fits b c w rest T :
  w_faults w = [] → fits b w (c :: rest) T →
  ∃ b' w', Write b c w = (Ok tt, b', w') ∧ w_faults w' = [] ∧ fits b' w' rest T ∧ keeps_files b w b' w' ∧
    ob_stream b' = ob_stream b.
Proof.
  intros Hf [Hi Hp Ho HT Hw]. unfold Write. destruct c as [|c0 c'] eqn:Ec.
  { exists b, w. split; [done|]. split; [done|]. split; [|by split; [apply keeps_same|]]. by split. }
  rewrite <- Ec in *. assert (c ≠ []) as Hc by by rewrite Ec. clear Ec.
  destruct (ob_redactor b) as [r|] eqn:Er.
  - destruct (RedactChunk r c false) as [out r'] eqn:Ech.
    assert (emitted (Some r) (c :: rest) = out ++ emitted (Some r') rest) as HE.
    { cbn [emitted]. rewrite filter_cons_True by done. cbn [redact_stream]. by rewrite Ech. }
    rewrite HE in HT. cbv zeta. destruct (writeLocked_fits (SetRedactor b (Some r')) out w rest T) as (b' & w' & E & R); try done.
    destruct out; [|by exists b', w'].
    exists (SetRedactor b (Some r')), w. split; [done|]. split; [done|]. split; [by split|]. by split; [intros p|].
  - assert (emitted None (c :: rest) = c ++ emitted None rest) as HE by done.
    rewrite HE in HT. destruct (writeLocked_fits b c w rest T) as (b' & w' & E & R); try done; [by rewrite Er|].
    by exists b', w'.
Qed.

(** The end of a buffer: everything is shown. *)
Lemma Finalize_fits b w T :
  w_faults w = [] → fits b w [] T →
  ∃ b' w', Finalize b w = (Ok (ob_tempPath b'), b', w') ∧ w_faults w' = [] ∧ byte_log b' w' = T ∧
    path_mode b' ∧ keeps_files b w b' w' ∧ ob_stream b' = ob_stream b ∧
    (ob_tempPath b' ≠ "" → is_Some (w_files w' !! ob_tempPath b')).
Proof.
  intros Hf [Hi Hp Ho HT Hw].
  assert (∃ b1 w1, (match ob_redactor b with
     | None => (Ok tt, b, w)
     | Some r => let '(tail, r) := RedactChunk r [] true in
       match writeLocked (SetRedactor b (Some r)) tail w with
       | (Err err, b, w) => (Err (Wrapf "flush redactor: %w" [] err), b, w)
       | ok => ok
       end
     end) = (Ok tt, b1, w1) ∧ w_faults w1 = [] ∧ buffer_inv b1 w1 ∧ byte_log b1 w1 = T ∧ file_open b1 ∧ path_mode b1 ∧
     keeps_files b w b1 w1 ∧ ob_stream b1 = ob_stream b) as (b1 & w1 & E1 & Hf1 & Hi1 & HL1 & Ho1 & Hp1 & K1 & S1).
  { destruct (ob_redactor b) as [r|] eqn:Er.
    - cbn [emitted] in HT. rewrite filter_nil in HT. cbn [redact_stream] in HT.
      destruct (RedactChunk r [] true) as [tail r']. cbn [fst] in HT.
      assert (blen (byte_log b w) + blen tail = blen T) as Hle by by rewrite <- HT, blen_app.
      destruct (writeLocked_none (SetRedactor b (Some r')) tail w Hf Hi Ho Hp) as (b' & w' & E & Hf' & Ho' & Hp' & K).
      { change (byte_log (SetRedactor b (Some r')) w) with (byte_log b w). rewrite Hle. exact Hw. }
      rewrite E. exists b', w'. split; [done|].
      apply writeLocked_spec in E; [|done|].
      2: { change (byte_log (SetRedactor b (Some r')) w) with (byte_log b w). destruct Hw. lia. }
      destruct E as ((Es & _) & _ & Hi' & HL). split_and!; try done. by rewrite HL.
    - cbn [emitted concat] in HT. rewrite app_nil_r in HT. exists b, w. split_and!; done || apply keeps_same. }
  unfold Finalize. rewrite E1. destruct Hp1 as [Hm1 Ht1]. destruct (ob_inlineMode b1) eqn:Em.
  - symmetry in Hm1. apply bool_decide_eq_true in Hm1. exists b1, w1. rewrite Hm1.
    split; [done|]. split; [done|]. split; [done|]. split; [split; [by rewrite Em, bool_decide_eq_true_2|done]|]. done.
  - destruct (Ho1 Em) as [path Hpath]. rewrite Hpath. unfold close_file, chmod. rewrite not_refused by done.
    pose proof Hi1 as (_ & _ & _ & Hfile & _). destruct (Hfile Em) as (Hne & Hsome & _).
    exists (set_temp b1 None (ob_tempPath b1) false), w1. split; [done|].
    cbn [set_temp ob_tempPath ob_stream]. split; [done|]. split; [unfold byte_log in *; cbn; by rewrite Em in HL1|].
    split; [by split|]. split; [|done]. intros p Hs Hn. by apply K1.
Qed.
End buffer.

(** ** A run *)

Section run.
Context `{RE : Regexp} `{UC : UnicodeCase} `{DP : DurationParser} `{OSi : OS} `{HO : Host} `{MR : MapRange}
  `{HA : Hash}.
Context (resolve : string → CredentialDef → result string).

(** What a pumper reads of its stream before the stream ends. *)
Fixpoint produced (k : stream) (evs : list event) : list bytes :=
  match evs with
  | [] => []
  | EvOutput j data :: evs => if decide (j = k) then data :: produced k evs else produced k evs
  | EvOutputEnd j :: evs => if decide (j = k) then [] else produced k evs
  | _ :: evs => produced k evs
  end.

Definition unread (s : run_state) (k : stream) (evs : list event) : list bytes :=
  if x_live s k then produced k evs else [].

(** Steps that leave the streams alone; they may signal the tool. *)
Definition same_world (w w' : world) : Prop :=
  w_sent w' = w_sent w ∧ w_files w' = w_files w ∧ w_faults w' = w_faults w.
Definition same_streams (s s' : run_state) : Prop :=
  same_world (x_w s) (x_w s') ∧ x_buf s' = x_buf s ∧ x_live s' = x_live s ∧ x_usePTY s' = x_usePTY s.

Lemma same_streams_refl s : same_streams s s.
Proof. done. Qed.
Lemma same_streams_trans s1 s2 s3 : same_streams s1 s2 → same_streams s2 s3 → same_streams s1 s3.
Proof.
  intros ((A1 & A2 & A3) & B & C & D) ((A1' & A2' & A3') & B' & C' & D'). unfold same_streams, same_world.
  split_and!; congruence.
Qed.

Lemma syscall_none s : w_faults (x_w s) = [] → syscall s = (false, s).
Proof. intros Hf. unfold syscall. rewrite not_refused by done. by destruct s. Qed.

Lemma kill_same sig s : w_faults (x_w s) = [] → same_streams s (killProcessGroup sig s).2.
Proof.
  intros Hf. unfold killProcessGroup. destruct (p_pgid (x_proc s) =? 0); [done|]. unfold try.
  by rewrite not_refused.
Qed.

Lemma close_same s : same_streams s (close_stdin s).2.
Proof. unfold close_stdin. by destruct (p_stdin_open (x_proc s)). Qed.

Lemma forward_same sig s : w_faults (x_w s) = [] → same_streams s (forwardSignal sig s).2.
Proof. intros Hf. unfold forwardSignal. repeat case_match; try done; by apply kill_same. Qed.

Lemma message_same msg s : w_faults (x_w s) = [] → same_streams s (handleWrapperMessage msg s).2.
Proof.
  intros Hf. unfold handleWrapperMessage. destruct (bool_decide _).
  - destruct (wm_eof msg).
    + destruct (p_stdinPipe (x_proc s)); [|done]. pose proof (close_same s) as Hc.
      destruct (close_stdin s) as [[err|] s1]; exact Hc.
    + destruct (DecodeString _ _) as [data|]; [|done]. destruct (p_stdinPipe (x_proc s)); [|done].
      unfold write_stdin. destruct (negb _); [done|]. by rewrite syscall_none.
  - destruct (bool_decide _); [|done]. pose proof (forward_same (wm_signal msg) s Hf) as Hs.
    by destruct (forwardSignal _ s).
Qed.

Lemma pty_message_same msg s : w_faults (x_w s) = [] → same_streams s (handlePTYWrapperMessage msg s).2.
Proof.
  intros Hf. unfold handlePTYWrapperMessage. destruct (bool_decide _).
  - destruct (wm_eof msg); [done|]. destruct (DecodeString _ _) as [data|]; [|done].
    destruct (negb _); [done|]. by rewrite syscall_none.
  - destruct (bool_decide _).
    + pose proof (forward_same (wm_signal msg) s Hf) as Hs. by destruct (forwardSignal _ s).
    + destruct (bool_decide _); [|done]. destruct (negb _); [done|]. by rewrite syscall_none.
Qed.

(** The invariant: each stream will show its target, and the streams keep apart. *)
Record flowing (s : run_state) (evs : list event) (T : stream → bytes) : Prop := {
  fl_ok : w_faults (x_w s) = [];
  fl_fits : ∀ k b, x_buf s k = Some b → ob_stream b = stream_name k ∧ fits b (x_w s) (unread s k evs) (T k);
  fl_apart : ∀ j k b c, j ≠ k → x_buf s j = Some b → x_buf s k = Some c →
    stream_name j ≠ stream_name k ∧ (ob_tempPath c = "" ∨ ob_tempPath b ≠ ob_tempPath c);
}.

(** A buffer depends on the messages and the files only. *)
Lemma fits_world b w w' rest T : same_world w w' → fits b w rest T → fits b w' rest T.
Proof.
  intros (Es & Ef & _) [(I1 & I2 & I3 & I4 & I5) Hm Ho HT Hw].
  assert (byte_log b w' = byte_log b w) as HL by (unfold byte_log; by rewrite Es, Ef).
  split; try done; [|by rewrite HL]. unfold buffer_inv. rewrite HL. split_and!; try done. by rewrite Ef.
Qed.

Lemma flowing_same s s' evs T : same_streams s s' → flowing s evs T → flowing s' evs T.
Proof.
  intros (A & B & C & D) [F1 F2 F3]. split; rewrite ?B; [by destruct A as (_ & _ & ->)| |done].
  intros k b Hk. destruct (F2 k b Hk) as [? Hfit]. split; [done|]. unfold unread in *. rewrite C. by eapply fits_world.
Qed.

Lemma inline_bytes_other ty ty' ms : ty ≠ ty' → Forall (output_of ty) ms → inline_bytes ty' ms = [].
Proof.
  intros Hne. induction 1 as [|m ms [data ->] _ IH]; [done|]. change (output_msg ty (EncodeToString StdEncoding data) :: ms)
    with ([output_msg ty (EncodeToString StdEncoding data)] ++ ms). rewrite inline_bytes_app, IH, app_nil_r.
  unfold inline_bytes. cbn [mbind list_bind]. by rewrite bool_decide_eq_false_2.
Qed.

(** What leaves the messages of a stream and its file alone leaves its buffer alone. *)
Lemma fits_frame ty path w w' c rest T :
  (∃ ms, w_sent w' = w_sent w ++ ms ∧ Forall (output_of ty) ms) → ty ≠ ob_stream c →
  (∀ p, is_Some (w_files w !! p) → p ≠ path → w_files w' !! p = w_files w !! p) →
  (ob_tempPath c = "" ∨ path ≠ ob_tempPath c) → fits c w rest T → fits c w' rest T.
Proof.
  intros (ms & Es & HF) Hne K Hap [Hi [Hm Hp] Ho HT Hw]. destruct Hi as (I1 & I2 & I3 & I4 & I5).
  assert (inline_bytes (ob_stream c) (w_sent w') = inline_bytes (ob_stream c) (w_sent w)) as HI.
  { rewrite Es, inline_bytes_app, (inline_bytes_other ty _ ms Hne HF). by rewrite app_nil_r. }
  assert (ob_inlineMode c = false → w_files w' !! ob_tempPath c = w_files w !! ob_tempPath c) as HFs.
  { intros Em. destruct (I4 Em) as (Hn & Hs & _). apply K; [done|]. destruct Hap; congruence. }
  assert (byte_log c w' = byte_log c w) as HL.
  { unfold byte_log. rewrite HI. destruct (ob_inlineMode c); [done|]. by rewrite HFs. }
  split; try done; [|by rewrite HL]. unfold buffer_inv. rewrite HL.
  split_and!; try done. intros Em. rewrite (HFs Em). by apply I4.
Qed.

(** A step of one buffer leaves another alone. *)
Lemma fits_other b w b' w' c rest T :
  bstep b w b' w' → keeps_files b w b' w' → ob_stream b ≠ ob_stream c →
  (ob_tempPath c = "" ∨ ob_tempPath b ≠ ob_tempPath c) → fits c w rest T →
  fits c w' rest T ∧ (ob_tempPath c = "" ∨ ob_tempPath b' ≠ ob_tempPath c).
Proof.
  intros (Hms%ext_sent & _) K Hne Hap Hc. split.
  - apply (fits_frame (ob_stream b) (ob_tempPath b) w); try done. intros p Hp Hn. by apply K.
  - destruct Hap as [|Hap]; [by left|]. destruct Hc as [(_ & _ & _ & I4 & _) [Hm _] _ _ _].
    destruct (decide (ob_tempPath c = "")) as [|Hn]; [by left|]. right. rewrite bool_decide_eq_false_2 in Hm by done.
    destruct (I4 Hm) as (_ & Hs & _). destruct (K (ob_tempPath c) Hs); congruence.
Qed.

Lemma step_flowing ev s evs T : flowing s (ev :: evs) T → flowing (step_event ev s) evs T.
Proof.
  intros H. pose proof H as [Hf HF Hap].
  assert ((∀ k, produced k (ev :: evs) = produced k evs) → flowing s evs T) as Hskip.
  { intros E. split; [done| |done]. intros k b Hk. unfold unread. rewrite <- E. by apply HF. }
  destruct ev as [k data|k|msg|]; cbn [step_event].
  - destruct (x_live s k) eqn:El.
    2: { split; [done| |done]. intros j b Hj. destruct (HF j b Hj) as [Es Hb]. split; [done|]. revert Hb. unfold unread.
         destruct (decide (j = k)) as [->|Hne]; [by rewrite El|]. cbn [produced]. by rewrite decide_False by congruence. }
    unfold output_pumper. destruct (x_buf s k) as [b|] eqn:Ek.
    2: { split; [done| |done]. intros j b Hj. destruct (HF j b Hj) as [Es Hb]. split; [done|]. revert Hb. unfold unread.
         cbn [produced]. rewrite decide_False; [done|]. intros ->. congruence. }
    destruct (HF k b Ek) as [Es Hb]. unfold unread in Hb. rewrite El in Hb. cbn [produced] in Hb.
    rewrite decide_True in Hb by done. destruct (Write_fits _ _ _ _ _ Hf Hb) as (b' & w' & E & Hf' & Hb' & K & Es').
    rewrite E. assert (bstep b (x_w s) b' w') as HB by (apply (Write_bstep _ _ _ _ _ _ E); apply Hb).
    assert (∀ j c, j ≠ k → x_buf s j = Some c → fits c w' (unread s j evs) (T j) ∧
      (ob_tempPath c = "" ∨ ob_tempPath b' ≠ ob_tempPath c)) as Hother.
    { intros j c Hj Hc. destruct (Hap k j b c) as [Hs Hpaths]; try done. destruct (HF j c Hc) as [Esc Hcf].
      apply (fits_other b (x_w s)); try done; [by rewrite Es, Esc|]. revert Hcf. unfold unread. cbn [produced].
      by rewrite decide_False by congruence. }
    split; cbn [set_w set_buf x_w x_buf].
    + done.
    + intros j c Hj. unfold unread. cbn [set_w set_buf x_live]. destruct (decide (j = k)) as [->|Hne].
      * injection Hj as <-. split; [congruence|]. by rewrite El.
      * split; [by apply HF|]. by apply Hother.
    + intros i j c d Hij Hc Hd. destruct (decide (i = k)) as [->|Hi], (decide (j = k)) as [->|Hj]; try done.
      * injection Hc as <-. destruct (Hap k j b d) as [? _]; try done. split; [done|]. by destruct (Hother j d Hj Hd).
      * injection Hd as <-. destruct (Hap i k c b) as [? _]; try done. split; [done|].
        destruct (Hother i c Hi Hc) as [Hcf [Hc0|Hn]].
        -- destruct (decide (ob_tempPath b' = "")); [by left|]. right. congruence.
        -- right. congruence.
      * by apply (Hap i j).
  - destruct (x_live s k) eqn:El.
    + split; cbn [set_live x_w x_buf]; [done| |done]. intros j b Hj. destruct (HF j b Hj) as [Es Hb]. split; [done|].
      revert Hb. unfold unread. cbn [set_live x_live produced]. destruct (decide (j = k)) as [->|Hne].
      * by rewrite El, decide_True.
      * by rewrite decide_False by congruence.
    + split; [done| |done]. intros j b Hj. destruct (HF j b Hj) as [Es Hb]. split; [done|]. revert Hb. unfold unread.
      destruct (decide (j = k)) as [->|Hne]; [by rewrite El|]. cbn [produced]. by rewrite decide_False by congruence.
  - specialize (Hskip ltac:(done)). destruct (x_live_in s); [|done].
    destruct (x_usePTY s); eapply flowing_same; [by apply pty_message_same|done|by apply message_same|done].
  - specialize (Hskip ltac:(done)). destruct (x_live_in s); [|done]. unfold message_end.
    eapply flowing_same; [|exact Hskip]. destruct (p_stdinPipe (x_proc s)); [apply close_same|done].
Qed.

Lemma events_flowing evs evs' s T : flowing s (evs ++ evs') T → flowing (run_events evs s) evs' T.
Proof.
  unfold run_events. revert s. induction evs as [|ev evs IH]; intros s H; [done|]. cbn [foldl app] in *.
  by apply IH, step_flowing.
Qed.

(** ** The end of the streams *)

Definition shown (s : run_state) (k : stream) : bytes := inline_bytes (stream_name k) (w_sent (x_w s)).

Lemma chunks_fuel_concat fuel data : (length data ≤ fuel)%nat → concat (chunks_fuel fuel data) = data.
Proof.
  revert data. induction fuel as [|fuel IH]; intros [|c data] Hl; cbn [chunks_fuel concat length] in *; try done; try lia.
  rewrite IH; [apply take_drop|]. rewrite length_drop. cbn [length].
  assert (0 < chunk_size)%nat by (unfold chunk_size; lia). lia.
Qed.

Lemma send_chunks_none ty l s :
  w_faults (x_w s) = [] →
  ∃ w, send_chunks ty l s = (None, set_w s w) ∧ w_faults w = [] ∧ w_files w = w_files (x_w s) ∧
    w_sent w = w_sent (x_w s) ++ ((λ c, output_msg ty (EncodeToString StdEncoding c)) <$> l).
Proof.
  revert s. induction l as [|c l IH]; intros s Hf; cbn [send_chunks].
  { exists (x_w s). rewrite app_nil_r. split; [by destruct s|done]. }
  unfold sendMessage. rewrite send_none by done.
  match goal with |- context [set_w s ?x] => destruct (IH (set_w s x) Hf) as (w & E & Hf' & Hfi & Hs) end.
  rewrite E. exists w. split; [done|]. split; [done|]. split; [done|]. rewrite Hs. cbn. by rewrite <- app_assoc.
Qed.

Lemma inline_bytes_chunks ty l :
  inline_bytes ty ((λ c, output_msg ty (EncodeToString StdEncoding c)) <$> l) = concat l.
Proof.
  induction l as [|c l IH]; [done|]. rewrite fmap_cons. change (?x :: ?y) with ([x] ++ y).
  by rewrite inline_bytes_app, inline_bytes_msg, IH.
Qed.

Lemma finalizeStream_fits k s b T :
  w_faults (x_w s) = [] → x_buf s k = Some b → ob_stream b = stream_name k → fits b (x_w s) [] T →
  ∃ s', finalizeStream k (stream_name k) s = (None, s') ∧ w_faults (x_w s') = [] ∧ shown s' k = T ∧
    (∀ j, j ≠ k → x_buf s' j = x_buf s j) ∧
    (∃ ms, w_sent (x_w s') = w_sent (x_w s) ++ ms ∧ Forall (output_of (stream_name k)) ms) ∧
    (∀ p, is_Some (w_files (x_w s) !! p) → p ≠ ob_tempPath b → w_files (x_w s') !! p = w_files (x_w s) !! p).
Proof.
  intros Hf Hk Hs Hb. destruct (Finalize_fits _ _ _ Hf Hb) as (b' & w' & E & Hf' & HL & [Hm _] & K & Hs' & Hfile).
  assert (bstep b (x_w s) b' w') as ((ms & Ems & HF)%ext_sent & _)
    by (apply Finalize_bstep in E as [? _]; [done|apply Hb]).
  unfold of_stream in HF. rewrite Hs in HF.
  unfold finalizeStream. rewrite Hk, E. destruct (bool_decide_reflect (ob_tempPath b' = "")) as [Hp|Hp].
  { eexists. split; [reflexivity|]. cbn [set_w set_buf x_w x_buf]. split; [done|]. split.
    { unfold shown. cbn [set_w x_w]. rewrite <- HL. unfold byte_log. rewrite Hs', Hs, Hm. by rewrite app_nil_r. }
    split; [intros j Hj; by rewrite decide_False|]. split; [by exists ms|]. intros p Hsp Hne. by apply K. }
  unfold streamFile. rewrite syscall_none by done. cbn [set_w x_w]. destruct (Hfile Hp) as [data Hd]. rewrite Hd.
  destruct (send_chunks_none (stream_name k) (chunks data) (set_w (set_buf s k (Some b')) w') Hf')
    as (w2 & E2 & Hf2 & Hfi2 & Hs2). rewrite E2. cbn [set_w x_w] in *.
  eexists. split; [reflexivity|]. cbn [set_w set_buf x_w x_buf]. rewrite (remove_file_none w2) by done.
  split; [done|]. split.
  { unfold shown. cbn [set_w x_w]. cbn [note set_files w_sent].
    rewrite Hs2, inline_bytes_app, inline_bytes_chunks. unfold chunks. rewrite chunks_fuel_concat by done.
    rewrite <- HL. unfold byte_log. by rewrite Hs', Hs, Hm, Hd. }
  split; [intros j Hj; by rewrite decide_False|]. split.
  { eexists. cbn [note set_files w_sent]. rewrite Hs2, Ems, <- app_assoc. split; [done|].
    apply Forall_app. split; [done|]. apply Forall_fmap, Forall_true. intros c. by exists c. }
  intros p Hsp Hne. cbn [note set_files w_files]. destruct (K p Hsp Hne) as [Ek Nk].
  rewrite lookup_delete_ne by congruence. rewrite Hfi2. cbn. done.
Qed.

(** The buffers of a run: of its terminal, or of its two streams. *)
Definition streams_of (s : run_state) : list stream := if x_usePTY s then [Spty] else [Sout; Serr].

Lemma streams_distinct s j k : j ∈ streams_of s → k ∈ streams_of s → j ≠ k → stream_name j ≠ stream_name k.
Proof. unfold streams_of. destruct (x_usePTY s); destruct j, k; set_solver. Qed.

Lemma finalizeOutput_shows s T :
  flowing s [] T → Forall (λ k, is_Some (x_buf s k)) (streams_of s) →
  ∃ s', finalizeOutput s = (None, s') ∧ w_faults (x_w s') = [] ∧ Forall (λ k, shown s' k = T k) (streams_of s).
Proof.
  intros [Hf HF Hap] Hbufs. unfold streams_of in *. unfold finalizeOutput.
  assert (∀ k b, x_buf s k = Some b → ob_stream b = stream_name k ∧ fits b (x_w s) [] (T k)) as HF'.
  { intros k b Hk. destruct (HF k b Hk) as [? H]. split; [done|]. revert H. unfold unread. by destruct (x_live s k). }
  destruct (x_usePTY s).
  - apply Forall_cons in Hbufs as [[b Hb] _]. destruct (HF' _ _ Hb) as [Hs Hfit].
    destruct (finalizeStream_fits Spty s b (T Spty) Hf Hb Hs Hfit) as (s' & E & Hf' & HT & _).
    exists s'. split; [exact E|]. split; [done|]. by repeat constructor.
  - apply Forall_cons in Hbufs as [[b Hb] [[c Hc] _]%Forall_cons].
    destruct (HF' _ _ Hb) as [Hs Hfit], (HF' _ _ Hc) as [Hsc Hfitc].
    destruct (finalizeStream_fits Sout s b (T Sout) Hf Hb Hs Hfit) as (s1 & E1 & Hf1 & HT1 & Hk1 & Hm1 & K1).
    change (stream_name Sout) with MsgTypeStdout in E1. rewrite E1.
    destruct (Hap Sout Serr b c) as [_ Hpaths]; try done.
    destruct (finalizeStream_fits Serr s1 c (T Serr) Hf1) as (s2 & E2 & Hf2 & HT2 & _ & (ms & Em2 & HF2) & _);
      [by rewrite Hk1|done|by apply (fits_frame (stream_name Sout) (ob_tempPath b) (x_w s)); [|rewrite Hsc| | |]|].
    change (stream_name Serr) with MsgTypeStderr in E2. rewrite E2. exists s2. split; [done|]. split; [done|].
    constructor; [|by constructor]. unfold shown in *. rewrite Em2, inline_bytes_app, HT1.
    by rewrite (inline_bytes_other (stream_name Serr) _ ms), app_nil_r.
Qed.

(** ** The start *)

Definition redactor_of (e : ToolExecutor) (secrets : list string) : option OutputRedactor :=
  NewOutputRedactorWithSecrets (td_RedactOutput (e_tool e)) secrets.

Definition runs_pty (e : ToolExecutor) : bool := pr_use_pty (e_req e) && GetUsePTY (e_tool e).

Lemma new_buffer_fits e secrets k th w rest :
  inline_bytes (stream_name k) (w_sent w) = [] →
  let T := emitted (redactor_of e secrets) rest in
  blen T ≤ max_int64 → (e_maxOutSz e > 0 → blen T ≤ e_maxOutSz e) →
  fits (new_buffer e secrets (stream_name k) th) w rest T.
Proof.
  intros Hi T Hb1 Hb2. set (b := new_buffer e secrets (stream_name k) th).
  assert (ob_redactor b = redactor_of e secrets ∧ ob_maxOutputSize b = e_maxOutSz e ∧ ob_accumulated b = 0 ∧
    (ob_tee b = None ∨ ob_tee b = Some []) ∧ ob_threshold b = th) as (Er & Em & Ea & Et & Eth).
  { unfold b, new_buffer, redactor_of. destruct (NewOutputRedactorWithSecrets _ _), (wants_hash e); cbn; split_and!; auto. }
  destruct (new_buffer_fields e secrets (stream_name k) th) as (Es & Ep & Ef & Ei).
  fold b in Es, Ep, Ef, Ei. clearbody b.
  assert (byte_log b w = []) as HL by (unfold byte_log; by rewrite Es, Ei, Hi).
  split.
  - unfold buffer_inv. rewrite HL, Ea, Ei. split_and!; try done.
    + intros t Ht. destruct Et as [Et|Et]; rewrite Et in Ht; congruence.
    + intros _. split_and!; try done. intros. lia.
    + intros. lia.
  - split; [by rewrite Ep, Ei|]. intros p. by rewrite Ef.
  - intros H. congruence.
  - by rewrite HL, Er.
  - split; [done|]. by rewrite Em.
Qed.

Lemma startProcess_none e env pid s s' :
  w_faults (x_w s) = [] → x_buf s = (λ _, None) → startProcess e env pid s = (Ok tt, s') →
  x_w s' = x_w s ∧ x_usePTY s' = runs_pty e ∧
  ∀ k, (k ∈ streams_of s' → x_live s' k = true ∧ ∃ th, x_buf s' k = Some (new_buffer e (x_secretValues s) (stream_name k) th)) ∧
       (k ∉ streams_of s' → x_buf s' k = None).
Proof.
  intros Hf Hb E. unfold startProcess in E. change (pr_use_pty (e_req e) && GetUsePTY (e_tool e)) with (runs_pty e) in E.
  cbn [set_usePTY x_usePTY] in E. destruct (runs_pty e) eqn:Epty.
  - unfold startProcessWithPTY in E. rewrite syscall_none in E by done. injection E as <-.
    cbn. split; [done|]. split; [done|]. intros k. unfold streams_of. cbn. rewrite Hb. split.
    + intros ->%list_elem_of_singleton. split; [done|]. by eexists.
    + intros Hk. rewrite decide_False; [done|]. intros ->. apply Hk. by left.
  - rewrite !syscall_none in E by done. unfold open_stdin in E.
    destruct (GetUseStdin (e_tool e)); rewrite !syscall_none in E by done; injection E as <-; cbn;
      (split; [done|]); (split; [done|]); intros k; unfold streams_of; cbn; rewrite Hb;
      destruct k; split; intros Hk; try set_solver; (split; [done|by eexists]).
Qed.

(** ** The run *)

(** What the pumpers see until the output is finalized. *)
Definition output_events (sd : schedule) : list event :=
  sd_running sd ++ match sd_outcome sd with TimedOut _ => sd_grace sd ++ sd_drain sd | _ => sd_drain sd end.

(** The pumpers are done when the output is finalized, and [Wait] tells how the tool ended. *)
Definition drained (sd : schedule) : Prop :=
  silent (sd_late sd) ∧ silent (sd_after sd) ∧ sd_outcome sd ≠ WaitFailed.

Lemma silent_world evs s : w_faults (x_w s) = [] → silent evs → same_world (x_w s) (x_w (run_events evs s)).
Proof.
  unfold run_events. intros Hf Hs. revert s Hf. induction Hs as [|ev evs Hev _ IH]; intros s Hf; [done|]. cbn [foldl].
  assert (same_world (x_w s) (x_w (step_event ev s))) as E.
  { destruct ev as [k data|k|msg|]; cbn [step_event]; [done|by destruct (x_live s k)|..].
    - destruct (x_live_in s); [|done]. destruct (x_usePTY s); [by apply pty_message_same|by apply message_same].
    - destruct (x_live_in s); [|done]. unfold message_end. destruct (p_stdinPipe (x_proc s)); [apply close_same|done]. }
  destruct E as (E1 & E2 & E3). destruct (IH (step_event ev s)) as (E1' & E2' & E3'); [by rewrite E3|].
  unfold same_world. split_and!; congruence.
Qed.

(** The buffers stay. *)
Lemma event_bufs ev s k : is_Some (x_buf s k) → is_Some (x_buf (step_event ev s) k).
Proof.
  intros Hb. assert (∀ s', x_buf s' = x_buf s → is_Some (x_buf s' k)) as Hsame by (intros s' ->; done).
  destruct ev as [j data|j|msg|]; cbn [step_event].
  - destruct (x_live s j); [|done]. unfold output_pumper. destruct (x_buf s j) as [b|]; [|done].
    destruct (Write _ _ _) as [[res b'] w'].
    assert (is_Some (x_buf (set_w (set_buf s j (Some b')) w') k)) as H
      by (cbn; destruct (decide (k = j)); [by eexists|done]).
    destruct res as [u|err]; [exact H|]. destruct (errors_is _ _); [|exact H]. unfold killProcessGroup.
    destruct (_ =? 0); [exact H|]. destruct (try _ _) as [[] w1]; exact H.
  - by destruct (x_live s j).
  - destruct (x_live_in s); [|done]. apply Hsame. unfold handlePTYWrapperMessage, handleWrapperMessage, write_stdin, close_stdin,
      forwardSignal, killProcessGroup, syscall. repeat case_match; simplify_eq; done.
  - destruct (x_live_in s); [|done]. apply Hsame. unfold message_end, close_stdin. by repeat case_match.
Qed.

Lemma event_usePTY ev s : x_usePTY (step_event ev s) = x_usePTY s.
Proof.
  destruct ev as [j data|j|msg|]; cbn [step_event].
  - destruct (x_live s j); [|done]. unfold output_pumper, killProcessGroup, syscall. repeat case_match; simplify_eq; done.
  - by destruct (x_live s j).
  - destruct (x_live_in s); [|done]. unfold handlePTYWrapperMessage, handleWrapperMessage, write_stdin, close_stdin,
      forwardSignal, killProcessGroup, syscall. repeat case_match; simplify_eq; done.
  - destruct (x_live_in s); [|done]. unfold message_end, close_stdin. by repeat case_match.
Qed.

(** A state of the run with its streams set up. *)
Definition streaming (s : run_state) (evs : list event) (T : stream → bytes) : Prop :=
  flowing s evs T ∧ Forall (λ k, is_Some (x_buf s k)) (streams_of s).

Lemma streaming_same s s' evs T : same_streams s s' → streaming s evs T → streaming s' evs T.
Proof.
  intros Hs [HF HB]. split; [by eapply flowing_same|]. destruct Hs as (_ & Eb & _ & Ep).
  unfold streams_of. by rewrite Ep, Eb.
Qed.

Lemma events_streaming evs evs' s T :
  streaming s (evs ++ evs') T → streaming (run_events evs s) evs' T ∧ streams_of (run_events evs s) = streams_of s.
Proof.
  intros [HF HB]. split; [split; [by apply events_flowing|]|]; clear HF; unfold run_events.
  - revert s HB. induction evs as [|ev evs IH]; intros s HB; [done|]. cbn [foldl]. apply IH.
    unfold streams_of in *. rewrite event_usePTY. eapply Forall_impl; [exact HB|]. intros k. apply event_bufs.
  - revert s HB. induction evs as [|ev evs IH]; intros s HB; [done|]. cbn [foldl]. rewrite IH.
    + unfold streams_of. by rewrite event_usePTY.
    + unfold streams_of in *. rewrite event_usePTY. eapply Forall_impl; [exact HB|]. intros k. apply event_bufs.
Qed.

Lemma finish_shows e sd code t s T :
  streaming s (sd_drain sd) T → silent (sd_late sd) → silent (sd_after sd) →
  Forall (λ k, shown (finish e sd code t s) k = T k) (streams_of s).
Proof.
  intros HS Hl Ha. unfold finish. rewrite <- (app_nil_r (sd_drain sd)) in HS.
  apply events_streaming in HS as [[HF HB] E]. rewrite <- E. set (s1 := run_events (sd_drain sd) s) in *.
  destruct (finalizeOutput_shows s1 T HF HB) as (s2 & E2 & Hf2 & HT). rewrite E2. cbn [snd].
  set (s3 := run_events (sd_late sd) s2). assert (same_world (x_w s2) (x_w s3)) as (E3 & _ & E3f) by by apply silent_world.
  set (s4 := emitAuditEntry _ _ _ _ _ s3).
  assert (x_w s4 = x_w s3) as E4 by (unfold s4, emitAuditEntry; repeat case_match; done).
  eapply Forall_impl; [exact HT|]. intros k Hk. unfold shown.
  match goal with |- context [run_events ?l ?x] => destruct (silent_world l x) as (-> & _) end; [|done|].
  2: { unfold sendDone, sendMessage. rewrite send_none by (by rewrite E4, E3f). cbn [snd set_w x_w w_sent].
    rewrite E4, E3, inline_bytes_app. unfold shown in Hk. rewrite Hk.
    unfold inline_bytes. cbn [mbind list_bind]. destruct k; by rewrite app_nil_r. }
  unfold sendDone, sendMessage. rewrite send_none by (by rewrite E4, E3f). cbn. by rewrite E4, E3f.
Qed.

Lemma runIOLoop_shows e sd s T :
  streaming s (output_events sd) T → drained sd →
  Forall (λ k, shown (runIOLoop e sd s).2 k = T k) (streams_of s).
Proof.
  intros HS (Hl & Ha & Ho). unfold output_events in HS. apply events_streaming in HS as [HS E]. rewrite <- E. clear E.
  unfold runIOLoop. set (s1 := run_events (sd_running sd) s) in *. clearbody s1.
  assert (∀ s2 evs, same_streams s1 s2 → streaming s1 evs T → streaming s2 evs T ∧ streams_of s2 = streams_of s1) as Hsame.
  { intros s2 evs H2 H1. split; [by eapply streaming_same|]. unfold streams_of. by destruct H2 as (_ & _ & _ & ->). }
  destruct (sd_outcome sd) as [code| |grace]; [|done|].
  - cbn [snd]. destruct (Hsame (wait_returns s1) _ (close_same s1) HS) as [HS2 E]. rewrite <- E. by apply finish_shows.
  - cbn [snd]. unfold handleTimeout. pose proof HS as [[Hf1 _ _] _].
    destruct (Hsame _ _ (kill_same SIGTERM s1 Hf1) HS) as [HS2 E]. rewrite <- E.
    set (s2 := (killProcessGroup SIGTERM s1).2) in *. clearbody s2. clear Hsame HS Hf1 E s1 s.
    apply events_streaming in HS2 as [HS3 E]. rewrite <- E. set (s3 := run_events (sd_grace sd) s2) in *.
    clearbody s3. pose proof HS3 as [[Hf3 _ _] _].
    set (s4 := if grace then _ else _). assert (same_streams s3 s4) as H34
      by (unfold s4; destruct grace; [apply close_same|by apply kill_same]).
    assert (streams_of s4 = streams_of s3) as <- by (unfold streams_of; by destruct H34 as (_ & _ & _ & ->)).
    apply finish_shows; [|done..]. by eapply streaming_same.
Qed.

Lemma sendError_launch text s : p_launch (x_proc (sendError text s)) = p_launch (x_proc s).
Proof. unfold sendError, sendMessage. by destruct (send _ _). Qed.

(** How far a run came that started its tool. *)
Lemma run_body_started e sd w a err s :
  run_body resolve e sd (init_state w a) = (err, s) → valid_config_file e → p_launch (x_proc s) ≠ None →
  ∃ s1 env secrets s2, setupConfigFile resolve e (set_workDir (init_state w a) (work_dir e)) = (Ok tt, s1) ∧
    buildEnvironment resolve (env_of e s1) (x_secretValues s1) = Ok (env, secrets) ∧
    startProcess e env (sd_pid sd) (set_secrets s1 secrets) = (Ok tt, s2) ∧
    prepares (set_workDir (init_state w a) (work_dir e)) s1 ∧ s = (runIOLoop e sd s2).2.
Proof.
  intros E Hv Hl. unfold run_body in E.
  set (s0 := set_workDir (init_state w a) (work_dir e)).
  change (set_workDir (init_state w a) (if negb (bool_decide (td_WorkingDir (e_tool e) = ""))
    then td_WorkingDir (e_tool e) else pr_cwd (e_req e))) with s0 in E.
  destruct (negb (IsAbs (x_workDir s0))); [injection E as <- <-; by rewrite sendError_launch in Hl|].
  destruct (sd_workdir_missing sd); [injection E as <- <-; by rewrite sendError_launch in Hl|].
  destruct (setupConfigFile resolve e s0) as [r1 s1] eqn:E1.
  pose proof (setup_prepares _ _ _ _ _ E1 eq_refl Hv) as HP. pose proof HP as [_ P1 B1 _ _ _ _].
  destruct r1 as [[]|e1]; [|injection E as <- <-; by rewrite sendError_launch, P1 in Hl].
  destruct (buildEnvironment _ _ _) as [[env secrets]|e2] eqn:Eenv;
    [|injection E as <- <-; by rewrite sendError_launch, P1 in Hl].
  destruct (startProcess e env (sd_pid sd) _) as [r2 s2] eqn:E2.
  pose proof (startProcess_starts _ _ _ _ _ _ E2 P1 B1) as [_ _ _ _ _ _ _ Q2].
  destruct r2 as [[]|e3].
  - exists s1, env, secrets, s2. split; [done|]. split; [done|]. split; [done|]. split; [done|]. by rewrite E.
  - injection E as <- <-. destruct Q2 as [L _]. by rewrite sendError_launch, L in Hl.
Qed.

(** What a run that started its tool has shown when its body is over. *)
Lemma run_body_shows e sd w a err s :
  run_body resolve e sd (init_state w a) = (err, s) → valid_config_file e → w_faults w = [] → w_sent w = [] →
  drained sd → p_launch (x_proc s) ≠ None →
  ∃ s1 env secrets, setupConfigFile resolve e (set_workDir (init_state w a) (work_dir e)) = (Ok tt, s1) ∧
    buildEnvironment resolve (env_of e s1) (x_secretValues s1) = Ok (env, secrets) ∧
    let T k := emitted (redactor_of e secrets) (produced k (output_events sd)) in
    (∀ k, blen (T k) ≤ max_int64 ∧ (e_maxOutSz e > 0 → blen (T k) ≤ e_maxOutSz e)) →
    ∀ k, k ∈ (if runs_pty e then [Spty] else [Sout; Serr]) → shown s k = T k.
Proof.
  intros E Hv Hf Hsent Hd Hl.
  destruct (run_body_started _ _ _ _ _ _ E Hv Hl) as (s1 & env & secrets & s2 & E1 & Eenv & E2 & [HX _ HB _ _ _ _] & ->).
  exists s1, env, secrets. split; [done|]. split; [done|].
  set (T := λ k, emitted (redactor_of e secrets) (produced k (output_events sd))). cbv zeta. intros HT.
  pose proof (ext_faults _ _ _ HX) as HX2. apply ext_sent in HX as (ms & Em & Fm).
  destruct ms; [|by inversion Fm]. cbn in Em, HX2. rewrite app_nil_r, Hsent in Em.
  destruct (startProcess_none e env (sd_pid sd) (set_secrets s1 secrets) s2 (HX2 Hf) HB E2) as (Ew & Ep & Hbufs). cbn [set_secrets x_w x_secretValues] in *.
  assert (streaming s2 (output_events sd) T) as HS.
  { split; [|apply Forall_forall; intros k Hk; destruct (proj1 (Hbufs k) Hk) as (_ & th & ->); by eexists].
    assert (∀ k b, x_buf s2 k = Some b → k ∈ streams_of s2) as Hin.
    { intros k b Hk. destruct (decide (k ∈ streams_of s2)) as [|Hn]; [done|]. by rewrite (proj2 (Hbufs k) Hn) in Hk. }
    assert (∀ k, inline_bytes (stream_name k) (w_sent (x_w s2)) = []) as Hempty by (intros; by rewrite Ew, Em).
    split; [by rewrite Ew, HX2| |].
    - intros k b Hk. destruct (proj1 (Hbufs k) (Hin k b Hk)) as (Hlive & th & Eb). rewrite Eb in Hk. injection Hk as <-.
      split; [apply new_buffer_fields|]. unfold unread. rewrite Hlive. destruct (HT k) as [HT1 HT2].
      exact (new_buffer_fits e secrets k th (x_w s2) (produced k (output_events sd)) (Hempty k) HT1 HT2).
    - intros j k b c Hjk Hj Hk. pose proof (Hin _ _ Hj) as Ij. pose proof (Hin _ _ Hk) as Ik.
      destruct (proj1 (Hbufs k) Ik) as (_ & th & Eb). rewrite Eb in Hk. injection Hk as <-. split; [|left; apply new_buffer_fields].
      by apply (streams_distinct s2 j k). }
  pose proof (runIOLoop_shows e sd s2 T HS Hd) as HR. rewrite Forall_forall in HR.
  unfold streams_of in HR. rewrite Ep in HR. exact HR.
Qed.

(** ** Property *)

(** A run that is refused no system call and stays within the output limit sends
    the client, stream by stream, exactly the redaction of what the tool wrote,
    with the literals of every credential it was given: nothing is lost, added or
    reordered, inline or through files, whatever the interleaving of the streams,
    signals and input, and also when the tool is killed at its timeout. *)
Theorem Run_output e sd w a err s :
  Run resolve e sd (init_state w a) = (err, s) → valid_config_file e → w_faults w = [] → w_sent w = [] →
  drained sd → p_launch (x_proc s) ≠ None →
  ∃ s1 env secrets, setupConfigFile resolve e (set_workDir (init_state w a) (work_dir e)) = (Ok tt, s1) ∧
    buildEnvironment resolve (env_of e s1) (x_secretValues s1) = Ok (env, secrets) ∧
    let T k := emitted (redactor_of e secrets) (produced k (output_events sd)) in
    (∀ k, blen (T k) ≤ max_int64 ∧ (e_maxOutSz e > 0 → blen (T k) ≤ e_maxOutSz e)) →
    ∀ k, k ∈ (if runs_pty e then [Spty] else [Sout; Serr]) →
      inline_bytes (stream_name k) (w_sent (x_w s)) = T k.
Proof.
  unfold Run. destruct (run_body _ _ _ _) as [err1 s'] eqn:E. intros [= <- <-] Hv Hf Hsent Hd Hl.
  destruct (run_body_spec _ _ _ _ _ _ _ E Hv) as [Hb _ _ _ _ _]. pose proof (cleanup_sent resolve s' Hb) as Ecs.
  destruct (cleanup_spec resolve s' Hb) as (Ecl & _). rewrite Ecl in Hl. rewrite Ecs.
  exact (run_body_shows _ _ _ _ _ _ E Hv Hf Hsent Hd Hl).
Qed.
End run.
