(* ===== verification/DrainLaws.v ===== *)
(** The output of a run whose client keeps up with it: what [Drain] says of the time
    after the tool's exit, put together with what [StreamLaws] says of a run. *)

From S2P Require Import Prelude GoStrings Base64 Json Protocol Framing GoTime GoPath Paths Regexp ConfigTypes Interpolate.
From S2P Require Import Redactor World OutputBuffer Config Settings Env Runtime AuditLog Executor Drain.
From S2P Require Import ExecutorLaws RunLaws RunSafety StreamLaws.
Local Open Scope Z_scope.

(** The events of a stream. *)
Definition on_stream (k : stream) (ev : event) : bool :=
  match ev with EvOutput j _ | EvOutputEnd j => bool_decide (j = k) | _ => false end.

Lemma produced_on_stream k evs : produced k evs = produced k (filter (λ ev, on_stream k ev = true) evs).
Proof.
  induction evs as [|ev evs IH]; [done|]. destruct (on_stream k ev) eqn:E.
  - rewrite filter_cons_True by done. destruct ev; cbn in *; try done; apply bool_decide_eq_true in E; by rewrite IH, !decide_True.
  - rewrite filter_cons_False by congruence. rewrite <- IH.
    destruct ev; cbn in *; try done; apply bool_decide_eq_false in E; by rewrite decide_False.
Qed.

Lemma produced_open k evs evs' : EvOutputEnd k ∉ evs → produced k (evs ++ evs') = produced k evs ++ produced k evs'.
Proof.
  induction evs as [|ev evs IH]; [done|]. intros [Hn Hin]%not_elem_of_cons. specialize (IH Hin).
  destruct ev; cbn [app produced]; try done; case_decide; subst; rewrite ?IH; done.
Qed.

Lemma produced_drain k l : produced k ((EvOutput k <$> l) ++ [EvOutputEnd k]) = l.
Proof.
  induction l as [|x l IH]; cbn [fmap list_fmap app produced]; rewrite decide_True by done; [done|]. by rewrite <- IH at 2.
Qed.

(** The pumper of [k] found [p] when the tool exited, nothing more was written to
    it, and the client took the chunks in time. *)
Definition drained_in_time (k : stream) (timeout : bool) (p : pipe) (evs : list event) : Prop :=
  ∃ T busy work,
    filter (λ ev, on_stream k ev = true) evs = drain_events k T timeout (pump_after_exit T busy work p) ∧
    pi_later p = [] ∧ Forall prompt work ∧ from_option prompt True busy ∧
    (length (chunks (pi_data p)) ≤ length work)%nat ∧
    from_option (λ x, x.1 + x.2) 0 busy + total work + idle_time (pi_held p) < drain_limit timeout.

Lemma produced_in_time k timeout p evs :
  drained_in_time k timeout p evs → produced k evs = chunks (pi_data p).
Proof.
  intros (T & busy & work & E & Hp & Hw & Hb & Hl & Ht).
  by rewrite produced_on_stream, E, drain_empties, produced_drain.
Qed.

Section run.
Context `{RE : Regexp} `{UC : UnicodeCase} `{DP : DurationParser} `{OSi : OS} `{HO : Host} `{MR : MapRange}
  `{HA : Hash}.
Context (resolve : string → CredentialDef → result string).

(** C19: Nothing a tool wrote before it exited is lost to a client that keeps up:
    when the writes to the client that are under way or left at the exit take less
    than five seconds together, with a second of grace where a process left behind
    holds the pipes, the messages of the run carry, stream by stream, the
    redaction of all the pumpers had read and all the pipes still held, whatever
    the interleaving of the two streams. *)
Theorem prompt_run_output e sd w a err s code p :
  Run resolve e sd (init_state w a) = (err, s) → valid_config_file e → w_faults w = [] → w_sent w = [] →
  runs_pty e = false → sd_outcome sd = Exited code → silent (sd_late sd) → silent (sd_after sd) →
  p_launch (x_proc s) ≠ None →
  (∀ k, k ∈ [Sout; Serr] → EvOutputEnd k ∉ sd_running sd ∧ drained_in_time k false (p k) (sd_drain sd)) →
  ∃ s1 env secrets, setupConfigFile resolve e (set_workDir (init_state w a) (work_dir e)) = (Ok tt, s1) ∧
    buildEnvironment resolve (env_of e s1) (x_secretValues s1) = Ok (env, secrets) ∧
    let T k := emitted (redactor_of e secrets) (produced k (output_events sd)) in
    (∀ k, blen (T k) ≤ max_int64 ∧ (e_maxOutSz e > 0 → blen (T k) ≤ e_maxOutSz e)) →
    ∀ k, k ∈ [Sout; Serr] →
      inline_bytes (stream_name k) (w_sent (x_w s)) =
      emitted (redactor_of e secrets) (produced k (sd_running sd) ++ chunks (pi_data (p k))).
Proof.
  intros HR Hv Hf Hsent Hpty Ho Hlate Hafter Hl Hk.
  destruct (Run_output resolve e sd w a err s HR Hv Hf Hsent) as (s1 & env & secrets & E1 & E2 & H); [|done|].
  { split; [done|]. split; [done|]. by rewrite Ho. }
  exists s1, env, secrets. split; [done|]. split; [done|]. cbv zeta in *. intros HT k Hin.
  rewrite (H HT k) by (by rewrite Hpty). f_equal. unfold output_events. rewrite Ho.
  destruct (Hk k Hin) as [Hopen Htime]. by rewrite produced_open, (produced_in_time _ _ _ _ Htime).
Qed.
End run.
