(* ===== verification/DaemonLaws.v ===== *)
(** Package [internal/daemon]: who may run a tool or see the credentials, replays,
    connection slots, and what a reload leaves behind. *)

From S2P Require Import Prelude GoStrings Json Base64 GoTime GoPath Paths Protocol Auth Replay Regexp ConfigTypes ArgsPolicy.
From S2P Require Import Interpolate World Config Settings Env Runtime AuditLog Executor Sources GoNet HttpProxy SecretFile Daemon.
Local Open Scope Z_scope.

Section laws.
Context `{RE : Regexp} `{UC : UnicodeCase} `{DP : DurationParser} `{OSi : OS} `{HO : Host} `{MR : MapRange} `{HA : Hash}
  `{PE : Peers} `{CP : Codec ProxyRequest} `{CA : Codec AdminRequest}.
Context (resolve : string → CredentialDef → result string).

(** ** Specification *)

(** The caller of a connection is verified: the right user, and an executable that
    is allowed or, unless the configuration forbids it, unknown (then [exe] is
    empty). *)
Definition verified_caller (d : Daemon) (cfg : Config) (c : conn) (ucred : Ucred) (exe : string) : Prop :=
  cn_unix c = true ∧ cn_peer c = Ok ucred ∧ uc_UID ucred = d_allowedUID d ∧
  (resolvePeerExecutable (uc_PID ucred) = Ok exe ∧ isAllowedBinary d exe = true ∨
   is_ok (resolvePeerExecutable (uc_PID ucred)) = false ∧ DenyUnverifiedCallerExe cfg = false ∧ exe = "").

(** The request a connection carries: at most 64 KiB less a byte of JSON. *)
Definition carries (c : conn) (payload : bytes) (keys : gset string) : Prop :=
  ∃ data, cn_read c = ReadData data ∧ blen data < header_size ∧ payload = trim_space data ∧ payload ≠ [] ∧
    json_object payload = Some keys.

(** A signature that is not a replay: the cache holds no live entry for its key. *)
Definition not_replayed (d : Daemon) (key : string) (now : time) : Prop :=
  match d_replayCache d with
  | None => True
  | Some c => ∀ exp, rc_entries c !! key = Some exp → exp ≤ now
  end.

(** What it takes to run a tool. *)
Record admitted_as (d : Daemon) (cfg : Config) (c : conn) (t1 t2 : time) (e : ToolExecutor)
    (ad_ucred : Ucred) (ad_payload : bytes) (ad_keys : gset string) : Prop := {
  ad_carries : carries c ad_payload ad_keys;
  ad_kind : "hmac" ∈ ad_keys ∧ "admin" ∉ ad_keys;
  ad_caller : verified_caller d cfg c ad_ucred (e_callerExe e);
  ad_request : unmarshal ad_payload = Some (e_req e);
  ad_version : pr_version (e_req e) = ProtocolVersion;
  ad_signature : VerifyHMACWithPTY hmac_sha256 t1 (d_secret d) (signed_of (e_req e)) (pr_hmac (e_req e)) = Ok tt;
  ad_fresh : not_replayed d (proxy_replay_key (uc_UID ad_ucred) (e_req e)) t2;
  ad_tool : cfg_Tools cfg !! pr_tool (e_req e) = Some (e_tool e);
  ad_args : (checkToolArgs (default [] (pr_args (e_req e))) (e_tool e)).1 = true;
  ad_executor : NewToolExecutor (e_req e) (e_tool e) cfg (d_proxyAuthToken d) (d_auditLogger d)
                  (uc_PID ad_ucred) (e_callerExe e) = Ok e;
}.

Definition admitted (d : Daemon) (cfg : Config) (c : conn) (t1 t2 : time) (e : ToolExecutor) : Prop :=
  ∃ ucred payload keys, admitted_as d cfg c t1 t2 e ucred payload keys.

(** ** Lemmas *)

Lemma SeenOrStore_false c key now :
  (SeenOrStore c key now).1 = false ↔ ∀ exp, rc_entries c !! key = Some exp → exp ≤ now.
Proof.
  unfold SeenOrStore. set (m := evictExpiredLocked now (rc_entries c)).
  destruct (m !! key) as [exp|] eqn:E.
  - pose proof E as E1. apply evictExpired_lookup in E1 as [E1 Hn]. unfold Before, After in *.
    destruct (Z.ltb_spec now exp); cbn [fst].
    + split; [done|]. intros Hx. specialize (Hx _ E1). lia.
    + split; [|done]. intros _ exp' Hx. rewrite E1 in Hx. injection Hx as <-. lia.
  - cbn [fst]. split; [|done]. intros _ exp Hx. destruct (Z.le_gt_cases exp now); [done|].
    assert (m !! key = Some exp); [|congruence]. apply evictExpired_lookup. split; [done|]. unfold After. lia.
Qed.

Lemma seen_false d key now : (seen d key now).1 = false ↔ not_replayed d key now.
Proof.
  unfold seen, not_replayed. destruct (d_replayCache d) as [c|]; [|done].
  rewrite <- SeenOrStore_false. by destruct (SeenOrStore c key now).
Qed.

Lemma seen_same d key now :
  let d' := (seen d key now).2 in
  d_cfg d' = d_cfg d ∧ d_proxyAuthToken d' = d_proxyAuthToken d ∧ d_auditLogger d' = d_auditLogger d ∧
  d_secret d' = d_secret d ∧ d_allowedUID d' = d_allowedUID d ∧ d_allowedBinaries d' = d_allowedBinaries d.
Proof. unfold seen. destruct (d_replayCache d) as [c|]; [|done]. by destruct (SeenOrStore c key now). Qed.

Lemma NewToolExecutor_fields req tool cfg token l pid exe e :
  NewToolExecutor req tool cfg token l pid exe = Ok e →
  e_req e = req ∧ e_tool e = tool ∧ e_callerPID e = pid ∧ e_callerExe e = exe ∧ e_cfg e = cfg.
Proof. unfold NewToolExecutor. destruct (_ && _); [done|]. by intros [= <-]. Qed.

Lemma handleProxyRequest_iff d data cfg pid exe uid t1 t2 e :
  (handleProxyRequest d data cfg pid exe uid t1 t2).1.2 = Some e ↔
  unmarshal data = Some (e_req e) ∧ pr_version (e_req e) = ProtocolVersion ∧
  VerifyHMACWithPTY hmac_sha256 t1 (d_secret d) (signed_of (e_req e)) (pr_hmac (e_req e)) = Ok tt ∧
  not_replayed d (proxy_replay_key uid (e_req e)) t2 ∧
  cfg_Tools cfg !! pr_tool (e_req e) = Some (e_tool e) ∧
  (checkToolArgs (default [] (pr_args (e_req e))) (e_tool e)).1 = true ∧
  NewToolExecutor (e_req e) (e_tool e) cfg (d_proxyAuthToken d) (d_auditLogger d) pid exe = Ok e.
Proof.
  unfold handleProxyRequest. destruct (unmarshal data) as [req|] eqn:Eu; [|split; [done|by intros (? & _)]].
  split.
  - destruct (Z.eqb_spec (pr_version req) ProtocolVersion) as [Ev|]; cbn [negb]; [|done].
    destruct (VerifyHMACWithPTY _ _ _ _ _) as [[]|] eqn:Eh; [|done].
    pose proof (seen_false d (proxy_replay_key uid req) t2) as Hs.
    pose proof (seen_same d (proxy_replay_key uid req) t2) as (Hc & Ht & Ha & _).
    destruct (seen d _ t2) as [[] d1]; [done|]. cbn [fst snd] in *.
    destruct (cfg_Tools cfg !! pr_tool req) as [tool|] eqn:Et; [|done].
    destruct (checkToolArgs _ tool) as [[] msg] eqn:Eargs; cbn [negb]; [|done].
    rewrite Ht, Ha. destruct (NewToolExecutor _ _ _ _ _ _ _) as [e'|] eqn:En; [|done]. intros [= ->].
    destruct (NewToolExecutor_fields _ _ _ _ _ _ _ _ En) as (<- & <- & _).
    repeat (split; [done|]). split; [by apply Hs|]. split; [done|]. by rewrite Eargs.
  - intros (Hu & Hv & Hh & Hr & Ht & Ha & Hn). injection Hu as ->. rewrite Hv. cbn [Z.eqb negb].
    change (ProtocolVersion =? ProtocolVersion) with true. cbn [negb]. rewrite Hh.
    apply seen_false in Hr. pose proof (seen_same d (proxy_replay_key uid (e_req e)) t2) as (_ & Htk & Hau & _).
    destruct (seen d _ t2) as [b d1]. cbn [fst snd] in *. subst b. rewrite Ht.
    destruct (checkToolArgs _ (e_tool e)) as [b msg]. cbn [fst] in Ha. subst b. cbn [negb].
    by rewrite Htk, Hau, Hn.
Qed.

(** The decision on the caller's executable. *)
Lemma caller_decision d cfg pid exe :
  match resolvePeerExecutable pid with
  | Err _ => if DenyUnverifiedCallerExe cfg then None else Some ""
  | Ok x => if negb (isAllowedBinary d x) then None else Some x
  end = Some exe ↔
  resolvePeerExecutable pid = Ok exe ∧ isAllowedBinary d exe = true ∨
  is_ok (resolvePeerExecutable pid) = false ∧ DenyUnverifiedCallerExe cfg = false ∧ exe = "".
Proof.
  destruct (resolvePeerExecutable pid) as [x|err]; cbn [is_ok].
  - destruct (isAllowedBinary d x) eqn:E; cbn [negb].
    2: { split; [done|]. intros [[[= ->] Hx]|[? _]]; [by rewrite E in Hx|done]. }
    split; [intros [= ->]; by left|]. by intros [[[= ->] _]|[? _]].
  - destruct (DenyUnverifiedCallerExe cfg).
    { split; [done|]. by intros [[? _]|(_ & ? & _)]. }
    split; [intros [= <-]; right; done|]. by intros [[? _]|(_ & _ & ->)].
Qed.

Lemma take_header data : blen (take (Z.to_nat header_size) data) ≠ header_size →
  take (Z.to_nat header_size) data = data ∧ blen data < header_size.
Proof.
  unfold blen. rewrite length_take. intros Hn.
  assert (0 ≤ header_size) by done. split; [apply take_ge|]; lia.
Qed.

(** A connection that reaches the dispatch. *)
Lemma handleConnection_dispatch d cfg c t1 t2 payload keys ucred exe :
  carries c payload keys → verified_caller d cfg c ucred exe →
  handleConnection resolve d cfg c t1 t2 =
    if bool_decide ("admin" ∈ keys) then
      let '(answers, d) := handleAdminRequest resolve d payload cfg (uc_UID ucred) (uc_PID ucred) t1 t2 in
      (answers, None, d)
    else if bool_decide ("hmac" ∈ keys) then
      handleProxyRequest d payload cfg (uc_PID ucred) exe (uc_UID ucred) t1 t2
    else ([RawError "invalid request: use proxy protocol"], None, d).
Proof.
  intros (data & Hr & Hl & -> & Hne & Hk) (Hu & Hp & Huid & Hx). unfold handleConnection. rewrite Hr.
  assert (take (Z.to_nat header_size) data = data) as ->.
  { apply take_ge. unfold blen in Hl. assert (0 ≤ header_size) by done. lia. }
  destruct (Z.eqb_spec (blen data) header_size); [lia|]. cbv zeta. rewrite (bool_decide_eq_false_2 _ Hne), Hk, Hu, Hp.
  cbn [negb]. rewrite Huid, Z.eqb_refl. cbn [negb]. apply caller_decision in Hx as ->. done.
Qed.

(** Any connection that runs a tool or answers an administrator gets there. *)
Lemma handleConnection_inv d cfg c t1 t2 ans o d' :
  handleConnection resolve d cfg c t1 t2 = (ans, o, d') →
  o ≠ None ∨ Exists (λ a, match a with AnswerList _ | AnswerCheck _ => True | _ => False end) ans →
  ∃ payload keys ucred exe, carries c payload keys ∧ verified_caller d cfg c ucred exe.
Proof.
  unfold handleConnection. intros Hh Hsome.
  assert (∀ (a : answer) d1, (([a], @None ToolExecutor, d1) : list answer * option ToolExecutor * Daemon) = (ans, o, d') →
    match a with AnswerList _ | AnswerCheck _ => False | _ => True end →
    ∃ payload keys ucred exe, carries c payload keys ∧ verified_caller d cfg c ucred exe) as Hno.
  { intros a d1 [= <- <- <-] Ha. destruct Hsome as [|Hx]; [done|]. apply Exists_cons in Hx as [|Hx%Exists_nil]; [|done].
    by destruct a. }
  destruct (cn_read c) as [data| |] eqn:Er; [|by eapply Hno|by injection Hh as <- <- <-; destruct Hsome as [|Hx%Exists_nil]].
  cbv zeta in Hh. set (buf := take _ _) in Hh. destruct (Z.eqb_spec (blen buf) header_size) as [|Hl]; [by eapply Hno|].
  apply take_header in Hl as [Hb Hl]. subst buf. rewrite Hb in Hh.
  destruct (bool_decide_reflect (trim_space data = [])) as [|Hne]; [by eapply Hno|].
  destruct (json_object (trim_space data)) as [keys|] eqn:Ek; [|by eapply Hno].
  assert (∀ msg d1, ((([if bool_decide ("hmac" ∈ keys) then FramedError msg else RawError msg], None, d1)
    : list answer * option ToolExecutor * Daemon) = (ans, o, d') →
    ∃ payload keys ucred exe, carries c payload keys ∧ verified_caller d cfg c ucred exe)) as Hdeny.
  { intros msg d1 Hd. eapply Hno; [exact Hd|]. by destruct (bool_decide _). }
  destruct (cn_unix c) eqn:Eu; cbn [negb] in Hh; [|by eapply Hdeny].
  destruct (cn_peer c) as [ucred|] eqn:Ep; [|by eapply Hdeny].
  destruct (Z.eqb_spec (uc_UID ucred) (d_allowedUID d)) as [Euid|]; cbn [negb] in Hh; [|by eapply Hdeny].
  destruct (match resolvePeerExecutable _ with Ok _ => _ | Err _ => _ end) as [exe|] eqn:Ex; [|by eapply Hdeny].
  apply caller_decision in Ex. exists (trim_space data), keys, ucred, exe.
  split; [by exists data|]. done.
Qed.

Lemma carries_fun c p1 k1 p2 k2 : carries c p1 k1 → carries c p2 k2 → p1 = p2 ∧ k1 = k2.
Proof.
  intros (data & E & _ & -> & _ & K1) (data' & E' & _ & -> & _ & K2). rewrite E in E'. injection E' as <-.
  split; [done|]. congruence.
Qed.

Lemma handleConnection_runs d cfg c t1 t2 e :
  (handleConnection resolve d cfg c t1 t2).1.2 = Some e ↔ admitted d cfg c t1 t2 e.
Proof.
  split.
  - intros He. destruct (handleConnection resolve d cfg c t1 t2) as [[ans o] d'] eqn:Eh. cbn [fst snd] in He. subst o.
    destruct (handleConnection_inv _ _ _ _ _ _ _ _ Eh) as (payload & keys & ucred & exe & Hc & Hv); [by left|].
    rewrite (handleConnection_dispatch _ _ _ _ _ _ _ _ _ Hc Hv) in Eh.
    destruct (bool_decide_reflect ("admin" ∈ keys)) as [|Hadm];
      [by destruct (handleAdminRequest _ _ _ _ _ _ _ _)|].
    destruct (bool_decide_reflect ("hmac" ∈ keys)) as [Hh|]; [|done].
    pose proof (handleProxyRequest_iff d payload cfg (uc_PID ucred) exe (uc_UID ucred) t1 t2 e) as Hiff.
    rewrite Eh in Hiff. destruct (proj1 Hiff eq_refl) as (Hu & Hver & Hs & Hr & Ht & Ha & Hn).
    destruct (NewToolExecutor_fields _ _ _ _ _ _ _ _ Hn) as (_ & _ & _ & Hx & _).
    exists ucred, payload, keys. split; try done; by rewrite Hx.
  - intros (ucred & payload & keys & [Hc [Hh Hadm] Hv Hu Hver Hs Hr Ht Ha Hn]).
    rewrite (handleConnection_dispatch _ _ _ _ _ _ _ _ _ Hc Hv).
    rewrite (bool_decide_eq_false_2 _ Hadm), (bool_decide_eq_true_2 _ Hh).
    by apply handleProxyRequest_iff.
Qed.

(** ** Properties *)

(** C3: A tool is run exactly when the caller has the daemon's user and an allowed
    executable (or an unknown one where that is accepted), the request is well
    formed, of the right protocol version, signed over all its fields with the
    daemon's secret within the time window, not seen before, and names a
    configured tool whose policy admits its arguments; and what runs is that
    request with that tool's definition. *)
Theorem tool_run_iff d cfg c t1 t2 e :
  (handleConnection resolve d cfg c t1 t2).1.2 = Some e ↔ admitted d cfg c t1 t2 e.
Proof. apply handleConnection_runs. Qed.

(** ** Replays *)

Definition with_hmac (req : ProxyRequest) (h : string) : ProxyRequest :=
  {| pr_version := pr_version req; pr_tool := pr_tool req; pr_args := pr_args req; pr_cwd := pr_cwd req;
     pr_timestamp := pr_timestamp req; pr_nonce := pr_nonce req; pr_hmac := h; pr_env := pr_env req;
     pr_use_pty := pr_use_pty req; pr_window_size := pr_window_size req |}.
Definition with_request (e : ToolExecutor) (req : ProxyRequest) : ToolExecutor :=
  {| e_req := req; e_tool := e_tool e; e_cfg := e_cfg e; e_timeout := e_timeout e; e_threshold := e_threshold e;
     e_maxOutSz := e_maxOutSz e; e_readMsgTO := e_readMsgTO e; e_writeTO := e_writeTO e; e_msgSize := e_msgSize e;
     e_proxyAuthToken := e_proxyAuthToken e; e_auditLogger := e_auditLogger e; e_callerPID := e_callerPID e;
     e_callerExe := e_callerExe e |}.

(** Base64 decoding skips line breaks. *)
Lemma DecodeString_line_break s : DecodeString StdEncoding (s +:+ line_break) = DecodeString StdEncoding s.
Proof. unfold DecodeString, decode. rewrite s2b_app, filter_app. cbn. by rewrite app_nil_r. Qed.

Lemma SeenOrStore_other c key now key' exp :
  key' ≠ key → rc_entries (SeenOrStore c key now).2 !! key' = Some exp → rc_entries c !! key' = Some exp.
Proof.
  intros Hne. unfold SeenOrStore. set (m := evictExpiredLocked now (rc_entries c)).
  assert (m ⊆ rc_entries c) as Hm by apply evictExpired_subseteq.
  assert (∀ m', m' ⊆ rc_entries c → m' !! key' = Some exp → rc_entries c !! key' = Some exp) as Hsub.
  { intros m' Hs Hk. by eapply lookup_weaken. }
  assert (∀ m' x, m' ⊆ rc_entries c → <[key := x]> m' !! key' = Some exp → rc_entries c !! key' = Some exp) as Hins.
  { intros m' x Hs Hk. rewrite lookup_insert_ne in Hk by congruence. by apply (Hsub m'). }
  destruct (match m !! key with Some _ => _ | None => _ end); [by apply Hsub|]. cbn.
  apply Hins. destruct (_ <=? _); [|done]. etrans; [apply evictOne_subseteq|done].
Qed.

Lemma seen_secret d key now : d_secret (seen d key now).2 = d_secret d.
Proof. by destruct (seen_same d key now) as (_ & _ & _ & H & _). Qed.

(** What a request that is run leaves behind. *)
Lemma handleProxyRequest_state d data cfg pid exe uid t1 t2 req e :
  unmarshal data = Some req → (handleProxyRequest d data cfg pid exe uid t1 t2).1.2 = Some e →
  (handleProxyRequest d data cfg pid exe uid t1 t2).2 = (seen d (proxy_replay_key uid req) t2).2.
Proof.
  intros Hu. unfold handleProxyRequest. rewrite Hu. destruct (negb _); [done|].
  destruct (VerifyHMACWithPTY _ _ _ _ _); [|done]. destruct (seen d _ t2) as [[] d1]; [done|].
  destruct (cfg_Tools cfg !! pr_tool req); [|done]. destruct (checkToolArgs _ _) as [[] msg]; [|done]. cbn [negb].
  by destruct (NewToolExecutor _ _ _ _ _ _ _).
Qed.

(** The replay check can be passed with one signature again. The cache stores
    the text of the signature, but base64 decoding skips line breaks, so a request
    that was just run is run once more when a line break is appended to its
    [hmac] field, by anyone who has seen it and while its timestamp is fresh. *)
Theorem replay_bypass d data data' req cfg pid exe uid t1 t2 t1' t2' e :
  unmarshal data = Some req → unmarshal data' = Some (with_hmac req (pr_hmac req +:+ line_break)) →
  (handleProxyRequest d data cfg pid exe uid t1 t2).1.2 = Some e →
  ValidateTimestamp t1' (pr_timestamp req) = Ok tt →
  not_replayed d (proxy_replay_key uid (with_hmac req (pr_hmac req +:+ line_break))) t2' →
  let d' := (handleProxyRequest d data cfg pid exe uid t1 t2).2 in
  (handleProxyRequest d' data' cfg pid exe uid t1' t2').1.2
    = Some (with_request e (with_hmac req (pr_hmac req +:+ line_break))).
Proof.
  intros Hu Hu' He Ht' Hn' d'. subst d'. rewrite (handleProxyRequest_state _ _ _ _ _ _ _ _ _ _ Hu He).
  apply handleProxyRequest_iff in He as (Hu2 & Hv & Hh & Hr & Ht & Ha & Hx). rewrite Hu in Hu2. injection Hu2 as ->.
  set (req := e_req e) in *. set (req' := with_hmac req (pr_hmac req +:+ line_break)) in *.
  set (key := proxy_replay_key uid req) in *.
  pose proof (seen_same d key t2) as (_ & Htk & Hau & Hsec & _).
  apply handleProxyRequest_iff. cbn [with_request e_req e_tool]. split; [done|]. split; [done|].
  split; [|split; [|split; [done|split; [done|]]]].
  - apply (VerifyHMAC_cases hmac_sha256 t1 (d_secret d)) in Hh as [_ Hd].
    apply (VerifyHMAC_cases hmac_sha256 t1' (d_secret (seen d key t2).2)). split; [done|]. rewrite Hsec.
    change (pr_hmac req') with (pr_hmac req +:+ line_break). by rewrite DecodeString_line_break.
  - unfold not_replayed, seen in *. destruct (d_replayCache d) as [c|] eqn:Ec; [|cbn; by rewrite Ec].
    pose proof (SeenOrStore_other c key t2 (proxy_replay_key uid req')) as Ho.
    destruct (SeenOrStore c key t2) as [b c'] eqn:Es. cbn in *. intros exp Hl. apply Hn', Ho; [|done].
    unfold key, proxy_replay_key. intros Hk.
    change (pr_hmac req') with (pr_hmac req +:+ line_break) in Hk.
    apply (f_equal s2b) in Hk. rewrite !s2b_app in Hk. apply (f_equal length) in Hk.
    rewrite !length_app in Hk. change (length (s2b line_break)) with 1%nat in Hk. lia.
  - rewrite Htk, Hau. revert Hx. unfold NewToolExecutor. change (pr_tool req') with (pr_tool req).
    destruct (_ && _); [done|]. intros [= Hx]. rewrite <- Hx. done.
Qed.

(** ** Administrators *)

(** Every outcome of an administrator's request that gets the credentials' status. *)
Lemma handleAdminRequest_check d data cfg uid pid t1 t2 resp :
  AnswerCheck resp ∈ (handleAdminRequest resolve d data cfg uid pid t1 t2).1 →
  ∃ req, unmarshal data = Some req ∧ ar_version req = ProtocolVersion ∧ ar_admin req = "check" ∧
    VerifyHMAC hmac_sha256 t1 (d_secret d) (ar_timestamp req) "admin:check" "" None (ar_nonce req) (ar_hmac req) = Ok tt ∧
    not_replayed d (FormatInt uid +:+ ":admin:" +:+ ar_hmac req) t2 ∧
    ∃ d1, is_ok (authorizeAdminCheckCaller d1 pid) = true ∧ d_allowedBinaries d1 = d_allowedBinaries d ∧
      resp = admin_check resolve d1 cfg.
Proof.
  assert (∀ (a : answer), AnswerCheck resp ∈ [a] → a = AnswerCheck resp) as H1.
  { intros a Ha. by apply list_elem_of_singleton in Ha. }
  unfold handleAdminRequest. destruct (unmarshal data) as [req|]; [|by intros ?%H1].
  destruct (Z.eqb_spec (ar_version req) ProtocolVersion) as [Hv|]; cbn [negb]; [|by intros ?%H1].
  destruct (VerifyHMAC _ _ _ _ _ _ _ _ _) as [[]|] eqn:Eh; [|by intros ?%H1].
  pose proof (seen_false d (FormatInt uid +:+ ":admin:" +:+ ar_hmac req) t2) as Hs.
  pose proof (seen_same d (FormatInt uid +:+ ":admin:" +:+ ar_hmac req) t2) as (_ & _ & _ & _ & _ & Hb).
  destruct (seen d _ t2) as [[] d1]; cbn [fst snd] in *; [by intros ?%H1|].
  destruct (bool_decide_reflect (ar_admin req = "check")) as [Hc|]; cbn [andb].
  - destruct (is_ok (authorizeAdminCheckCaller d1 pid)) eqn:Ea; cbn [negb]; [|by intros ?%H1].
    rewrite Hc. cbn. intros [= <-]%H1. rewrite Hc in Eh. exists req. split_and!; try done; [by apply Hs|].
    by exists d1.
  - destruct (bool_decide _); by intros ?%H1.
Qed.

Lemma authorizeAdminCheckCaller_iff d pid :
  is_ok (authorizeAdminCheckCaller d pid) = true ↔
  (∃ exe, resolvePeerExecutable pid = Ok exe ∧ isAllowedBinary d exe = true) ∧
  (∃ argv0, resolvePeerArgv0 pid = Ok argv0 ∧ Base argv0 = "claw-wrap").
Proof.
  unfold authorizeAdminCheckCaller.
  destruct (resolvePeerExecutable pid) as [exe|]; cbn; [|split; [done|by intros [(? & ? & _) _]]].
  destruct (isAllowedBinary d exe) eqn:Ea; cbn; [|split; [done|intros [(? & [= <-] & ?) _]; congruence]].
  destruct (resolvePeerArgv0 pid) as [argv0|]; cbn; [|split; [done|by intros [_ (? & ? & _)]]].
  case_bool_decide; cbn; split; try done; [by intros _; split; eexists|by intros [_ (? & [= <-] & ?)]].
Qed.

Lemma handleProxyRequest_no_check d data cfg pid exe uid t1 t2 resp :
  AnswerCheck resp ∉ (handleProxyRequest d data cfg pid exe uid t1 t2).1.1.
Proof.
  assert (∀ a : answer, a ≠ AnswerCheck resp → AnswerCheck resp ∉ [a]) as H1.
  { intros a Ha ?%list_elem_of_singleton. congruence. }
  unfold handleProxyRequest. destruct (unmarshal data) as [req|]; [|by apply H1].
  destruct (negb _); [by apply H1|]. destruct (VerifyHMACWithPTY _ _ _ _ _); [|by apply H1].
  destruct (seen d _ t2) as [[] d1]; [by apply H1|]. destruct (cfg_Tools cfg !! pr_tool req); [|by apply H1].
  destruct (checkToolArgs _ _) as [[] msg]; cbn [negb]; [|by apply H1].
  destruct (NewToolExecutor _ _ _ _ _ _ _); [|by apply H1]. cbn. apply not_elem_of_nil.
Qed.

(** C11: The credentials' status is told only to a caller of the daemon's user
    whose executable is known and allowed and which was invoked as [claw-wrap] (a
    tool's link does not do), for a fresh request signed with the daemon's
    secret; and it holds previews, never a value. *)
Theorem admin_check_guarded d cfg c t1 t2 resp :
  AnswerCheck resp ∈ (handleConnection resolve d cfg c t1 t2).1.1 →
  ∃ payload keys ucred exe req,
    carries c payload keys ∧ verified_caller d cfg c ucred exe ∧ unmarshal payload = Some req ∧
    VerifyHMAC hmac_sha256 t1 (d_secret d) (ar_timestamp req) "admin:check" "" None (ar_nonce req) (ar_hmac req) = Ok tt ∧
    not_replayed d (FormatInt (uc_UID ucred) +:+ ":admin:" +:+ ar_hmac req) t2 ∧
    resolvePeerExecutable (uc_PID ucred) = Ok exe ∧ isAllowedBinary d exe = true ∧
    (∃ argv0, resolvePeerArgv0 (uc_PID ucred) = Ok argv0 ∧ Base argv0 = "claw-wrap") ∧
    ∀ name info, ac_credentials resp !! name = Some info →
      info = {| ci_status := "failed"; ci_preview := "" |} ∨
      ∃ def value, cfg_Credentials cfg !! name = Some def ∧ resolve name def = Ok value ∧
        info = {| ci_status := "ok"; ci_preview := credentialPreview value |}.
Proof.
  intros Hin. destruct (handleConnection resolve d cfg c t1 t2) as [[ans o] d'] eqn:Eh. cbn [fst] in Hin.
  destruct (handleConnection_inv _ _ _ _ _ _ _ _ Eh) as (payload & keys & ucred & exe & Hc & Hv).
  { right. apply Exists_exists. by exists (AnswerCheck resp). }
  rewrite (handleConnection_dispatch _ _ _ _ _ _ _ _ _ Hc Hv) in Eh.
  destruct (bool_decide_reflect ("admin" ∈ keys)) as [|Hadm].
  2: { pose proof (handleProxyRequest_no_check d payload cfg (uc_PID ucred) exe (uc_UID ucred) t1 t2 resp) as Hno.
       destruct (bool_decide _); [by rewrite Eh in Hno|]. injection Eh as <- <- <-. by apply list_elem_of_singleton in Hin. }
  pose proof (handleAdminRequest_check d payload cfg (uc_UID ucred) (uc_PID ucred) t1 t2 resp) as Hk.
  destruct (handleAdminRequest _ _ _ _ _ _ _ _) as [answers d1]. injection Eh as <- <- <-.
  destruct (Hk Hin) as (req & Hu & Hver & Hadmin & Hs & Hr & d2 & Ha & Hb & ->).
  apply authorizeAdminCheckCaller_iff in Ha as [(x & Hx & Hal) Hargv].
  assert (x = exe) as ->.
  { destruct Hv as (_ & _ & _ & [[Hx2 _]|[Hx2 _]]); [congruence|by rewrite Hx in Hx2]. }
  exists payload, keys, ucred, exe, req. split_and!; try done.
  { unfold isAllowedBinary in *. by rewrite <- Hb. }
  intros name info. cbn [admin_check ac_credentials]. rewrite map_lookup_imap.
  destruct (cfg_Credentials cfg !! name) as [def|]; [|done]. cbn. intros [= <-]. unfold credential_info.
  destruct (resolve name def) as [value|] eqn:Er; [|by left].
  case_bool_decide; [by left|]. right. by exists def, value.
Qed.

(** A caller that is not verified learns nothing and changes nothing: the
    answer is one fixed message, no tool is run, and only the counter of refused
    callers moves (the replay cache is not consulted). The message is framed
    whenever the request holds an [hmac] field, which the requests of
    administrators do. *)
Theorem unverified_denied d cfg c t1 t2 payload keys :
  carries c payload keys → (∀ ucred exe, ¬ verified_caller d cfg c ucred exe) →
  ∃ msg, msg ∈ ["internal error: not a unix connection"; "failed to verify caller"; "unauthorized caller"] ∧
    handleConnection resolve d cfg c t1 t2 =
      ([if bool_decide ("hmac" ∈ keys) then FramedError msg else RawError msg], None, inc_metric "caller_verify_fail" d).
Proof.
  intros (data & Hr & Hl & -> & Hne & Hk) Hv. unfold handleConnection. rewrite Hr.
  assert (take (Z.to_nat header_size) data = data) as ->.
  { apply take_ge. unfold blen in Hl. assert (0 ≤ header_size) by done. lia. }
  destruct (Z.eqb_spec (blen data) header_size); [lia|]. cbv zeta. rewrite (bool_decide_eq_false_2 _ Hne), Hk.
  destruct (cn_unix c) eqn:Eu; cbn [negb]; [|eexists; by split; [left|]].
  destruct (cn_peer c) as [ucred|] eqn:Ep; [|eexists; by split; [right; left|]].
  destruct (Z.eqb_spec (uc_UID ucred) (d_allowedUID d)) as [Euid|]; cbn [negb];
    [|eexists; by split; [right; right; left|]].
  destruct (match resolvePeerExecutable _ with Ok _ => _ | Err _ => _ end) as [exe|] eqn:Ex;
    [|eexists; by split; [right; right; left|]].
  apply caller_decision in Ex. by destruct (Hv ucred exe).
Qed.

(** ** Connection slots *)

(** However connections come and handlers finish, the tokens taken are the
    handlers that run, never more than the limit of the configuration; a
    connection is refused exactly when the limit is reached. *)
Theorem connection_slots d evs d' running :
  0 ≤ d_connCap d → d_connUsed d = 0 → accept_run d evs d' running →
  d_connUsed d' = running ∧ 0 ≤ running ≤ d_connCap d ∧
  ((accept_step d' running Accepted).1.1 = Busy ↔ running = d_connCap d) ∧
  (0 < running → (accept_step d' running Finished).2 < d_connCap d).
Proof.
  intros Hc H0 Hrun.
  assert (d_connCap d' = d_connCap d ∧ d_connUsed d' = running ∧ 0 ≤ running ≤ d_connCap d) as (Hcap & Hu & Hb).
  { induction Hrun as [|evs d' running ev Hrun IH Hev]; [lia|]. destruct IH as (Hcap & Hu & Hb).
    destruct ev; cbn [accept_step].
    - unfold acquireConnSlot. destruct (Z.ltb_spec (d_connUsed d') (d_connCap d')); cbn; lia.
    - specialize (Hev eq_refl). unfold releaseConnSlot. destruct (Z.ltb_spec 0 (d_connUsed d')); cbn; lia. }
  split; [done|]. split; [done|]. cbn [accept_step]. unfold acquireConnSlot. rewrite Hu, Hcap.
  destruct (Z.ltb_spec running (d_connCap d)); cbn; split; try lia; split; try done; lia.
Qed.
End laws.
