(* ===== verification/PeerDarwin.v ===== *)
(** Package [internal/daemon], [peercred_darwin.go], [peercred_unsupported.go] and the
    socket options of [peercred_linux.go]: who is at the other end of a connection.

    The system calls are arguments. On macOS the executable and the name a process
    was started by come from one buffer of the kernel, [kern.procargs2]: the number
    of arguments in four bytes, the path of the executable, padding with zeros, and
    then the arguments and the environment, each ended by a zero. *)

From S2P Require Import Prelude GoStrings Json GoTime GoPath Paths Protocol Auth Replay Regexp ConfigTypes Interpolate.
From S2P Require Import World Config Settings Env Runtime AuditLog Executor Sources Daemon DaemonLaws.
Local Open Scope Z_scope.

(** ** Socket options *)

(** Linux: [conn.SyscallConn()], [rawConn.Control], and in it [SO_PEERCRED]. *)
Definition linux_getPeerCredentials (conn control : result unit) (peercred : result Ucred) : result Ucred :=
  conn ≫= λ _, control ≫= λ _, peercred.

Definition int32 (z : Z) : Z := (z + 2 ^ 31) mod 2 ^ 32 - 2 ^ 31.

(** [unix.Xucred]: the groups are an array of sixteen. *)
Record Xucred := { xu_Uid : Z; xu_Ngroups : Z; xu_Groups : list Z }.

Definition darwin_getPeerCredentials (conn control : result unit) (peercred : result Xucred) (peerpid : result Z)
    : result Ucred :=
  conn ≫= λ _, control ≫= λ _,
  peercred ≫= λ cred,
  peerpid ≫= λ pid,
  let gid := if 0 <? xu_Ngroups cred then default 0 (xu_Groups cred !! 0%nat) else 0 in
  Ok {| uc_PID := int32 pid; uc_UID := xu_Uid cred; uc_GID := gid |}.

(** ** [kern.procargs2] *)

Definition zero : ascii := ascii_of_nat 0.

(** [for i < len(data) && data[i] == 0 { i++ }], from the start of [data]. *)
Fixpoint leading_zeros (data : bytes) : nat :=
  match data with
  | c :: data => if bool_decide (c = zero) then S (leading_zeros data) else 0
  | [] => 0
  end.

Definition IndexByte0 (data : bytes) : option nat := index_of data [zero].

Definition darwin_resolvePeerExecutable (procargs : Z → result bytes) (pid : Z) : result string :=
  procargs pid ≫= λ raw,
  if (length raw <? 4)%nat then Err (Errorf "invalid procargs payload" [])
  else
    let data := drop 4 raw in
    let start := leading_zeros data in
    if (length data <=? start)%nat then Err (Errorf "missing executable path" [])
    else
      match IndexByte0 (drop start data) with
      | None => Err (Errorf "unterminated executable path" [])
      | Some endRel =>
        let exe := b2s (take endRel (drop start data)) in
        if bool_decide (exe = "") then Err (Errorf "empty executable path" []) else Ok exe
      end.

Definition darwin_resolvePeerArgv0 (procargs : Z → result bytes) (pid : Z) : result string :=
  procargs pid ≫= λ raw,
  if (length raw <? 4)%nat then Err (Errorf "invalid procargs payload" [])
  else
    let data := drop 4 raw in
    let start := leading_zeros data in
    if (length data <=? start)%nat then Err (Errorf "missing executable path" [])
    else
      match IndexByte0 (drop start data) with
      | None => Err (Errorf "unterminated executable path" [])
      | Some endRel =>
        let pos := (start + endRel)%nat in
        let pos := (pos + leading_zeros (drop pos data))%nat in
        if (length data <=? pos)%nat then Err (Errorf "missing argv0" [])
        else
          match IndexByte0 (drop pos data) with
          | None => Err (Errorf "unterminated argv0" [])
          | Some argvEndRel =>
            let argv0 := b2s (take argvEndRel (drop pos data)) in
            if bool_decide (argv0 = "") then Err (Errorf "empty argv0" []) else Ok argv0
          end
      end.

(** ** Other systems *)

Definition unsupported_getPeerCredentials : result Ucred :=
  Err (Errorf "peer credential verification is unsupported on this platform" []).
Definition unsupported_resolvePeerExecutable (pid : Z) : result string :=
  Err (Errorf "peer executable resolution is unsupported on this platform" []).
Definition unsupported_resolvePeerArgv0 (pid : Z) : result string :=
  Err (Errorf "peer argv0 resolution is unsupported on this platform" []).

(** ** The daemon's interface *)

(** The other parts of the interface are the same on every system. *)
Definition peers_from `{PE : Peers} (exe : Z → result string) (argv0 : Z → result string) : Peers :=
  {| readlink_exe := exe; read_cmdline pid := argv0 pid ≫= λ a, Ok (s2b a ++ [zero]); EvalSymlinks := EvalSymlinks;
     filepath_Abs := filepath_Abs; hmac_sha256 := hmac_sha256; json_object := json_object |}.
Definition darwin_peers `{PE : Peers} (procargs : Z → result bytes) : Peers :=
  peers_from (darwin_resolvePeerExecutable procargs) (darwin_resolvePeerArgv0 procargs).
Definition unsupported_peers `{PE : Peers} : Peers :=
  peers_from unsupported_resolvePeerExecutable unsupported_resolvePeerArgv0.

(** ** Lemmas *)

Lemma leading_zeros_pad n c data : c ≠ zero → leading_zeros (replicate n zero ++ c :: data) = n.
Proof. intros Hc. induction n as [|n IH]; cbn; [by rewrite bool_decide_eq_false_2|]. by rewrite IH. Qed.

Lemma leading_zeros_all n : leading_zeros (replicate n zero) = n.
Proof. induction n as [|n IH]; cbn; [done|]. by rewrite IH. Qed.

Lemma IndexByte0_app a b : zero ∉ a → IndexByte0 (a ++ zero :: b) = Some (length a).
Proof.
  unfold IndexByte0. induction a as [|c a IH]; intros Ha; cbn; [done|].
  rewrite bool_decide_eq_false_2 by set_solver. cbn. by rewrite IH by set_solver.
Qed.

Lemma b2s_nonempty b : b ≠ [] → b2s b ≠ "".
Proof. by destruct b. Qed.

(** ** Specification: what the kernel lays out *)

Definition procargs_layout (argc : bytes) (exe : bytes) (pad : nat) (strings : list bytes) : bytes :=
  argc ++ exe ++ replicate (S pad) zero ++ (strings ≫= λ a, a ++ [zero]).

(** The first of the strings that is not empty. *)
Definition first_nonempty (strings : list bytes) : option bytes :=
  head (filter (λ a, a ≠ []) strings).

Lemma exe_start exe rest : exe ≠ [] → zero ∉ exe →
  leading_zeros (exe ++ rest) = 0%nat ∧ (length (exe ++ rest) <=? 0)%nat = false.
Proof.
  intros Hne Hz. destruct exe as [|c exe]; [done|]. cbn. by rewrite bool_decide_eq_false_2 by set_solver.
Qed.

(** Skipping zeros passes over the empty strings. *)
Lemma skip_empty strings pad :
  Forall (λ a, zero ∉ a) strings →
  let data := replicate pad zero ++ (strings ≫= λ a, a ++ [zero]) in
  match first_nonempty strings with
  | None => (length data <=? leading_zeros data)%nat = true
  | Some a => (length data <=? leading_zeros data)%nat = false ∧ ∃ rest, drop (leading_zeros data) data = a ++ zero :: rest
  end.
Proof.
  revert pad. induction strings as [|a strings IH]; intros pad HF; cbv zeta.
  - cbn. rewrite app_nil_r, leading_zeros_all, length_replicate. apply Nat.leb_refl.
  - apply Forall_cons in HF as [Ha HF]. unfold first_nonempty. cbn [mbind list_bind]. destruct a as [|c a].
    + rewrite filter_cons_False by naive_solver. specialize (IH (S pad) HF). cbv zeta in IH.
      by rewrite replicate_S_end, <- app_assoc in IH.
    + rewrite filter_cons_True by done. cbn [head]. rewrite <- !app_assoc. cbn [app].
      rewrite leading_zeros_pad by set_solver. split.
      * apply Nat.leb_gt. rewrite length_app, length_replicate. cbn. lia.
      * eexists. rewrite drop_app_length' by by rewrite length_replicate. done.
Qed.

Lemma darwin_exe_nonempty procargs pid exe : darwin_resolvePeerExecutable procargs pid = Ok exe → exe ≠ "".
Proof.
  unfold darwin_resolvePeerExecutable. destruct (procargs pid) as [raw|]; [|done]. cbn [mbind result_bind].
  destruct (_ <? 4)%nat; [done|]. cbv zeta. destruct (_ <=? _)%nat; [done|]. destruct (IndexByte0 _); [|done].
  case_bool_decide as Hb; [done|]. by intros [= <-].
Qed.

Lemma take_before_zero data n : IndexByte0 data = Some n → zero ∉ take n data.
Proof.
  unfold IndexByte0. revert n. induction data as [|c data IH]; intros n; cbn; [done|].
  case_bool_decide as Hc; [intros [= <-]; cbn; set_solver|].
  destruct (index_of data [zero]) as [m|]; [|done]. intros [= <-]. cbn. specialize (IH m eq_refl). set_solver.
Qed.

Lemma darwin_argv0_text procargs pid a : darwin_resolvePeerArgv0 procargs pid = Ok a → a ≠ "" ∧ zero ∉ s2b a.
Proof.
  unfold darwin_resolvePeerArgv0. destruct (procargs pid) as [raw|]; [|done]. cbn [mbind result_bind].
  destruct (_ <? 4)%nat; [done|]. cbv zeta. destruct (_ <=? _)%nat; [done|]. destruct (IndexByte0 _) as [n|]; [|done].
  destruct (_ <=? _)%nat; [done|]. destruct (IndexByte0 (drop (_ + _) _)) as [m|] eqn:E; [|done].
  case_bool_decide as Hb; [done|]. intros [= <-]. split; [done|]. rewrite s2b_b2s. by apply take_before_zero.
Qed.

Lemma Cut_zero a b : zero ∉ a → (Cut (b2s (a ++ zero :: b)) NULs).1.1 = b2s a.
Proof.
  intros Ha. unfold Cut, Index. rewrite s2b_b2s. change (s2b NULs) with [zero].
  pose proof (IndexByte0_app a b Ha) as Hi. unfold IndexByte0 in Hi. rewrite Hi. cbn.
  unfold SliceTo. by rewrite s2b_b2s, take_app_length.
Qed.

(** ** Properties *)

(** The daemon's checks of the answers change nothing: on macOS its functions are the
    macOS functions, up to which error is reported. *)
Lemma darwin_peers_same `{PE : Peers} procargs pid :
  @resolvePeerExecutable (darwin_peers procargs) pid = darwin_resolvePeerExecutable procargs pid ∧
  @resolvePeerArgv0 (darwin_peers procargs) pid = darwin_resolvePeerArgv0 procargs pid.
Proof.
  split.
  - unfold resolvePeerExecutable. cbn. pose proof (darwin_exe_nonempty procargs pid) as Hne.
    destruct (darwin_resolvePeerExecutable procargs pid) as [exe|]; [|done]. cbn. by rewrite bool_decide_eq_false_2 by by apply Hne.
  - unfold resolvePeerArgv0. cbn. pose proof (darwin_argv0_text procargs pid) as Ht.
    destruct (darwin_resolvePeerArgv0 procargs pid) as [a|]; [|done]. cbn [mbind result_bind].
    destruct (Ht a eq_refl) as [Hne Hz]. rewrite bool_decide_eq_false_2 by by destruct (s2b a).
    rewrite Cut_zero, b2s_s2b by done. cbv zeta. by rewrite bool_decide_eq_false_2.
Qed.

(** On macOS the kernel's buffer is read back: the executable is its path, and the
    name a process was started by is the first string after it that is not empty,
    whatever the padding. *)
Theorem procargs_read procargs pid argc exe pad strings :
  procargs pid = Ok (procargs_layout argc exe pad strings) → length argc = 4%nat → exe ≠ [] → zero ∉ exe →
  Forall (λ a, zero ∉ a) strings →
  darwin_resolvePeerExecutable procargs pid = Ok (b2s exe) ∧
  darwin_resolvePeerArgv0 procargs pid =
    match first_nonempty strings with Some a => Ok (b2s a) | None => Err (Errorf "missing argv0" []) end.
Proof.
  intros Hp Hargc Hne Hz HF. unfold darwin_resolvePeerExecutable, darwin_resolvePeerArgv0. rewrite Hp. cbn [mbind result_bind].
  assert ((length (procargs_layout argc exe pad strings) <? 4)%nat = false) as ->.
  { apply Nat.ltb_ge. unfold procargs_layout. rewrite length_app. lia. }
  assert (drop 4 (procargs_layout argc exe pad strings) = exe ++ replicate (S pad) zero ++ (strings ≫= λ a, a ++ [zero])) as ->.
  { unfold procargs_layout. by rewrite drop_app_length' by done. }
  destruct (exe_start exe (replicate (S pad) zero ++ (strings ≫= λ a, a ++ [zero])) Hne Hz) as [-> ->].
  set (tail := replicate (S pad) zero ++ (strings ≫= λ a, a ++ [zero])).
  assert (∃ rest, tail = zero :: rest) as [tl Htl] by (by eexists). rewrite ?drop_0.
  assert (IndexByte0 (exe ++ tail) = Some (length exe)) as -> by (rewrite Htl; by apply IndexByte0_app).
  rewrite take_app_length, Nat.add_0_l, drop_app_length. split.
  { by rewrite bool_decide_eq_false_2 by by apply b2s_nonempty. }
  pose proof (skip_empty strings (S pad) HF) as Hs. cbv zeta in Hs. fold tail in Hs. rewrite length_app.
  assert ((length exe + length tail <=? length exe + leading_zeros tail)%nat = (length tail <=? leading_zeros tail)%nat) as ->.
  { destruct (Nat.leb_spec (length tail) (leading_zeros tail)); [apply Nat.leb_le|apply Nat.leb_gt]; lia. }
  destruct (first_nonempty strings) as [a|] eqn:Ef; [|by rewrite Hs].
  destruct Hs as [-> (rest & Hr)]. rewrite drop_app_add, Hr.
  apply head_Some_elem_of, list_elem_of_filter in Ef as [Ha Hin].
  rewrite IndexByte0_app by exact (proj1 (Forall_forall _ _) HF _ Hin). rewrite take_app_length.
  by rewrite bool_decide_eq_false_2 by by apply b2s_nonempty.
Qed.

(** An empty name is not what Linux and macOS agree on: Linux refuses a process that
    was started with one, macOS reports the next argument, or a variable of the
    environment, in its place; so the check of a caller's name passes for a process
    whose second argument is [claw-wrap]. *)
Theorem empty_name_skipped `{RE : Regexp} `{PE : Peers} (d : Daemon) procargs pid argc exe pad rest :
  procargs pid = Ok (procargs_layout argc exe pad ([] :: s2b "claw-wrap" :: rest)) → length argc = 4%nat →
  exe ≠ [] → zero ∉ exe → Forall (λ a, zero ∉ a) rest → isAllowedBinary d (b2s exe) = true →
  @authorizeAdminCheckCaller RE (darwin_peers procargs) d pid = Ok tt ∧
  (read_cmdline pid = Ok (([] :: s2b "claw-wrap" :: rest) ≫= λ a, a ++ [zero]) →
   is_ok (authorizeAdminCheckCaller d pid) = false).
Proof.
  intros Hp Hargc Hne Hz HF Hal. split.
  - pose proof (darwin_peers_same procargs pid) as [E1 E2].
    assert (Forall (λ a, zero ∉ a) ([] :: s2b "claw-wrap" :: rest)) as HF2.
    { repeat constructor; [set_solver|by apply (bool_decide_eq_true_1 _)|done]. }
    destruct (procargs_read procargs pid argc exe pad _ Hp Hargc Hne Hz HF2) as [R1 R2].
    unfold authorizeAdminCheckCaller. rewrite E1, E2, R1, R2. cbn [mbind result_bind wrap_err].
    change (@isAllowedBinary RE (darwin_peers procargs) d (b2s exe)) with (isAllowedBinary d (b2s exe)). by rewrite Hal.
  - intros Hc. unfold authorizeAdminCheckCaller. destruct (resolvePeerExecutable pid) as [x|]; [|done]. cbn.
    destruct (isAllowedBinary d x); [|done]. cbn. unfold resolvePeerArgv0. by rewrite Hc.
Qed.

(** On a system that cannot tell who calls, the daemon runs nothing and answers no
    administrator. *)
Theorem unsupported_refuses `{RE : Regexp} `{UC : UnicodeCase} `{DP : DurationParser} `{OSi : OS} `{HO : Host}
    `{MR : MapRange} `{HA : Hash} `{PE : Peers} `{CP : Codec ProxyRequest} `{CA : Codec AdminRequest}
    resolve d cfg c t1 t2 e :
  cn_peer c = unsupported_getPeerCredentials → (handleConnection resolve d cfg c t1 t2).1.2 ≠ Some e.
Proof. intros Hc (u & p & k & [_ _ (_ & Hp & _) _ _ _ _ _ _ _])%handleConnection_runs. by rewrite Hc in Hp. Qed.
