(* ===== verification/WrapperLaws.v ===== *)
(** Package [internal/wrapper]: what the client relays, when it ends, and in which
    order its input is sent. *)

From S2P Require Import Prelude GoStrings Base64 Json Protocol Framing GoTime GoPath Paths Auth Replay Regexp ConfigTypes.
From S2P Require Import ArgsPolicy Interpolate World OutputBuffer Config Settings Env Runtime AuditLog Executor Sources.
From S2P Require Import HttpProxy SecretFile Daemon DaemonLaws Wrapper.
Local Open Scope Z_scope.

(** ** Streams of messages *)

Section streams.
Context {T : Type} `{Codec T}.

(** What a connection carries: the frames of the messages, one after the other. *)
Fixpoint frames (vs : list T) : option bytes :=
  match vs with
  | [] => Some []
  | v :: vs =>
    data ← marshal v;
    rest ← frames vs;
    if blen data >? MaxMessageSize then None else Some (frame data ++ rest)
  end.

Lemma frames_cons v vs b :
  frames (v :: vs) = Some b →
  ∃ data rest, marshal v = Some data ∧ 0 < blen data ≤ MaxMessageSize ∧ frames vs = Some rest ∧ b = frame data ++ rest.
Proof.
  cbn [frames]. destruct (marshal v) as [data|] eqn:Hm; [|done]. cbn [mbind option_bind].
  destruct (frames vs) as [rest|]; [|done]. cbn [mbind option_bind].
  destruct (Z.gtb_spec (blen data) MaxMessageSize); [done|]. intros [= <-]. exists data, rest.
  pose proof (marshal_not_nil _ _ Hm). assert (0 < blen data) by (destruct data; [done|unfold blen; simpl; lia]).
  split_and!; done || lia.
Qed.

(** It is what [Encoder.Encode] writes, call after call. *)
Lemma EncodeAll_frames w vs out : EncodeAll w vs = (out, Ok tt) → ∃ b, frames vs = Some b ∧ out = w ++ b.
Proof.
  revert w. induction vs as [|v vs IH]; intros w; cbn [EncodeAll].
  { intros [= <-]. exists []. by rewrite app_nil_r. }
  destruct (Encode w v) as [w1 [[]|]] eqn:E; [|done]. intros Hvs.
  apply Encode_buf_inv in E as (data & Hm & Hl & ->). apply IH in Hvs as (b & Hb & ->).
  exists (frame data ++ b). cbn [frames]. rewrite Hm. cbn [mbind option_bind]. rewrite Hb. cbn [mbind option_bind].
  destruct (Z.gtb_spec (blen data) MaxMessageSize); [lia|]. by rewrite app_assoc.
Qed.

(** The messages a reader still has to deliver before an orderly end. *)
Definition delivers (vs : list T) (r : reader) : Prop := frames vs = Some (rd_data r) ∧ rd_fin r = io_EOF.

Lemma delivers_cons v vs r :
  delivers (v :: vs) r → ∃ r', Decode (T := T) r = (Ok v, r') ∧ delivers vs r'.
Proof.
  intros [Hf He]. apply frames_cons in Hf as (data & rest & Hm & Hl & Hr & Hd).
  eexists. rewrite (Decode_frame _ data rest Hd Hl), (unmarshal_marshal _ _ Hm). by split.
Qed.

Lemma delivers_nil r : delivers [] r → (Decode (T := T) r).1 = Err io_EOF.
Proof. intros [Hf He]. destruct r as [d f]. cbn in *. injection Hf as <-. subst f. done. Qed.
End streams.

(** ** The loop *)

Section client.
Context `{TE : Terminal} `{CR : Codec ResponseMessage} `{CW : Codec WrapperMessage} {W : Type} `{WR : Writer W}.

(** A message of output: its data decodes. *)
Definition carries_output (m : ResponseMessage) : Prop :=
  (rm_type m = MsgTypeStdout ∨ rm_type m = MsgTypeStderr) ∧ is_Some (DecodeString StdEncoding (rm_data m)).

(** The client has printed [before] and then what the messages [ms] carry. *)
Definition printed (c c' : client W) (ms : list ResponseMessage) : Prop :=
  cl_stdout c' = cl_stdout c ++ inline_bytes MsgTypeStdout ms ∧
  cl_stderr c' = cl_stderr c ++ inline_bytes MsgTypeStderr ms.

Lemma printed_nil c c' : cl_stdout c' = cl_stdout c → cl_stderr c' = cl_stderr c → printed c c' [].
Proof. intros E1 E2. unfold printed. cbn. by rewrite !app_nil_r. Qed.

Lemma printed_trans c c1 c2 ms1 ms2 : printed c c1 ms1 → printed c1 c2 ms2 → printed c c2 (ms1 ++ ms2).
Proof.
  intros [E1 E2] [E3 E4]. unfold printed. rewrite E3, E4, E1, E2, !inline_bytes_app. by rewrite !app_assoc.
Qed.

Lemma handleResponse_output m c :
  carries_output m → ∃ c', handleResponse m c = (Ok false, c') ∧ printed c c' [m] ∧ cl_in c' = cl_in c ∧
    cl_reading c' = cl_reading c ∧ cl_conn c' = cl_conn c.
Proof.
  intros [Ht [data Hd]]. unfold handleResponse, printed, inline_bytes. cbn [mbind list_bind].
  destruct Ht as [-> | ->].
  - rewrite bool_decide_eq_true_2, Hd by done. eexists. split; [reflexivity|]. cbn. by rewrite !app_nil_r.
  - cbn. rewrite Hd. eexists. split; [reflexivity|]. cbn. by rewrite !app_nil_r.
Qed.

(** The errors of the client's own writes. *)
Definition send_failed (o : outcome) : Prop :=
  ∃ e, o = Failed (Wrapf "send stdin: %w" [] e) ∨ o = Failed (Wrapf "send winsize: %w" [] e).

(** A step other than taking a response leaves the responses alone. *)
Lemma other_step pty ch c c' o :
  ch ≠ PickResponse → client_step pty ch c = Some (c', o) →
  cl_in c' = cl_in c ∧ cl_reading c' = cl_reading c ∧ printed c c' [] ∧ (o = None ∨ ∃ x, o = Some x ∧ send_failed x).
Proof.
  intros Hch Hs. assert (∀ c1, cl_stdout c1 = cl_stdout c → cl_stderr c1 = cl_stderr c → printed c c1 []) as Hp
    by (intros; by apply printed_nil).
  destruct ch; cbn [client_step] in Hs; try done.
  - destruct (_ || _); [done|]. injection Hs as <- <-. split_and!; [done..|by apply Hp|by left].
  - destruct (cl_stdin_closed c); [done|]. injection Hs as <- <-. split_and!; [done..|by apply Hp|by left].
  - destruct (cl_stdinCh c) as [|chunk ch]; [done|]. destruct (NDJSONWrite _ _) as [conn [u|e]]; injection Hs as <- <-.
    + split_and!; [done..|by apply Hp|by left].
    + split_and!; [done..|by apply Hp|]. right. eexists. split; [done|]. exists e. by left.
  - destruct (_ && _); [|done]. injection Hs as <- <-. split_and!; [done..|by apply Hp|by left].
  - injection Hs as <- <-. split_and!; [done..|by apply Hp|by left].
  - destruct pty; [|done]. cbn [negb] in Hs. unfold sendWindowSize in Hs. destruct detectWindowSize as [size|].
    2: { injection Hs as <- <-. split_and!; [done..|by apply Hp|by left]. }
    destruct (NDJSONWrite _ _) as [conn [u|e]]; cbn [wrap_err] in Hs; injection Hs as <- <-.
    + split_and!; [done..|by apply Hp|by left].
    + split_and!; [done..|by apply Hp|]. right. eexists. split; [done|]. exists e. by right.
Qed.

(** A step that takes a response of output. *)
Lemma output_step pty c m ms :
  cl_reading c = true → delivers (m :: ms) (cl_in c) → carries_output m →
  ∃ c', client_step pty PickResponse c = Some (c', None) ∧ printed c c' [m] ∧ delivers ms (cl_in c') ∧
    cl_reading c' = true.
Proof.
  intros Hr Hd Hm. apply delivers_cons in Hd as (r' & HD & Hd'). cbn [client_step]. rewrite Hr, HD. cbn [negb].
  destruct (handleResponse_output m (set_in c r' true) Hm) as (c' & -> & Hp & Hi & Hre & _).
  exists c'. split; [done|]. split; [exact Hp|]. split; [by rewrite Hi|by rewrite Hre].
Qed.

(** A step that takes the final message. *)
Lemma done_step pty c code timeout ms :
  cl_reading c = true → delivers (done_msg code timeout :: ms) (cl_in c) →
  ∃ c', client_step pty PickResponse c = Some (c', Some (Exited code)) ∧ printed c c' [] ∧ cl_raw c' = false.
Proof.
  intros Hr Hd. apply delivers_cons in Hd as (r' & HD & Hd'). cbn [client_step]. rewrite Hr, HD. cbn [negb].
  eexists. split; [reflexivity|]. split; [|done]. by apply printed_nil.
Qed.

Lemma client_run_output pty code timeout chs c outs c' o :
  cl_reading c = true → delivers (outs ++ [done_msg code timeout]) (cl_in c) → Forall carries_output outs →
  client_run pty chs c = Some (c', o) →
  match o with
  | None => ∃ used rest, outs = used ++ rest ∧ printed c c' used ∧ cl_reading c' = true ∧
      delivers (rest ++ [done_msg code timeout]) (cl_in c')
  | Some (Exited code') => code' = code ∧ printed c c' outs ∧ cl_raw c' = false
  | Some (Failed e) => send_failed (Failed e)
  end.
Proof.
  revert c outs. induction chs as [|ch chs IH]; intros c outs Hr Hd HF; cbn [client_run].
  { intros [= <- <-]. exists [], outs. split_and!; try done. by apply printed_nil. }
  destruct (client_step pty ch c) as [[c1 o1]|] eqn:Es; [|done].
  assert (∀ used rest, outs = used ++ rest → printed c c1 used → cl_reading c1 = true →
    delivers (rest ++ [done_msg code timeout]) (cl_in c1) → o1 = None →
    match o1 with Some o => Some (c1, Some o) | None => client_run pty chs c1 end = Some (c', o) →
    match o with
    | None => ∃ used rest, outs = used ++ rest ∧ printed c c' used ∧ cl_reading c' = true ∧
        delivers (rest ++ [done_msg code timeout]) (cl_in c')
    | Some (Exited code') => code' = code ∧ printed c c' outs ∧ cl_raw c' = false
    | Some (Failed e) => send_failed (Failed e)
    end) as Hnext.
  { intros used rest -> Hp Hr1 Hd1 -> Hrun. apply Forall_app in HF as [_ HF].
    specialize (IH c1 rest Hr1 Hd1 HF Hrun). destruct o as [[code'|e]|]; [|done|].
    - destruct IH as (-> & Hp2 & Hraw). split; [done|]. split; [by eapply printed_trans|done].
    - destruct IH as (u & r & -> & Hp2 & Hr2 & Hd2). exists (used ++ u), r. rewrite app_assoc.
      split; [done|]. split; [by eapply printed_trans|done]. }
  destruct (decide (ch = PickResponse)) as [->|Hne].
  - destruct outs as [|m outs].
    + destruct (done_step pty c code timeout [] Hr Hd) as (c2 & E & Hp & Hraw). rewrite E in Es. injection Es as <- <-.
      intros [= <- <-]. done.
    + apply Forall_cons in HF as HF1. destruct HF1 as [Hm _].
      destruct (output_step pty c m _ Hr Hd Hm) as (c2 & E & Hp & Hd2 & Hr2). rewrite E in Es. injection Es as <- <-.
      by apply (Hnext [m] outs).
  - destruct (other_step _ _ _ _ _ Hne Es) as (Hi & Hre & Hp & [->|(x & -> & Hx)]).
    + apply (Hnext [] outs); try done; [by rewrite Hre|by rewrite Hi].
    + intros [= <- <-]. destruct Hx as (e & [-> | ->]); by exists e; auto.
Qed.

(** From any point the responses alone bring the client to its end. *)
Lemma client_run_finish pty code timeout outs c :
  cl_reading c = true → delivers (outs ++ [done_msg code timeout]) (cl_in c) → Forall carries_output outs →
  ∃ c', client_run pty (replicate (S (length outs)) PickResponse) c = Some (c', Some (Exited code)) ∧
    printed c c' outs ∧ cl_raw c' = false.
Proof.
  revert c. induction outs as [|m outs IH]; intros c Hr Hd HF.
  - destruct (done_step pty c code timeout [] Hr Hd) as (c2 & E & Hp & Hraw). exists c2.
    cbn [length replicate client_run]. by rewrite E.
  - apply Forall_cons in HF as [Hm HF]. destruct (output_step pty c m _ Hr Hd Hm) as (c2 & E & Hp & Hd2 & Hr2).
    destruct (IH c2 Hr2 Hd2 HF) as (c' & Hrun & Hp2 & Hraw). exists c'.
    cbn [length]. rewrite replicate_S. cbn [client_run]. rewrite E. split; [exact Hrun|].
    split; [|done]. by apply (printed_trans c c2 c' [m] outs).
Qed.

(** When the daemon goes away before the final message, responses never end the
    loop: the goroutine that reads them stops without telling it. *)
Lemma client_run_abandoned pty chs c outs c' o :
  cl_reading c = false ∨ delivers outs (cl_in c) ∧ Forall carries_output outs →
  client_run pty chs c = Some (c', o) → match o with None => True | Some x => send_failed x end.
Proof.
  revert c outs. induction chs as [|ch chs IH]; intros c outs Hc; cbn [client_run]; [by intros [= <- <-]|].
  destruct (client_step pty ch c) as [[c1 o1]|] eqn:Es; [|done].
  destruct (decide (ch = PickResponse)) as [->|Hne].
  - destruct Hc as [Hr|[Hd HF]]; [cbn [client_step] in Es; by rewrite Hr in Es|].
    destruct (cl_reading c) eqn:Hr; [|cbn [client_step] in Es; by rewrite Hr in Es]. destruct outs as [|m outs].
    + cbn [client_step] in Es. rewrite Hr in Es. cbn [negb] in Es. pose proof (delivers_nil _ Hd) as HE.
      destruct (Decode (cl_in c)) as [x r] eqn:E. cbn [fst] in HE. subst x. cbn in Es. injection Es as <- <-.
      apply (IH _ []). by left.
    + apply Forall_cons in HF as [Hm HF]. destruct (output_step pty c m _ Hr Hd Hm) as (c2 & E & _ & Hd2 & _).
      rewrite E in Es. injection Es as <- <-. apply (IH _ outs). by right.
  - destruct (other_step _ _ _ _ _ Hne Es) as (Hi & Hre & _ & [->|(x & -> & Hx)]); [|by intros [= <- <-]].
    apply (IH _ outs). by rewrite Hi, Hre.
Qed.

(** A loop that goes on has taken at most the responses that carry output. *)
Definition responses_taken (chs : list choice) : nat := length (filter (.= PickResponse) chs).

Lemma client_run_responses pty code timeout chs c outs c' :
  cl_reading c = true → delivers (outs ++ [done_msg code timeout]) (cl_in c) → Forall carries_output outs →
  client_run pty chs c = Some (c', None) → (responses_taken chs ≤ length outs)%nat.
Proof.
  unfold responses_taken. revert c outs. induction chs as [|ch chs IH]; intros c outs Hr Hd HF; cbn [client_run]; [cbn; lia|].
  destruct (client_step pty ch c) as [[c1 o1]|] eqn:Es; [|done]. rewrite filter_cons.
  destruct (decide (ch = PickResponse)) as [->|Hne].
  - destruct outs as [|m outs].
    + destruct (done_step pty c code timeout [] Hr Hd) as (c2 & E & _). by rewrite E in Es; injection Es as <- <-.
    + apply Forall_cons in HF as [Hm HF]. destruct (output_step pty c m _ Hr Hd Hm) as (c2 & E & _ & Hd2 & Hr2).
      rewrite E in Es. injection Es as <- <-. intros Hrun. pose proof (IH _ _ Hr2 Hd2 HF Hrun). cbn [length]. lia.
  - destruct (other_step _ _ _ _ _ Hne Es) as (Hi & Hre & _ & [->|(x & -> & _)]); [|done].
    intros Hrun. apply (IH c1 outs); [by rewrite Hre|by rewrite Hi|done|done].
Qed.

(** ** Properties of the loop *)

(** C13: Whatever the schedule of the client's goroutines, its standard output and
    error are exactly what the daemon's messages carry, in order, and it exits with
    the code of the final message, after all of them and with the terminal
    restored. Only a failed write of its own ends it earlier, and from any point it
    reaches that end by taking responses. *)
Theorem client_relays pty outs code timeout wire conn raw chs c' o :
  Forall carries_output outs → EncodeAll [] (outs ++ [done_msg code timeout]) = (wire, Ok tt) →
  client_run pty chs (client_start conn {| rd_data := wire; rd_fin := io_EOF |} raw) = Some (c', o) →
  match o with
  | Some (Exited code') => code' = code ∧ cl_stdout c' = inline_bytes MsgTypeStdout outs ∧
      cl_stderr c' = inline_bytes MsgTypeStderr outs ∧ cl_raw c' = false
  | Some (Failed e) => send_failed (Failed e)
  | None => ∃ n c'', client_run pty (replicate n PickResponse) c' = Some (c'', Some (Exited code)) ∧
      cl_stdout c'' = inline_bytes MsgTypeStdout outs ∧ cl_stderr c'' = inline_bytes MsgTypeStderr outs
  end.
Proof.
  intros HF HE Hrun. apply EncodeAll_frames in HE as (b & Hb & ->).
  set (c := client_start conn _ raw) in *.
  assert (delivers (outs ++ [done_msg code timeout]) (cl_in c)) as Hd by by split.
  pose proof (client_run_output pty code timeout chs c outs c' o eq_refl Hd HF Hrun) as H.
  destruct o as [[code'|e]|]; [|done|].
  - destruct H as (-> & [H1 H2] & H3). by split_and!.
  - destruct H as (used & rest & -> & Hp & Hr & Hd'). apply Forall_app in HF as [_ HF].
    destruct (client_run_finish pty code timeout rest c' Hr Hd' HF) as (c'' & Hrun' & Hp' & _).
    exists (S (length rest)), c''. split; [exact Hrun'|].
    destruct (printed_trans _ _ _ _ _ Hp Hp') as [H1 H2]. by split.
Qed.

(** C14: The loop ends: no schedule takes more responses than the daemon's messages
    before the final one without ending the client. *)
Theorem client_terminates pty outs code timeout wire conn raw chs c' o :
  Forall carries_output outs → EncodeAll [] (outs ++ [done_msg code timeout]) = (wire, Ok tt) →
  client_run pty chs (client_start conn {| rd_data := wire; rd_fin := io_EOF |} raw) = Some (c', o) →
  (length outs < responses_taken chs)%nat → ∃ x, o = Some x ∧ (x = Exited code ∨ send_failed x).
Proof.
  intros HF HE Hrun Hn. apply EncodeAll_frames in HE as (b & Hb & ->).
  set (c := client_start conn _ raw) in *.
  assert (delivers (outs ++ [done_msg code timeout]) (cl_in c)) as Hd by by split.
  pose proof (client_run_output pty code timeout chs c outs c' o eq_refl Hd HF Hrun) as H.
  destruct o as [x|]; [exists x; split; [done|]; destruct x; [destruct H as [-> _]; by left|by right]|].
  pose proof (client_run_responses pty code timeout chs c outs c' eq_refl Hd HF Hrun). lia.
Qed.

(** A daemon that closes the connection without a final message, or dies,
    leaves its client waiting: no schedule ever ends the loop, unless a write of
    its own fails. *)
Theorem client_abandoned pty outs wire conn raw chs c' o :
  Forall carries_output outs → EncodeAll [] outs = (wire, Ok tt) →
  client_run pty chs (client_start conn {| rd_data := wire; rd_fin := io_EOF |} raw) = Some (c', o) →
  match o with None => True | Some x => send_failed x end.
Proof.
  intros HF HE Hrun. apply EncodeAll_frames in HE as (b & Hb & ->).
  set (c := client_start conn _ raw) in *. apply (client_run_abandoned pty chs c outs c' o); [|done].
  right. by split.
Qed.
End client.

(** ** Standard input *)

Section stdin.
Context `{TE : Terminal} `{CR : Codec ResponseMessage} `{CW : Codec WrapperMessage}.

Definition stdin_bytes (msgs : list WrapperMessage) : bytes :=
  msgs ≫= λ m, if bool_decide (wm_type m = MsgTypeStdin) then default [] (DecodeString StdEncoding (wm_data m)) else [].

Definition chunks_read (chs : list choice) : bytes :=
  chs ≫= λ ch, match ch with StdinRead chunk => chunk | _ => [] end.

Lemma stdin_bytes_app l1 l2 : stdin_bytes (l1 ++ l2) = stdin_bytes l1 ++ stdin_bytes l2.
Proof. apply bind_app. Qed.

Lemma stdin_bytes_chunk chunk : stdin_bytes [stdin_msg (EncodeToString StdEncoding chunk) false] = chunk.
Proof.
  unfold stdin_bytes. cbn [mbind list_bind]. rewrite bool_decide_eq_true_2 by done. cbn [stdin_msg wm_data].
  by rewrite (DecodeString_EncodeToString StdEncoding), app_nil_r.
Qed.

Lemma WriteAll_snoc w msgs w1 m w2 :
  WriteAll w msgs = (w1, Ok tt) → NDJSONWrite w1 m = (w2, Ok tt) → WriteAll w (msgs ++ [m]) = (w2, Ok tt).
Proof.
  revert w. induction msgs as [|x msgs IH]; intros w; cbn [WriteAll app]; [intros [= <-] ->; done|].
  destruct (NDJSONWrite w x) as [w0 [u|e]]; [by apply IH|done].
Qed.

(** Writing a message to the buffer: it is written whole or not at all. *)
Lemma NDJSONWrite_buf (w : bytes) (m : WrapperMessage) :
  (NDJSONWrite w m).2 = Ok tt ∨ (is_ok (NDJSONWrite w m).2 = false ∧ (NDJSONWrite w m).1 = w).
Proof. unfold NDJSONWrite. destruct (marshal m); [|by right]. destruct (_ >? _); [by right|by left]. Qed.

(** The end of the input carries none. *)
Definition bare_end (m : WrapperMessage) : Prop := wm_eof m = true → wm_data m = "".

Definition stdin_inv (conn : bytes) (c : client bytes) (done : bytes) : Prop :=
  ∃ msgs, WriteAll conn msgs = (cl_conn c, Ok tt) ∧ Forall bare_end msgs ∧ stdin_bytes msgs ++ mjoin (cl_stdinCh c) = done.

Lemma stdin_inv_write conn c done m :
  stdin_inv conn c done → stdin_bytes [m] = [] → bare_end m →
  stdin_inv conn (set_conn c (NDJSONWrite (cl_conn c) m).1) done.
Proof.
  intros (msgs & Hw & HF & Hb) Hm He. destruct (NDJSONWrite_buf (cl_conn c) m) as [Hok|[_ ->]].
  - exists (msgs ++ [m]). split; [|split; [by apply Forall_app; split; [|constructor]|by rewrite stdin_bytes_app, Hm, app_nil_r]].
    apply (WriteAll_snoc _ _ _ _ _ Hw). cbn. rewrite <- Hok. apply surjective_pairing.
  - exists msgs. by destruct c.
Qed.

Lemma stdin_inv_same conn c c' done :
  stdin_inv conn c done → cl_conn c' = cl_conn c → cl_stdinCh c' = cl_stdinCh c → stdin_inv conn c' done.
Proof. intros (msgs & Hw & Hb) E1 E2. exists msgs. by rewrite E1, E2. Qed.

Lemma stdin_step pty conn ch c c' done :
  stdin_inv conn c done → client_step pty ch c = Some (c', None) → stdin_inv conn c' (done ++ chunks_read [ch]).
Proof.
  intros Hi Hs. unfold chunks_read. cbn [mbind list_bind]. rewrite app_nil_r.
  destruct ch; cbn [client_step] in Hs; rewrite ?app_nil_r.
  - destruct (_ || _); [done|]. injection Hs as <-. destruct Hi as (msgs & Hw & HF & Hb). exists msgs. do 2 (split; [done|]).
    cbn [set_stdin cl_stdinCh]. rewrite join_app. cbn [mjoin list_join]. by rewrite app_nil_r, app_assoc, Hb.
  - destruct (cl_stdin_closed c); [done|]. injection Hs as <-. by apply (stdin_inv_same _ c).
  - destruct (cl_reading c); [|done]. cbn [negb] in Hs. destruct (Decode (cl_in c)) as [[m|e] r].
    + unfold handleResponse in Hs. repeat case_match; simplify_eq; by apply (stdin_inv_same _ c).
    + case_match; [|done]. injection Hs as <-. by apply (stdin_inv_same _ c).
  - destruct (cl_stdinCh c) as [|chunk ch] eqn:Ech; [done|].
    destruct (NDJSONWrite (cl_conn c) _) as [conn1 [[]|]] eqn:Ew; [|done]. injection Hs as <-.
    destruct Hi as (msgs & Hw & HF & Hb). eexists. split; [by apply (WriteAll_snoc _ _ _ _ _ Hw Ew)|].
    split; [by apply Forall_app; split; [|constructor]|].
    cbn [set_conn set_stdin cl_stdinCh]. rewrite Ech in Hb. cbn [mjoin list_join] in Hb.
    by rewrite stdin_bytes_app, stdin_bytes_chunk, <- app_assoc.
  - destruct (_ && _); [|done]. injection Hs as <-.
    apply (stdin_inv_same _ (set_conn c (NDJSONWrite (cl_conn c) (stdin_msg "" true)).1)); [|done..].
    by apply stdin_inv_write.
  - injection Hs as <-. by apply stdin_inv_write.
  - destruct pty; [|done]. cbn [negb] in Hs. unfold sendWindowSize in Hs. destruct detectWindowSize as [size|].
    2: { by injection Hs as <-. }
    destruct (NDJSONWrite (cl_conn c) (winsize_msg size)) as [conn1 [u|e]] eqn:Ew; [|done]. injection Hs as <-.
    pose proof (stdin_inv_write conn c done (winsize_msg size) Hi eq_refl ltac:(done)) as H. by rewrite Ew in H.
Qed.

(** A step that ends the loop has sent nothing new. *)
Lemma last_step pty ch c c' x : client_step pty ch c = Some (c', Some x) → cl_conn c' = cl_conn c.
Proof.
  intros Hs. destruct ch; cbn [client_step] in Hs.
  - by destruct (_ || _).
  - by destruct (cl_stdin_closed c).
  - destruct (cl_reading c); [|done]. cbn [negb] in Hs. destruct (Decode (cl_in c)) as [[m|e] r].
    + unfold handleResponse in Hs. repeat case_match; by simplify_eq.
    + case_match; by simplify_eq.
  - destruct (cl_stdinCh c) as [|chunk ch]; [done|].
    pose proof (NDJSONWrite_buf (cl_conn c) (stdin_msg (EncodeToString StdEncoding chunk) false)) as Hw.
    destruct (NDJSONWrite (cl_conn c) _) as [conn1 [[]|]]; [done|]. cbn in Hw. destruct Hw as [?|[_ ->]]; [done|].
    by injection Hs as <- _.
  - by destruct (_ && _).
  - done.
  - destruct pty; [|done]. cbn [negb] in Hs. unfold sendWindowSize in Hs. destruct detectWindowSize as [size|]; [|done].
    pose proof (NDJSONWrite_buf (cl_conn c) (winsize_msg size)) as Hw.
    destruct (NDJSONWrite (cl_conn c) (winsize_msg size)) as [conn1 [u|e]]; [done|]. cbn in Hw. destruct Hw as [?|[_ ->]]; [done|].
    by injection Hs as <- _.
Qed.

(** What a client has written at any point, and at its end. *)
Lemma client_run_stdin pty conn chs c before c' o :
  stdin_inv conn c before → client_run pty chs c = Some (c', o) →
  ∃ msgs, WriteAll conn msgs = (cl_conn c', Ok tt) ∧ Forall bare_end msgs ∧
    stdin_bytes msgs `prefix_of` before ++ chunks_read chs ∧
    (o = None → stdin_bytes msgs ++ mjoin (cl_stdinCh c') = before ++ chunks_read chs).
Proof.
  revert c before. induction chs as [|ch chs IH]; intros c before Hi; cbn [client_run].
  { intros [= <- <-]. destruct Hi as (msgs & Hw & HF & Hb). exists msgs. unfold chunks_read. cbn. rewrite app_nil_r, <- Hb.
    split_and!; try done. by apply prefix_app_r. }
  assert (chunks_read (ch :: chs) = chunks_read [ch] ++ chunks_read chs) as E
    by (unfold chunks_read; cbn [mbind list_bind]; by rewrite app_nil_r).
  rewrite E, app_assoc. destruct (client_step pty ch c) as [[c1 [x|]]|] eqn:Es; [| |done].
  - intros [= <- <-]. destruct Hi as (msgs & Hw & HF & Hb). exists msgs. rewrite (last_step _ _ _ _ _ Es).
    split_and!; try done. rewrite <- Hb, <- !app_assoc. by apply prefix_app_r.
  - intros Hrun. apply (stdin_step _ conn _ _ _ before) in Es; [|done]. by apply (IH c1 _ Es).
Qed.

(** Standard input reaches the connection in the order it was read: the input
    of the messages written so far followed by the chunks that wait is exactly what
    was read, whatever signals, resizes and responses come between. *)
Theorem stdin_in_order pty conn r raw chs c' :
  client_run pty chs (client_start conn r raw) = Some (c', None) →
  ∃ msgs, WriteAll conn msgs = (cl_conn c', Ok tt) ∧ stdin_bytes msgs ++ mjoin (cl_stdinCh c') = chunks_read chs.
Proof.
  intros Hrun. destruct (client_run_stdin pty conn chs (client_start conn r raw) [] c' None) as (msgs & Hw & _ & _ & H);
    [by exists []|done|]. exists msgs. by split; [|apply H].
Qed.
End stdin.
