(* ===== verification/SessionLaws.v ===== *)
(** A session of the client with the daemon: how the request the client writes is
    read and judged, what happens to the input that follows it, and which refusals
    the client can read. *)

From S2P Require Import Prelude GoStrings Base64 Json Protocol Framing GoTime GoPath Paths Auth Replay Regexp ConfigTypes.
From S2P Require Import ArgsPolicy Interpolate World OutputBuffer Config Settings Env Runtime AuditLog Executor Sources.
From S2P Require Import GoNet HttpProxy HttpProxyLaws SecretFile Daemon DaemonLaws Wrapper WrapperLaws.
Local Open Scope Z_scope.

(** ** The text of a request *)

Lemma decode_rune_ascii_app c0 r0 c k :
  code c < 0x80 →
  decode_rune c0 (r0 ++ c :: k) = let '(r, raw, rest) := decode_rune c0 r0 in (r, raw, rest ++ c :: k).
Proof.
  intros Hc. assert (∀ x, valid2 x c = false) as H2.
  { intros x. unfold valid2, in_rng. apply andb_false_iff. right. apply andb_false_iff. left. lia. }
  assert (∀ x y, valid3 x y c = false) as H3.
  { intros x y. unfold valid3, in_rng. apply andb_false_iff. right. apply andb_false_iff. left. lia. }
  assert (∀ x y z, valid4 x y z c = false) as H4.
  { intros x y z. unfold valid4, in_rng. apply andb_false_iff. right. apply andb_false_iff. left. lia. }
  assert (∀ x z, valid3 x c z = false) as H3'.
  { intros x z. unfold valid3, in_rng. byte_ranges. lia. }
  assert (∀ x z y, valid4 x c z y = false) as H4'.
  { intros x z y. unfold valid4, in_rng. byte_ranges. lia. }
  assert (∀ x z y, valid4 x z c y = false) as H4''.
  { intros x z y. unfold valid4, in_rng. byte_ranges. lia. }
  unfold decode_rune. destruct r0 as [|c1 [|c2 [|c3 r0]]]; cbn [app];
    repeat (rewrite ?H2, ?H3, ?H4, ?H3', ?H4', ?H4''; case_match; simplify_eq; try done).
Qed.

(** An ASCII byte is never part of a longer rune. *)
Lemma rune_segs_ascii_app a c k :
  code c < 0x80 → rune_segs (a ++ c :: k) = rune_segs a ++ rune_segs (c :: k).
Proof.
  intros Hc. assert (∀ n a, (length a < n)%nat → rune_segs (a ++ c :: k) = rune_segs a ++ rune_segs (c :: k)) as H;
    [|by apply (H (S (length a))); lia].
  clear a. induction n as [|n IH]; intros [|c0 a] Hl; cbn [length] in Hl; try lia; [done|].
  cbn [app]. rewrite (rune_segs_cons c0 a), (rune_segs_cons c0 (a ++ c :: k)), (decode_rune_ascii_app _ _ _ _ Hc).
  destruct (decode_rune c0 a) as [[r raw] rest] eqn:E. apply decode_rune_spec in E as (_ & _ & Hr).
  rewrite IH by lia. done.
Qed.

(** [bytes.TrimSpace] takes off the ASCII space after a text that starts and ends
    with visible bytes, whatever is between them. *)
Lemma trim_space_text c mid d ws :
  visible c → visible d → Forall (λ w, is_space (code w) = true ∧ code w < 0x80) ws →
  trim_space (c :: mid ++ d :: ws) = c :: mid ++ [d].
Proof.
  intros Hc Hd Hw. pose proof (visible_not_space _ Hc) as Nc. pose proof (visible_not_space _ Hd) as Nd.
  assert (code c < 0x80 ∧ code d < 0x80) as [Ac Ad] by (unfold visible in *; lia).
  unfold trim_space. change (c :: mid ++ d :: ws) with ([] ++ c :: (mid ++ d :: ws)).
  assert (Forall (λ x, code x < 128) (d :: ws)) as Ha.
  { constructor; [done|]. eapply Forall_impl; [exact Hw|]. naive_solver. }
  replace (rune_segs ([] ++ c :: mid ++ d :: ws)) with ((code c, [c]) :: rune_segs mid ++ ((λ x, (code x, [x])) <$> (d :: ws))).
  2: { rewrite <- visible_segs, <- rune_segs_ascii_app by done. cbn [app].
       rewrite rune_segs_cons. unfold decode_rune.
       assert (∀ r, decode_rune c r = (code c, [c], r)) as Hdec; [|unfold decode_rune in Hdec; by rewrite Hdec].
       intros r. unfold decode_rune, valid2, valid3, valid4, in_rng. rewrite (proj2 (Z.ltb_lt _ _) Ac).
       destruct r as [|c1 [|c2 [|c3 r]]]; repeat case_match; try done; lia. }
  cbn [drop_while fst]. rewrite Nc. unfold drop_while_end.
  assert (∀ l x, is_space x.1 = false →
    drop_while (λ s : Z * bytes, is_space s.1) (reverse (l ++ x :: ((λ x, (code x, [x])) <$> ws))) = reverse (l ++ [x])) as Hdrop.
  { clear -Hw. intros l x Hx. induction ws as [|w ws IH] using rev_ind.
    - cbn [fmap list_fmap]. by rewrite reverse_app; cbn; rewrite Hx.
    - apply Forall_app in Hw as [Hw [[Hs _] _]%Forall_cons]. rewrite fmap_app. cbn [fmap list_fmap].
      rewrite app_comm_cons, app_assoc, reverse_snoc. cbn [drop_while fst]. rewrite Hs. by apply IH. }
  rewrite fmap_cons, app_comm_cons, Hdrop by done. rewrite reverse_involutive. cbn [app fmap list_fmap mjoin list_join snd].
  rewrite fmap_app, join_app, rune_segs_concat. done.
Qed.

(** ** Requests at the daemon *)

Section requests.
Context `{RE : Regexp} `{UC : UnicodeCase} `{DP : DurationParser} `{OSi : OS} `{HO : Host} `{MR : MapRange} `{HA : Hash}
  `{PE : Peers} `{CP : Codec ProxyRequest} `{CA : Codec AdminRequest} `{TE : Terminal}.
Context (resolve : string → CredentialDef → result string).

(** What [encoding/json] documents of a request's text: it is an object, and a
    text that goes on after an object is not one. *)
Definition request_text (req : ProxyRequest) (data : bytes) : Prop :=
  marshal req = Some data ∧ (∃ mid, data = "{"%char :: mid ++ ["}"%char]) ∧
  ∃ keys, json_object data = Some keys ∧ "hmac" ∈ keys ∧ "admin" ∉ keys.

Lemma tool_request_fields w f cwd now random tool args req :
  tool_request hmac_sha256 w f cwd now random tool args = Ok req →
  ∃ secret, LoadSecret f (wr_authPath w) = Ok secret ∧ pr_version req = ProtocolVersion ∧ pr_tool req = tool ∧
    pr_args req = Some args ∧ pr_timestamp req = FormatInt (ToUnix now) ∧
    pr_hmac req = ComputeHMACWithPTY hmac_sha256 secret (signed_of req).
Proof.
  unfold tool_request. destruct (LoadSecret _ _) as [secret|]; [|done]. cbn [wrap_err mbind result_bind].
  destruct cwd as [dir|]; [|done]. cbn [wrap_err mbind result_bind].
  destruct (GenerateNonce random) as [nonce|]; [|done]. cbn [wrap_err mbind result_bind].
  intros [= <-]. exists secret. done.
Qed.

(** A timestamp made now is fresh for a while: whole seconds are rounded down. *)
Lemma fresh_timestamp now t :
  0 ≤ now < 2 ^ 63 * Second → now - Second ≤ t ≤ now + MaxTimestampDrift - Second →
  ValidateTimestamp t (FormatInt (ToUnix now)) = Ok tt.
Proof.
  intros Hn Ht. unfold ToUnix, unix_to_internal, Second, MaxTimestampDrift, Second in *.
  assert (0 ≤ now / 10 ^ 9 < 2 ^ 63) as Hq by (split; [apply Z.div_pos; lia|apply Z.div_lt_upper_bound; lia]).
  unfold ValidateTimestamp. rewrite ParseInt64_FormatInt by (unfold min_int64, max_int64; lia). cbv zeta.
  unfold Unix, unix_to_internal. replace (now / 10 ^ 9 - 62135596800 + 62135596800) with (now / 10 ^ 9) by lia.
  rewrite int64_id by (unfold min_int64, max_int64; lia). unfold Second.
  pose proof (Z.div_mod now (10 ^ 9)) as Hd. pose proof (Z.mod_pos_bound now (10 ^ 9)) as Hm.
  assert (Sub t (now / 10 ^ 9 * 10 ^ 9) = t - now / 10 ^ 9 * 10 ^ 9) as ->
    by (unfold Sub, min_int64, max_int64; lia).
  destruct (Z.ltb_spec (t - now / 10 ^ 9 * 10 ^ 9) 0).
  - unfold neg_duration. rewrite int64_id by (unfold min_int64, max_int64; lia).
    destruct (Z.gtb_spec (- (t - now / 10 ^ 9 * 10 ^ 9)) MaxTimestampDrift) as [Hg|]; [|done].
    unfold MaxTimestampDrift, Second in Hg. lia.
  - destruct (Z.gtb_spec (t - now / 10 ^ 9 * 10 ^ 9) MaxTimestampDrift) as [Hg|]; [|done].
    unfold MaxTimestampDrift, Second in Hg. lia.
Qed.

(** What the daemon takes from a read of the request and what came with it. *)
Lemma carries_request c req data ws :
  request_text req data → cn_read c = ReadData (data ++ ws) → blen (data ++ ws) < header_size →
  Forall (λ w, is_space (code w) = true ∧ code w < 0x80) ws →
  ∃ keys, carries c data keys ∧ "hmac" ∈ keys ∧ "admin" ∉ keys.
Proof.
  intros (Hm & (mid & ->) & keys & Hk & Hh & Ha) Hr Hl Hw. exists keys. split; [|done].
  eexists. split; [exact Hr|]. split; [done|]. split; [|split; [done|done]].
  cbn [app]. rewrite <- app_assoc. cbn [app]. symmetry. apply trim_space_text; try done; unfold visible; vm_compute; split; done.
Qed.

Lemma newline_space : Forall (λ w, is_space (code w) = true ∧ code w < 0x80) [newline].
Proof. repeat constructor. Qed.

(** C12: A request that the client makes is run: a daemon that shares its secret,
    reads it within four seconds and lets its caller through runs the tool with
    the arguments given on the command line, if the tool is configured and its
    policy admits them. *)
Theorem client_request_runs d cfg c t1 t2 w f cwd now random tool args req data td ucred exe e :
  tool_request hmac_sha256 w f cwd now random tool args = Ok req → LoadSecret f (wr_authPath w) = Ok (d_secret d) →
  0 ≤ now < 2 ^ 63 * Second → now - Second ≤ t1 ≤ now + 4 * Second →
  request_text req data → cn_read c = ReadData (data ++ [newline]) → blen data < header_size - 1 →
  verified_caller d cfg c ucred exe → not_replayed d (proxy_replay_key (uc_UID ucred) req) t2 →
  cfg_Tools cfg !! tool = Some td → (checkToolArgs args td).1 = true →
  NewToolExecutor req td cfg (d_proxyAuthToken d) (d_auditLogger d) (uc_PID ucred) exe = Ok e →
  (handleConnection resolve d cfg c t1 t2).1.2 = Some e ∧ pr_args (e_req e) = Some args ∧ e_tool e = td.
Proof.
  intros Hreq Hsec Hn Ht Htext Hr Hl Hv Hrep Htd Hargs He.
  destruct (tool_request_fields _ _ _ _ _ _ _ _ Hreq) as (secret & Hsec' & Hver & Htool & Ha & Hts & Hh).
  rewrite Hsec in Hsec'. injection Hsec' as <-.
  destruct (carries_request _ _ _ _ Htext Hr) as (keys & Hc & Hk & Had);
    [unfold blen in *; rewrite length_app; cbn; lia|apply newline_space|].
  destruct (NewToolExecutor_fields _ _ _ _ _ _ _ _ He) as (E1 & E2 & _). rewrite E1, E2. split; [|done].
  rewrite (handleConnection_dispatch _ _ _ _ _ _ _ _ _ _ Hc Hv).
  rewrite (bool_decide_eq_false_2 _ Had), (bool_decide_eq_true_2 _ Hk). apply handleProxyRequest_iff.
  rewrite E1, E2, Ha. destruct Htext as [Hm _]. split; [by apply unmarshal_marshal|]. split; [done|].
  split; [|by rewrite Htool]. rewrite Hh. destruct (VerifyHMAC_cases hmac_sha256 t1 (d_secret d) (signed_of req) "") as (_ & -> & _).
  change (sg_timestamp (signed_of req)) with (pr_timestamp req). rewrite Hts. apply fresh_timestamp; [done|].
  unfold MaxTimestampDrift, Second in *. lia.
Qed.
End requests.

(** ** Refusals at the client *)

Section refusals.
Context `{TE : Terminal} `{CR : Codec ResponseMessage} `{CW : Codec WrapperMessage} {W : Type} `{WR : Writer W}.

Lemma Decode_sendError msg rest fin :
  (Decode (T := ResponseMessage) {| rd_data := Daemon.sendError msg ++ rest; rd_fin := fin |}).1 = Err ErrMessageTooLarge.
Proof. reflexivity. Qed.

(** The client can read only the daemon's framed refusals, which it reports
    with their text. A bare JSON error, the daemon's answer when it is busy, when
    the request is too large or no JSON or when reading it times out, is taken for
    a length of two gigabytes: the client reports a message that is too large,
    whatever the daemon said. *)
Theorem refusals_at_client pty conn fin raw msg rest :
  (∀ out, Encode [] (error_msg msg) = (out, Ok tt) →
    ∃ c, client_run pty [PickResponse] (client_start conn {| rd_data := out ++ rest; rd_fin := fin |} raw)
      = Some (c, Some (Failed (Errorf "daemon error: %s" [FS msg])))) ∧
  ∃ c, client_run pty [PickResponse] (client_start conn {| rd_data := Daemon.sendError msg ++ rest; rd_fin := fin |} raw)
    = Some (c, Some (Failed (Wrapf "read response: %w" [] ErrMessageTooLarge))) ∧ cl_stderr c = [].
Proof.
  split.
  - intros out HE. apply Encode_buf_inv in HE as (data & Hm & Hl & ->).
    pose proof (marshal_not_nil _ _ Hm). assert (0 < blen data) by (destruct data; [done|unfold blen; simpl; lia]).
    cbn [client_run client_step client_start cl_reading cl_in negb app].
    rewrite (Decode_frame _ data rest), (unmarshal_marshal _ _ Hm) by done. eexists. reflexivity.
  - cbn [client_run client_step client_start cl_reading cl_in negb].
    pose proof (Decode_sendError msg rest fin) as HD. destruct (Decode _) as [x r]. cbn [fst] in HD. subst x.
    rewrite bool_decide_eq_false_2 by done. eexists. split; [reflexivity|done].
Qed.
End refusals.

(** ** The input of a tool *)

Section input.
Context `{RE : Regexp} `{TE : Terminal} `{CR : Codec ResponseMessage} `{CW : Codec WrapperMessage}.

Lemma message_dead msg s : x_live_in s = false → step_event (EvMessage msg) s = s.
Proof. intros H. unfold step_event. by rewrite H. Qed.

Lemma messages_dead (msgs : list WrapperMessage) s : x_live_in s = false → run_events (EvMessage <$> msgs) s = s.
Proof.
  revert s. induction msgs as [|m msgs IH]; intros s Hl; [done|]. unfold run_events. cbn [fmap list_fmap foldl].
  rewrite (message_dead m s Hl). by apply IH.
Qed.

Lemma close_stdin_same s : p_stdin (x_proc (close_stdin s).2) = p_stdin (x_proc s).
Proof. unfold close_stdin. by destruct (p_stdin_open (x_proc s)). Qed.

(** The end of the messages ends the input: nothing that follows is read. *)
Lemma message_end_final msgs s :
  p_stdin (x_proc (run_events (EvMessageEnd :: (EvMessage <$> msgs)) s)) = p_stdin (x_proc s).
Proof.
  change (run_events (EvMessageEnd :: (EvMessage <$> msgs)) s)
    with (run_events (EvMessage <$> msgs) (step_event EvMessageEnd s)).
  cbn [step_event]. destruct (x_live_in s) eqn:El; [|by rewrite messages_dead].
  rewrite messages_dead by done. unfold message_end. cbn [set_live_in x_proc].
  destruct (p_stdinPipe (x_proc s)); [apply close_stdin_same|done].
Qed.

Lemma overtaken_events data s :
  x_usePTY s = false →
  p_stdin (x_proc (run_events [EvMessage (stdin_msg "" true); EvMessage (stdin_msg data false)] s)) = p_stdin (x_proc s).
Proof.
  intros Hp. unfold run_events. cbn [foldl step_event]. destruct (x_live_in s) eqn:El; [|by rewrite El].
  rewrite Hp. unfold handleWrapperMessage. cbn [stdin_msg wm_type wm_eof wm_data].
  rewrite !bool_decide_eq_true_2 by done. unfold close_stdin, write_stdin.
  destruct (p_stdinPipe (x_proc s)) eqn:Epipe, (p_stdin_open (x_proc s)) eqn:Eopen;
    cbn [fst snd x_live_in x_usePTY set_proc x_proc with_stdin p_stdinPipe p_stdin_open negb];
    rewrite ?El, ?Hp, ?Epipe, ?Eopen; destruct (DecodeString _ _); cbn; rewrite ?Epipe, ?Eopen; done.
Qed.

(** The end of standard input can overtake the last of it: a chunk that was
    read before the end may be picked after it, and then the client sends the end
    first and the tool never sees the chunk. *)
Theorem stdin_overtaken conn r raw pty chunk conn' :
  chunk ≠ [] → blen chunk ≤ stdin_chunk_size →
  WriteAll conn [stdin_msg "" true; stdin_msg (EncodeToString StdEncoding chunk) false] = (conn', Ok tt) →
  ∃ c, client_run pty [StdinRead chunk; StdinEnd; PickEOF; PickStdin] (client_start conn r raw) = Some (c, None) ∧
    cl_conn c = conn' ∧
    ∀ s, x_usePTY s = false →
      p_stdin (x_proc (run_events [EvMessage (stdin_msg "" true); EvMessage (stdin_msg (EncodeToString StdEncoding chunk) false)] s))
      = p_stdin (x_proc s).
Proof.
  intros Hne Hl Hw. cbn [WriteAll] in Hw. destruct (NDJSONWrite conn (stdin_msg "" true)) as [w1 [[]|]] eqn:E1; [|done].
  destruct (NDJSONWrite w1 _) as [w2 [[]|]] eqn:E2; [|done]. injection Hw as <-.
  cbn [client_run client_step client_start cl_stdin_closed cl_stdinCh cl_stdinEOF length orb].
  rewrite bool_decide_eq_false_2 by done. destruct (Z.gtb_spec (blen chunk) stdin_chunk_size); [lia|].
  cbn [orb Nat.leb stdin_channel_size set_stdin cl_stdin_closed cl_stdinCh cl_stdinEOF andb app cl_conn set_conn].
  change (cl_conn (client_start conn r raw)) with conn. rewrite E1. cbn [fst set_stdin set_conn cl_stdinCh cl_conn cl_stdin_closed cl_stdinEOF]. rewrite E2.
  eexists. split; [reflexivity|]. split; [done|]. intros s Hs. by apply overtaken_events.
Qed.

(** What a first read of the request leaves for the input. *)
Definition remaining (limit : Z) (r : bytes) : NDJSONReader :=
  NewNDJSONReaderWithLimit {| rd_data := r; rd_fin := io_EOF |} limit.

Lemma read_empty_line limit rest :
  (NDJSONRead (T := WrapperMessage) (remaining limit (newline :: rest))).1 = Err ErrEmptyMessage.
Proof.
  unfold NDJSONRead, Scan, remaining, NewNDJSONReaderWithLimit. cbn [nd_reader rd_data index_of has_prefix].
  rewrite bool_decide_eq_true_2 by done. cbn [andb nd_max].
  destruct (Z.leb_spec limit 0), (Z.gtb_spec limit MaxMessageSize); cbn [orb];
    match goal with |- context [Z.of_nat 0 <? ?m] => destruct (Z.ltb_spec (Z.of_nat 0) m); [done|] end;
    unfold MaxMessageSize in *; lia.
Qed.
End input.

(** ** The first read of a connection *)

Section first_read.
Context `{RE : Regexp} `{UC : UnicodeCase} `{DP : DurationParser} `{OSi : OS} `{HO : Host} `{MR : MapRange} `{HA : Hash}
  `{PE : Peers} `{CP : Codec ProxyRequest} `{CA : Codec AdminRequest} `{CR : Codec ResponseMessage}
  `{CW : Codec WrapperMessage}.
Context (resolve : string → CredentialDef → result string).

Definition with_read (c : conn) (data : bytes) : conn :=
  {| cn_read := ReadData data; cn_unix := cn_unix c; cn_peer := cn_peer c |}.

(** Space after the text of a request changes nothing. *)
Lemma handleConnection_space d cfg c t1 t2 mid ws :
  blen ("{"%char :: mid ++ "}"%char :: ws) < header_size → Forall (λ w, is_space (code w) = true ∧ code w < 0x80) ws →
  handleConnection resolve d cfg (with_read c ("{"%char :: mid ++ "}"%char :: ws)) t1 t2
  = handleConnection resolve d cfg (with_read c ("{"%char :: mid ++ ["}"%char])) t1 t2.
Proof.
  intros Hl Hw. assert (visible "{"%char ∧ visible "}"%char) as [V1 V2] by (split; unfold visible; by vm_compute).
  assert (blen ("{"%char :: mid ++ ["}"%char]) ≤ blen ("{"%char :: mid ++ "}"%char :: ws)) as Hle
    by (unfold blen; cbn [length]; rewrite !length_app; cbn [length]; lia).
  assert (∀ b, blen b < header_size → take (Z.to_nat header_size) b = b) as Ht.
  { intros b Hb. apply take_ge. unfold blen in Hb. assert (0 ≤ header_size) by done. lia. }
  unfold handleConnection. cbn [cn_read with_read cn_unix cn_peer]. rewrite !Ht by lia.
  destruct (Z.eqb_spec (blen ("{"%char :: mid ++ "}"%char :: ws)) header_size); [lia|].
  destruct (Z.eqb_spec (blen ("{"%char :: mid ++ ["}"%char])) header_size); [lia|].
  rewrite !trim_space_text by done. done.
Qed.

(** C16: What a tool receives depends on how much of the client's stream the
    daemon's one read of the request takes. The client writes the request and its
    line break apart. A read that takes both runs the request and leaves the
    messages that follow; a read that ends before the line break runs it too, but
    the empty line it leaves ends the tool's input; and one that takes a message
    that follows, as a terminal's window size, refuses the request. *)
Theorem first_read_decides d cfg c t1 t2 mid msg mid' more limit :
  let req := "{"%char :: mid ++ ["}"%char] in
  marshal (msg : WrapperMessage) = Some ("{"%char :: mid' ++ ["}"%char]) →
  blen (req ++ newline :: "{"%char :: mid' ++ ["}"%char; newline]) < header_size →
  blen ("{"%char :: mid' ++ ["}"%char]) < nd_max (remaining limit []) →
  (∀ a b, is_Some (json_object a) → json_object (a ++ newline :: "{"%char :: b) = None) → is_Some (json_object req) →
  (handleConnection resolve d cfg (with_read c (req ++ [newline])) t1 t2
     = handleConnection resolve d cfg (with_read c req) t1 t2 ∧
   (NDJSONRead (remaining limit ("{"%char :: mid' ++ "}"%char :: newline :: more))).1 = Ok msg) ∧
  ((NDJSONRead (T := WrapperMessage) (remaining limit (newline :: more))).1 = Err ErrEmptyMessage ∧
   ∀ msgs s, p_stdin (x_proc (run_events (EvMessageEnd :: (EvMessage <$> msgs)) s)) = p_stdin (x_proc s)) ∧
  (handleConnection resolve d cfg (with_read c (req ++ newline :: "{"%char :: mid' ++ ["}"%char; newline])) t1 t2).1
    = ([RawError "invalid json"], None).
Proof.
  intros req Hm Hl Hmax Htrail Hreq. subst req. cbn [app] in *. rewrite <- !app_assoc in *. cbn [app] in *.
  assert (blen ("{"%char :: mid ++ ["}"%char; newline]) < header_size) as Hl1.
  { unfold blen in *. cbn [length] in *. rewrite !length_app in *. cbn [length] in *. lia. }
  split; [|split; [split; [apply read_empty_line|intros; apply message_end_final]|]].
  - rewrite (handleConnection_space _ _ _ _ _ mid [newline]) by (done || apply newline_space). split; [done|].
    erewrite (NDJSONRead_line _ msg _ more Hm); [done| |exact Hmax]. cbn. by rewrite <- app_assoc.
  - set (text := mid ++ "}"%char :: newline :: "{"%char :: mid'). assert (
      "{"%char :: mid ++ "}"%char :: newline :: "{"%char :: mid' ++ ["}"%char; newline]
      = "{"%char :: text ++ "}"%char :: [newline]) as E by (unfold text; by rewrite <- !app_assoc).
    rewrite E in Hl |- *. rewrite handleConnection_space by (done || apply newline_space).
    unfold handleConnection. cbn [cn_read with_read].
    assert (blen ("{"%char :: text ++ ["}"%char]) < header_size) as Hl2.
    { unfold blen in *. cbn [length] in *. rewrite !length_app in *. cbn [length] in *. lia. }
    assert (take (Z.to_nat header_size) ("{"%char :: text ++ ["}"%char]) = "{"%char :: text ++ ["}"%char]) as ->.
    { apply take_ge. unfold blen in Hl2. assert (0 ≤ header_size) by done. lia. }
    destruct (Z.eqb_spec (blen ("{"%char :: text ++ ["}"%char])) header_size); [lia|]. cbv zeta.
    rewrite trim_space_text by (unfold visible; by vm_compute || done).
    rewrite bool_decide_eq_false_2 by done.
    specialize (Htrail ("{"%char :: mid ++ ["}"%char]) (mid' ++ ["}"%char]) Hreq).
    replace ("{"%char :: text ++ ["}"%char]) with (("{"%char :: mid ++ ["}"%char]) ++ newline :: "{"%char :: mid' ++ ["}"%char])
      by (unfold text; cbn [app]; by rewrite <- !app_assoc). by rewrite Htrail.
Qed.
End first_read.
