(* ===== verification/InputLaws.v ===== *)
(** The way of a tool's input: from the client's standard input over the connection
    and the daemon's pumper to the tool, and when the pumper gives up. *)

From S2P Require Import Prelude GoStrings Base64 Json Protocol Framing GoTime GoPath Paths Regexp ConfigTypes Interpolate.
From S2P Require Import Redactor World OutputBuffer Config Settings Env Runtime AuditLog Executor ExecutorLaws RunLaws.
From S2P Require Import RunSafety StreamLaws Wrapper WrapperLaws SessionLaws.
Local Open Scope Z_scope.

(** ** The pumper *)

Section pumper.
Context `{CW : Codec WrapperMessage}.

(** [stdinPumper] and [ptyInputPumper]: the events of their loop, for the times that
    its reads wait for data. After the last of them the loop still waits. *)
Fixpoint stdinPumper (readMsgTO : duration) (waits : list duration) (n : NDJSONReader) : list event :=
  match waits with
  | [] => []
  | wait :: waits =>
    if (readMsgTO >? 0) && (wait >? readMsgTO) then [EvMessageEnd]
    else
      match NDJSONRead n with
      | (Ok msg, n) => EvMessage msg :: stdinPumper readMsgTO waits n
      | (Err _, _) => [EvMessageEnd]
      end
  end.

(** What a writer of lines wrote. *)
Lemma WriteAll_lines (w : bytes) (msgs : list WrapperMessage) w' :
  WriteAll w msgs = (w', Ok tt) →
  ∃ lines, Forall2 (λ m l, marshal m = Some l) msgs lines ∧ w' = w ++ (lines ≫= λ l, l ++ [newline]).
Proof.
  revert w. induction msgs as [|m msgs IH]; intros w; cbn [WriteAll].
  { intros [= <-]. exists []. split; [constructor|by rewrite app_nil_r]. }
  destruct (NDJSONWrite w m) as [w1 [[]|]] eqn:E1; [|done]. apply NDJSONWrite_buf_inv in E1 as (l & Hl & _ & ->).
  intros (lines & HF & ->)%IH. exists (l :: lines). split; [by constructor|]. cbn. by rewrite <- !app_assoc.
Qed.

(** Whatever its limit and its timeout, the pumper hands over a prefix of the
    messages that were written, and then nothing more. *)
Lemma pumper_prefix to waits msgs lines n :
  Forall2 (λ m l, marshal m = Some l) msgs lines → rd_data (nd_reader n) = (lines ≫= λ l, l ++ [newline]) →
  ∃ used tail, stdinPumper to waits n = (EvMessage <$> used) ++ tail ∧ used `prefix_of` msgs ∧
    (tail = [] ∨ tail = [EvMessageEnd]).
Proof.
  intros HF. revert n waits. induction HF as [|m l msgs lines Hl HF IH]; intros n waits Hd.
  - exists []. destruct waits as [|wait waits]; cbn [stdinPumper]; [exists []; split_and!; auto|].
    exists [EvMessageEnd]. split; [|split; [done|by right]]. destruct (_ && _); [done|].
    unfold NDJSONRead, Scan. rewrite Hd. cbn. by destruct (bool_decide _).
  - destruct waits as [|wait waits]; cbn [stdinPumper]; [exists [], []; split_and!; auto; apply prefix_nil|].
    destruct (_ && _); [exists [], [EvMessageEnd]; split_and!; auto; apply prefix_nil|].
    cbn [mbind list_bind] in Hd. rewrite <- app_assoc in Hd. cbn [app] in Hd.
    destruct (Z.ltb_spec (blen l) (nd_max n)).
    + rewrite (NDJSONRead_line n m l _ Hl Hd) by done.
      match goal with |- context [stdinPumper to waits ?x] => destruct (IH x waits eq_refl) as (used & tail & -> & Hp & Ht) end.
      exists (m :: used), tail. split; [done|]. split; [by apply prefix_cons|done].
    + exists [], [EvMessageEnd]. split_and!; auto; [|apply prefix_nil]. unfold NDJSONRead.
      rewrite (Scan_line _ _ _ _ Hl Hd), (proj2 (Z.ltb_ge _ _)) by done. done.
Qed.
End pumper.

(** ** At the tool *)

Section run.
Context `{RE : Regexp} `{UC : UnicodeCase} `{DP : DurationParser} `{OSi : OS} `{HO : Host} `{MR : MapRange}
  `{HA : Hash}.
Context (resolve : string → CredentialDef → result string).

(** The input that events carry; on a pipe it ends with the first end that is sent. *)
Fixpoint input_of (pty : bool) (evs : list event) : bytes :=
  match evs with
  | [] => []
  | EvMessage m :: evs =>
    if bool_decide (wm_type m = MsgTypeStdin) then
      if wm_eof m then if pty then input_of pty evs else []
      else default [] (DecodeString StdEncoding (wm_data m)) ++ input_of pty evs
    else input_of pty evs
  | EvMessageEnd :: _ => []
  | _ :: evs => input_of pty evs
  end.

(** Input still reaches the tool. *)
Definition takes (s : run_state) : bool :=
  x_live_in s && (if x_usePTY s then p_ptyMaster (x_proc s) else p_stdinPipe (x_proc s) && p_stdin_open (x_proc s)).

Definition pending (s : run_state) (evs : list event) : bytes := if takes s then input_of (x_usePTY s) evs else [].
Definition stdin_of (s : run_state) : bytes := p_stdin (x_proc s).

(** Steps that have no part in the input. *)
Definition hush (s s' : run_state) : Prop :=
  stdin_of s' = stdin_of s ∧ x_usePTY s' = x_usePTY s ∧ (takes s' = true → takes s = true).

Lemma hush_refl s : hush s s.
Proof. done. Qed.
Lemma hush_trans s1 s2 s3 : hush s1 s2 → hush s2 s3 → hush s1 s3.
Proof. intros (A1 & B1 & C1) (A2 & B2 & C2). split; [congruence|]. split; [congruence|auto]. Qed.

(** The part of the process that carries the input. *)
Definition same_input (s s' : run_state) : Prop :=
  stdin_of s' = stdin_of s ∧ x_usePTY s' = x_usePTY s ∧ takes s' = takes s.
Lemma same_hush s s' : same_input s s' → hush s s'.
Proof. intros (A & B & C). split; [done|]. split; [done|]. by rewrite C. Qed.
Lemma same_input_trans s1 s2 s3 : same_input s1 s2 → same_input s2 s3 → same_input s1 s3.
Proof. intros (A1 & B1 & C1) (A2 & B2 & C2). split_and!; congruence. Qed.

Lemma syscall_input s f s' : syscall s = (f, s') → same_input s s'.
Proof. unfold syscall. destruct (refused _) as [g w]. by intros [= <- <-]. Qed.

Lemma kill_input sig s : same_input s (killProcessGroup sig s).2.
Proof.
  unfold killProcessGroup. destruct (_ =? 0); [done|]. by destruct (try _ _) as [[] w].
Qed.

Lemma forward_input sig s : same_input s (forwardSignal sig s).2.
Proof. unfold forwardSignal. repeat case_match; try done; apply kill_input. Qed.

Lemma close_hush s : hush s (close_stdin s).2.
Proof.
  unfold close_stdin. destruct (p_stdin_open (x_proc s)) eqn:E; [|done]. split; [done|]. split; [done|]. unfold takes. cbn.
  destruct (x_usePTY s); [done|]. by rewrite !andb_false_r.
Qed.

Lemma output_input k data s : same_input s (output_pumper k data s).
Proof.
  unfold output_pumper. destruct (x_buf s k) as [b|]; [|done]. destruct (Write _ _ _) as [[[u|err] b'] w']; [done|].
  destruct (errors_is _ _); [|done]. exact (kill_input SIGKILL (set_w (set_buf s k (Some b')) w')).
Qed.

Lemma same_pending s s' evs : same_input s s' → stdin_of s' ++ pending s' evs = stdin_of s ++ pending s evs.
Proof. intros (A & B & C). unfold pending. by rewrite A, B, C. Qed.

(** Messages that carry no input. *)
Lemma control_input m s :
  wm_type m ≠ MsgTypeStdin → w_faults (x_w s) = [] → same_input s (step_event (EvMessage m) s).
Proof.
  intros Ht Hf. cbn [step_event]. destruct (x_live_in s); [|done].
  unfold handlePTYWrapperMessage, handleWrapperMessage. rewrite !(bool_decide_eq_false_2 _ Ht).
  pose proof (forward_input (wm_signal m) s) as H. destruct (forwardSignal _ s) as [err s1]. cbn [snd] in H.
  destruct (x_usePTY s); destruct (bool_decide (wm_type m = MsgTypeSignal)); try done.
  destruct (bool_decide _); [|done]. destruct (negb _); [done|]. by rewrite syscall_none.
Qed.

(** An event: the input it carries reaches the tool, or ends. *)
Lemma event_input ev s evs :
  w_faults (x_w s) = [] →
  stdin_of (step_event ev s) ++ pending (step_event ev s) evs = stdin_of s ++ pending s (ev :: evs).
Proof.
  intros Hf. destruct ev as [k data|k|m|].
  - change (pending s (EvOutput k data :: evs)) with (pending s evs). apply same_pending. cbn [step_event].
    destruct (x_live s k); [apply output_input|done].
  - change (pending s (EvOutputEnd k :: evs)) with (pending s evs). apply same_pending. cbn [step_event].
    by destruct (x_live s k).
  - destruct (decide (wm_type m = MsgTypeStdin)) as [Ht|Ht].
    2: { rewrite (same_pending s) by by apply control_input. unfold pending. cbn [input_of].
         by rewrite (bool_decide_eq_false_2 _ Ht). }
    cbn [step_event]. unfold pending, takes, stdin_of. cbn [input_of]. rewrite (bool_decide_eq_true_2 _ Ht).
    destruct (x_live_in s) eqn:Hl; [|by rewrite Hl]. cbn [andb].
    unfold handlePTYWrapperMessage, handleWrapperMessage. rewrite !(bool_decide_eq_true_2 _ Ht).
    unfold close_stdin, write_stdin. rewrite !syscall_none by done.
    destruct (x_usePTY s) eqn:Ep, (wm_eof m), (DecodeString StdEncoding (wm_data m)) as [data|],
      (p_ptyMaster (x_proc s)) eqn:Em, (p_stdinPipe (x_proc s)) eqn:Epipe, (p_stdin_open (x_proc s)) eqn:Eo;
      cbn; rewrite ?Hl, ?Ep, ?Em, ?Epipe, ?Eo; cbn; by rewrite ?app_nil_r, <- ?app_assoc.
  - cbn [step_event]. unfold pending, takes, stdin_of. destruct (x_live_in s) eqn:Hl; [|by rewrite Hl].
    unfold message_end, close_stdin. cbn [set_live_in x_live_in andb input_of].
    destruct (p_stdinPipe (x_proc s)), (p_stdin_open (x_proc s)), (if x_usePTY s then _ else _); by cbn.
Qed.

(** ** A run *)

(** What is known of the input at a state: at least [lo] has reached the tool, and
    with what the events to come carry it will be no more than [hi]. *)
Record fed (lo hi : bytes) (s : run_state) (evs : list event) : Prop := {
  fd_lo : lo `prefix_of` stdin_of s;
  fd_hi : stdin_of s ++ pending s evs `prefix_of` hi;
  fd_bufs : bufs_ok s;
  fd_faults : w_faults (x_w s) = [];
}.

Lemma evolve_faults P s s' : evolves P s s' → w_faults (x_w s) = [] → w_faults (x_w s') = [].
Proof. intros [H _ _ _ _ _ _ _ _]. exact (ext_faults _ _ _ H). Qed.

Lemma fed_events lo hi evs s evs' : fed lo hi s (evs ++ evs') → fed lo hi (run_events evs s) evs'.
Proof.
  unfold run_events. revert s. induction evs as [|ev evs IH]; intros s H; [done|]. cbn [foldl app] in *. apply IH.
  destruct H as [H1 H2 H3 H4]. pose proof (event_input ev s [] H4) as E0. rewrite <- event_input in H2 by done.
  pose proof (event_evolve ev s H3) as He. split; [|exact H2|by apply ev_bufs in He|by apply (evolve_faults _ _ _ He)].
  etrans; [exact H1|]. unfold pending at 1 in E0. cbn [input_of] in E0.
  replace (if takes (step_event ev s) then [] else []) with ([] : bytes) in E0 by by destruct (takes _).
  rewrite app_nil_r in E0. rewrite E0. by apply prefix_app_r.
Qed.

(** While no call is refused the input that events carry is what the tool gets. *)
Lemma events_exact evs s :
  w_faults (x_w s) = [] → bufs_ok s → stdin_of s ++ pending s evs = stdin_of (run_events evs s).
Proof.
  unfold run_events. revert s. induction evs as [|ev evs IH]; intros s Hf Hb; cbn [foldl].
  { unfold pending. cbn. destruct (takes s); by rewrite app_nil_r. }
  rewrite <- event_input by done. pose proof (event_evolve ev s Hb) as He.
  apply IH; [by apply (evolve_faults _ _ _ He)|by apply ev_bufs in He].
Qed.

(** What passes without a part in the input. *)
Lemma fed_hush lo hi s s' evs P : evolves P s s' → hush s s' → fed lo hi s evs → fed lo hi s' evs.
Proof.
  intros He (A & B & C) [H1 H2 H3 H4]. split; [by rewrite A| |by apply ev_bufs in He|by apply (evolve_faults _ _ _ He)].
  rewrite A. unfold pending in *. rewrite B. destruct (takes s') eqn:E; [by rewrite C in H2|].
  rewrite app_nil_r. etrans; [|exact H2]. by apply prefix_app_r.
Qed.

Lemma fed_here lo hi s evs : fed lo hi s evs → fed (stdin_of s) hi s evs.
Proof. by intros [H1 H2 H3 H4]. Qed.

Lemma send_chunks_input ty l s : same_input s (send_chunks ty l s).2.
Proof.
  revert s. induction l as [|c l IH]; intros s; cbn [send_chunks]; [done|]. unfold sendMessage.
  destruct (send _ _) as [[err|] w]; [done|]. by eapply same_input_trans; [|apply IH].
Qed.

Lemma finalizeStream_input k ty s : same_input s (finalizeStream k ty s).2.
Proof.
  unfold finalizeStream. destruct (x_buf s k) as [b|]; [|done]. destruct (Finalize b (x_w s)) as [[[path|err] b'] w]; [|done].
  destruct (bool_decide _); [done|]. unfold streamFile.
  set (s1 := set_w (set_buf s k (Some b')) w). assert (same_input s s1) as H1 by done.
  destruct (syscall s1) as [[] s2] eqn:E2; apply syscall_input in E2; [by eapply same_input_trans|].
  destruct (w_files (x_w s2) !! path) as [data|]; [|by eapply same_input_trans].
  pose proof (send_chunks_input ty (chunks data) s2) as H3. destruct (send_chunks _ _ _) as [[err|] s3]; cbn [snd] in *;
    (eapply same_input_trans; [exact H1|]); by eapply same_input_trans.
Qed.

Lemma finalizeOutput_input s : same_input s (finalizeOutput s).2.
Proof.
  unfold finalizeOutput. destruct (x_usePTY s); [apply finalizeStream_input|].
  pose proof (finalizeStream_input Sout MsgTypeStdout s) as H1. destruct (finalizeStream Sout _ s) as [e1 s1].
  pose proof (finalizeStream_input Serr MsgTypeStderr s1) as H2. destruct (finalizeStream Serr _ s1) as [e2 s2].
  by eapply same_input_trans.
Qed.

Definition any (m : ResponseMessage) : Prop := True.

Lemma fed_finish lo hi e sd code t s :
  fed lo hi s (sd_drain sd ++ sd_late sd ++ sd_after sd) → fed lo hi (finish e sd code t s) [].
Proof.
  intros H. apply fed_events in H. unfold finish. set (s1 := run_events _ s) in *. pose proof H as [_ _ B1 _].
  apply (fed_hush _ _ _ _ _ _ (finalizeOutput_evolve s1 B1)) in H; [|apply same_hush, finalizeOutput_input].
  set (s2 := (finalizeOutput s1).2) in *. apply fed_events in H. set (s3 := run_events _ s2) in *. pose proof H as [_ _ B3 _].
  set (s4 := emitAuditEntry _ _ _ _ _ s3).
  apply (fed_hush _ _ _ s4 _ _ (emit_evolve e (sd_start sd) (sd_elapsed sd) code t s3 B3)) in H.
  2: { apply same_hush. unfold s4, emitAuditEntry. by repeat case_match. }
  pose proof H as [_ _ B4 _]. rewrite <- (app_nil_r (sd_after sd)) in H. apply fed_events.
  unfold sendDone. destruct (sendMessage (done_msg code t) s4) as [err s5] eqn:E.
  apply (fed_hush _ _ _ _ _ _ (send_evolve any _ _ _ _ B4 I E)); [|exact H]. apply same_hush.
  unfold sendMessage in E. destruct (send _ _). by injection E as <- <-.
Qed.

(** The events of a run, in their order. *)
Definition all_events (sd : schedule) : list event :=
  sd_running sd ++
  match sd_outcome sd with
  | Executor.Exited _ => sd_drain sd ++ sd_late sd ++ sd_after sd
  | WaitFailed => sd_after sd
  | TimedOut _ => sd_grace sd ++ sd_drain sd ++ sd_late sd ++ sd_after sd
  end.

Lemma fed_runIOLoop hi e sd s :
  fed [] hi s (all_events sd) → fed (stdin_of (run_events (sd_running sd) s)) hi (runIOLoop e sd s).2 [].
Proof.
  intros H. apply fed_events, fed_here in H. unfold runIOLoop. set (s1 := run_events (sd_running sd) s) in *.
  set (lo := stdin_of s1) in *. clearbody lo s1. pose proof H as [_ _ B1 _].
  destruct (sd_outcome sd) as [code| |grace]; cbn [snd].
  - apply fed_finish. apply (fed_hush _ _ _ _ _ _ (close_stdin_evolve (P := any) s1 B1)); [apply close_hush|exact H].
  - apply (fed_hush _ _ _ _ _ _ (close_stdin_evolve (P := any) s1 B1)) in H; [|apply close_hush].
    rewrite <- (app_nil_r (sd_after sd)) in H. apply fed_events. fold (wait_returns s1) in H. pose proof H as [_ _ B2 _].
    unfold sendError. destruct (sendMessage (error_msg "process error") (wait_returns s1)) as [err s2] eqn:E.
    apply (fed_hush _ _ _ _ _ _ (send_evolve any _ _ _ _ B2 I E)); [|exact H]. apply same_hush.
    unfold sendMessage in E. destruct (send _ _). by injection E as <- <-.
  - unfold handleTimeout. assert (SIGTERM ∈ allowed_signals ∧ SIGKILL ∈ allowed_signals) as [T1 T2]
      by (split; apply (bool_decide_eq_true_1 _); by vm_compute).
    apply (fed_hush _ _ _ _ _ _ (kill_evolve (P := any) SIGTERM s1 B1 T1)) in H; [|apply same_hush, kill_input].
    apply fed_events in H. set (s2 := run_events (sd_grace sd) _) in *. pose proof H as [_ _ B2 _]. apply fed_finish.
    destruct grace.
    + apply (fed_hush _ _ _ _ _ _ (close_stdin_evolve (P := any) s2 B2)); [apply close_hush|exact H].
    + apply (fed_hush _ _ _ _ _ _ (kill_evolve (P := any) SIGKILL s2 B2 T2)); [apply same_hush, kill_input|exact H].
Qed.

Lemma cleanup_stdin s : stdin_of (cleanup s) = stdin_of s.
Proof.
  unfold cleanup, stdin_of.
  assert (∀ s, x_proc (cleanup_dir s) = x_proc s) as -> by (intros s1; unfold cleanup_dir; by destruct (negb _)).
  destruct (cleanup_buf_spec resolve Spty (cleanup_buf Serr (cleanup_buf Sout (cleanup_process s)))) as (_ & -> & _).
  destruct (cleanup_buf_spec resolve Serr (cleanup_buf Sout (cleanup_process s))) as (_ & -> & _).
  destruct (cleanup_buf_spec resolve Sout (cleanup_process s)) as (_ & -> & _).
  unfold cleanup_process. set (s1 := set_proc _ (with_pty _ _ _)).
  trans (p_stdin (x_proc s1)).
  { destruct (negb _); [apply (kill_input SIGKILL s1)|done]. }
  unfold s1, close_stdin. destruct (p_stdinPipe (x_proc s)), (p_stdin_open (x_proc s)); done.
Qed.

Definition reads_input (e : ToolExecutor) : bool := runs_pty e || GetUseStdin (e_tool e).

Lemma startProcess_input e env pid s s' :
  w_faults (x_w s) = [] → x_proc s = no_process → startProcess e env pid s = (Ok tt, s') →
  w_faults (x_w s') = [] ∧ stdin_of s' = [] ∧ x_usePTY s' = runs_pty e ∧ takes s' = reads_input e.
Proof.
  intros Hf Hp E. unfold startProcess in E. change (pr_use_pty (e_req e) && GetUsePTY (e_tool e)) with (runs_pty e) in E.
  cbn [set_usePTY x_usePTY] in E. unfold reads_input. destruct (runs_pty e) eqn:Epty.
  - unfold startProcessWithPTY in E. rewrite syscall_none in E by done. by injection E as <-.
  - rewrite !syscall_none in E by done. unfold open_stdin in E.
    destruct (GetUseStdin (e_tool e)); rewrite !syscall_none in E by done; injection E as <-; cbn; [done|].
    unfold stdin_of, takes. cbn. by rewrite Hp.
Qed.

(** What a tool receives over a whole run without refused calls: everything that was
    read while it ran, and nothing but what was read, in order. *)
Lemma Run_input e sd w a err s :
  Run resolve e sd (init_state w a) = (err, s) → valid_config_file e → w_faults w = [] →
  p_launch (x_proc s) ≠ None → reads_input e = true →
  input_of (runs_pty e) (sd_running sd) `prefix_of` stdin_of s ∧
  stdin_of s `prefix_of` input_of (runs_pty e) (all_events sd).
Proof.
  unfold Run. destruct (run_body _ _ _ _) as [err1 s'] eqn:E. intros [= <- <-] Hv Hf Hl Hin.
  destruct (run_body_spec _ _ _ _ _ _ _ E Hv) as [Hb _ _ _ _ _]. destruct (cleanup_spec resolve s' Hb) as (Ecl & _).
  rewrite Ecl in Hl. rewrite cleanup_stdin.
  destruct (run_body_started _ _ _ _ _ _ _ E Hv Hl) as (s1 & env & secrets & s2 & _ & _ & E2 & [HX HP HB _ _ _ _] & ->).
  pose proof (ext_faults _ _ _ HX) as HX2. pose proof (startProcess_starts _ _ _ _ _ _ E2 HP HB) as [_ _ _ _ B2 _ _ _].
  destruct (startProcess_input e env (sd_pid sd) (set_secrets s1 secrets) s2 (HX2 Hf) HP E2) as (Hf2 & Hs2 & Hp2 & Ht2).
  rewrite Hin in Ht2.
  assert (fed [] (input_of (runs_pty e) (all_events sd)) s2 (all_events sd)) as H.
  { split; [apply prefix_nil| |done|done]. rewrite Hs2. unfold pending. by rewrite Ht2, Hp2. }
  destruct (fed_runIOLoop _ e sd s2 H) as [Hlo Hhi _ _]. split; [|etrans; [by apply prefix_app_r|exact Hhi]].
  etrans; [|exact Hlo]. rewrite <- events_exact by done. rewrite Hs2. unfold pending. by rewrite Ht2, Hp2.
Qed.
End run.

(** ** From the client to the tool *)

Section session.
Context `{RE : Regexp} `{UC : UnicodeCase} `{DP : DurationParser} `{OSi : OS} `{HO : Host} `{MR : MapRange}
  `{HA : Hash} `{TE : Terminal} `{CR : Codec ResponseMessage} `{CW : Codec WrapperMessage}.
Context (resolve : string → CredentialDef → result string).

(** The events of the pumper of messages. *)
Definition is_message (ev : event) : Prop := match ev with EvMessage _ | EvMessageEnd => True | _ => False end.
#[local] Instance is_message_dec ev : Decision (is_message ev).
Proof. destruct ev; apply _. Defined.
Definition message_events (evs : list event) : list event := filter is_message evs.

Lemma input_of_messages pty evs : input_of pty (message_events evs) = input_of pty evs.
Proof.
  unfold message_events. induction evs as [|ev evs IH]; [done|]. rewrite filter_cons.
  destruct ev as [k data|k|m|]; cbn [is_message]; (rewrite decide_False by tauto) || (rewrite decide_True by done); cbn [input_of];
    [done..| |done]. by rewrite IH.
Qed.

Lemma input_of_app pty evs evs' : input_of pty evs `prefix_of` input_of pty (evs ++ evs').
Proof.
  induction evs as [|ev evs IH]; [apply prefix_nil|]. destruct ev as [| |m|]; cbn [app input_of]; [done..| |done].
  destruct (bool_decide _); [|done]. destruct (wm_eof m); [by destruct pty|]. by apply prefix_app.
Qed.

Lemma input_of_prefix pty evs evs' : evs `prefix_of` evs' → input_of pty evs `prefix_of` input_of pty evs'.
Proof. intros [k ->]. apply input_of_app. Qed.

(** The input of messages that were handed over, whatever follows them. *)
Lemma input_of_used pty used tail :
  Forall bare_end used → tail = [] ∨ tail = [EvMessageEnd] →
  input_of pty ((EvMessage <$> used) ++ tail) `prefix_of` stdin_bytes used.
Proof.
  intros HF Ht. induction HF as [|m used Hm HF IH]; [destruct Ht as [-> | ->]; apply prefix_nil|].
  cbn [fmap list_fmap app input_of]. change (m :: used) with ([m] ++ used). rewrite stdin_bytes_app. unfold stdin_bytes at 1.
  cbn [mbind list_bind]. rewrite app_nil_r. destruct (bool_decide _); [|done].
  destruct (wm_eof m) eqn:E; [|by apply prefix_app]. rewrite (Hm E). cbn. destruct pty; [exact IH|apply prefix_nil].
Qed.

(** The end of the input does not overtake it. *)
Definition end_last (msgs : list WrapperMessage) : Prop :=
  ∀ before m after, msgs = before ++ m :: after → wm_type m = MsgTypeStdin → wm_eof m = true → stdin_bytes after = [].

Lemma input_of_all pty msgs : Forall bare_end msgs → end_last msgs → input_of pty (EvMessage <$> msgs) = stdin_bytes msgs.
Proof.
  intros HF. induction HF as [|m msgs Hm HF IH]; intros Hl; [done|]. cbn [fmap list_fmap input_of].
  assert (end_last msgs) as Hl' by (intros b x a ->; by apply (Hl (m :: b))). specialize (IH Hl').
  change (m :: msgs) with ([m] ++ msgs). rewrite stdin_bytes_app. unfold stdin_bytes at 1. cbn [mbind list_bind]. rewrite app_nil_r.
  destruct (bool_decide_reflect (wm_type m = MsgTypeStdin)) as [Ht|]; [|done]. destruct (wm_eof m) eqn:E; [|by rewrite IH].
  rewrite (Hm E), (Hl [] m msgs eq_refl Ht E). cbn. rewrite IH, (Hl [] m msgs eq_refl Ht E). by destruct pty.
Qed.

(** Lines that were written can be told apart. *)
Lemma lines_inj (msgs1 msgs2 : list WrapperMessage) w w' :
  WriteAll w msgs1 = (w', Ok tt) → WriteAll w msgs2 = (w', Ok tt) → msgs1 = msgs2.
Proof.
  intros (l1 & F1 & ->)%WriteAll_lines (l2 & F2 & E%app_inv_head)%WriteAll_lines. revert msgs2 l2 F2 E.
  induction F1 as [|m1 x1 msgs1 l1 H1 F1 IH]; intros msgs2 l2 F2 E; destruct F2 as [|m2 x2 msgs2 l2 H2 F2]; [done|..];
    cbn [mbind list_bind] in E; rewrite <- ?app_assoc in E; [by destruct x2|by destruct x1|].
  assert (∀ m x, marshal (m : WrapperMessage) = Some x → newline ∉ x) as Hn.
  { intros m x Hx%marshal_no_newline Hin. rewrite Forall_forall in Hx. by destruct (Hx _ Hin). }
  apply app_sep_inj in E as [-> E]; [|by eapply Hn..].
  assert (m1 = m2) as ->. { apply unmarshal_marshal in H1, H2. congruence. }
  f_equal. by apply (IH msgs2 l2).
Qed.

(** C2: End to end, the input of a tool is what its user typed: in a run that is
    refused no call, whose pumper reads what the client wrote, whatever the
    schedules on both sides, its limits and its timeouts, the tool receives a
    prefix of the bytes the client read from its standard input, in order and
    without repetition; and when all that the client wrote was read while the tool
    ran, and the end of the input did not overtake it, the tool has received
    everything but the chunks that still wait at the client. *)
Theorem input_end_to_end e sd w a err s pty conn r raw chs c' o sent fin waits :
  Run resolve e sd (init_state w a) = (err, s) → valid_config_file e → w_faults w = [] →
  p_launch (x_proc s) ≠ None → reads_input e = true →
  client_run pty chs (client_start conn r raw) = Some (c', o) → cl_conn c' = conn ++ sent →
  message_events (all_events sd) `prefix_of`
    stdinPumper (e_readMsgTO e) waits (NewNDJSONReaderWithLimit {| rd_data := sent; rd_fin := fin |} (e_msgSize e)) →
  stdin_of s `prefix_of` chunks_read chs ∧
  ∀ msgs, WriteAll conn msgs = (cl_conn c', Ok tt) → message_events (sd_running sd) = EvMessage <$> msgs →
    end_last msgs → o = None → stdin_of s ++ mjoin (cl_stdinCh c') = chunks_read chs.
Proof.
  intros HR Hv Hf Hl Hin Hrun Hsent Hpump.
  destruct (Run_input resolve e sd w a err s HR Hv Hf Hl Hin) as [Hlo Hhi].
  destruct (client_run_stdin pty conn chs (client_start conn r raw) [] c' o) as (msgs & Hw & HF & Hpre & Hall);
    [by exists []|exact Hrun|]. cbn [app] in *.
  pose proof (WriteAll_lines _ _ _ Hw) as (lines & HL & Ew). rewrite Hsent in Ew. apply app_inv_head in Ew.
  destruct (pumper_prefix (e_readMsgTO e) waits msgs lines
    (NewNDJSONReaderWithLimit {| rd_data := sent; rd_fin := fin |} (e_msgSize e)) HL Ew) as (used & tail & Ep & [k ->] & Ht).
  rewrite Ep in Hpump. apply Forall_app in HF as HF'. destruct HF' as [HFu _].
  assert (stdin_of s `prefix_of` stdin_bytes used) as Hup.
  { etrans; [exact Hhi|]. rewrite <- input_of_messages. etrans; [apply input_of_prefix, Hpump|]. by apply input_of_used. }
  split.
  - etrans; [exact Hup|]. etrans; [|exact Hpre]. rewrite stdin_bytes_app. by apply prefix_app_r.
  - intros msgs' Hw' Hm Hend Ho. rewrite <- (lines_inj _ _ _ _ Hw Hw') in Hm, Hend. rewrite <- (Hall Ho). f_equal.
    rewrite <- input_of_messages, Hm, (input_of_all _ _ HF Hend) in Hlo.
    apply (anti_symm prefix); [|exact Hlo]. etrans; [exact Hup|]. rewrite stdin_bytes_app. by apply prefix_app_r.
Qed.
(** C15: A pause cuts the control of a tool: with the default settings, once no message
    comes for more than fifteen seconds the pumper ends, whatever came before;
    a tool that reads a pipe then sees its input end, as if it were complete, and
    nothing the client sends afterwards has any effect, interrupts and resizes
    included. *)
Theorem idle_cuts_control req td cfg token logger pid exe e ws wait ws' n :
  NewToolExecutor req td cfg token logger pid exe = Ok e → cfg_Proxy cfg = None → 15 * Second < wait →
  ∃ used, stdinPumper (e_readMsgTO e) (ws ++ wait :: ws') n = (EvMessage <$> used) ++ [EvMessageEnd] ∧
    (length used ≤ length ws)%nat ∧
    ∀ s, let s' := run_events [EvMessageEnd] s in
      (x_live_in s = true → p_stdinPipe (x_proc s) = true → p_stdin_open (x_proc s') = false) ∧
      ∀ msgs, run_events (EvMessage <$> msgs) s' = s'.
Proof.
  intros He Hc Hw. assert (e_readMsgTO e = 15 * Second) as ->.
  { unfold NewToolExecutor in He. destruct (_ && _); [done|]. injection He as <-. cbn. unfold GetReadMessageTimeout, positive_duration, proxy_field. by rewrite Hc. }
  assert (∀ s, let s' := run_events [EvMessageEnd] s in
      (x_live_in s = true → p_stdinPipe (x_proc s) = true → p_stdin_open (x_proc s') = false) ∧
      ∀ msgs, run_events (EvMessage <$> msgs) s' = s') as Hs.
  { intros s s'. assert (x_live_in s' = false) as Hd.
    { unfold s', run_events. cbn [foldl step_event]. by destruct (x_live_in s) eqn:El. }
    split; [|intros msgs; by apply messages_dead]. intros El Ep. unfold s', run_events. cbn [foldl step_event].
    rewrite El. unfold message_end, close_stdin. rewrite Ep. by destruct (p_stdin_open (x_proc s)) eqn:Eo; cbn. }
  revert n. induction ws as [|w0 ws IH]; intros n; cbn [app stdinPumper].
  - rewrite (proj2 (Z.gtb_lt _ _)) by (unfold Second; lia). rewrite (proj2 (Z.gtb_lt _ _)) by lia.
    by exists [].
  - destruct ((15 * Second >? 0) && (w0 >? 15 * Second)); [exists []; split_and!; [done|cbn; lia|done]|].
    destruct (NDJSONRead n) as [[m|err] n1]; [|exists []; split_and!; [done|cbn; lia|done]].
    destruct (IH n1) as (used & -> & Hn & _). exists (m :: used). split_and!; [done|cbn; lia|done].
Qed.
End session.
