(* ===== verification/EndToEnd.v ===== *)
(** The whole way of a tool's output: from the tool through the executor's buffers
    and redactors, the frames of the connection and the client's loop to the
    client's standard output and error. *)

From S2P Require Import Prelude GoStrings Base64 Json Protocol Framing GoTime GoPath Paths Regexp ConfigTypes Interpolate.
From S2P Require Import Redactor World OutputBuffer Config Settings Env Runtime AuditLog Executor.
From S2P Require Import ExecutorLaws RunLaws RunSafety StreamLaws Wrapper WrapperLaws.
Local Open Scope Z_scope.

Section session.
Context `{RE : Regexp} `{UC : UnicodeCase} `{DP : DurationParser} `{OSi : OS} `{HO : Host} `{MR : MapRange}
  `{HA : Hash} `{TE : Terminal} `{CR : Codec ResponseMessage} `{CW : Codec WrapperMessage} {W : Type} `{WR : Writer W}.
Context (resolve : string → CredentialDef → result string).

Lemma is_stream_output m : is_stream m → carries_output m.
Proof.
  intros [[data ->]|[data ->]]; (split; [by (left + right)|]); cbn [output_msg rm_data];
    rewrite (DecodeString_EncodeToString StdEncoding); by eexists.
Qed.

(** The exit code that goes with an outcome. *)
Definition exit_code (o : Executor.outcome) : Z := match o with Executor.Exited code => code | _ => -1 end.
Definition timed_out (o : Executor.outcome) : bool := match o with Executor.TimedOut _ => true | _ => false end.

(** The messages of a run that started its tool: output, then the final one. *)
Lemma run_messages e sd w a err s :
  Run resolve e sd (init_state w a) = (err, s) → valid_config_file e → w_faults w = [] → w_sent w = [] →
  drained sd → p_launch (x_proc s) ≠ None →
  ∃ outs, w_sent (x_w s) = outs ++ [done_msg (exit_code (sd_outcome sd)) (timed_out (sd_outcome sd))] ∧
    Forall carries_output outs.
Proof.
  unfold Run. destruct (run_body _ _ _ _) as [err1 s'] eqn:E. intros [= <- <-] Hv Hf Hs (_ & Ha & Ho) Hl.
  destruct (run_body_spec _ _ _ _ _ _ _ E Hv) as [Hb (t & (cs & pre & f & post & (_ & Es & _ & N) & Hm & F1 & _ & Hq) & Ht) _ _ _ _].
  pose proof (cleanup_sent resolve s' Hb) as Ecs. destruct (cleanup_spec resolve s' Hb) as (Ecl & _). rewrite Ecl in Hl.
  destruct (N Hf) as [HF _]. rewrite Ecs, Es, Hs, (sent_all _ HF), Hm, (Hq Ha), fmap_app.
  exists pre.*1. split; [|apply Forall_fmap; eapply Forall_impl; [exact F1|]; intros m; apply is_stream_output].
  cbn. do 2 f_equal. unfold is_terminal_of in Ht. destruct (p_launch (x_proc s')); [|done]. subst t.
  by destruct (sd_outcome sd).
Qed.

(** A redacted text: bytes that were copied, and the places of what was taken out. *)
Lemma emitted_tokens e secrets chunks :
  td_RedactOutput (e_tool e) = [] →
  ∃ toks, emitted (redactor_of e secrets) chunks = toks ≫= token_bytes ∧
    ∀ sec before after, sec ∈ secrets → minSecretRedactLength ≤ slen sec →
      toks ≠ before ++ (Some <$> s2b sec) ++ after.
Proof.
  intros Hr. unfold redactor_of. rewrite Hr. destruct (NewOutputRedactorWithSecrets [] secrets) as [r|] eqn:E; cbn [emitted].
  - pose proof E as (H1 & H2 & H3)%literal_redactor. rewrite redact_stream_from by done.
    eexists. split; [reflexivity|]. intros sec before after Hs Hl. by eapply tokens_no_secret.
  - exists (Some <$> concat chunks). split.
    { generalize (concat chunks) as b. clear. induction b as [|c b IH]; [done|]. cbn. by rewrite IH at 1. }
    intros sec before after Hs Hl. exfalso. unfold NewOutputRedactorWithSecrets in E. cbn in E.
    pose proof (proj2 (elem_of_collect_literals ∅ secrets sec) (conj Hs (conj Hl (not_elem_of_empty sec)))) as Hin.
    destruct (collect_literals ∅ secrets); [by apply elem_of_nil in Hin|done].
Qed.

(** C1: End to end, a tool's output reaches the user redacted and whole. When a run
    of a tool without redaction rules is refused no system call and stays within
    the output limit, and its messages go over the connection to the client, then
    whatever the schedules of the daemon's pumpers and of the client's goroutines,
    a client that exits does so with the tool's exit code, having printed exactly
    the tool's standard output and error with the secrets taken out: no credential
    of at least eight bytes that the tool was given is among the bytes it prints
    from the tool. *)
Theorem output_end_to_end e sd w a err s wire pty conn raw chs c code :
  Run resolve e sd (init_state w a) = (err, s) → valid_config_file e → w_faults w = [] → w_sent w = [] →
  drained sd → p_launch (x_proc s) ≠ None → td_RedactOutput (e_tool e) = [] →
  EncodeAll [] (w_sent (x_w s)) = (wire, Ok tt) →
  client_run pty chs (client_start conn {| rd_data := wire; rd_fin := io_EOF |} raw) = Some (c, Some (Exited code)) →
  code = exit_code (sd_outcome sd) ∧
  ∃ s1 env secrets, setupConfigFile resolve e (set_workDir (init_state w a) (work_dir e)) = (Ok tt, s1) ∧
    buildEnvironment resolve (env_of e s1) (x_secretValues s1) = Ok (env, secrets) ∧
    let T k := emitted (redactor_of e secrets) (produced k (output_events sd)) in
    (∀ k, ∃ toks, T k = toks ≫= token_bytes ∧ ∀ sec before after, sec ∈ secrets → minSecretRedactLength ≤ slen sec →
      toks ≠ before ++ (Some <$> s2b sec) ++ after) ∧
    ((∀ k, blen (T k) ≤ max_int64 ∧ (e_maxOutSz e > 0 → blen (T k) ≤ e_maxOutSz e)) →
     if runs_pty e then cl_stdout c = T Spty else cl_stdout c = T Sout ∧ cl_stderr c = T Serr).
Proof.
  intros HR Hv Hf Hs Hd Hl Hrules HE Hrun.
  destruct (run_messages _ _ _ _ _ _ HR Hv Hf Hs Hd Hl) as (outs & Eouts & Houts).
  unfold Run in HR. destruct (run_body _ _ _ _) as [err1 s'] eqn:E. injection HR as <- <-.
  destruct (run_body_spec _ _ _ _ _ _ _ E Hv) as [Hb _ _ _ _ _]. pose proof (cleanup_sent resolve s' Hb) as Ecs.
  destruct (cleanup_spec resolve s' Hb) as (Ecl & _). rewrite Ecl in Hl. rewrite Ecs in Eouts, HE.
  destruct (run_body_shows _ _ _ _ _ _ _ E Hv Hf Hs Hd Hl) as (s1 & env & secrets & Ecf & Eenv & Hshow).
  rewrite Eouts in HE. apply EncodeAll_frames in HE as (b & Hfr & ->). cbn [app] in Hrun.
  set (c0 := client_start conn _ raw) in *.
  pose proof (client_run_output pty _ _ chs c0 outs c (Some (Exited code)) eq_refl (conj Hfr eq_refl) Houts Hrun)
    as (Hcode & [Ho He] & _).
  split; [done|]. exists s1, env, secrets. do 2 (split; [done|]). cbv zeta in *. split; [intros k; by apply emitted_tokens|].
  intros HT. specialize (Hshow HT). unfold shown in Hshow. rewrite Eouts in Hshow.
  assert (∀ k, inline_bytes (stream_name k) [done_msg (exit_code (sd_outcome sd)) (timed_out (sd_outcome sd))] = [])
    as Hdone by by intros [].
  setoid_rewrite inline_bytes_app in Hshow. setoid_rewrite Hdone in Hshow. setoid_rewrite app_nil_r in Hshow.
  cbn [client_start cl_stdout cl_stderr c0 app] in Ho, He. rewrite Ho, He.
  destruct (runs_pty e); [apply (Hshow Spty); by left|].
  split; [apply (Hshow Sout); by left|apply (Hshow Serr); right; by left].
Qed.
End session.
