(* ===== verification/CaLaws.v ===== *)
(** Package [internal/httpproxy], [ca.go]: what the certificate authority served is,
    how its life goes over restarts, and how a failed generation is repaired. *)

From S2P Require Import Prelude GoStrings GoTime GoPath Paths Regexp ConfigTypes Json SecretFile Daemon CaManager.
Local Open Scope Z_scope.

(** ** Files *)

Lemma fs_refused_files f b f' : fs_refused f = (b, f') → fs_nodes f' = fs_nodes f.
Proof. unfold fs_refused. destruct (fs_faults f); by intros [= <- <-]. Qed.

Lemma fs_refused_none f : fs_faults f = [] → fs_refused f = (false, f).
Proof. intros Hf. unfold fs_refused. by rewrite Hf. Qed.

Lemma fs_call_files f e f' : fs_call f = (e, f') → fs_nodes f' = fs_nodes f.
Proof. unfold fs_call. destruct (fs_refused f) as [b f1] eqn:E. intros [= <- <-]. by apply fs_refused_files in E. Qed.

Lemma fs_call_none f : fs_faults f = [] → fs_call f = (None, f).
Proof. intros Hf. unfold fs_call. by rewrite fs_refused_none. Qed.

Lemma fs_stat_nodes f path r f' : fs_stat f path = (r, f') →
  fs_nodes f' = fs_nodes f ∧ ∀ n, r = Ok n → fs_nodes f !! path = Some n.
Proof.
  unfold fs_stat. destruct (fs_refused f) as [[] f1] eqn:E; apply fs_refused_files in E; intros [= <- <-]; [done|].
  rewrite E. split; [done|]. intros n. destruct (fs_nodes f !! path); [by intros [= ->]|done].
Qed.

Lemma fs_stat_none f path :
  fs_faults f = [] → fs_stat f path = (match fs_nodes f !! path with Some n => Ok n | None => Err ErrNotExist end, f).
Proof. intros Hf. unfold fs_stat. by rewrite fs_refused_none. Qed.

Lemma fs_read_nodes f path r f' : fs_read f path = (r, f') →
  fs_nodes f' = fs_nodes f ∧ ∀ data, r = Ok data → ∃ n, fs_nodes f !! path = Some n ∧ nd_data n = data.
Proof.
  unfold fs_read. destruct (fs_stat f path) as [r1 f1] eqn:E. apply fs_stat_nodes in E as [Hn Hr]. intros [= <- <-].
  split; [done|]. intros data. destruct r1 as [n|]; [|done]. intros [= <-]. exists n. auto.
Qed.

Lemma fs_read_none f path :
  fs_faults f = [] → fs_read f path = (match fs_nodes f !! path with Some n => Ok (nd_data n) | None => Err ErrNotExist end, f).
Proof. intros Hf. unfold fs_read. rewrite fs_stat_none by done. by destruct (fs_nodes f !! path). Qed.

Lemma fs_update_nodes f path g e f' : fs_update f path g = (e, f') →
  fs_nodes f' = match e with None => alter g path (fs_nodes f) | Some _ => fs_nodes f end.
Proof.
  unfold fs_update. destruct (fs_refused f) as [[] f1] eqn:E; apply fs_refused_files in E; intros [= <- <-]; cbn; by rewrite E.
Qed.

(** A file that was opened: only its node changes; when all went well it holds the data. *)
Lemma fs_write_file_nodes f uid um path data mode e f' :
  fs_write_file f uid um path data mode = (e, f') →
  match e with
  | None => ∃ n, fs_nodes f' = <[path := n]> (fs_nodes f) ∧ nd_data n = data
  | Some _ => fs_nodes f' = fs_nodes f ∨ ∃ n, fs_nodes f' = <[path := n]> (fs_nodes f)
  end.
Proof.
  unfold fs_write_file. destruct (fs_refused f) as [[] f1] eqn:E1; apply fs_refused_files in E1.
  { intros [= <- <-]. by left. }
  cbv zeta. rewrite E1. set (n := match fs_nodes f !! path with Some n => _ | None => _ end).
  assert (nd_data n = []) as Hn by (unfold n; by destruct (fs_nodes f !! path)).
  destruct (fs_update (set_nodes f1 _) path (add_data data)) as [[e2|] f2] eqn:E2; apply fs_update_nodes in E2; cbn in E2.
  - destruct (fs_call f2) as [e3 f3] eqn:E3. apply fs_call_files in E3. intros [= <- <-]. right. exists n. by rewrite E3.
  - rewrite alter_insert_eq in E2. intros E3. pose proof (fs_call_files _ _ _ E3) as E3'. rewrite E2 in E3'.
    destruct e; [right; by eexists|]. eexists. split; [exact E3'|]. cbn. by rewrite Hn.
Qed.

Lemma fs_write_file_none f uid um path data mode :
  fs_faults f = [] → ∃ n, fs_write_file f uid um path data mode
    = (None, {| fs_nodes := <[path := n]> (fs_nodes f); fs_faults := [] |}) ∧ nd_data n = data.
Proof.
  intros Hf. unfold fs_write_file. rewrite fs_refused_none by done. cbv zeta.
  set (n := match fs_nodes f !! path with Some n => _ | None => _ end).
  assert (nd_data n = []) as Hn by (unfold n; by destruct (fs_nodes f !! path)).
  unfold fs_update. rewrite fs_refused_none by done. rewrite fs_call_none by done.
  unfold set_nodes. cbn [fs_nodes fs_faults]. rewrite alter_insert_eq, Hf. eexists. split; [reflexivity|]. cbn. by rewrite Hn.
Qed.

Lemma fs_remove_nodes f path : fs_nodes (fs_remove f path) = fs_nodes f ∨ fs_nodes (fs_remove f path) = delete path (fs_nodes f).
Proof.
  unfold fs_remove. destruct (fs_refused f) as [[] f1] eqn:E; apply fs_refused_files in E; [by left|right]. cbn. by rewrite E.
Qed.

(** ** Loading *)

Section laws.
Context `{OSi : OS} `{XC : X509}.

Lemma LoadX509KeyPair_nodes f cp kp r f' :
  LoadX509KeyPair f cp kp = (r, f') → fs_nodes f' = fs_nodes f ∧
  ∀ c, r = Ok c → ∃ nc nk, fs_nodes f !! cp = Some nc ∧ fs_nodes f !! kp = Some nk ∧ X509KeyPair (nd_data nc) (nd_data nk) = Ok c.
Proof.
  unfold LoadX509KeyPair. destruct (fs_read f cp) as [[certPEM|e] f1] eqn:E1; apply fs_read_nodes in E1 as [N1 R1].
  2: { intros [= <- <-]. done. }
  destruct (fs_read f1 kp) as [[keyPEM|e] f2] eqn:E2; apply fs_read_nodes in E2 as [N2 R2]; intros [= <- <-];
    (split; [congruence|]); [|done]. intros c Hc. destruct (R1 _ eq_refl) as (nc & ? & <-).
  destruct (R2 _ eq_refl) as (nk & Hk & <-). rewrite N1 in Hk. by exists nc, nk.
Qed.

Lemma LoadX509KeyPair_none f cp kp :
  fs_faults f = [] → LoadX509KeyPair f cp kp =
    (match fs_nodes f !! cp with
     | None => Err ErrNotExist
     | Some nc => match fs_nodes f !! kp with None => Err ErrNotExist | Some nk => X509KeyPair (nd_data nc) (nd_data nk) end
     end, f).
Proof.
  intros Hf. unfold LoadX509KeyPair. rewrite fs_read_none by done. destruct (fs_nodes f !! cp); [|done].
  rewrite fs_read_none by done. by destruct (fs_nodes f !! kp).
Qed.

Lemma loadCA_nodes m f r f' :
  loadCA m f = (r, f') → fs_nodes f' = fs_nodes f ∧
  ∀ c, r = Ok c → ∃ nc nk, fs_nodes f !! m_certPath m = Some nc ∧ fs_nodes f !! m_keyPath m = Some nk ∧
    X509KeyPair (nd_data nc) (nd_data nk) = Ok c.
Proof.
  unfold loadCA. destruct (m_external m); [apply LoadX509KeyPair_nodes|].
  destruct (fs_stat f (m_keyPath m)) as [[info|e] f1] eqn:E1; apply fs_stat_nodes in E1 as [N1 _].
  2: { intros [= <- <-]. done. }
  destruct (nd_mode info >? 0x180); [by intros [= <- <-]|]. intros E. apply LoadX509KeyPair_nodes in E. by rewrite N1 in E.
Qed.

(** ** A certificate just made *)

Definition expiry (m : CAManager) (now : time) : time := whole_seconds (AddDays now (validity_days m)).

Lemma whole_seconds_le t : whole_seconds t ≤ t < whole_seconds t + Second.
Proof. unfold whole_seconds, Second. pose proof (Z.div_mod t (10 ^ 9)). pose proof (Z.mod_pos_bound t (10 ^ 9)). lia. Qed.

Lemma validity_days_pos m : 0 < validity_days m.
Proof. unfold validity_days, DefaultCAValidityDays. destruct (Z.leb_spec (ca_ValidityDays (m_config m)) 0); lia. Qed.

Lemma expiry_later m now : now ≤ expiry m now.
Proof.
  unfold expiry, AddDays. pose proof (whole_seconds_le (now + validity_days m * (24 * 60 * Minute))) as Hw.
  pose proof (validity_days_pos m). unfold Minute, Second in *. nia.
Qed.

(** It is a certificate of the authority for a while: then it is expired. *)
Lemma created_validate m serial now key der c t :
  CreateCertificate (ca_template m serial now) key = Ok der → chain c = [der] → now ≤ t →
  (t ≤ expiry m now → validateCA t c = Ok tt) ∧
  (expiry m now < t → ∃ e, validateCA t c = Err e) ∧
  needsRotation t c = bool_decide (expiry m now < AddDays t RotationBuffer).
Proof.
  intros Hc Hch Ht. pose proof (created_parses _ _ _ Hc) as Hp. cbn [ca_template ct_NotBefore ct_NotAfter] in Hp.
  fold (expiry m now) in Hp. unfold validateCA, needsRotation. rewrite Hch, Hp. cbn [wrap_err mbind result_bind guard_err negb xc_IsCA xc_CertSign xc_NotBefore xc_NotAfter].
  unfold guard_err, Before, After. cbn [xc_NotBefore xc_NotAfter mbind result_bind].
  pose proof (whole_seconds_le now) as Hw. split_and!.
  - intros He. destruct (Z.ltb_spec t (whole_seconds now)); [lia|]. cbn.
    by destruct (Z.gtb_spec t (expiry m now)); [lia|].
  - intros He. destruct (Z.ltb_spec t (whole_seconds now)); [lia|]. cbn.
    destruct (Z.gtb_spec t (expiry m now)); [|lia]. cbn. by eexists.
  - destruct (Z.ltb_spec (expiry m now) (AddDays t RotationBuffer)).
    + by rewrite bool_decide_eq_true_2.
    + by rewrite bool_decide_eq_false_2 by lia.
Qed.

(** What saving leaves in the two files. *)
Lemma save_ca_Ok m io certPEM keyPEM f f' :
  save_ca m io certPEM keyPEM f = (Ok tt, f') → m_certPath m ≠ m_keyPath m →
  ∃ nc nk, fs_nodes f' !! m_certPath m = Some nc ∧ nd_data nc = certPEM ∧
    fs_nodes f' !! m_keyPath m = Some nk ∧ nd_data nk = keyPEM ∧ nd_mode nk = 0x180.
Proof.
  intros E Hne. unfold save_ca in E. destruct (fs_write_file f _ _ _ certPEM _) as [[e|] f1] eqn:E1; [done|].
  apply fs_write_file_nodes in E1 as (nc & N1 & D1).
  destruct (fs_write_file f1 _ _ _ keyPEM _) as [[e|] f2] eqn:E2; [done|]. apply fs_write_file_nodes in E2 as (nk & N2 & D2).
  destruct (fs_update f2 _ _) as [[e|] f3] eqn:E3; [done|]. apply fs_update_nodes in E3. injection E as <-.
  rewrite E3, N2, N1, alter_insert_eq. exists nc, (set_mode 0x180 nk).
  rewrite lookup_insert_ne, !lookup_insert_eq by done. done.
Qed.

(** A generation that succeeds serves the certificate it made. *)
Lemma generate_Ok m io now f c m' f' :
  generateAndSaveCA m io now f = (Ok c, m', f') → m_certPath m ≠ m_keyPath m →
  ∃ key serial der nc nk, ci_key io = Ok key ∧ ci_serial io = Ok serial ∧
    CreateCertificate (ca_template m serial now) key = Ok der ∧ chain c = [der] ∧ m' = set_cert m (Some c) ∧
    fs_nodes f' !! m_certPath m = Some nc ∧ fs_nodes f' !! m_keyPath m = Some nk ∧
    X509KeyPair (nd_data nc) (nd_data nk) = Ok c ∧ nd_mode nk = 0x180.
Proof.
  intros E Hne. unfold generateAndSaveCA in E. destruct (fs_call f) as [[e|] f1]; [done|].
  destruct (ci_key io) as [key|]; [|done]. destruct (ci_serial io) as [serial|]; [|done]. cbn [wrap_err mbind result_bind] in E.
  destruct (CreateCertificate _ key) as [der|] eqn:Ec; [|done]. cbn [wrap_err mbind result_bind] in E.
  destruct (save_ca _ _ _ _ f1) as [[[]|e] f2] eqn:Es; [|done]. apply save_ca_Ok in Es as (nc & nk & Hc & Dc & Hk & Dk & Mk); [|done].
  destruct (LoadX509KeyPair f2 _ _) as [[c0|e] f3] eqn:El; [|done]. injection E as <- <- <-.
  apply LoadX509KeyPair_nodes in El as [N Hl]. destruct (Hl _ eq_refl) as (nc' & nk' & Hc' & Hk' & Hpair).
  rewrite Hc in Hc'. injection Hc' as <-. rewrite Hk in Hk'. injection Hk' as <-.
  exists key, serial, der, nc, nk. rewrite N. split_and!; try done. rewrite Dc in Hpair. by apply pair_chain in Hpair.
Qed.

(** Without refusals a generation succeeds. *)
Lemma save_ca_none m io certPEM keyPEM f :
  fs_faults f = [] → ∃ f', save_ca m io certPEM keyPEM f = (Ok tt, f') ∧ fs_faults f' = [].
Proof.
  intros Hf. unfold save_ca. destruct (fs_write_file_none f (ci_uid io) (ci_umask io) (m_certPath m) certPEM 0x1A4 Hf) as (nc & -> & _).
  set (f1 := {| fs_nodes := _ |}).
  destruct (fs_write_file_none f1 (ci_uid io) (ci_umask io) (m_keyPath m) keyPEM 0x180 eq_refl) as (nk & -> & _).
  unfold fs_update. rewrite fs_refused_none by done. eexists. split; [reflexivity|done].
Qed.

(** The numbers and the certificate of a generation. *)
Definition can_generate (m : CAManager) (io : ca_io) (now : time) (der : bytes) : Prop :=
  ∃ key serial, ci_key io = Ok key ∧ ci_serial io = Ok serial ∧ CreateCertificate (ca_template m serial now) key = Ok der.

Lemma generate_none m io now der f :
  fs_faults f = [] → m_certPath m ≠ m_keyPath m → can_generate m io now der →
  ∃ c f', generateAndSaveCA m io now f = (Ok c, set_cert m (Some c), f') ∧ fs_faults f' = [].
Proof.
  intros Hf Hne (key & serial & Hk & Hs & Hc). unfold generateAndSaveCA. rewrite fs_call_none by done.
  rewrite Hk, Hs. cbn [wrap_err mbind result_bind]. rewrite Hc. cbn [wrap_err mbind result_bind].
  destruct (save_ca_none m io (EncodeToMemory "CERTIFICATE" der) (EncodeToMemory "RSA PRIVATE KEY" (MarshalPKCS1PrivateKey key)) f Hf)
    as (f1 & E1 & Hf1). rewrite E1. apply save_ca_Ok in E1 as (nc & nk & Hnc & Dc & Hnk & Dk & _); [|done].
  rewrite LoadX509KeyPair_none by done. rewrite Hnc, Hnk, Dc, Dk. destruct (created_pair _ _ _ Hc) as (c & ->).
  by exists c, f1.
Qed.

(** ** The certificate served *)

(** What happens to a manager and its files: a start, an event of the watcher, the
    watcher itself, and whatever others do to the files in between. *)
Inductive ca_event :=
  | CaEnsure (io : ca_io) (t1 t2 t3 : time)
  | CaWatch (e : fs_event) (now : time)
  | CaStart (new : result unit) (add : string → result unit)
  | CaStop
  | CaOutside (files : fs).

Definition ca_step (s : CAManager * fs) (ev : ca_event) : CAManager * fs :=
  let '(m, f) := s in
  match ev with
  | CaEnsure io t1 t2 t3 => let '(_, m, f) := EnsureCA m io t1 t2 t3 f in (m, f)
  | CaWatch e now => watchLoop_step m e now f
  | CaStart new add => ((StartWatcher m new add).2, f)
  | CaStop => (StopWatcher m, f)
  | CaOutside files => (m, files)
  end.

Definition ca_run : CAManager * fs → list ca_event → CAManager * fs := foldl ca_step.

(** An event takes a certificate: from the files, at the time it is checked, or one
    made at that time. *)
Definition takes_ca (s : CAManager * fs) (ev : ca_event) (c : certificate) (now : time) : Prop :=
  let '(m, f) := s in
  match ev with
  | CaEnsure io t1 t2 t3 =>
    now = t1 ∧ (loadCA m f).1 = Ok c ∨ now = t3 ∧ (generateAndSaveCA m io t3 (loadCA m f).2).1.1 = Ok c
  | CaWatch e t => now = t ∧ (loadCA m f).1 = Ok c
  | _ => False
  end.

(** The certificate is an authority with the right to sign, within its validity. *)
Definition valid_authority (c : certificate) (now : time) : Prop :=
  ∃ der x, chain c !! 0%nat = Some der ∧ ParseCertificate der = Ok x ∧ xc_IsCA x = true ∧ xc_CertSign x = true ∧
    xc_NotBefore x ≤ now ≤ xc_NotAfter x.

Lemma validateCA_valid now c : validateCA now c = Ok tt → valid_authority c now.
Proof.
  unfold validateCA, valid_authority. intros Hv. destruct (chain c) as [|der ders]; [done|]. exists der.
  destruct (ParseCertificate der) as [x|] eqn:Ep; [|done]. exists x. cbn [wrap_err mbind result_bind] in Hv.
  unfold guard_err in Hv. destruct (xc_IsCA x), (xc_CertSign x); cbn in Hv; try done. unfold Before, After in Hv.
  destruct (Z.ltb_spec now (xc_NotBefore x)); [done|]. cbn in Hv.
  destruct (Z.gtb_spec now (xc_NotAfter x)); [done|]. split_and!; done || lia.
Qed.

Definition same_paths (m m' : CAManager) : Prop := m_certPath m' = m_certPath m ∧ m_keyPath m' = m_keyPath m.

(** What an event does to the certificate: nothing, or it takes one that is valid. *)
Definition served_step (s : CAManager * fs) (ev : ca_event) (m' : CAManager) : Prop :=
  same_paths s.1 m' ∧
  (m_cert m' = m_cert s.1 ∨ ∃ c now, m_cert m' = Some c ∧ takes_ca s ev c now ∧ valid_authority c now).

Lemma generate_served m io now f r m' f' :
  generateAndSaveCA m io now f = (r, m', f') → m_certPath m ≠ m_keyPath m →
  same_paths m m' ∧ (m' = m ∨ ∃ c, r = Ok c ∧ m_cert m' = Some c ∧ valid_authority c now).
Proof.
  intros E Hne. destruct r as [c|e].
  - destruct (generate_Ok _ _ _ _ _ _ _ E Hne) as (key & serial & der & _ & _ & _ & _ & Hc & Hch & -> & _).
    split; [done|]. right. exists c. split_and!; try done. apply validateCA_valid.
    pose proof (created_validate _ _ _ _ _ _ now Hc Hch (Z.le_refl now)) as [Hv _]. apply Hv, expiry_later.
  - assert (m' = m) as -> by (unfold generateAndSaveCA in E; repeat case_match; by simplify_eq). by split; [|left].
Qed.

Lemma ensure_served m io t1 t2 t3 f :
  m_certPath m ≠ m_keyPath m → served_step (m, f) (CaEnsure io t1 t2 t3) (EnsureCA m io t1 t2 t3 f).1.2.
Proof.
  intros Hne. unfold served_step, takes_ca, EnsureCA. cbn [fst]. destruct (loadCA m f) as [[c|e] f1]; cbn [fst snd].
  - destruct (validateCA t1 c) as [[]|e] eqn:Ev; [|by split; [|left]].
    destruct (negb (m_external m) && needsRotation t2 c).
    + destruct (generateAndSaveCA m io t3 f1) as [[r m'] f'] eqn:E. apply generate_served in E as [Hp Hs]; [|done].
      split; [done|]. destruct Hs as [-> |(c' & -> & Hc & Hv)]; [by left|right]. exists c', t3. split_and!; auto.
    + split; [done|]. right. exists c, t1. split_and!; auto. by apply validateCA_valid.
  - destruct (m_external m); [by split; [|left]|].
    destruct (generateAndSaveCA m io t3 f1) as [[r m'] f'] eqn:E. apply generate_served in E as [Hp Hs]; [|done].
    split; [done|]. destruct Hs as [-> |(c' & -> & Hc & Hv)]; [by left|right]. exists c', t3. split_and!; auto.
Qed.

Lemma event_served m e now f : served_step (m, f) (CaWatch e now) (watchLoop_step m e now f).1.
Proof.
  unfold served_step, takes_ca, watchLoop_step. cbn [fst]. destruct (_ && _); [by split; [|left]|].
  destruct (negb _); [by split; [|left]|]. unfold reloadCA. destruct (loadCA m f) as [[c|x] f1]; [|by split; [|left]].
  destruct (validateCA now c) as [[]|x] eqn:Ev; [|by split; [|left]].
  split; [done|]. right. exists c, now. split_and!; auto. by apply validateCA_valid.
Qed.

Lemma ca_step_served s ev : m_certPath s.1 ≠ m_keyPath s.1 → served_step s ev (ca_step s ev).1.
Proof.
  destruct s as [m f]. cbn [fst]. intros Hne. destruct ev as [io t1 t2 t3|e now|new add| |files]; cbn [ca_step].
  - pose proof (ensure_served m io t1 t2 t3 f Hne). by destruct (EnsureCA m io t1 t2 t3 f) as [[r m'] f'].
  - apply event_served.
  - unfold StartWatcher. repeat case_match; cbn; by split; [|left].
  - unfold StopWatcher. destruct (m_watcher m); by split; [|left].
  - by split; [|left].
Qed.

Lemma ca_run_paths s evs : m_certPath s.1 ≠ m_keyPath s.1 → m_certPath (ca_run s evs).1 ≠ m_keyPath (ca_run s evs).1.
Proof.
  revert s. induction evs as [|ev evs IH]; intros s Hne; [done|]. apply (IH (ca_step s ev)).
  destruct (ca_step_served s ev Hne) as [[-> ->] _]. done.
Qed.

(** C23: Whatever starts, reloads, failures and changes of the files come in whatever
    order, the certificate the proxy signs with was taken by one of the starts or
    reloads, from the files or newly made, and by the clock of that start or reload
    it was a certificate authority with the right to sign, within its validity; it
    was kept through everything that came after. Once a certificate is served, one
    always is: a reload that fails keeps the one before. *)
Theorem served_certificate_valid cfg f evs c :
  let s0 := (NewCAManager cfg, f) in
  m_certPath (NewCAManager cfg) ≠ m_keyPath (NewCAManager cfg) → makeLazyTLSConfig (ca_run s0 evs).1 = Ok c →
  (∃ before ev after now, evs = before ++ ev :: after ∧
     takes_ca (ca_run s0 before) ev c now ∧ valid_authority c now ∧
     ∀ later, later `prefix_of` after → makeLazyTLSConfig (ca_run s0 (before ++ ev :: later)).1 = Ok c) ∧
  ∀ more, is_ok (makeLazyTLSConfig (ca_run s0 (evs ++ more)).1) = true.
Proof.
  intros s0 Hne. unfold makeLazyTLSConfig, Certificate. intros Hc.
  assert (m_cert (ca_run s0 evs).1 = Some c) as Hm by (destruct (m_cert (ca_run s0 evs).1); [by injection Hc as ->|done]).
  clear Hc. split.
  - induction evs as [|ev evs IH] using rev_ind; [done|].
    destruct (ca_step_served (ca_run s0 evs) ev (ca_run_paths s0 evs Hne)) as [_ Hs].
    unfold ca_run in Hm. rewrite foldl_snoc in Hm. fold (ca_run s0 evs) in Hm.
    destruct Hs as [Hs|(c' & now & Hs & Ht & Hv)].
    + destruct IH as (before & ev0 & after & now & -> & Ht & Hv & Hk); [congruence|].
      exists before, ev0, (after ++ [ev]), now. split; [by rewrite <- app_assoc|]. split_and!; try done.
      intros later [k Hlater]. destruct k as [|x k _] using rev_ind.
      * rewrite app_nil_r in Hlater. subst later. rewrite app_comm_cons, (assoc_L (++)).
        unfold ca_run. rewrite foldl_snoc. fold (ca_run s0 (before ++ ev0 :: after)). by rewrite Hm.
      * rewrite (assoc_L (++)) in Hlater. apply app_inj_tail in Hlater as [-> _]. apply Hk. by exists k.
    + assert (c' = c) as -> by congruence. exists evs, ev, [], now. split_and!; try done.
      intros later ->%prefix_nil_inv. unfold ca_run. rewrite foldl_snoc. fold (ca_run s0 evs). by rewrite Hm.
  - intros more. induction more as [|ev more IH] using rev_ind; [by rewrite app_nil_r, Hm|].
    rewrite (assoc_L (++)). unfold ca_run. rewrite foldl_snoc. fold (ca_run s0 (evs ++ more)).
    destruct (ca_step_served (ca_run s0 (evs ++ more)) ev (ca_run_paths s0 _ Hne)) as [_ [->|(c' & _ & -> & _)]]; done.
Qed.

(** ** Restarts *)

(** The files hold the certificate [der] and a key that the program accepts. *)
Definition holds_ca (m : CAManager) (f : fs) (c : certificate) : Prop :=
  ∃ nc nk, fs_nodes f !! m_certPath m = Some nc ∧ fs_nodes f !! m_keyPath m = Some nk ∧ nd_mode nk ≤ 0x180 ∧
    X509KeyPair (nd_data nc) (nd_data nk) = Ok c.

Lemma loadCA_holds m f c : fs_faults f = [] → holds_ca m f c → loadCA m f = (Ok c, f).
Proof.
  intros Hf (nc & nk & Hc & Hk & Hm & Hp). unfold loadCA.
  assert (LoadX509KeyPair f (m_certPath m) (m_keyPath m) = (Ok c, f)) as HL
    by (rewrite LoadX509KeyPair_none by done; by rewrite Hc, Hk, Hp).
  destruct (m_external m); [done|]. rewrite fs_stat_none by done. rewrite Hk.
  by destruct (Z.gtb_spec (nd_mode nk) 0x180); [lia|].
Qed.

(** C24: The life of a certificate the program manages itself, over restarts: the
    first start without a key makes one, with a key that only the owner reads; a
    restart more than thirty days before its end serves it unchanged and writes
    nothing; one in the last thirty days makes a new one; but one after its end is
    refused, with nothing written, and so is every later one. *)
Theorem ca_lifecycle m io t1 t2 now der f :
  m_external m = false → m_certPath m ≠ m_keyPath m → fs_faults f = [] → fs_nodes f !! m_keyPath m = None →
  can_generate m io now der →
  ∃ c m' f' nk, EnsureCA m io t1 t2 now f = (Ok c, m', f') ∧ makeLazyTLSConfig m' = Ok c ∧
    fs_nodes f' !! m_keyPath m = Some nk ∧ nd_mode nk = 0x180 ∧
    ∀ io' t t', now ≤ t →
      (AddDays t RotationBuffer ≤ expiry m now → EnsureCA m io' t t t' f' = (Ok c, m', f')) ∧
      (t ≤ expiry m now < AddDays t RotationBuffer → EnsureCA m io' t t t' f' = generateAndSaveCA m io' t' f') ∧
      (expiry m now < t → ∃ e, EnsureCA m io' t t t' f' = (Err (Wrapf "CA validation failed: %w" [] e), m, f')).
Proof.
  intros He Hne Hf Hk Hgen. destruct (generate_none m io now der f Hf Hne Hgen) as (c & f' & E & Hf').
  destruct (generate_Ok _ _ _ _ _ _ _ E Hne) as (key & serial & der' & nc & nk & _ & _ & Hc & Hch & _ & Hnc & Hnk & Hp & Hm).
  exists c, (set_cert m (Some c)), f', nk. split.
  { unfold EnsureCA, loadCA. rewrite He, fs_stat_none, Hk by done. done. }
  split; [done|]. split; [done|]. split; [done|]. intros io' t t' Ht.
  assert (loadCA m f' = (Ok c, f')) as HL by (apply loadCA_holds; [done|]; exists nc, nk; split_and!; try done; lia).
  destruct (created_validate _ _ _ _ _ _ t Hc Hch Ht) as (Hv & Hx & Hr).
  unfold EnsureCA. rewrite HL, He. cbn [negb andb]. rewrite Hr. split_and!.
  - intros Hd. rewrite Hv by (unfold AddDays, RotationBuffer, Minute, Second in *; lia).
    by rewrite bool_decide_eq_false_2 by lia.
  - intros [H1 H2]. rewrite Hv by done. by rewrite bool_decide_eq_true_2.
  - intros Hd. destruct (Hx Hd) as [e ->]. by exists e.
Qed.

(** ** Repair *)

Definition at_ease (f : fs) : fs := {| fs_nodes := fs_nodes f; fs_faults := [] |}.

(** What the certificate's file holds beside a key after a generation from none. *)
Lemma save_ca_leaves m io certPEM keyPEM f r f' :
  save_ca m io certPEM keyPEM f = (r, f') → m_certPath m ≠ m_keyPath m → fs_nodes f !! m_keyPath m = None →
  fs_nodes f' !! m_keyPath m = None ∨ ∀ nc, fs_nodes f' !! m_certPath m = Some nc → nd_data nc = certPEM.
Proof.
  intros E Hne Hk. unfold save_ca in E.
  destruct (fs_write_file f _ _ _ certPEM _) as [[e|] f1] eqn:E1; apply fs_write_file_nodes in E1.
  { injection E as <- <-. left. destruct E1 as [-> |[n ->]]; [done|]. by rewrite lookup_insert_ne. }
  destruct E1 as (nc & N1 & D1). right. assert (∀ g, fs_nodes g !! m_certPath m = fs_nodes f1 !! m_certPath m ∨
    fs_nodes g !! m_certPath m = None → ∀ n, fs_nodes g !! m_certPath m = Some n → nd_data n = certPEM) as Hgoal.
  { intros g [Hg|Hg] n Hn; [|congruence]. rewrite Hg, N1, lookup_insert_eq in Hn. by injection Hn as <-. }
  assert (∀ g p, (fs_nodes (fs_remove g p) !! m_certPath m = fs_nodes g !! m_certPath m ∨
    fs_nodes (fs_remove g p) !! m_certPath m = None)) as Hrem.
  { intros g p. destruct (fs_remove_nodes g p) as [-> | ->]; [by left|]. rewrite lookup_delete. case_decide; auto. }
  destruct (fs_write_file f1 _ _ _ keyPEM _) as [[e|] f2] eqn:E2; apply fs_write_file_nodes in E2.
  { injection E as <- <-. apply Hgoal. assert (fs_nodes f2 !! m_certPath m = fs_nodes f1 !! m_certPath m) as <-.
    { destruct E2 as [-> |[n ->]]; [done|]. by rewrite lookup_insert_ne. } apply Hrem. }
  destruct E2 as (nk & N2 & _). assert (fs_nodes f2 !! m_certPath m = fs_nodes f1 !! m_certPath m) as E2
    by (rewrite N2; by rewrite lookup_insert_ne).
  destruct (fs_update f2 _ _) as [[e|] f3] eqn:E3; apply fs_update_nodes in E3; injection E as <- <-; apply Hgoal.
  - destruct (Hrem (fs_remove f3 (m_certPath m)) (m_keyPath m)) as [-> | ->]; [|by right].
    destruct (Hrem f3 (m_certPath m)) as [-> | ->]; [|by right]. rewrite E3, E2. by left.
  - rewrite E3, lookup_alter_ne by done. by left.
Qed.

(** C25: A first start that fails, wherever the system refuses a call, leaves nothing
    that the next start does not repair: when that one is refused nothing, it
    serves a certificate. *)
Theorem ca_repaired m io io' t1 t2 now der t1' t2' now' der' f r m' f' :
  m_external m = false → m_certPath m ≠ m_keyPath m → fs_nodes f !! m_keyPath m = None →
  can_generate m io now der → can_generate m io' now' der' → now ≤ t1' ≤ expiry m now →
  EnsureCA m io t1 t2 now f = (r, m', f') →
  ∃ c m'' f'', EnsureCA m io' t1' t2' now' (at_ease f') = (Ok c, m'', f'') ∧ makeLazyTLSConfig m'' = Ok c.
Proof.
  intros He Hne Hk Hgen Hgen' Ht E. destruct (generate_none m io' now' der' (at_ease f') eq_refl Hne Hgen') as (c & f2 & E2 & _).
  assert (EnsureCA m io t1 t2 now f = (r, m', f') → ∃ f1, fs_nodes f1 = fs_nodes f ∧ generateAndSaveCA m io now f1 = (r, m', f')) as HE.
  { unfold EnsureCA, loadCA. rewrite He. destruct (fs_stat f (m_keyPath m)) as [[n|e] f1] eqn:Es; apply fs_stat_nodes in Es as [Hn Hs].
    - specialize (Hs n eq_refl). congruence.
    - intros <-. by exists f1. }
  apply HE in E as (f1 & Hf1 & E). clear HE.
  assert (fs_nodes f' !! m_keyPath m = None ∨ ∀ nc, fs_nodes f' !! m_certPath m = Some nc →
    nd_data nc = EncodeToMemory "CERTIFICATE" der) as Hleft.
  { destruct Hgen as (key & serial & Hkey & Hser & Hc). unfold generateAndSaveCA in E. rewrite <- Hf1 in Hk.
    destruct (fs_call f1) as [[e|] f3] eqn:Ecall; apply fs_call_files in Ecall.
    { injection E as <- <- <-. left. by rewrite Ecall. }
    rewrite Hkey, Hser in E. cbn [wrap_err mbind result_bind] in E. rewrite Hc in E. cbn [wrap_err mbind result_bind] in E.
    destruct (save_ca _ _ _ _ f3) as [[[]|e] f4] eqn:Es; apply save_ca_leaves in Es; try done; try (by rewrite Ecall).
    - destruct (LoadX509KeyPair f4 _ _) as [rl f5] eqn:El. apply LoadX509KeyPair_nodes in El as [N _].
      destruct rl; injection E as <- <- <-; by rewrite N.
    - by injection E as <- <- <-. }
  unfold EnsureCA. destruct (loadCA m (at_ease f')) as [rl g] eqn:El.
  assert (g = at_ease f') as ->.
  { unfold loadCA in El. rewrite He, fs_stat_none in El by done. destruct (fs_nodes (at_ease f') !! m_keyPath m); [|by injection El as <- <-].
    destruct (_ >? _); [by injection El as <- <-|]. rewrite LoadX509KeyPair_none in El by done. by injection El as <- <-. }
  apply loadCA_nodes in El as [_ El]. rewrite He. cbn [negb andb]. destruct rl as [c1|e]; [|rewrite E2; by exists c, (set_cert m (Some c)), f2].
  destruct (El c1 eq_refl) as (nc & nk & Hnc & Hnk & Hp). cbn [at_ease fs_nodes] in Hnc, Hnk.
  destruct Hleft as [Hleft|Hleft]; [congruence|]. rewrite (Hleft _ Hnc) in Hp. apply pair_chain in Hp.
  destruct Hgen as (key & serial & _ & _ & Hc). destruct (created_validate _ _ _ _ _ _ t1' Hc Hp) as (Hv & _); [lia|].
  rewrite Hv by lia. destruct (needsRotation t2' c1); [rewrite E2; by exists c, (set_cert m (Some c)), f2|].
  by exists c1, (set_cert m (Some c1)), (at_ease f').
Qed.

(** ** The key's permissions *)

(** The permissions of the key are compared as numbers: a key the group may
    read or write is refused, but one that everybody may read is accepted when its
    owner may not write it, and so is one that everybody may write and execute. *)
Theorem key_mode_numeric m f nk :
  m_external m = false → fs_faults f = [] → fs_nodes f !! m_keyPath m = Some nk →
  (nd_mode nk = 0x1A0 ∨ nd_mode nk = 0x190 → ∃ e, loadCA m f = (Err e, f)) ∧
  (nd_mode nk = 0x124 ∨ nd_mode nk = 0x17F → Z.land (nd_mode nk) 0x4 ≠ 0 ∧
     loadCA m f = LoadX509KeyPair f (m_certPath m) (m_keyPath m)).
Proof.
  intros He Hf Hk. unfold loadCA. rewrite He, fs_stat_none, Hk by done.
  split; intros [-> | ->]; cbn; by eexists || done.
Qed.
End laws.

(** ** Logged paths *)

(** A path that is logged holds no control character: it cannot end a line of
    the log or reach the terminal. *)
Theorem sanitizePath_safe path : Forall (λ c, 32 ≤ code c ∧ code c ≠ 127) (s2b (sanitizePath path)).
Proof.
  unfold sanitizePath, string_of_runes. rewrite s2b_b2s. apply Forall_forall. intros c Hc.
  apply list_elem_of_bind in Hc as (r & Hc & Hr). apply list_elem_of_fmap in Hr as (r0 & -> & _).
  assert (∀ r, 32 ≤ r → r ≠ 127 → Forall (λ c, 32 ≤ code c ∧ code c ≠ 127) (encode_rune r)) as Henc.
  { clear. intros r H1 H2. unfold encode_rune, in_rng. destruct (_ || _ || _) eqn:E; cbn [fmap list_fmap].
    { repeat (constructor; [cbv beta; rewrite code_byte_of; Z.div_mod_to_equations; lia|]). constructor. }
    rewrite !orb_false_iff in E.
    repeat case_match; repeat (constructor; [cbv beta; rewrite code_byte_of; Z.div_mod_to_equations; lia|]); constructor. }
  destruct ((r0 <? 32) || (r0 =? 127)) eqn:E.
  - specialize (Henc 63 ltac:(lia) ltac:(lia)). rewrite Forall_forall in Henc. by apply Henc.
  - apply orb_false_iff in E as [E1 E2]. specialize (Henc r0 ltac:(lia) ltac:(lia)). rewrite Forall_forall in Henc. by apply Henc.
Qed.
