(* ===== verification/CliLaws.v ===== *)
(** The command line: what an installation of the tools' links changes, and what its
    test of the directory does. *)

From S2P Require Import Prelude GoStrings GoPath Paths Protocol Regexp ConfigTypes Config Runtime Daemon Cli.
Local Open Scope Z_scope.

Section laws.
Context `{RE : Regexp} `{OSi : OS} `{IN : Install}.

Lemma if_refused_entries f b f' : if_refused f = (b, f') → if_entries f' = if_entries f.
Proof. unfold if_refused. destruct (if_faults f); by intros [= <- <-]. Qed.

Lemma if_refused_none f : if_faults f = [] → if_refused f = (false, f).
Proof. intros Hf. unfold if_refused. by rewrite Hf. Qed.

Lemma os_Lstat_entries f p r f' : os_Lstat f p = (r, f') → if_entries f' = if_entries f ∧
  (∀ e, r = Ok e → if_entries f !! p = Some e) ∧ (r = Err if_not_exist → if_entries f !! p = None).
Proof.
  unfold os_Lstat. destruct (if_refused f) as [[] f1] eqn:E; apply if_refused_entries in E; intros [= <- <-]; [done|].
  rewrite E. destruct (if_entries f !! p); split_and!; try done. by intros ? [= ->].
Qed.

Lemma symlinkPointsTo_entries p t f r f' : symlinkPointsTo p t f = (r, f') → if_entries f' = if_entries f.
Proof.
  unfold symlinkPointsTo, os_Readlink. destruct (if_refused f) as [[] f1] eqn:E; apply if_refused_entries in E;
    [by intros [= <- <-]|]. repeat case_match; simplify_eq; by intros [= <- <-].
Qed.

(** ** What an installation changes *)

(** From one tree to the next: what is kept and what is new. *)
Definition installs (claw : string) (force : bool) (links : string → Prop) (m m' : gmap string entry) : Prop :=
  (∀ p e, m !! p = Some e → m' !! p = Some e ∨ force = true ∧ e ≠ EDir ∧ links p) ∧
  (∀ p e, m' !! p = Some e → m !! p = Some e ∨ e = ELink claw ∧ links p).

Lemma installs_refl claw force links m : installs claw force links m m.
Proof. split; by left. Qed.

Lemma installs_weaken claw force (links links' : string → Prop) m m' :
  (∀ p, links p → links' p) → installs claw force links m m' → installs claw force links' m m'.
Proof. intros Hl [H1 H2]. split; intros p e Hp; [destruct (H1 p e Hp)|destruct (H2 p e Hp)]; naive_solver. Qed.

Lemma installs_trans claw force links m1 m2 m3 :
  installs claw force links m1 m2 → installs claw force links m2 m3 → installs claw force links m1 m3.
Proof.
  intros [A1 A2] [B1 B2]. split; intros p e Hp.
  - destruct (A1 p e Hp) as [Hp2|]; [|by right]. by apply B1.
  - destruct (B2 p e Hp) as [Hp2|]; [|by right]. by apply A2.
Qed.

Lemma link_installs claw force p f e f' :
  os_Symlink f claw p = (e, f') → installs claw force (.= p) (if_entries f) (if_entries f').
Proof.
  unfold os_Symlink. destruct (if_refused f) as [[] f1] eqn:E; apply if_refused_entries in E.
  { intros [= <- <-]. rewrite E. apply installs_refl. }
  rewrite E. destruct (if_entries f !! p) eqn:Ep; intros [= <- <-]; cbn; [rewrite E; apply installs_refl|].
  split; intros q x Hq.
  - left. rewrite lookup_insert_ne; [done|]. intros ->. congruence.
  - apply lookup_insert_Some in Hq as [[<- <-]|[_ Hq]]; [by right|by left].
Qed.

Lemma remove_installs claw p f info e f' :
  removeInstallTarget p info f = (e, f') → if_entries f !! p = Some info →
  installs claw true (.= p) (if_entries f) (if_entries f').
Proof.
  intros E Hp. assert (info = EDir ∨ info ≠ EDir ∧ os_Remove f p = (e, f')) as [->|[Hd Er]].
  { destruct info; cbn in E; [by right|by left|by right]. }
  { cbn in E. injection E as <- <-. apply installs_refl. }
  unfold os_Remove in Er. destruct (if_refused f) as [[] f1] eqn:Ef; apply if_refused_entries in Ef.
  { injection Er as <- <-. rewrite Ef. apply installs_refl. }
  rewrite Ef, Hp in Er. injection Er as <- <-. cbn. rewrite ?Ef. split; intros q x Hq.
  - destruct (decide (q = p)) as [->|Hn]; [|left; by rewrite lookup_delete_ne].
    right. split; [done|]. split; [congruence|done].
  - apply lookup_delete_Some in Hq as [_ Hq]. by left.
Qed.

Definition link_of (installDir toolName : string) : string := PathJoin [installDir; toolName].

Lemma install_tool_installs claw dir force name f s f' :
  install_tool claw dir force name f = (s, f') →
  installs claw force (λ p, safeToolNameRegex name = true ∧ p = link_of dir name) (if_entries f) (if_entries f').
Proof.
  unfold install_tool. destruct (safeToolNameRegex name) eqn:En; cbn [negb]; [|intros [= <- <-]; apply installs_refl].
  fold (link_of dir name). set (p := link_of dir name). cbv zeta. intros E.
  apply (installs_weaken _ _ (.= p)); [by intros|]. revert E.
  assert (∀ ok g s g', (match os_Symlink g claw p with (Some _, f) => (Refused, f) | (None, f) => (ok, f) end) = (s, g') →
    installs claw force (.= p) (if_entries g) (if_entries g')) as Hlink.
  { intros ok g s0 g'. destruct (os_Symlink g claw p) as [[e|] g1] eqn:E1; intros [= <- <-]; by eapply link_installs. }
  assert (∀ info g s g', if_entries g !! p = Some info →
    (if negb force then (Conflict, g) else match removeInstallTarget p info g with
      | (Some _, f) => (Refused, f)
      | (None, f) => match os_Symlink f claw p with (Some _, f) => (Refused, f) | (None, f) => (Replaced, f) end
      end) = (s, g') → installs claw force (.= p) (if_entries g) (if_entries g')) as Hrep.
  { intros info g s0 g' Hi. destruct force; cbn [negb]; [|intros [= <- <-]; apply installs_refl].
    destruct (removeInstallTarget p info g) as [[e|] g1] eqn:E1; apply (remove_installs claw) in E1; try done.
    - by intros [= <- <-].
    - intros E2. eapply installs_trans; [exact E1|]. by eapply Hlink. }
  destruct (os_Lstat f p) as [[info|e] f1] eqn:E1; apply os_Lstat_entries in E1 as (En1 & Hok & Hno).
  - specialize (Hok info eq_refl). rewrite <- En1 in Hok |- *.
    destruct info as [data| |t]; [by eapply Hrep|by eapply Hrep|].
    destruct (symlinkPointsTo p claw f1) as [[[]|e] f2] eqn:E2; apply symlinkPointsTo_entries in E2; rewrite <- E2 in *;
      [intros [= <- <-]; apply installs_refl|by eapply Hrep|intros [= <- <-]; apply installs_refl].
  - rewrite <- En1. destruct (bool_decide _); [by eapply Hlink|intros [= <- <-]; apply installs_refl].
Qed.

Lemma install_all_installs claw dir force names f l f' :
  install_all claw dir force names f = (l, f') →
  installs claw force (λ p, ∃ name, name ∈ names ∧ safeToolNameRegex name = true ∧ p = link_of dir name)
    (if_entries f) (if_entries f') ∧ l.*1 = names.
Proof.
  revert f l. induction names as [|name names IH]; intros f l; cbn [install_all].
  { intros [= <- <-]. split; [apply installs_refl|done]. }
  destruct (install_tool claw dir force name f) as [s f1] eqn:E1. apply install_tool_installs in E1.
  destruct (install_all claw dir force names f1) as [l1 f2] eqn:E2. intros [= <- <-].
  destruct (IH _ _ E2) as [H2 Hl]. split; [|cbn; by rewrite Hl]. eapply installs_trans.
  - eapply installs_weaken; [|exact E1]. intros p [Hn ->]. exists name. by split; [left|].
  - eapply installs_weaken; [|exact H2]. intros p (x & Hx & Hp). exists x. by split; [right|].
Qed.

(** The file by which the directory is tested, and the one it leads to. *)
Definition test_file (dir : string) : string := PathJoin [dir; ".claw-wrap-test"].
Definition probed (m : gmap string entry) (dir p : string) : Prop :=
  p = test_file dir ∨ p = created_path m (test_file dir).

Lemma os_Stat_entries f p r f' : os_Stat f p = (r, f') → if_entries f' = if_entries f.
Proof.
  unfold os_Stat. destruct (if_refused f) as [[] f1] eqn:E; apply if_refused_entries in E; by intros [= <- <-].
Qed.

Lemma os_Create_entries f p e f' :
  os_Create f p = (e, f') → if_entries f' = if_entries f ∨
  if_entries f' = <[created_path (if_entries f) p := EFile []]> (if_entries f).
Proof.
  unfold os_Create. destruct (if_refused f) as [[] f1] eqn:E; apply if_refused_entries in E; rewrite <- E; [intros [= <- <-]; by left|].
  destruct (if_entries f1 !! _) as [[| |]|]; intros [= <- <-]; auto.
Qed.

Lemma os_Remove_entries f p :
  if_entries (os_Remove f p).2 = if_entries f ∨ if_entries (os_Remove f p).2 = delete p (if_entries f).
Proof.
  unfold os_Remove. destruct (if_refused f) as [[] f1] eqn:E; apply if_refused_entries in E; rewrite <- E; [by left|].
  destruct (if_entries f1 !! p); auto.
Qed.

(** The test of the directory touches these two paths only: what it leaves new is
    an empty file. *)
Lemma canWriteDir_probes dir f r f' :
  canWriteDir dir f = (r, f') →
  (∀ p, ¬ probed (if_entries f) dir p → if_entries f' !! p = if_entries f !! p) ∧
  ∀ p e, if_entries f' !! p = Some e → if_entries f !! p = Some e ∨ e = EFile [] ∧ p = created_path (if_entries f) (test_file dir).
Proof.
  unfold canWriteDir. destruct (os_Stat f dir) as [s f1] eqn:E1. apply os_Stat_entries in E1. rewrite <- E1.
  fold (test_file dir). set (t := test_file dir).
  assert (∀ g, if_entries g = if_entries f1 ∨ if_entries g = delete t (if_entries f1) ∨
      if_entries g = <[created_path (if_entries f1) t := EFile []]> (if_entries f1) ∨
      if_entries g = delete t (<[created_path (if_entries f1) t := EFile []]> (if_entries f1)) →
    (∀ p, ¬ probed (if_entries f1) dir p → if_entries g !! p = if_entries f1 !! p) ∧
    ∀ p e, if_entries g !! p = Some e → if_entries f1 !! p = Some e ∨ e = EFile [] ∧ p = created_path (if_entries f1) t) as HG.
  { unfold probed. fold t. intros g Hg. split.
    - intros p Hp. assert (p ≠ t ∧ p ≠ created_path (if_entries f1) t) as [H1 H2] by naive_solver.
      destruct Hg as [->|[->|[->| ->]]]; by rewrite ?lookup_delete_ne, ?lookup_insert_ne.
    - intros p e He. destruct Hg as [Hg|[Hg|[Hg|Hg]]]; rewrite Hg in He; [by left|..];
        rewrite ?lookup_delete_Some, ?lookup_insert_Some in He; naive_solver. }
  destruct s as [[| |]|]; try (intros [= <- <-]; apply HG; by left).
  destruct (os_Create f1 t) as [[e|] f2] eqn:E2; apply os_Create_entries in E2; intros [= <- <-]; apply HG.
  - destruct E2 as [->| ->]; auto.
  - destruct (os_Remove_entries f2 t) as [->| ->]; destruct E2 as [->| ->]; auto.
Qed.

(** C26: An installation, whatever it is refused, changes nothing but the link paths
    of the configuration's well-named tools, and the file by which it tests the
    directory, [.claw-wrap-test], with what that file leads to when it is a link.
    Everything else stays; what is new is links to the program itself, or an empty
    test file; without [--force] everything that was there but the test file stays
    as it was, and with it every directory does. One that stops before the tools
    changes the test file at most, and one that does not reports on every tool. *)
Theorem install_conservative load names argv f r f' :
  runInstall load names argv f = (r, f') →
  let '(installDir, configPath, force) := install_flags (drop 2 argv) ("", "", false) in
  let dir := if bool_decide (installDir = "") then "/usr/local/bin" else installDir in
  let loaded := load (if bool_decide (configPath = "") then ConfigPath else configPath) in
  let tested := probed (if_entries f) dir in
  let links p := ∃ cfg name, loaded = Ok cfg ∧ name ∈ names (cfg_Tools cfg) ∧ safeToolNameRegex name = true ∧
    p = link_of dir name in
  (∀ p e, if_entries f !! p = Some e → if_entries f' !! p = Some e ∨ tested p ∨ force = true ∧ e ≠ EDir ∧ links p) ∧
  (∀ p e, if_entries f' !! p = Some e → if_entries f !! p = Some e ∨ e = EFile [] ∧ tested p ∨
     ∃ claw, selfExePath = Ok claw ∧ e = ELink claw ∧ links p) ∧
  match r with
  | Done l verdict => ∃ cfg, loaded = Ok cfg ∧ l.*1 = names (cfg_Tools cfg) ∧ verdict = install_verdict force l
  | _ => ∀ p, ¬ tested p → if_entries f' !! p = if_entries f !! p
  end.
Proof.
  unfold runInstall. destruct (install_flags _ _) as [[installDir configPath] force].
  set (dir := if bool_decide (installDir = "") then _ else _). set (loaded := load _). cbv zeta.
  set (links := λ p, ∃ cfg name, loaded = Ok cfg ∧ name ∈ names (cfg_Tools cfg) ∧ safeToolNameRegex name = true ∧
    p = link_of dir name).
  (* what a stop leaves *)
  assert (∀ f1, (∀ p, ¬ probed (if_entries f) dir p → if_entries f1 !! p = if_entries f !! p) ∧
      (∀ p e, if_entries f1 !! p = Some e → if_entries f !! p = Some e ∨
         e = EFile [] ∧ p = created_path (if_entries f) (test_file dir)) →
    (∀ p e, if_entries f !! p = Some e → if_entries f1 !! p = Some e ∨ probed (if_entries f) dir p ∨
       force = true ∧ e ≠ EDir ∧ links p) ∧
    (∀ p e, if_entries f1 !! p = Some e → if_entries f !! p = Some e ∨ e = EFile [] ∧ probed (if_entries f) dir p ∨
       ∃ claw, selfExePath = Ok claw ∧ e = ELink claw ∧ links p) ∧
    ∀ p, ¬ probed (if_entries f) dir p → if_entries f1 !! p = if_entries f !! p) as Hstop.
  { intros f1 [H1 H2]. split_and!; [|intros p e He; destruct (H2 p e He) as [|[-> ->]]; [by left|right; left; split; [done|by right]]|done].
    intros p e He. destruct (decide (p = test_file dir)); [by right; left; left|].
    destruct (decide (p = created_path (if_entries f) (test_file dir))); [by right; left; right|].
    left. rewrite H1; [done|]. by intros [|]. }
  destruct loaded as [cfg|e] eqn:El; [|intros [= <- <-]; apply Hstop; split; [done|by left]].
  destruct (bool_decide (cfg_Tools cfg = ∅)); [intros [= <- <-]; apply Hstop; split; [done|by left]|].
  destruct selfExePath as [claw|e] eqn:Ec; [|intros [= <- <-]; apply Hstop; split; [done|by left]].
  destruct (canWriteDir dir f) as [[can exists_] f1] eqn:E1. apply canWriteDir_probes in E1.
  destruct exists_; [|destruct can; intros [= <- <-]; by apply Hstop].
  destruct can.
  2: { destruct isRoot; [intros [= <- <-]; by apply Hstop|]. destruct (reexecWithSudo argv); intros [= <- <-]; by apply Hstop. }
  destruct (install_all claw dir force _ f1) as [l f2] eqn:E2. apply install_all_installs in E2 as [[I1 I2] Hl].
  intros [= <- <-]. apply Hstop in E1 as (H1 & H2 & _). split_and!.
  - intros p e He. destruct (H1 p e He) as [He1|[|]]; [|by right; left|by right; right].
    destruct (I1 p e He1) as [|(? & ? & name & ?)]; [by left|]. right. right. split_and!; try done. by exists cfg, name.
  - intros p e He. destruct (I2 p e He) as [He1|[-> (name & ?)]]; [by apply H2|]. right. right. exists claw. split_and!; try done.
    by exists cfg, name.
  - by exists cfg.
Qed.

(** ** One tool *)

Lemma symlinkPointsTo_none p t target f :
  if_faults f = [] → if_entries f !! p = Some (ELink t) →
  symlinkPointsTo p target f
  = (Ok (bool_decide (normalizeInstallPath f (link_target p t) = normalizeInstallPath f target)), f).
Proof. intros Hf Hp. unfold symlinkPointsTo, os_Readlink. rewrite if_refused_none by done. by rewrite Hp. Qed.

(** What becomes of one tool's link when no call is refused, case by case: it is
    made where there is nothing, kept where it already leads to the program, and
    what else is there is left alone, or replaced with [--force] unless it is a
    directory; and a link that was made is found unchanged by the next
    installation. *)
Theorem install_tool_outcome claw dir force name f :
  if_faults f = [] → safeToolNameRegex name = true → IsAbs claw = true →
  let p := link_of dir name in
  let made := {| if_entries := <[p := ELink claw]> (if_entries f); if_faults := [] |} in
  install_tool claw dir force name f =
    match if_entries f !! p with
    | None => (Created, made)
    | Some EDir => (if force then Refused else Conflict, f)
    | Some (EFile _) => if force then (Replaced, made) else (Conflict, f)
    | Some (ELink t) =>
      if decide (normalizeInstallPath f (link_target p t) = normalizeInstallPath f claw) then (Unchanged, f)
      else if force then (Replaced, made) else (Conflict, f)
    end ∧
  ∀ force', install_tool claw dir force' name made = (Unchanged, made).
Proof.
  intros Hf Hn Ha p made. split.
  - unfold install_tool. rewrite Hn. cbn [negb]. fold (link_of dir name). fold p. cbv zeta.
    unfold os_Lstat. rewrite if_refused_none by done.
    assert (∀ info, info ≠ EDir → if_entries f !! p = Some info → (match removeInstallTarget p info f with
      | (Some _, f) => (Refused, f)
      | (None, f) => match os_Symlink f claw p with (Some _, f) => (Refused, f) | (None, f) => (Replaced, f) end
      end) = (Replaced, made)) as Hrep.
    { intros info Hd Hi. assert (removeInstallTarget p info f = (None, if_set f (delete p (if_entries f)))) as ->.
      { destruct info; try done; cbn; unfold os_Remove; rewrite if_refused_none by done; by rewrite Hi. }
      unfold os_Symlink. rewrite if_refused_none by done. cbn [if_set if_entries if_faults].
      rewrite lookup_delete_eq, insert_delete_eq. unfold if_set. cbn. by rewrite Hf. }
    destruct (if_entries f !! p) as [[data| |t]|] eqn:Ep.
    + destruct force; [|done]. by apply Hrep.
    + by destruct force.
    + rewrite (symlinkPointsTo_none p t claw f Hf Ep). case_decide as Hd.
      * by rewrite bool_decide_eq_true_2.
      * rewrite bool_decide_eq_false_2 by done. destruct force; [|done]. by apply Hrep.
    + rewrite bool_decide_eq_true_2 by done. unfold os_Symlink. rewrite if_refused_none by done.
      rewrite Ep. unfold if_set. by rewrite Hf.
  - intros force'. unfold install_tool. rewrite Hn. cbn [negb]. fold (link_of dir name). fold p. cbv zeta.
    unfold os_Lstat. rewrite if_refused_none by done. cbn [made if_entries].
    rewrite lookup_insert_eq. rewrite (symlinkPointsTo_none p claw claw) by (done || by cbn; rewrite lookup_insert_eq).
    unfold link_target. rewrite Ha. by rewrite bool_decide_eq_true_2.
Qed.

(** ** The test of the directory *)

(** Testing whether the directory can be written leaves it as it was when it
    holds no file of the test's name; but when that name is a link, as anyone who
    may write there can make it, the file it leads to is emptied, with the rights of
    the user who installs, and the link is gone. *)
Theorem canWriteDir_probe dir f :
  if_faults f = [] → evalSymlinks (if_entries f) dir = Ok dir → if_entries f !! dir = Some EDir →
  let testFile := PathJoin [dir; ".claw-wrap-test"] in
  (if_entries f !! testFile = None → is_ok (evalSymlinks (if_entries f) testFile) = false →
     canWriteDir dir f = (true, true, f)) ∧
  (∀ q t data, if_entries f !! testFile = Some (ELink t) → evalSymlinks (if_entries f) testFile = Ok q →
     if_entries f !! q = Some (EFile data) → q ≠ testFile →
     canWriteDir dir f = (true, true, {| if_entries := delete testFile (<[q := EFile []]> (if_entries f)); if_faults := [] |})).
Proof.
  intros Hf He Hd testFile. unfold canWriteDir, os_Stat. rewrite if_refused_none by done. rewrite He, Hd.
  fold testFile. unfold os_Create, created_path. rewrite if_refused_none by done. split.
  - intros Hn Hev. destruct (evalSymlinks (if_entries f) testFile) as [q|e]; [done|]. rewrite Hn. cbn iota beta zeta.
    rewrite Hn. unfold os_Remove. rewrite if_refused_none by done. cbn [if_set if_entries if_faults].
    rewrite lookup_insert_eq. unfold if_set. cbn. rewrite delete_insert_id by done. by destruct f.
  - intros q t data Ht Hev Hq Hne. rewrite Hev, Hq. unfold os_Remove. rewrite if_refused_none by done.
    cbn [if_set if_entries if_faults]. rewrite lookup_insert_ne, Ht by done. unfold if_set. cbn. by rewrite Hf.
Qed.
End laws.
