(* ===== verification/CliMain.v ===== *)
(** The command line, the rest of [cmd/claw-wrap]: the program under a tool's name
    and its exit code ([main.go]), [keychain-setup] ([keychain_darwin.go] and
    [keychain_stub.go]), and the systems without sudo ([sudo_other.go]). *)

From S2P Require Import Prelude GoStrings Json GoTime GoPath Paths Protocol Framing Auth ConfigTypes Regexp Config.
From S2P Require Import Env SecretFile CredCache Sources Fetch Wrapper Runtime Daemon Cli.
Local Open Scope Z_scope.

(** ** A tool *)

Section tool.
Context {W : Type} `{Writer W} `{Terminal} `{OS} `{MapRange} `{Codec ProxyRequest} `{Codec ResponseMessage} `{Codec WrapperMessage}.

(** [runAsTool]; the arguments after the name are the process's state and what the
    connection, the terminal and the scheduler do. *)
Definition runAsTool (hmac : bytes → bytes → bytes) (f : fs) (cwd : result string) (now : time) (random : result bytes)
    (dial : result (W * reader)) (makeRaw : result unit) (chs : list choice) (argv : list string) (toolName : string)
    : option (option (client W) * option outcome) :=
  RunTool hmac (wrapper_New []) f cwd now random toolName (tl argv) dial makeRaw chs.
End tool.

(** The exit code of the process: an error of a command is 1, the client exits
    with the code of the tool. *)
Definition exit_code {A} (r : result A) : Z := match r with Ok _ => 0 | Err _ => 1 end.
Definition tool_exit_code (o : outcome) : Z := match o with Exited code => code | Failed _ => 1 end.

Definition main_exit_code (run : action → result unit) (tool : string → list string → outcome) (a : action) : Z :=
  match a with
  | RunAsTool toolName args => tool_exit_code (tool toolName args)
  | PrintVersion => 0
  | PrintHelp code => code
  | UnknownCommand _ => 1
  | a => exit_code (run a)
  end.

(** ** [keychain-setup] *)

Inductive keychain_setup := SetupHelp | SetupDone (serviceName : string).

Section keychain.
Context `{UnicodeCase} `{OSi : OS} `{Files} `{Libraries} `{MapRange} `{IN : Install}.

Definition runKeychainSetup (argv : list string) : M keychain_setup :=
  match argv !! 2%nat with
  | None => fail (Errorf "usage: claw-wrap keychain-setup <service-name>" [])
  | Some serviceName =>
    if bool_decide (serviceName ∈ ["-h"; "--help"]) then mret SetupHelp
    else
      binaryPath ← lift (wrap_err "detect binary path: %w" [] selfExePath);
      _ ← KeychainSetup serviceName binaryPath;
      mret (SetupDone serviceName)
  end.
End keychain.

(** Without a keychain the function panics: it has no result. *)
Definition runKeychainSetup_stub : option keychain_setup := None.

(** ** Systems without sudo *)

Definition reexecWithSudo_other : result (list string) :=
  Err (Errorf "automatic sudo elevation not supported on this platform; please run as administrator" []).
Definition isRoot_other : bool := false.

(** ** Properties *)

(** Where there is no keychain the panicking function is never reached. *)
Theorem keychain_stub_unreached argv : main false argv ≠ RunKeychainSetup.
Proof. unfold main. destruct (negb _); [done|]. destruct (argv !! 1%nat); [|done]. by repeat case_bool_decide. Qed.

Section keychain_laws.
Context `{UnicodeCase} `{OSi : OS} `{Files} `{Libraries} `{MapRange} `{IN : Install}.

Definition keychain_delete (serviceName : string) : command :=
  {| cmd_path := "security"; cmd_env := None;
     cmd_args := ["delete-generic-password"; "-s"; serviceName; "-a"; keychainAccountName] |}.
Definition keychain_add (serviceName binaryPath : string) : command :=
  {| cmd_path := "security"; cmd_env := None;
     cmd_args := ["add-generic-password"; "-s"; serviceName; "-a"; keychainAccountName; "-U"]
       ++ (if negb (bool_decide (binaryPath = "")) then ["-T"; binaryPath] else []) ++ ["-w"] |}.

Lemma run_command_logs c s : ∃ rep s', run_command c s = (Ok rep, s') ∧ s_log s' = s_log s ++ [c].
Proof. unfold run_command. destruct (s_replies s); by do 2 eexists. Qed.

Lemma KeychainSetup_logs serviceName binaryPath s :
  os_darwin = true →
  s_log (KeychainSetup serviceName binaryPath s).2 =
  s_log s ++ [keychain_delete serviceName; keychain_add serviceName binaryPath].
Proof.
  intros Hd. unfold KeychainSetup. rewrite Hd. cbn [negb]. unfold mbind, M_bind.
  destruct (run_command_logs (keychain_delete serviceName) s) as (r1 & s1 & E1 & L1).
  unfold keychain_delete in E1. rewrite E1.
  destruct (run_command_logs (keychain_add serviceName binaryPath) s1) as (r2 & s2 & E2 & L2).
  unfold keychain_add in E2. cbv zeta. rewrite E2.
  assert (s_log s2 = s_log s ++ [keychain_delete serviceName; keychain_add serviceName binaryPath]) as L.
  { by rewrite L2, L1, <- app_assoc. }
  destruct r2; [exact L|..]; by repeat case_match.
Qed.

(** [keychain-setup] runs nothing but the two commands of the keychain, in this
    order, for the service of the command line and the program's own path; the
    last argument asks for the secret at the prompt, no argument holds it. *)
Theorem keychain_setup_commands argv s r s' :
  runKeychainSetup argv s = (r, s') →
  s_log s' = s_log s ∨
  ∃ serviceName binaryPath, argv !! 2%nat = Some serviceName ∧ selfExePath = Ok binaryPath ∧
    s_log s' = s_log s ++ [keychain_delete serviceName; keychain_add serviceName binaryPath].
Proof.
  unfold runKeychainSetup. destruct (argv !! 2%nat) as [name|]; [|intros [= <- <-]; by left].
  case_bool_decide; [intros [= <- <-]; by left|]. unfold mbind, M_bind, lift, wrap_err.
  destruct selfExePath as [path|e] eqn:E; [|intros [= <- <-]; by left].
  destruct os_darwin eqn:Ed; [|unfold KeychainSetup; rewrite Ed; intros [= <- <-]; by left].
  intros Hr. right. exists name, path. split; [done|]. split; [done|].
  rewrite <- (KeychainSetup_logs name path s Ed). destruct (KeychainSetup name path s) as [[] s1]; by injection Hr as <- <-.
Qed.
End keychain_laws.
