(* ===== verification/ReloadLaws.v ===== *)
(** Package [internal/daemon], [reloadConfig]: what the daemon serves after a
    reload that succeeds, and after one that fails half-way. *)

From S2P Require Import Prelude GoStrings Json GoTime GoPath Paths Protocol Auth Replay Regexp ConfigTypes ArgsPolicy.
From S2P Require Import Interpolate World Config Settings Env Runtime AuditLog Executor Sources GoNet HttpProxy SecretFile Daemon.
Local Open Scope Z_scope.

Section reload.
Context `{RE : Regexp} `{UC : UnicodeCase} `{DP : DurationParser} `{OSi : OS} `{HO : Host} `{MR : MapRange} `{HA : Hash}
  `{PE : Peers} `{CP : Codec ProxyRequest} `{CA : Codec AdminRequest}.

(** ** Specification *)

(** The proxy is the one the configuration asks for: same rules and credentials,
    same address, on the loopback interface, with a token where the configuration
    requires authentication. *)
Record proxy_of (cfg : Config) (h : HTTPProxyConfig) (p : Proxy) : Prop := {
  po_cfg : p_cfg p = Some h;
  po_creds : p_creds p = cfg_Credentials cfg;
  po_auth : p_requireAuth p = GetRequireAuth h;
  po_token : GetRequireAuth h = true → p_authToken p ≠ "";
  po_listen : p_listening p = Some (if bool_decide (hp_Listen h = "") then DefaultListenAddr else hp_Listen h);
  po_loopback : ∃ host port, SplitHostPort (if bool_decide (hp_Listen h = "") then DefaultListenAddr else hp_Listen h)
                  = Ok (host, port) ∧ host ∈ ["127.0.0.1"; "localhost"; "::1"];
}.

(** There is a proxy exactly when the configuration enables one, and it is the one
    it asks for. *)
Definition proxy_follows (cfg : Config) (proxy : option Proxy) : Prop :=
  match proxy with
  | None => GetHTTPProxyEnabled cfg = false
  | Some p => ∃ h, cfg_HTTPProxy cfg = Some h ∧ hp_Enabled h = true ∧ proxy_of cfg h p
  end.

(** The daemon's proxy follows its configuration. *)
Definition in_sync (d : Daemon) : Prop := ∃ cfg, d_cfg d = Some cfg ∧ proxy_follows cfg (d_httpProxy d).

(** The daemon's audit log writes to the sinks of its configuration and none of its
    files is closed. *)
Definition audit_in_sync (n : node) : Prop :=
  (∃ cfg l, d_cfg (n_daemon n) = Some cfg ∧ d_auditLogger (n_daemon n) = Some l ∧ logs_to l (cfg_Audit cfg) ∧
    Forall (λ h, (h_id h < as_next (n_audit n))%nat ∧ h_id h ∉ as_closed (n_audit n)) (handles l)) ∧
  ∀ i, i ∈ as_closed (n_audit n) → (i < as_next (n_audit n))%nat.

(** What a reload may not touch before it has succeeded. *)
Definition same_service (d d' : Daemon) : Prop :=
  d_cfg d' = d_cfg d ∧ d_replayCache d' = d_replayCache d ∧ d_secret d' = d_secret d.

(** A reload has installed a configuration. *)
Record installed (newCfg : Config) (n n' : node) : Prop := {
  in_cfg : d_cfg (n_daemon n') = Some newCfg;
  in_proxy : in_sync (n_daemon n) → in_sync (n_daemon n');
  in_audit : audit_in_sync n → audit_in_sync n';
  in_written : as_written (n_audit n') = as_written (n_audit n);
  in_secret : d_secret (n_daemon n') = d_secret (n_daemon n);
  in_replay : ∀ c, d_replayCache (n_daemon n) = Some c → replay_inv c →
    ∃ c', d_replayCache (n_daemon n') = Some c' ∧ replay_inv c' ∧
      rc_ttl c' = clamp_ttl (GetReplayCacheTTL newCfg) ∧
      rc_maxEntries c' = clamp_max (GetReplayCacheMaxEntries newCfg) ∧ rc_entries c' ⊆ rc_entries c;
}.

(** A reload has failed on the proxy: the audit log is as it was, and the proxy as it
    was, gone or stopped. *)
Definition failed_on_proxy (n n' : node) : Prop :=
  n_audit n' = n_audit n ∧
  (d_httpProxy (n_daemon n') = d_httpProxy (n_daemon n) ∨ d_httpProxy (n_daemon n') = None ∨
   ∃ p, d_httpProxy (n_daemon n') = Some p ∧ p_stopped p = true ∧ p_listening p = None).

(** A reload has failed on the audit log: the proxy is already the new one, and the
    files of the log are closed. *)
Definition failed_on_audit (newCfg : Config) (n n' : node) : Prop :=
  auditConfigChanged (d_cfg (n_daemon n)) (Some newCfg) = true ∧
  (in_sync (n_daemon n) → proxy_follows newCfg (d_httpProxy (n_daemon n'))) ∧
  ∀ l h path, d_auditLogger (n_daemon n) = Some l → h ∈ handles l → h_sink h = SinkFile path →
    h_id h ∈ as_closed (n_audit n').

(** What a failed reload keeps. *)
Definition reload_failed (loaded : result Config) (n n' : node) : Prop :=
  same_service (n_daemon n) (n_daemon n') ∧ d_auditLogger (n_daemon n') = d_auditLogger (n_daemon n) ∧
  as_written (n_audit n') = as_written (n_audit n) ∧
  match loaded with
  | Err _ => n' = n
  | Ok newCfg => failed_on_proxy n n' ∨ failed_on_audit newCfg n n'
  end.

(** ** Lemmas *)

Lemma Start_Ok p addr mitm watch listen p' :
  Start p addr mitm watch listen = Ok p' →
  let addr := if bool_decide (addr = "") then DefaultListenAddr else addr in
  p' = {| p_cfg := p_cfg p; p_creds := p_creds p; p_credOpts := p_credOpts p; p_authToken := p_authToken p;
          p_requireAuth := p_requireAuth p; p_listening := Some addr; p_stopped := p_stopped p |} ∧
  (p_requireAuth p = true → p_authToken p ≠ "") ∧
  ∃ host port, SplitHostPort addr = Ok (host, port) ∧ host ∈ ["127.0.0.1"; "localhost"; "::1"].
Proof.
  intros Hs. cbv zeta. unfold Start in Hs. set (a := if bool_decide (addr = "") then _ else _) in *. clearbody a.
  destruct (p_requireAuth p && _) eqn:Ea; cbn in Hs; [done|].
  destruct (SplitHostPort a) as [[host port]|] eqn:Eh; cbn in Hs; [|done].
  destruct (bool_decide_reflect (host ∈ ["127.0.0.1"; "localhost"; "::1"])) as [Hl|]; cbn in Hs; [|done].
  destruct mitm, watch, listen; cbn in Hs; try done. injection Hs as <-. split; [done|]. split.
  - intros Hr. rewrite Hr in Ea. by apply bool_decide_eq_false in Ea.
  - by exists host, port.
Qed.

(** Starting the proxy touches the proxy and the token, and gives what the
    configuration asks for. *)
Lemma startHTTPProxy_spec cfg io n r n' :
  startHTTPProxy cfg io n = (r, n') →
  d_cfg (n_daemon n') = d_cfg (n_daemon n) ∧ d_replayCache (n_daemon n') = d_replayCache (n_daemon n) ∧
  d_auditLogger (n_daemon n') = d_auditLogger (n_daemon n) ∧ n_audit n' = n_audit n ∧
  d_secret (n_daemon n') = d_secret (n_daemon n) ∧
  ((r = Ok tt ∧ GetHTTPProxyEnabled cfg = true →
     ∃ h p, cfg_HTTPProxy cfg = Some h ∧ d_httpProxy (n_daemon n') = Some p ∧ p_stopped p = false ∧ proxy_of cfg h p) ∧
   (is_ok r = false ∨ GetHTTPProxyEnabled cfg = false → d_httpProxy (n_daemon n') = d_httpProxy (n_daemon n))).
Proof.
  unfold startHTTPProxy, GetHTTPProxyConfig, GetHTTPProxyEnabled. intros Hs.
  destruct (cfg_HTTPProxy cfg) as [h|] eqn:Eh; [|injection Hs as <- <-; by (split_and!; try done; intros [? ?])].
  destruct (hp_Enabled h) eqn:Een; cbn [negb] in Hs; [|injection Hs as <- <-; by (split_and!; try done; intros [? ?])].
  set (step := if GetRequireAuth h then _ else _) in Hs.
  assert (∃ r1 n1, step = (r1, n1) ∧ d_cfg (n_daemon n1) = d_cfg (n_daemon n) ∧
    d_replayCache (n_daemon n1) = d_replayCache (n_daemon n) ∧
    d_auditLogger (n_daemon n1) = d_auditLogger (n_daemon n) ∧ n_audit n1 = n_audit n ∧
    d_secret (n_daemon n1) = d_secret (n_daemon n) ∧
    d_httpProxy (n_daemon n1) = d_httpProxy (n_daemon n)) as (r1 & n1 & Es & H1 & H2 & H3 & H4 & H5 & H6).
  { subst step. destruct (GetRequireAuth h); [|(do 2 eexists; split; [reflexivity|done])].
    destruct (ensureProxyAuthToken _ _ _ _ _) as [[]]; (do 2 eexists; split; [reflexivity|done]). }
  rewrite Es in Hs. clear Es step.
  destruct r1 as [[]|]; [|injection Hs as <- <-; by (split_and!; try done; intros [? ?])].
  destruct (Start _ _ _ _ _) as [p|] eqn:Est; [|injection Hs as <- <-; by (split_and!; try done; intros [? ?])].
  injection Hs as <- <-. cbn [set_daemon set_httpProxy update n_daemon n_audit d_cfg d_replayCache d_auditLogger d_secret d_httpProxy].
  split_and!; try done; [|intros [?|?]; done].
  intros _. exists h, p. apply Start_Ok in Est. cbn in Est.
  destruct Est as (-> & Htok & Hhost). split_and!; try done.
  assert (∀ a : string, (if bool_decide ((if bool_decide (a = "") then DefaultListenAddr else a) = "") then DefaultListenAddr
    else if bool_decide (a = "") then DefaultListenAddr else a) = if bool_decide (a = "") then DefaultListenAddr else a) as Hidem.
  { intros a. destruct (bool_decide_reflect (a = "")); [done|]. by rewrite bool_decide_eq_false_2. }
  rewrite Hidem in Hhost. constructor; cbn; try done. by rewrite Hidem.
Qed.

Lemma reload_proxy_spec newCfg io n r n' :
  reload_proxy newCfg io n = (r, n') →
  same_service (n_daemon n) (n_daemon n') ∧ n_audit n' = n_audit n ∧
  d_auditLogger (n_daemon n') = d_auditLogger (n_daemon n) ∧
  (r = Ok tt → in_sync (n_daemon n) → proxy_follows newCfg (d_httpProxy (n_daemon n'))) ∧
  (is_ok r = false → failed_on_proxy n n').
Proof.
  assert (∀ n0 r n', startHTTPProxy newCfg io n0 = (r, n') → same_service (n_daemon n) (n_daemon n0) → n_audit n0 = n_audit n →
    d_auditLogger (n_daemon n0) = d_auditLogger (n_daemon n) → d_httpProxy (n_daemon n0) = None →
    GetHTTPProxyEnabled newCfg = true →
    same_service (n_daemon n) (n_daemon n') ∧ n_audit n' = n_audit n ∧
    d_auditLogger (n_daemon n') = d_auditLogger (n_daemon n) ∧
    (r = Ok tt → proxy_follows newCfg (d_httpProxy (n_daemon n'))) ∧ (is_ok r = false → failed_on_proxy n n')) as Hstart.
  { intros n0 r0 n1 (E1 & E2 & E3 & E4 & E5 & E6 & E7)%startHTTPProxy_spec (S1 & S2 & S3) Ha Hl Hp0 Hen.
    split; [split_and!; congruence|]. split; [congruence|]. split; [congruence|]. split.
    - intros ->. destruct E6 as (h & p & Hh & -> & _ & Hp); [done|]. exists h. split; [done|]. split; [|done].
      revert Hen. unfold GetHTTPProxyEnabled. by rewrite Hh.
    - intros Hf. split; [congruence|]. right. left. rewrite E7; [done|by left]. }
  assert (∀ e, is_ok (wrap_err e [] (Ok tt)) = false → False) as Hwrap by done.
  unfold reload_proxy. intros Hr. destruct (d_httpProxy (n_daemon n)) as [p|] eqn:Ep.
  - assert (∀ e p', Stop p (io_close io) = (Err e, p') → p_stopped p' = true ∧ p_listening p' = None) as Hstop.
    { unfold Stop. intros e p'. destruct (p_stopped p); [done|]. by intros [= _ <-]. }
    destruct (GetHTTPProxyEnabled newCfg) eqn:En; cbn [negb] in Hr.
    2: { destruct (Stop p _) as [[]] eqn:Es; injection Hr as <- <-; split_and!; try done.
         intros _. split; [done|]. right. right. eexists. split; [done|by eapply Hstop]. }
    destruct (d_cfg (n_daemon n) ≫= GetHTTPProxyConfig) as [oldh|] eqn:Eo;
      [|injection Hr as <- <-; split_and!; try done; by split; [|left]].
    destruct (GetHTTPProxyConfig newCfg) as [newh|] eqn:Enh;
      [|injection Hr as <- <-; split_and!; try done; by split; [|left]].
    destruct (needs_restart oldh newh) eqn:Enr.
    + destruct (Stop p _) as [[[]|]] eqn:Est;
        [|injection Hr as <- <-; split_and!; try done; intros _; split; [done|]; right; right; eexists; split; [done|by eapply Hstop]].
      destruct (startHTTPProxy _ _ _) as [r1 n1] eqn:Es. injection Hr as <- <-.
      destruct (Hstart _ _ _ Es ltac:(done) ltac:(done) ltac:(done) ltac:(done) eq_refl) as (H1 & H2 & H3 & H4 & H5).
      split_and!; try done; [intros Hok _; apply H4|intros Hf; apply H5]; by destruct r1 as [[]|].
    + injection Hr as <- <-. split_and!; try done. intros _ (cfg & Hc & Hs). rewrite Ep in Hs.
      destruct Hs as (h & Hh & Hen & [Pc Pk Pa Pt Pl Plo]). rewrite Hc in Eo. cbn in Eo. unfold GetHTTPProxyConfig in Eo.
      assert (oldh = h) as -> by congruence. cbn. exists newh. split; [done|]. split.
      { revert En. unfold GetHTTPProxyEnabled. unfold GetHTTPProxyConfig in Enh. by rewrite Enh. }
      unfold needs_restart in Enr. rewrite !orb_false_iff, !negb_false_iff, !bool_decide_eq_true in Enr.
      destruct Enr as [[El Ea] _]. constructor; cbn; rewrite <- ?Ea, <- ?El; done.
  - destruct (GetHTTPProxyEnabled newCfg) eqn:En; [|injection Hr as <- <-; by rewrite Ep].
    destruct (startHTTPProxy _ _ _) as [r1 n1] eqn:Es. injection Hr as <- <-.
    destruct (Hstart _ _ _ Es ltac:(done) ltac:(done) ltac:(done) ltac:(done) eq_refl) as (H1 & H2 & H3 & H4 & H5).
    split_and!; try done; [intros Hok _; apply H4|intros Hf; apply H5]; by destruct r1 as [[]|].
Qed.

Lemma auditConfigChanged_sinks old new :
  auditConfigChanged (Some old) (Some new) = false → sinks_of (cfg_Audit new) = sinks_of (cfg_Audit old).
Proof.
  cbn. destruct (cfg_Audit old) as [a|], (cfg_Audit new) as [b|]; try done.
  rewrite !orb_false_iff, !negb_false_iff, !bool_decide_eq_true. intros [[[[E1 E2] E3] E4] E5].
  unfold sinks_of. by rewrite E1, E2, E3, E4, E5.
Qed.

(** The audit log follows the new configuration, or its files are closed. *)
Lemma reload_audit_spec newCfg n r n' :
  reload_audit newCfg n = (r, n') →
  same_service (n_daemon n) (n_daemon n') ∧ d_httpProxy (n_daemon n') = d_httpProxy (n_daemon n) ∧
  as_written (n_audit n') = as_written (n_audit n) ∧
  (r = Ok tt → audit_in_sync n → audit_in_sync (set_daemon n' (set_cfg (n_daemon n') newCfg))) ∧
  (is_ok r = false → d_auditLogger (n_daemon n') = d_auditLogger (n_daemon n) ∧
    auditConfigChanged (d_cfg (n_daemon n)) (Some newCfg) = true ∧
    ∀ l h path, d_auditLogger (n_daemon n) = Some l → h ∈ handles l → h_sink h = SinkFile path →
      h_id h ∈ as_closed (n_audit n')).
Proof.
  unfold reload_audit. destruct (auditConfigChanged _ _) eqn:Ec.
  2: { intros [= <- <-]. split_and!; try done. intros _ ((cfg & l & Hc & Hl & [Hk Hh]) & Hold).
       rewrite Hc in Ec. apply auditConfigChanged_sinks in Ec. split; [|done].
       exists newCfg, l. split_and!; try done. unfold logs_to in *. by rewrite Ec. }
  set (a := match d_auditLogger (n_daemon n) with Some l => _ | None => _ end).
  assert (as_written a = as_written (n_audit n) ∧ as_next a = as_next (n_audit n) ∧
    (audit_in_sync n → ∀ i, i ∈ as_closed a → (i < as_next (n_audit n))%nat) ∧
    ∀ l h path, d_auditLogger (n_daemon n) = Some l → h ∈ handles l → h_sink h = SinkFile path → h_id h ∈ as_closed a)
    as (Aw & An & Aold & Acl).
  { unfold a. destruct (d_auditLogger (n_daemon n)) as [l|] eqn:El.
    2: { split_and!; try done. by intros (_ & Hold). }
    destruct (Close_spec l (n_audit n)) as (W & N & C). split_and!; try done.
    - intros ((cfg & l' & _ & Hl & _ & Hh) & Hold) i Hi. assert (l' = l) as -> by congruence.
      apply C, elem_of_union in Hi as [Hi|Hi]; [by apply Hold|].
      apply elem_of_list_to_set, list_elem_of_fmap in Hi as (h & -> & Hin).
      by apply (proj1 (Forall_forall _ _) Hh) in Hin as [? _].
    - intros l' h path [= <-] Hin Hs. by eapply Close_closes. }
  clearbody a. unfold GetAuditConfig. cbn [mbind option_bind].
  destruct (AuditLog.New _ _) as [[l|e] a'] eqn:En; intros [= <- <-]; cbn.
  - apply New_spec in En as [Hlog (Ow & Oc & On & Of)]. split_and!; try done; [congruence|].
    intros _ HI. specialize (Aold HI). split.
    + exists newCfg, l. split_and!; try done. eapply Forall_impl; [done|]. cbn. intros h [H1 H2]. split; [lia|].
      rewrite Oc. intros Hin%Aold. lia.
    + cbn. intros i. rewrite Oc. intros Hin%Aold. lia.
  - pose proof (New_closed (cfg_Audit newCfg) a) as Hcl. rewrite En in Hcl. cbn in Hcl.
    apply New_failed in En. split_and!; try done; [congruence|]. intros _. rewrite Hcl. by split_and!.
Qed.

Lemma reloadConfig_spec loaded io n r n' :
  reloadConfig loaded io n = (r, n') →
  match r with
  | Ok _ => ∃ newCfg, loaded = Ok newCfg ∧ installed newCfg n n'
  | Err _ => reload_failed loaded n n'
  end.
Proof.
  unfold reloadConfig. intros Hr. destruct loaded as [newCfg|e]; [|by injection Hr as <- <-].
  destruct (reload_proxy newCfg io n) as [r1 n1] eqn:E1.
  apply reload_proxy_spec in E1 as ((C1 & R1 & S1) & A1 & L1 & Hsync & Hfail).
  destruct r1 as [[]|]; [|injection Hr as <- <-; unfold reload_failed; rewrite A1; split_and!; try done; left; by apply Hfail].
  destruct (reload_audit newCfg n1) as [r2 n2] eqn:E2. apply reload_audit_spec in E2 as ((C2 & R2 & S2) & Hp & Hw & Hok & Herr).
  destruct r2 as [[]|]; injection Hr as <- <-.
  2: { destruct Herr as (L2 & Hch & Hcl); [done|]. split; [split_and!; congruence|]. split; [congruence|]. split; [congruence|].
       right. split; [congruence|]. rewrite Hp. split; [by apply Hsync|]. by rewrite <- L1. }
  exists newCfg. split; [done|]. constructor; cbn.
  - done.
  - intros Hs. specialize (Hsync eq_refl Hs). exists newCfg. split; [done|]. cbn. by rewrite Hp.
  - intros HI. apply Hok; [done|]. unfold audit_in_sync in *. by rewrite C1, L1, A1.
  - congruence.
  - congruence.
  - intros c Hc (T & M & Z & K). rewrite R2, R1, Hc. cbn. eexists. split; [done|].
    destruct (trim_spec (size (rc_entries c)) (clamp_max (GetReplayCacheMaxEntries newCfg)) (rc_entries c)) as [Hsub Hz];
      [apply clamp_max_pos|done|lia|].
    pose proof (clamp_max_pos (GetReplayCacheMaxEntries newCfg)). pose proof (clamp_ttl_pos (GetReplayCacheTTL newCfg)).
    split; [|by split_and!]. unfold replay_inv; cbn. rewrite Hz. split_and!; try done; [lia|]. by eapply lookup_empty_key.
Qed.

(** ** Properties *)

(** C20: A reload that succeeds installs the new configuration: the daemon serves
    it; the replay cache takes its time to live and its bound and stays well formed.
    If proxy and audit log followed the old configuration they follow the new one: a
    proxy runs exactly when it enables one, with its rules, credentials, address and
    authentication; and the audit log goes to the sinks it names (the system log may
    be missing beside another one), with no closed file among them. A reload that fails
    keeps the served configuration, the replay cache and the secret. It changes
    nothing at all when the file does not load; it leaves the audit log alone and
    the proxy as it was, gone or stopped when the proxy fails; and when the audit
    log fails the new proxy stays and the files of the old log are closed. No
    reload writes an audit entry. *)
Theorem reload_outcome loaded io n r n' :
  reloadConfig loaded io n = (r, n') →
  match r with
  | Ok _ => ∃ newCfg, loaded = Ok newCfg ∧ installed newCfg n n'
  | Err _ => reload_failed loaded n n'
  end.
Proof. apply reloadConfig_spec. Qed.

(** A reload that does not restart the proxy leaves it the programs of the credential
    backends that it was started with. *)
Theorem reload_keeps_binaries newCfg io n p oldh newh :
  d_httpProxy (n_daemon n) = Some p → d_cfg (n_daemon n) ≫= GetHTTPProxyConfig = Some oldh →
  cfg_HTTPProxy newCfg = Some newh → hp_Enabled newh = true → needs_restart oldh newh = false →
  ∃ p', reload_proxy newCfg io n = (Ok tt, set_daemon n (set_httpProxy (n_daemon n) (Some p'))) ∧
    p_credOpts p' = p_credOpts p ∧ p_cfg p' = Some newh ∧ p_creds p' = cfg_Credentials newCfg.
Proof.
  intros Hp Ho Hn He Hr. unfold reload_proxy, GetHTTPProxyEnabled, GetHTTPProxyConfig in *.
  rewrite Hp, Hn, He. cbn [negb]. rewrite Ho, Hr. by eexists.
Qed.

(** ** A reload that fails half-way *)

Lemma needs_restart_same h : needs_restart h h = false.
Proof. unfold needs_restart. by rewrite !bool_decide_eq_true_2. Qed.

Lemma auditConfigChanged_same c : auditConfigChanged (Some c) (Some c) = false.
Proof. cbn. destruct (cfg_Audit c); [|done]. by rewrite !bool_decide_eq_true_2. Qed.

(** A failed reopening of the audit log closes the one the daemon has. *)
Lemma reload_audit_fails new n l path a fs :
  auditConfigChanged (d_cfg (n_daemon n)) (Some new) = true → d_auditLogger (n_daemon n) = Some (Single l) →
  h_sink l = SinkFile path → cfg_Audit new = Some a → au_Enabled a = true → au_File a ≠ "" →
  as_faults (n_audit n) = true :: fs →
  ∃ e n', reload_audit new n = (Err e, n') ∧ n_daemon n' = n_daemon n ∧ h_id l ∈ as_closed (n_audit n').
Proof.
  intros Hch Hl Hs Ha Hen Hf Hfs. unfold reload_audit. rewrite Hch, Hl. cbn [Close].
  assert (∃ s, close_one l (n_audit n) = ((close_one l (n_audit n)).1, s) ∧ as_faults s = true :: fs ∧ h_id l ∈ as_closed s)
    as (s & -> & Hfs2 & Hin).
  { eexists. split; [apply surjective_pairing|]. split; [|by eapply close_one_closes].
    unfold close_one. rewrite Hs. by case_bool_decide. }
  cbn [snd]. unfold GetAuditConfig, AuditLog.New. cbn. rewrite Ha, Hen. cbn.
  rewrite bool_decide_eq_false_2 by done. cbn. unfold open_sink, as_refused. rewrite Hfs2.
  eexists _, _. split; [reflexivity|]. by split.
Qed.

(** After such a reload the served configuration may have no proxy section: the
    next reload dereferences it. *)
Lemma reload_nil_config io n cfg new p :
  d_cfg (n_daemon n) = Some cfg → cfg_HTTPProxy cfg = None → d_httpProxy (n_daemon n) = Some p →
  GetHTTPProxyEnabled new = true → (reloadConfig (Ok new) io n).1 = Err (Sentinel "nil pointer dereference").
Proof.
  intros Hc Hn Hp He. unfold reloadConfig, reload_proxy. rewrite Hp, He, Hc. cbn [negb mbind option_bind].
  unfold GetHTTPProxyConfig. by rewrite Hn.
Qed.

(** C21: A reload that fails on the audit log has already replaced the proxy and
    closed the old audit file, while the daemon keeps the old configuration. Putting
    the old configuration back does not repair it: the next reload sees no change,
    so the proxy stays open to everyone although the configuration requires
    authentication, and every entry for the audit file is refused and not written. *)
Theorem reload_half_applied io n old ho new hn l path a fs p :
  in_sync (n_daemon n) → d_cfg (n_daemon n) = Some old → d_httpProxy (n_daemon n) = Some p → p_stopped p = false →
  cfg_HTTPProxy old = Some ho → GetRequireAuth ho = true →
  cfg_HTTPProxy new = Some hn → hp_Enabled hn = true → GetRequireAuth hn = false → hp_Listen hn = hp_Listen ho →
  io_close io = Ok tt → io_mitm io = Ok tt → io_watch io = Ok tt → io_listen io = Ok tt →
  d_auditLogger (n_daemon n) = Some (Single l) → h_sink l = SinkFile path → auditConfigChanged (Some old) (Some new) = true →
  cfg_Audit new = Some a → au_Enabled a = true → au_File a ≠ "" → as_faults (n_audit n) = true :: fs →
  let '(r1, n1) := reloadConfig (Ok new) io n in
  let '(r2, n2) := reloadConfig (Ok old) io n1 in
  is_ok r1 = false ∧ d_cfg (n_daemon n1) = Some old ∧ r2 = Ok tt ∧ d_cfg (n_daemon n2) = Some old ∧
  (∃ p', d_httpProxy (n_daemon n2) = Some p' ∧ p_cfg p' = Some ho ∧ p_requireAuth p' = false ∧ is_Some (p_listening p')) ∧
  d_auditLogger (n_daemon n2) = Some (Single l) ∧ 
  ∀ entry, ∃ err a', Log (Single l) entry (n_audit n2) = (Some err, a') ∧ as_written a' = as_written (n_audit n2).
Proof.
  intros (cfg & Hc & Hs) Hold Hp Hst Hho Hra Hhn Henn Hrn Hli Hcl Hmi Hwa Hls Hl Hsk Hch Ha Hea Hf Hfs.
  rewrite Hp in Hs. destruct Hs as (h & Hh & Hen & Hpo). assert (cfg = old) as -> by congruence.
  assert (h = ho) as -> by congruence.
  assert (GetHTTPProxyEnabled old = true) as Heo by (unfold GetHTTPProxyEnabled; by rewrite Hho).
  assert (GetHTTPProxyEnabled new = true) as Hen2 by (unfold GetHTTPProxyEnabled; by rewrite Hhn).
  assert (∃ p1 d1, reload_proxy new io n = (Ok tt, set_daemon n d1) ∧ d_httpProxy d1 = Some p1 ∧
    p_requireAuth p1 = false ∧ is_Some (p_listening p1) ∧ d_cfg d1 = Some old ∧ d_auditLogger d1 = Some (Single l))
    as (p1 & d1 & E1 & Hp1 & Hau1 & Hl1 & Hc1 & Hlog1).
  { unfold reload_proxy. rewrite Hp, Hen2, Hc. cbn [negb mbind option_bind]. unfold GetHTTPProxyConfig. rewrite Hho, Hhn.
    assert (needs_restart ho hn = true) as ->.
    { unfold needs_restart. rewrite Hra, Hrn, (bool_decide_eq_false_2 (true = false)) by done.
      cbn. by rewrite orb_true_r. }
    assert (Stop p (io_close io) = (Ok tt, (Stop p (io_close io)).2)) as ->.
    { unfold Stop. rewrite Hst, Hcl. by destruct (p_listening p). }
    destruct (po_loopback _ _ _ Hpo) as (host & port & Hsp & Hlo). rewrite <- Hli in Hsp.
    set (addr := if bool_decide (hp_Listen hn = "") then DefaultListenAddr else hp_Listen hn) in *.
    assert ((if bool_decide (addr = "") then DefaultListenAddr else addr) = addr) as Hidem.
    { unfold addr. destruct (bool_decide_reflect (hp_Listen hn = "")); [done|]. by rewrite bool_decide_eq_false_2. }
    unfold startHTTPProxy, GetHTTPProxyConfig. rewrite Hhn, Henn, Hrn. cbn [negb]. unfold Start. cbn.
    fold addr. rewrite Hidem, Hsp. cbn. rewrite (bool_decide_eq_true_2 _ Hlo). cbn. rewrite Hmi, Hwa, Hls. cbn.
    do 2 eexists. split; [reflexivity|]. cbn. by split_and!. }
  unfold reloadConfig. rewrite E1.
  destruct (reload_audit_fails new (set_daemon n d1) l path a fs) as (e & n1 & -> & Hd & Hin);
    [by cbn; rewrite Hc1|done..|].
  cbn [set_daemon n_daemon] in Hd.
  assert (reload_proxy old io n1 = (Ok tt, set_daemon n1 (set_httpProxy d1 (Some (ReloadConfig p1 ho (cfg_Credentials old))))))
    as ->.
  { unfold reload_proxy. rewrite Hd, Hp1, Heo, Hc1. cbn [negb mbind option_bind]. unfold GetHTTPProxyConfig.
    by rewrite Hho, needs_restart_same. }
  unfold reload_audit. cbn [set_daemon n_daemon set_httpProxy update d_cfg]. rewrite Hc1, auditConfigChanged_same.
  cbn. rewrite Hd. split_and!; try done.
  - by eexists.
  - intros entry. by eapply log_one_closed_file.
Qed.
End reload.
