(* ===== verification/Backends.v ===== *)
(** The settings of package [internal/credentials] that [internal/daemon] hands over
    when it starts and after a reload ([vault.go], [onepassword.go], [age.go],
    [cache.go]), and what the cache of credentials makes of them. *)

From S2P Require Import Prelude GoStrings GoTime GoPath Paths Json Protocol Regexp ConfigTypes CredCache Sources Fetch Resolve.
From S2P Require Import Interpolate World Config Settings Env Runtime AuditLog Executor HttpProxy SecretFile Daemon ReloadLaws.
Local Open Scope Z_scope.

(** ** The setters *)

Definition set_settings (s : sys) (vault : vaultConfig) (op age : string) : sys :=
  {| s_log := s_log s; s_replies := s_replies s; s_clock := s_clock s; s_cache := s_cache s; s_bw := s_bw s;
     s_tempdir := s_tempdir s; s_vault := vault; s_opTokenFile := op; s_ageIdentityFile := age |}.
Definition set_vault (s : sys) (vault : vaultConfig) : sys := set_settings s vault (s_opTokenFile s) (s_ageIdentityFile s).

Definition SetVaultAddr (addr : string) (s : sys) : sys :=
  let v := s_vault s in
  set_vault s {| vaultAddr := addr; vaultSkipVerify := vaultSkipVerify v; vaultCACert := vaultCACert v;
                 vaultNamespace := vaultNamespace v; vaultTokenFile := vaultTokenFile v |}.
Definition SetVaultSkipVerify (skip : option bool) (s : sys) : sys :=
  let v := s_vault s in
  set_vault s {| vaultAddr := vaultAddr v; vaultSkipVerify := skip; vaultCACert := vaultCACert v;
                 vaultNamespace := vaultNamespace v; vaultTokenFile := vaultTokenFile v |}.
Definition SetVaultCACert (path : string) (s : sys) : sys :=
  let v := s_vault s in
  set_vault s {| vaultAddr := vaultAddr v; vaultSkipVerify := vaultSkipVerify v; vaultCACert := path;
                 vaultNamespace := vaultNamespace v; vaultTokenFile := vaultTokenFile v |}.
Definition SetVaultNamespace (ns : string) (s : sys) : sys :=
  let v := s_vault s in
  set_vault s {| vaultAddr := vaultAddr v; vaultSkipVerify := vaultSkipVerify v; vaultCACert := vaultCACert v;
                 vaultNamespace := ns; vaultTokenFile := vaultTokenFile v |}.
Definition SetVaultTokenFile (path : string) (s : sys) : sys :=
  let v := s_vault s in
  set_vault s {| vaultAddr := vaultAddr v; vaultSkipVerify := vaultSkipVerify v; vaultCACert := vaultCACert v;
                 vaultNamespace := vaultNamespace v; vaultTokenFile := path |}.
Definition SetOPTokenFile (path : string) (s : sys) : sys :=
  if negb (bool_decide (path = "")) then set_settings s (s_vault s) path (s_ageIdentityFile s) else s.
Definition SetAgeIdentityFile (path : string) (s : sys) : sys :=
  if negb (bool_decide (path = "")) then set_settings s (s_vault s) (s_opTokenFile s) path else s.
Definition SetCredentialCacheTTL (ttl : duration) (s : sys) : sys := set_cache (SetTTL (s_cache s) ttl) s.

Section backends.
Context `{RE : Regexp} `{UC : UnicodeCase} `{DP : DurationParser} `{OSi : OS} `{HO : Host} `{MR : MapRange} `{HA : Hash}
  `{PE : Peers} `{CP : Codec ProxyRequest} `{CA : Codec AdminRequest} `{FI : Files} `{LI : Libraries} `{GL : GitHubLib}.

(** The calls [Run] and [reloadConfig] make, in their order. *)
Definition configure_backends (cfg : Config) (s : sys) : sys :=
  let s := SetAgeIdentityFile (GetAgeIdentityFile cfg) s in
  let s := SetOPTokenFile (GetOPTokenFile cfg) s in
  let s := SetCredentialCacheTTL (GetCredentialCacheTTL cfg) s in
  let s := SetVaultAddr (GetVaultAddr cfg) s in
  let s := SetVaultSkipVerify (GetVaultSkipVerify cfg) s in
  let s := SetVaultCACert (GetVaultCACert cfg) s in
  let s := SetVaultNamespace (GetVaultNamespace cfg) s in
  SetVaultTokenFile (GetVaultTokenFile cfg) s.

(** [reloadConfig] with the backends: they are configured once the rest has
    succeeded. *)
Definition reload_backends (loaded : result Config) (io : proxy_io) (n : node) (s : sys) : result unit * node * sys :=
  match reloadConfig loaded io n, loaded with
  | (Ok _, n), Ok cfg => (Ok tt, n, configure_backends cfg s)
  | (r, n), _ => (r, n, s)
  end.

(** ** Properties *)

Lemma IsAbs_nonempty p : IsAbs p = true → p ≠ "".
Proof. by intros Ha ->. Qed.

(** Nothing is left of the old settings, and nothing else changes but the cache. *)
Theorem configure_settings cfg s :
  let s' := configure_backends cfg s in
  s_vault s' = {| vaultAddr := GetVaultAddr cfg; vaultSkipVerify := GetVaultSkipVerify cfg;
                  vaultCACert := GetVaultCACert cfg; vaultNamespace := GetVaultNamespace cfg;
                  vaultTokenFile := GetVaultTokenFile cfg |} ∧
  s_opTokenFile s' = GetOPTokenFile cfg ∧ s_ageIdentityFile s' = GetAgeIdentityFile cfg ∧
  s_cache s' = SetTTL (s_cache s) (GetCredentialCacheTTL cfg) ∧
  s_log s' = s_log s ∧ s_replies s' = s_replies s ∧ s_clock s' = s_clock s ∧ s_bw s' = s_bw s.
Proof.
  pose proof (settings_paths_absolute cfg) as (_ & Hop%IsAbs_nonempty & Hage%IsAbs_nonempty & _).
  unfold configure_backends, SetAgeIdentityFile, SetOPTokenFile. rewrite !bool_decide_eq_false_2 by done. by split_and!.
Qed.

(** The daemon's reload and the backends agree: a reload that succeeds configures
    them, one that fails leaves them. *)
Theorem reload_backends_outcome loaded io n s r n' s' :
  reload_backends loaded io n s = (r, n', s') →
  reloadConfig loaded io n = (r, n') ∧
  match r with
  | Ok _ => ∃ cfg, loaded = Ok cfg ∧ d_cfg (n_daemon n') = Some cfg ∧ s' = configure_backends cfg s
  | Err _ => s' = s
  end.
Proof.
  unfold reload_backends. destruct (reloadConfig loaded io n) as [r1 n1] eqn:Er. pose proof (reloadConfig_spec _ _ _ _ _ Er) as H.
  destruct r1 as [[]|e].
  - destruct H as (cfg & -> & [Hc _ _ _ _ _]). intros [= <- <- <-]. split; [done|]. by exists cfg.
  - by destruct loaded; intros [= <- <- <-].
Qed.

Lemma SetTTL_same c ttl : 0 < ttl → ttl = cc_ttl c →
  cc_entries (SetTTL c ttl) = cc_entries c ∧ cc_ttl (SetTTL c ttl) = cc_ttl c.
Proof.
  intros Hp He. unfold SetTTL. rewrite (proj2 (Z.leb_gt _ _)) by lia. rewrite He, Z.eqb_refl. cbn [negb].
  destruct (cc_sweeper c); [done|]. unfold startSweeper. destruct (_ <=? 0); [done|]. by destruct (_ || _).
Qed.

Lemma Get_hit c key now e :
  0 < cc_ttl c → cc_entries c !! key = Some e → now < ce_refreshAt e →
  Get c key now = (Some {| c_Value := ce_value e; c_ExpiresAt := ce_hardExpiresAt e |}, c).
Proof.
  intros Ht He Hn. unfold Get. rewrite He, (proj2 (Z.leb_gt _ _)) by done. cbn [andb].
  assert (Before now (ce_refreshAt e) = true) as -> by by apply Z.ltb_lt. done.
Qed.

(** A hit needs nothing but the clock. *)
Lemma cached_hit key fetch s cred :
  Get (s_cache s) key (hd 0 (s_clock s)) = (Some cred, s_cache s) →
  (cached key fetch s).1 = Ok cred ∧ s_log (cached key fetch s).2 = s_log s.
Proof.
  intros Hg. unfold cached, read_clock, cached_at, mbind, M_bind, fetchCached. cbn [s_cache]. by rewrite Hg.
Qed.

(** A reload does not reach the credentials that are cached. The key of an entry
    is the source's text alone: after a reload that names another vault, token or
    identity but keeps the cache's time to live, a source that was fetched with the
    old settings is served from the cache, without any command, until the entry is
    due. *)
Theorem reload_serves_old cfg io n s n' s' source opts parsed e now t1 t2 t3 clock :
  reload_backends (Ok cfg) io n s = (Ok tt, n', s') →
  0 < GetCredentialCacheTTL cfg → GetCredentialCacheTTL cfg = cc_ttl (s_cache s) →
  ParseSource source = Ok parsed → isCredentialCacheableBackend (ps_Backend parsed) = true →
  fo_BypassCache (apply_options opts) = false →
  cc_entries (s_cache s) !! credentialCacheKey parsed = Some e → s_clock s = now :: t1 :: t2 :: t3 :: clock →
  now < ce_refreshAt e →
  d_cfg (n_daemon n') = Some cfg ∧ vaultAddr (s_vault s') = GetVaultAddr cfg ∧
  let r := FetchCredential source opts s' in
  r.1 = Ok {| c_Value := ce_value e; c_ExpiresAt := ce_hardExpiresAt e |} ∧ s_log r.2 = s_log s.
Proof.
  intros Hr Hpos Httl Hp Hcb Hby He Hclock Hnow.
  apply reload_backends_outcome in Hr as (_ & cfg' & [= <-] & Hd & ->). split; [done|].
  pose proof (configure_settings cfg s) as (Hv & _ & _ & Hc & Hlog & _ & Hclk & _). cbv zeta in *.
  set (s' := configure_backends cfg s) in *. clearbody s'. split; [by rewrite Hv|].
  destruct (SetTTL_same (s_cache s) _ Hpos Httl) as [Hent Htt]. rewrite <- Hc in Hent, Htt.
  unfold FetchCredential. rewrite Hp, Hcb, Hby. cbn [negb andb]. rewrite <- Hlog. apply cached_hit.
  rewrite Hclk, Hclock. apply Get_hit; [lia|by rewrite Hent|done].
Qed.
End backends.
