(* ===== verification/ServiceLaws.v ===== *)
(** The life of a daemon: what holds in every state it reaches, whatever turns its
    goroutines take, and what happens when a reload or the end comes while
    connections are served. *)

From S2P Require Import Prelude GoStrings Json Base64 GoTime GoPath Paths Protocol Auth Replay Regexp ConfigTypes ArgsPolicy.
From S2P Require Import Interpolate World Config Settings Env Runtime AuditLog Executor Sources GoNet HttpProxy SecretFile.
From S2P Require Import Daemon DaemonLaws ReloadLaws Service.
Local Open Scope Z_scope.

Section laws.
Context `{RE : Regexp} `{UC : UnicodeCase} `{DP : DurationParser} `{OSi : OS} `{HO : Host} `{MR : MapRange} `{HA : Hash}
  `{PE : Peers} `{CP : Codec ProxyRequest} `{CA : Codec AdminRequest}.
Context (resolve : string → CredentialDef → result string).

(** ** What one event may change of the daemon *)

(** A handler asks the replay cache at most once, with a key that is not empty,
    and counts. *)
Definition handled (d d' : Daemon) (t2 : time) : Prop :=
  ∃ cache m, d' = update d (d_cfg d) cache m (d_httpProxy d) (d_proxyAuthToken d) (d_auditLogger d) ∧
    (cache = d_replayCache d ∨ ∃ key, key ≠ "" ∧ cache = d_replayCache (seen d key t2).2).

Lemma handled_refl d t2 : handled d d t2.
Proof. exists (d_replayCache d), (d_metrics d). split; [by destruct d|by left]. Qed.

Lemma handled_inc d d' t2 k : handled d d' t2 → handled d (inc_metric k d') t2.
Proof. intros (cache & m & -> & Hc). exists cache, (Inc k m). by split. Qed.

Lemma handled_seen d key t2 : key ≠ "" → handled d (seen d key t2).2 t2.
Proof.
  intros Hk. exists (d_replayCache (seen d key t2).2), (d_metrics d). split; [|right; by exists key].
  unfold seen. destruct (d_replayCache d) as [c|] eqn:E; [|destruct d; cbn in *; by subst].
  by destruct (SeenOrStore c key t2).
Qed.

Lemma keyed_ne a b c : b ≠ "" → a +:+ b +:+ c ≠ "".
Proof. by destruct a, b. Qed.

#[local] Hint Resolve handled_refl handled_inc handled_seen : core.

Lemma handleAdminRequest_handled d data cfg uid pid t1 t2 :
  handled d (handleAdminRequest resolve d data cfg uid pid t1 t2).2 t2.
Proof.
  unfold handleAdminRequest. destruct (unmarshal data); cbn [snd]; auto. destruct (negb _); cbn [snd]; auto.
  destruct (VerifyHMAC _ _ _ _ _ _ _ _ _); cbn [snd]; auto.
  match goal with |- context [seen d ?k t2] => assert (k ≠ "") as Hk by (by apply keyed_ne) end.
  apply (handled_seen d _ t2) in Hk.
  destruct (seen d _ t2) as [[] d1]; cbn [snd] in *; auto. repeat destruct (bool_decide _); cbn [andb];
    try (destruct (negb _); cbn [snd]); auto.
Qed.

Lemma handleProxyRequest_handled d data cfg pid exe uid t1 t2 :
  handled d (handleProxyRequest d data cfg pid exe uid t1 t2).2 t2.
Proof.
  unfold handleProxyRequest. destruct (unmarshal data) as [req|]; cbn [snd]; auto. destruct (negb _); cbn [snd]; auto.
  destruct (VerifyHMACWithPTY _ _ _ _ _); cbn [snd]; auto.
  assert (proxy_replay_key uid req ≠ "") as Hk by (by apply keyed_ne). apply (handled_seen d _ t2) in Hk.
  destruct (seen d _ t2) as [[] d1]; cbn [snd] in *; auto.
  destruct (cfg_Tools cfg !! _); cbn [snd]; auto. destruct (checkToolArgs _ _) as [[] msg]; cbn [negb snd]; auto.
  by destruct (NewToolExecutor _ _ _ _ _ _ _).
Qed.

Lemma handleConnection_handled d cfg c t1 t2 : handled d (handleConnection resolve d cfg c t1 t2).2 t2.
Proof.
  unfold handleConnection. destruct (cn_read c); cbn [snd]; auto. cbv zeta. destruct (_ =? _); cbn [snd]; auto.
  destruct (bool_decide _); cbn [snd]; auto. destruct (json_object _); cbn [snd]; auto.
  destruct (negb _); cbn [snd]; auto. destruct (cn_peer c) as [u|]; cbn [snd]; auto. destruct (negb _); cbn [snd]; auto.
  destruct (match resolvePeerExecutable _ with Ok _ => _ | Err _ => _ end); cbn [snd]; auto.
  destruct (bool_decide _); cbn [snd].
  - pose proof (handleAdminRequest_handled d (trim_space (take (Z.to_nat header_size) data)) cfg (uc_UID u) (uc_PID u) t1 t2).
    by destruct (handleAdminRequest _ _ _ _ _ _ _ _).
  - destruct (bool_decide _); auto using handleProxyRequest_handled.
Qed.

(** What never changes once the daemon serves. *)
Definition same_daemon (d d' : Daemon) : Prop :=
  d_secret d' = d_secret d ∧ d_allowedUID d' = d_allowedUID d ∧ d_allowedBinaries d' = d_allowedBinaries d ∧
  d_connCap d' = d_connCap d.

#[export] Instance same_daemon_po : PreOrder same_daemon.
Proof. split; [by intros d|]. intros d1 d2 d3 (A1 & A2 & A3 & A4) (B1 & B2 & B3 & B4). split_and!; congruence. Qed.

Lemma startHTTPProxy_same cfg io n :
  let n' := (startHTTPProxy cfg io n).2 in
  same_daemon (n_daemon n) (n_daemon n') ∧ d_connUsed (n_daemon n') = d_connUsed (n_daemon n).
Proof.
  unfold startHTTPProxy. destruct (GetHTTPProxyConfig cfg) as [h|]; [|done]. destruct (negb _); [done|].
  destruct (GetRequireAuth h).
  - destruct (ensureProxyAuthToken _ _ _ _ _) as [[token|] f]; cbn; [|done]. by destruct (Start _ _ _ _ _).
  - by destruct (Start _ _ _ _ _).
Qed.

Lemma reload_proxy_same cfg io n :
  let n' := (reload_proxy cfg io n).2 in
  same_daemon (n_daemon n) (n_daemon n') ∧ d_connUsed (n_daemon n') = d_connUsed (n_daemon n).
Proof.
  unfold reload_proxy. destruct (d_httpProxy (n_daemon n)) as [p|].
  - destruct (negb _); [by destruct (Stop _ _) as [[]]|].
    destruct (_ ≫= _); [|done]. destruct (GetHTTPProxyConfig cfg); [|done]. destruct (needs_restart _ _); [|done].
    destruct (Stop _ _) as [[[]|]]; [|done].
    pose proof (startHTTPProxy_same cfg io (set_daemon n (set_httpProxy (n_daemon n) None))).
    by destruct (startHTTPProxy _ _ _).
  - destruct (GetHTTPProxyEnabled cfg); [|done]. pose proof (startHTTPProxy_same cfg io n). by destruct (startHTTPProxy _ _ _).
Qed.

Lemma reloadConfig_same loaded io n :
  let n' := (reloadConfig loaded io n).2 in
  same_daemon (n_daemon n) (n_daemon n') ∧ d_connUsed (n_daemon n') = d_connUsed (n_daemon n).
Proof.
  unfold reloadConfig. destruct loaded as [cfg|]; [|done]. pose proof (reload_proxy_same cfg io n) as [H1 H2].
  destruct (reload_proxy _ _ _) as [[[]|] n1]; [|done]. cbn [snd] in *.
  assert (let n2 := (reload_audit cfg n1).2 in same_daemon (n_daemon n1) (n_daemon n2) ∧
    d_connUsed (n_daemon n2) = d_connUsed (n_daemon n1)) as [H3 H4].
  { unfold reload_audit. destruct (auditConfigChanged _ _); [|done]. by destruct (AuditLog.New _ _) as [[]]. }
  destruct (reload_audit _ _) as [[[]|] n2]; cbn [snd] in *; (split; [|cbn; congruence]); [|by etrans].
  etrans; [exact H1|]. etrans; [exact H3|]. done.
Qed.

Lemma stopHTTPProxy_same io d :
  let d' := (stopHTTPProxy io d).2 in
  same_daemon d d' ∧ d_connUsed d' = d_connUsed d ∧ d_cfg d' = d_cfg d ∧ d_replayCache d' = d_replayCache d ∧
  d_httpProxy d' = None.
Proof. unfold stopHTTPProxy. by destruct (d_httpProxy d) eqn:E. Qed.

Lemma handled_same d d' t2 :
  handled d d' t2 → same_daemon d d' ∧ d_connUsed d' = d_connUsed d ∧ d_cfg d' = d_cfg d ∧ d_httpProxy d' = d_httpProxy d.
Proof. by intros (cache & m & -> & _). Qed.

Lemma handled_cache d d' t2 c :
  handled d d' t2 → d_replayCache d = Some c → replay_inv c → ∃ c', d_replayCache d' = Some c' ∧ replay_inv c'.
Proof.
  intros (cache & m & -> & [->|(key & Hk & ->)]) Hc Hi; cbn [update d_replayCache]; [by exists c|].
  unfold seen. rewrite Hc. pose proof (proj1 (proj2 (replay_inv_preserved c key t2 0 0)) Hi Hk).
  destruct (SeenOrStore c key t2) as [b c']. by exists c'.
Qed.

(** ** The invariant *)

Record service_inv (s : service) : Prop := {
  (** a token for every handler, within the limit *)
  si_slots : d_connUsed (sv_daemon s) = Z.of_nat (length (sv_handlers s));
  si_limit : d_connUsed (sv_daemon s) ≤ d_connCap (sv_daemon s);
  si_cache : ∃ c, d_replayCache (sv_daemon s) = Some c ∧ replay_inv c;
  si_cfg : is_Some (d_cfg (sv_daemon s));
  (** while the listener is open signals are read; once it is closed, nothing
      reloads the configuration and the proxy is down *)
  si_open : sv_signals s = sv_listening s;
  si_closed : sv_listening s = false → sv_watcher s = None ∧ d_httpProxy (sv_daemon s) = None;
}.

Definition loads (ev : service_event) : list Config :=
  match ev with EvHangup (Ok cfg) _ | EvWatch _ (Ok cfg) _ => [cfg] | _ => [] end.

(** Every configuration in use satisfies [P]. *)
Definition in_use (P : Config → Prop) (s : service) : Prop :=
  (∀ cfg, d_cfg (sv_daemon s) = Some cfg → P cfg) ∧
  Forall (λ h, match h with HandlerReading _ cfg => P cfg | _ => True end) (sv_handlers s).

Definition runs (outs : list service_output) : list ToolExecutor :=
  omap (λ o, match o with OutRun e => Some e | _ => None end) outs.

(** A run that was admitted by a daemon like [d], on a configuration with [P]. *)
Definition admitted_by (P : Config → Prop) (d : Daemon) (e : ToolExecutor) : Prop :=
  ∃ d' cfg c t1 t2, same_daemon d d' ∧ P cfg ∧ admitted d' cfg c t1 t2 e.

(** What one event keeps. *)
Definition keeps (P : Config → Prop) (s : service) (out : list service_output) (s' : service) : Prop :=
  service_inv s' ∧ same_daemon (sv_daemon s) (sv_daemon s') ∧ in_use P s' ∧
  Forall (admitted_by P (sv_daemon s)) (runs out).

Lemma set_handlers_same (s : service) d l : sv_daemon (with_handlers s d l) = d.
Proof. done. Qed.

Lemma step_connect_keeps P s c :
  service_inv s → in_use P s → sv_listening s = true → keeps P s (step_connect s c).1 (step_connect s c).2.
Proof.
  intros [S L C F O Cl] [U1 U2] Hl. unfold step_connect, acquireConnSlot.
  destruct (Z.ltb_spec (d_connUsed (sv_daemon s)) (d_connCap (sv_daemon s))) as [Hlt|Hge]; cbn [fst snd];
    (split; [constructor|split; [done|split; [|constructor]]]); cbn; try done; try congruence.
  - rewrite length_app. cbn. lia.
  - lia.
  - split; [done|]. cbn. apply Forall_app; split; [done|by repeat constructor].
Qed.

Lemma Forall_insert_in {A} (Q : A → Prop) l i x : Forall Q l → Q x → Forall Q (<[i:=x]> l).
Proof. intros Hl Hx. apply Forall_insert; done. Qed.

Lemma step_begin_keeps P s i out s' :
  service_inv s → in_use P s → step_begin s i = Some (out, s') → keeps P s out s'.
Proof.
  intros [S L C F O Cl] [U1 U2]. unfold step_begin. destruct (sv_handlers s !! i) as [[c| | |]|]; try done.
  destruct (d_cfg (sv_daemon s)) as [cfg|] eqn:Ec; [|done]. intros [= <- <-].
  split; [constructor; cbn; rewrite ?length_insert; rewrite ?Ec; done|]. split; [done|]. split; [|constructor].
  split; cbn; [by rewrite Ec|]. apply Forall_insert_in; auto.
Qed.

Lemma step_handle_keeps P s i t1 t2 out s' :
  service_inv s → in_use P s → step_handle resolve s i t1 t2 = Some (out, s') → keeps P s out s'.
Proof.
  intros [S L C F O Cl] [U1 U2]. unfold step_handle.
  destruct (sv_handlers s !! i) as [[|c cfg| |]|] eqn:Ei; try done.
  assert (P cfg) as HP by exact (proj1 (Forall_lookup _ _) U2 _ _ Ei).
  pose proof (handleConnection_handled (sv_daemon s) cfg c t1 t2) as Hh.
  pose proof (handleConnection_runs resolve (sv_daemon s) cfg c t1 t2) as Hr.
  destruct (handleConnection _ _ _ _ _ _) as [[answers o] d]. cbn [fst snd] in *.
  pose proof (handled_same _ _ _ Hh) as (HS & HU & HC & HX). destruct C as (c0 & C1 & C2).
  pose proof (handled_cache _ _ _ _ Hh C1 C2) as HR.
  assert (∀ h outs, match h with HandlerReading _ cfg => P cfg | _ => True end → Forall (admitted_by P (sv_daemon s)) (runs outs) →
    keeps P s outs (with_handlers s d (<[i:=h]> (sv_handlers s)))) as Hk.
  { intros h outs Hph Ho. split; [constructor; cbn; rewrite ?length_insert, ?HU, ?HC, ?HX; try done|].
    { by destruct HS as (_ & _ & _ & ->). }
    split; [done|]. split; [|done]. split; cbn; [by rewrite HC|]. by apply Forall_insert_in. }
  destruct o as [e|]; intros [= <- <-]; apply Hk; cbn; try done.
  apply Forall_singleton. exists (sv_daemon s), cfg, c, t1, t2. split; [done|]. split; [done|]. by apply Hr.
Qed.

Lemma step_finish_keeps P s i out s' :
  service_inv s → in_use P s → step_finish s i = Some (out, s') → keeps P s out s'.
Proof.
  intros [S L C F O Cl] [U1 U2]. unfold step_finish. destruct (sv_handlers s !! i) as [h|] eqn:Ei; [|done]. intros Hs.
  assert (out = [] ∧ s' = with_handlers s (releaseConnSlot (sv_daemon s)) (delete i (sv_handlers s))) as [-> ->].
  { by destruct h; simplify_eq. }
  apply lookup_lt_Some in Ei as Hlt. unfold releaseConnSlot. destruct (Z.ltb_spec 0 (d_connUsed (sv_daemon s))); [|lia].
  split; [constructor; cbn; try done; rewrite ?length_delete by done; lia|]. split; [done|]. split; [|constructor].
  split; [done|]. cbn. rewrite delete_take_drop. apply Forall_app. split; [by apply Forall_take|by apply Forall_drop].
Qed.

Lemma step_reload_keeps P s loaded io :
  service_inv s → in_use P s → sv_listening s = true → Forall P (loads (EvHangup loaded io)) →
  keeps P s (step_reload s loaded io).1 (step_reload s loaded io).2.
Proof.
  intros [S L (c & C1 & C2) F O Cl] [U1 U2] Hl HP. unfold step_reload.
  pose proof (reloadConfig_same loaded io (sv_node s)) as [HS HU].
  destruct (reloadConfig loaded io (sv_node s)) as [r n] eqn:Er. cbn [fst snd] in *. change (n_daemon (sv_node s)) with (sv_daemon s) in *.
  apply reloadConfig_spec in Er. change (n_daemon (sv_node s)) with (sv_daemon s) in *.
  assert ((∃ c, d_replayCache (n_daemon n) = Some c ∧ replay_inv c) ∧ is_Some (d_cfg (n_daemon n)) ∧
    (∀ cfg, d_cfg (n_daemon n) = Some cfg → P cfg)) as (HR & HC & HU2).
  { destruct r as [[]|].
    - destruct Er as (cfg & -> & [Ec _ _ _ _ Hc]). destruct (Hc _ C1 C2) as (c' & ? & ? & _).
      split; [by exists c'|]. rewrite Ec. split; [done|]. intros cfg' [= <-]. by apply (proj1 (Forall_singleton _ _)) in HP.
    - destruct Er as ((-> & -> & _) & _). split; [by exists c|]. by split. }
  split; [constructor; cbn; try done; unfold sv_daemon in *; cbn|].
  - by rewrite HU.
  - rewrite HU. destruct HS as (_ & _ & _ & ->). done.
  - intros Hf. by rewrite Hl in Hf.
  - split; [done|]. split; [|constructor]. by split.
Qed.

(** Parts of the state that the invariant does not mention. *)
Lemma keeps_refl P s s' :
  service_inv s → in_use P s → sv_node s' = sv_node s ∨ n_daemon (sv_node s') = n_daemon (sv_node s) →
  sv_handlers s' = sv_handlers s → sv_watcher s' = sv_watcher s → sv_signals s' = sv_signals s →
  sv_listening s' = sv_listening s → service_inv s' ∧ in_use P s' ∧ sv_daemon s' = sv_daemon s.
Proof.
  intros [S L C F O Cl] [U1 U2] Hn Hh Hw Hs Hl. assert (sv_daemon s' = sv_daemon s) as Hd.
  { unfold sv_daemon. by destruct Hn as [-> | ->]. }
  split; [|by split; [split; rewrite ?Hd, ?Hh|]]. constructor; rewrite ?Hd, ?Hh, ?Hw, ?Hs, ?Hl; done.
Qed.

Lemma service_step_keeps P s ev out s' :
  service_inv s → in_use P s → Forall P (loads ev) → service_step resolve s ev = Some (out, s') → keeps P s out s'.
Proof.
  intros HI HU HP. unfold service_step. destruct (sv_exited s); [done|]. destruct ev as [c| |i|i t1 t2|i entry|i|loaded io|io|w loaded io].
  - destruct (sv_listening s) eqn:El; [|done]. intros Hs. pose proof (step_connect_keeps P s c HI HU El) as Hk.
    injection Hs as Hs. by rewrite Hs in Hk.
  - destruct (sv_listening s); [done|]. intros [= <- <-].
    destruct (keeps_refl P s (step_exit s)) as (H1 & H2 & H3); [done..|by right|done|done|done|done|].
    split; [done|]. rewrite H3. split; [done|]. split; [done|constructor].
  - by apply step_begin_keeps.
  - by apply step_handle_keeps.
  - unfold step_log. destruct (sv_handlers s !! i) as [[| |e|]|]; try done. destruct (e_auditLogger e) as [l|]; [|done].
    destruct (Log l entry _) as [err a]. intros [= <- <-].
    match goal with |- keeps _ _ _ ?x =>
      destruct (keeps_refl P s x) as (H1 & H2 & H3); [done..|by right|done|done|done|done|] end.
    split; [done|]. rewrite H3. split; [done|]. split; [done|constructor].
  - by apply step_finish_keeps.
  - destruct (sv_signals s) eqn:Es; [|done]. rewrite (si_open _ HI) in Es. intros Hs.
    pose proof (step_reload_keeps P s loaded io HI HU Es HP) as Hk. injection Hs as Hs. by rewrite Hs in Hk.
  - destruct (sv_signals s); [|done]. intros [= <- <-]. unfold step_terminate.
    pose proof (stopHTTPProxy_same io (sv_daemon s)) as (H1 & H2 & H3 & H4 & H5).
    destruct (stopHTTPProxy io _) as [r d]. cbn [snd] in *. destruct HI as [S L C F O Cl], HU as [U1 U2].
    split; [constructor; unfold sv_daemon in *; cbn; rewrite ?H2, ?H3, ?H4; try done|].
    + by destruct H1 as (_ & _ & _ & ->).
    + intros _. by destruct (sv_watcher s).
    + split; [done|]. split; [|constructor]. split; [|done]. unfold sv_daemon in *; cbn. by rewrite H3.
  - destruct (sv_watcher s) as [dir|] eqn:Ew; [|done].
    assert (sv_listening s = true) as El.
    { destruct (sv_listening s) eqn:El; [done|]. destruct (si_closed _ HI El) as [Hw _]. congruence. }
    intros Hs. unfold step_watch in Hs. destruct (watch_step _ _ w) as [deadline reload].
    match type of Hs with context [step_reload ?x _ _] => destruct (keeps_refl P s x) as (H1 & H2 & H3);
      [done..|by left|done|done|done|done|]; set (s1 := x) in * end.
    destruct reload; [|injection Hs as <- <-; split; [done|]; rewrite H3; split; [done|split; [done|constructor]]].
    pose proof (step_reload_keeps P s1 loaded io H1 H2 El HP) as Hk. injection Hs as Hs. rewrite Hs in Hk.
    cbn [fst snd] in Hk. unfold keeps in *. by rewrite H3 in Hk.
Qed.

Lemma runs_app o1 o2 : runs (o1 ++ o2) = runs o1 ++ runs o2.
Proof. apply omap_app. Qed.

Lemma admitted_by_same P d1 d2 e : same_daemon d1 d2 → admitted_by P d2 e → admitted_by P d1 e.
Proof. intros HS (d & cfg & c & t1 & t2 & Hd & Hr). exists d, cfg, c, t1, t2. split; [by etrans|done]. Qed.

Lemma life_keeps P evs s outs s' :
  service_inv s → in_use P s → Forall P (evs ≫= loads) → life resolve s evs = Some (outs, s') → keeps P s outs s'.
Proof.
  revert s outs. induction evs as [|ev evs IH]; intros s outs HI HU HP; cbn [life].
  { intros [= <- <-]. split; [done|]. split; [done|]. split; [done|constructor]. }
  cbn [mbind list_bind] in HP. apply Forall_app in HP as [HP1 HP2].
  destruct (service_step resolve s ev) as [[o1 s1]|] eqn:E1; [|done]. cbn [mbind option_bind].
  apply (service_step_keeps P) in E1 as (HI1 & HS1 & HU1 & HR1); [|done..].
  destruct (life resolve s1 evs) as [[o2 s2]|] eqn:E2; [|done]. intros [= <- <-].
  destruct (IH _ _ HI1 HU1 HP2 E2) as (HI2 & HS2 & HU2 & HR2).
  split; [done|]. split; [by etrans|]. split; [done|]. rewrite runs_app. apply Forall_app. split; [done|].
  eapply Forall_impl; [exact HR2|]. intros e. by apply admitted_by_same.
Qed.

Lemma life_inv evs s outs s' :
  service_inv s → life resolve s evs = Some (outs, s') → service_inv s' ∧ same_daemon (sv_daemon s) (sv_daemon s').
Proof.
  intros HI Hl. apply (life_keeps (λ _, True)) in Hl as (H1 & H2 & _); try done; [|by apply Forall_true].
  split; [done|]. apply Forall_true. by intros [].
Qed.

(** The start establishes the invariant. *)
Lemma start_service_inv su io wn wa n s :
  start_service su io wn wa n = Ok s →
  service_inv s ∧ sv_handlers s = [] ∧ sv_exited s = false ∧ sv_listening s = true ∧
  ∃ cfg, su_load su = Ok cfg ∧ d_cfg (sv_daemon s) = Some cfg ∧ d_connCap (sv_daemon s) = GetMaxConnections cfg ∧
    su_secret su = Ok (d_secret (sv_daemon s)) ∧ d_allowedUID (sv_daemon s) = d_allowedUID (n_daemon n) ∧
    d_allowedBinaries (sv_daemon s) = d_allowedBinaries (n_daemon n).
Proof.
  unfold start_service, Run_startup. intros Hs.
  match type of Hs with context [match ?x with Ok _ => _ | Err e => (Err e, n) end] => destruct x as [cfg|] eqn:Ev; [|done] end.
  assert (su_load su = Ok cfg) as Hload.
  { by repeat (apply bind_Ok in Ev as (? & _ & Ev)); apply wrap_err_Ok in Ev. }
  destruct (AuditLog.New _ _) as [[logger|] a]; [|done].
  match type of Hs with context [match ?x with Ok _ => _ | Err e => (Err e, _) end] => destruct x as [secret|] eqn:Ep; [|done] end.
  assert (su_secret su = Ok secret) as Hsec.
  { apply bind_Ok in Ep as (sec & Hsec%wrap_err_Ok & Ep). repeat (apply bind_Ok in Ep as (? & _ & Ep)). congruence. }
  match type of Hs with context [startHTTPProxy cfg io ?x] => pose proof (startHTTPProxy_same cfg io x) as [HS HU];
    destruct (startHTTPProxy cfg io x) as [r n1] eqn:Est; apply startHTTPProxy_spec in Est as (E1 & E2 & _) end.
  cbn [snd n_daemon set_daemon d_connUsed d_cfg d_replayCache set_cfg update] in HS, HU, E1, E2.
  destruct HS as (S1 & S2 & S3 & S4). cbn in S1, S2, S3, S4.
  destruct (startConfigWatcher _ _ _ _) as [w watcher]. injection Hs as <-.
  pose proof (settings_bounds cfg) as (Hmax & _).
  split; [constructor; unfold sv_daemon; cbn; try done|].
  - rewrite HU, S4. lia.
  - rewrite E2. eexists. split; [done|]. apply (proj1 (replay_inv_preserved (NewReplayCache 0 0) "" 0 _ _)).
  - split_and!; try done. exists cfg. unfold sv_daemon; cbn. rewrite S1. by split_and!.
Qed.

(** ** The replay cache over a life *)

Lemma reload_cache loaded io n :
  let d := n_daemon n in let d' := n_daemon (reloadConfig loaded io n).2 in
  d_replayCache d' = d_replayCache d ∨
  ∃ cfg, loaded = Ok cfg ∧
    d_replayCache d' = (λ c, UpdateSettings c (GetReplayCacheTTL cfg) (GetReplayCacheMaxEntries cfg)) <$> d_replayCache d.
Proof.
  cbv zeta. unfold reloadConfig. destruct loaded as [cfg|]; [|by left].
  destruct (reload_proxy cfg io n) as [r1 n1] eqn:E1. apply reload_proxy_spec in E1 as ((_ & R1 & _) & _).
  destruct r1 as [[]|]; [|by left]. destruct (reload_audit cfg n1) as [r2 n2] eqn:E2.
  apply reload_audit_spec in E2 as ((_ & R2 & _) & _). destruct r2 as [[]|]; cbn; [right|left; congruence].
  exists cfg. split; [done|]. by rewrite R2, R1.
Qed.

(** What one event does to the cache, and when it runs a tool. *)
Lemma step_cache s ev out s' :
  service_step resolve s ev = Some (out, s') →
  (∃ i t1 t2 c cfg, ev = EvHandle i t1 t2 ∧ handled (sv_daemon s) (sv_daemon s') t2 ∧
     Forall (admitted (sv_daemon s) cfg c t1 t2) (runs out)) ∨
  runs out = [] ∧
    (d_replayCache (sv_daemon s') = d_replayCache (sv_daemon s) ∨
     ∃ cfg, cfg ∈ loads ev ∧ d_replayCache (sv_daemon s') =
       (λ c, UpdateSettings c (GetReplayCacheTTL cfg) (GetReplayCacheMaxEntries cfg)) <$> d_replayCache (sv_daemon s)).
Proof.
  unfold service_step. destruct (sv_exited s); [done|]. destruct ev as [c| |i|i t1 t2|i entry|i|loaded io|io|w loaded io].
  - destruct (sv_listening s); [|done]. unfold step_connect, acquireConnSlot.
    destruct (_ <? _); intros [= <- <-]; right; split; try done; by left.
  - destruct (sv_listening s); [done|]. intros [= <- <-]. right. split; [done|by left].
  - unfold step_begin. destruct (_ !! i) as [[]|]; try done. destruct (d_cfg _); [|done]. intros [= <- <-].
    right. split; [done|by left].
  - unfold step_handle. destruct (_ !! i) as [[|c cfg| |]|]; try done. left. exists i, t1, t2, c, cfg. split; [done|].
    pose proof (handleConnection_handled (sv_daemon s) cfg c t1 t2) as Hh.
    pose proof (handleConnection_runs resolve (sv_daemon s) cfg c t1 t2) as Hr.
    destruct (handleConnection _ _ _ _ _ _) as [[answers [e|]] d]; cbn [fst snd] in *; simplify_eq; (split; [done|]); cbn.
    + apply Forall_singleton. by apply Hr.
    + constructor.
  - unfold step_log. destruct (_ !! i) as [[| |e|]|]; try done. destruct (e_auditLogger e); [|done].
    destruct (Log _ _ _). intros [= <- <-]. right. split; [done|by left].
  - unfold step_finish. destruct (_ !! i) as [h|]; [|done]. intros Hs. right.
    assert (out = [] ∧ sv_daemon s' = releaseConnSlot (sv_daemon s)) as [-> ->] by (by destruct h; simplify_eq).
    split; [done|]. left. unfold releaseConnSlot. by destruct (_ <? _).
  - destruct (sv_signals s); [|done]. unfold step_reload. pose proof (reload_cache loaded io (sv_node s)) as Hc.
    destruct (reloadConfig _ _ _) as [r n]. intros [= <- <-]. right. split; [done|]. cbn [snd] in Hc.
    destruct Hc as [Hc|(cfg & -> & Hc)]; [by left|right]. exists cfg. split; [left|done].
  - destruct (sv_signals s); [|done]. unfold step_terminate. pose proof (stopHTTPProxy_same io (sv_daemon s)) as (_ & _ & _ & H4 & _).
    destruct (stopHTTPProxy io _) as [r d]. intros [= <- <-]. right. split; [done|by left].
  - destruct (sv_watcher s); [|done]. unfold step_watch. destruct (watch_step _ _ w) as [deadline reload].
    destruct reload; [|intros [= <- <-]; right; split; [done|by left]].
    unfold step_reload. cbn [sv_node]. pose proof (reload_cache loaded io (sv_node s)) as Hc.
    destruct (reloadConfig _ _ _) as [r n]. intros [= <- <-]. right. split; [done|]. cbn [snd] in Hc.
    destruct Hc as [Hc|(cfg & -> & Hc)]; [by left|right]. exists cfg. split; [left|done].
Qed.

(** The cache holds an entry, and has room for [N] entries when [left] more requests
    are decided. *)
Definition remembers (s : service) (k : string) (exp : time) (N : Z) (left : nat) : Prop :=
  ∃ c, d_replayCache (sv_daemon s) = Some c ∧ rc_entries c !! k = Some exp ∧ rc_entries c !! "" = None ∧
    N ≤ rc_maxEntries c ∧ Z.of_nat (size (rc_entries c) + left) ≤ N.

Definition decides (ev : service_event) : nat := match ev with EvHandle _ _ _ => 1%nat | _ => 0%nat end.
Definition decided_before (exp : time) (ev : service_event) : Prop :=
  match ev with EvHandle _ _ t2 => t2 < exp | _ => True end.
Definition room (N : Z) (ev : service_event) : Prop :=
  Forall (λ cfg, N ≤ clamp_max (GetReplayCacheMaxEntries cfg)) (loads ev).

Lemma trim_small fuel mx m : Z.of_nat (size m) ≤ mx → trim fuel mx m = m.
Proof. destruct fuel; [done|]. intros Hs. cbn. by rewrite (proj2 (Z.ltb_ge _ _)). Qed.

Lemma remembers_step s ev out s' k exp N left :
  remembers s k exp N (decides ev + left) → decided_before exp ev → room N ev →
  service_step resolve s ev = Some (out, s') →
  remembers s' k exp N left ∧
  Forall (λ e, proxy_replay_key (d_allowedUID (sv_daemon s)) (e_req e) ≠ k) (runs out).
Proof.
  intros (c & Hc & Hk & He & HN & Hsz) Ht Hroom
    [(i & t1 & t2 & cn & cfg & -> & Hh & Hr)|[-> Hd]]%step_cache.
  - cbn in Ht, Hsz. destruct Hh as (cache & m & Hd & Hcache). split.
    + destruct Hcache as [->|(key & Hkey & ->)].
      { exists c. rewrite Hd, <- Hc. split_and!; try done. lia. }
      pose proof (SeenOrStore_keeps c k exp key t2 Hk He Ht Hkey) as Hkeep.
      assert (size (dom (rc_entries c) ∪ {[key]} : gset string) ≤ size (rc_entries c) + 1)%nat as Hle.
      { rewrite size_union_alt, <- size_dom. pose proof (subseteq_size ({[key]} ∖ dom (rc_entries c)) ({[key]} : gset string) ltac:(set_solver)).
        rewrite size_singleton in *. lia. }
      destruct Hkeep as (K1 & K2 & K3 & K4); [lia|].
      exists (SeenOrStore c key t2).2. rewrite Hd. cbn. unfold seen. rewrite Hc. rewrite K4.
      destruct (SeenOrStore c key t2) as [b c']. cbn in *. split_and!; try done.
      apply subseteq_size in K3. rewrite size_dom in K3. lia.
    + eapply Forall_impl; [exact Hr|]. intros e (ucred & payload & keys & Had) Heq.
      pose proof (ad_fresh _ _ _ _ _ _ _ _ _ Had) as Hf. destruct (ad_caller _ _ _ _ _ _ _ _ _ Had) as (_ & _ & Huid & _).
      unfold not_replayed in Hf. rewrite Hc, Huid, Heq in Hf. specialize (Hf _ Hk). lia.
  - split; [|constructor]. assert (Z.of_nat (size (rc_entries c) + left) ≤ N) by lia.
    destruct Hd as [Hd|(cfg & Hin & Hd)]; rewrite Hc in Hd; [by exists c|]. eexists. split; [exact Hd|].
    pose proof (proj1 (Forall_forall _ _) Hroom _ Hin) as Hmx. cbn in Hmx |- *.
    rewrite trim_small by lia. by split_and!.
Qed.

Lemma allowedUID_step s ev out s' :
  service_step resolve s ev = Some (out, s') → service_inv s →
  service_inv s' ∧ d_allowedUID (sv_daemon s') = d_allowedUID (sv_daemon s).
Proof.
  intros Hs HI. apply (service_step_keeps (λ _, True)) in Hs as (HI' & (_ & HU & _) & _); [done|done| |by apply Forall_true].
  split; [done|]. apply Forall_true. by intros [].
Qed.

Lemma remembers_life evs s outs s' k exp N :
  service_inv s → remembers s k exp N (sum_list (decides <$> evs)) → Forall (decided_before exp) evs → Forall (room N) evs →
  life resolve s evs = Some (outs, s') →
  Forall (λ e, proxy_replay_key (d_allowedUID (sv_daemon s)) (e_req e) ≠ k) (runs outs).
Proof.
  revert s outs. induction evs as [|ev evs IH]; intros s outs HI Hm HT HR; cbn [life].
  { intros [= <- <-]. constructor. }
  apply Forall_cons in HT as [HT1 HT], HR as [HR1 HR]. cbn [fmap list_fmap sum_list] in Hm.
  destruct (service_step resolve s ev) as [[o1 s1]|] eqn:E1; [|done]. cbn [mbind option_bind].
  destruct (life resolve s1 evs) as [[o2 s2]|] eqn:E2; [|done]. intros [= <- <-].
  destruct (remembers_step _ _ _ _ _ _ _ _ Hm HT1 HR1 E1) as [Hm1 Hr1].
  apply allowedUID_step in E1 as [HI1 HU1]; [|done]. rewrite runs_app. apply Forall_app. split; [done|].
  rewrite <- HU1. by eapply IH.
Qed.

(** A handler that runs a tool has stored its request. *)
Lemma handle_stores s i t1 t2 out e s' c :
  service_step resolve s (EvHandle i t1 t2) = Some (out, s') → e ∈ runs out → d_replayCache (sv_daemon s) = Some c →
  replay_inv c → Z.of_nat (size (rc_entries c)) < rc_maxEntries c →
  remembers s' (proxy_replay_key (d_allowedUID (sv_daemon s)) (e_req e)) (t2 + rc_ttl c) (rc_maxEntries c)
    (Z.to_nat (rc_maxEntries c) - size (rc_entries c) - 1).
Proof.
  intros Hs He Hc (Httl & Hmax & Hsz & Hempty) Hroom. unfold service_step, step_handle in Hs.
  destruct (sv_exited s); [done|]. destruct (sv_handlers s !! i) as [[|cn cfg| |]|]; try done.
  destruct (handleConnection _ _ _ _ _ _) as [[answers [x|]] d] eqn:Eh; simplify_eq; cbn in He;
    [|by apply elem_of_nil in He]. apply list_elem_of_singleton in He as ->.
  pose proof (proj1 (handleConnection_runs resolve (sv_daemon s) cfg cn t1 t2 x)) as Hr. rewrite Eh in Hr.
  destruct (Hr eq_refl) as (ucred & payload & keys & [Hcar [Hk1 Hk2] Hcall Hreq _ _ Hfresh _ _ _]).
  rewrite (handleConnection_dispatch _ _ _ _ _ _ _ _ _ _ Hcar Hcall), (bool_decide_eq_false_2 _ Hk2),
    (bool_decide_eq_true_2 _ Hk1) in Eh.
  pose proof (handleProxyRequest_state (sv_daemon s) payload cfg (uc_PID ucred) (e_callerExe x) (uc_UID ucred) t1 t2 (e_req x) x Hreq) as Hst.
  rewrite Eh in Hst. specialize (Hst eq_refl). cbn in Hst. destruct Hcall as (_ & _ & Huid & _). rewrite Huid in Hst, Hfresh.
  set (k := proxy_replay_key _ _) in *. assert (k ≠ "") as Hk by (by apply keyed_ne).
  unfold not_replayed in Hfresh. rewrite Hc in Hfresh. apply SeenOrStore_false in Hfresh.
  unfold remembers, sv_daemon. cbn. rewrite Hst. unfold seen, sv_daemon in *. rewrite Hc.
  unfold SeenOrStore in *. pose proof (evictExpired_subseteq t2 (rc_entries c)) as Hsub.
  set (m := evictExpiredLocked t2 (rc_entries c)) in *. clearbody m. pose proof (map_subseteq_size _ _ Hsub) as Hms.
  destruct (match m !! k with Some _ => _ | None => _ end); [done|]. cbn.
  rewrite (proj2 (Z.leb_gt _ _)) by lia. eexists. split; [done|]. cbn. split_and!.
  - by rewrite lookup_insert_eq.
  - rewrite lookup_insert_ne by done. by eapply lookup_empty_key.
  - lia.
  - pose proof (size_insert_le m k (Add t2 (rc_ttl c))). lia.
Qed.

(** ** The audit log over a life *)

Lemma reload_audit_closed cfg n : as_closed (n_audit n) ⊆ as_closed (n_audit (reload_audit cfg n).2).
Proof.
  unfold reload_audit. destruct (auditConfigChanged _ _); [|done].
  match goal with |- context [AuditLog.New ?c ?a] => pose proof (New_closed c a) as Hc; assert (as_closed (n_audit n) ⊆ as_closed a) end.
  { destruct (d_auditLogger _); [apply Close_closed|done]. }
  destruct (AuditLog.New _ _) as [[l|] a]; cbn in *; by rewrite Hc.
Qed.

Lemma reloadConfig_closed loaded io n : as_closed (n_audit n) ⊆ as_closed (n_audit (reloadConfig loaded io n).2).
Proof.
  unfold reloadConfig. destruct loaded as [cfg|]; [|done].
  destruct (reload_proxy cfg io n) as [r1 n1] eqn:E1. apply reload_proxy_spec in E1 as (_ & <- & _).
  destruct r1 as [[]|]; [|done]. pose proof (reload_audit_closed cfg n1). by destruct (reload_audit cfg n1) as [[[]|] n2].
Qed.

(** A closed handle stays closed. *)
Lemma service_step_closed s ev out s' :
  service_step resolve s ev = Some (out, s') → as_closed (n_audit (sv_node s)) ⊆ as_closed (n_audit (sv_node s')).
Proof.
  unfold service_step. destruct (sv_exited s); [done|]. destruct ev as [c| |i|i t1 t2|i entry|i|loaded io|io|w loaded io].
  - destruct (sv_listening s); [|done]. unfold step_connect. by destruct (acquireConnSlot _) as [[]]; intros [= <- <-].
  - destruct (sv_listening s); [done|]. intros [= <- <-]. cbn. destruct (sv_deferred s); [apply Close_closed|done].
  - unfold step_begin. destruct (_ !! i) as [[]|]; try done. destruct (d_cfg _); [|done]. by intros [= <- <-].
  - unfold step_handle. destruct (_ !! i) as [[]|]; try done. by destruct (handleConnection _ _ _ _ _ _) as [[? [|]]]; intros [= <- <-].
  - unfold step_log. destruct (_ !! i) as [[| |e|]|]; try done. destruct (e_auditLogger e) as [l|]; [|done].
    pose proof (Log_closed l entry (n_audit (sv_node s))). destruct (Log _ _ _). by intros [= <- <-].
  - unfold step_finish. destruct (_ !! i) as [[]|]; try done; by intros [= <- <-].
  - destruct (sv_signals s); [|done]. unfold step_reload. pose proof (reloadConfig_closed loaded io (sv_node s)).
    destruct (reloadConfig _ _ _). by intros [= <- <-].
  - destruct (sv_signals s); [|done]. unfold step_terminate. destruct (stopHTTPProxy _ _). by intros [= <- <-].
  - destruct (sv_watcher s); [|done]. unfold step_watch. destruct (watch_step _ _ w) as [? []]; [|by intros [= <- <-]].
    unfold step_reload. cbn [sv_node]. pose proof (reloadConfig_closed loaded io (sv_node s)). destruct (reloadConfig _ _ _). by intros [= <- <-].
Qed.

Lemma life_closed evs s outs s' :
  life resolve s evs = Some (outs, s') → as_closed (n_audit (sv_node s)) ⊆ as_closed (n_audit (sv_node s')).
Proof.
  revert s outs. induction evs as [|ev evs IH]; intros s outs; cbn [life]; [by intros [= <- <-]|].
  destruct (service_step resolve s ev) as [[o1 s1]|] eqn:E1; [|done]. cbn [mbind option_bind].
  destruct (life resolve s1 evs) as [[o2 s2]|] eqn:E2; [|done]. intros [= <- <-].
  etrans; [by eapply service_step_closed|by eapply IH].
Qed.

(** A reload that gets past the proxy and sees another audit section closes the audit file. *)
Lemma reload_closes newCfg io n h path :
  d_auditLogger (n_daemon n) = Some (Single h) → h_sink h = SinkFile path →
  auditConfigChanged (d_cfg (n_daemon n)) (Some newCfg) = true → (reload_proxy newCfg io n).1 = Ok tt →
  h_id h ∈ as_closed (n_audit (reloadConfig (Ok newCfg) io n).2).
Proof.
  intros Hl Hs Hch Hp. unfold reloadConfig. destruct (reload_proxy newCfg io n) as [r1 n1] eqn:E1. cbn in Hp. subst r1.
  apply reload_proxy_spec in E1 as ((C1 & _ & _) & A1 & L1 & _).
  assert (h_id h ∈ as_closed (n_audit (reload_audit newCfg n1).2)) as Hin.
  { unfold reload_audit. rewrite C1, Hch, L1, Hl. cbn [Close].
    pose proof (close_one_closes h path (n_audit n1) Hs) as Hc.
    match goal with |- context [AuditLog.New ?c ?a] => pose proof (New_closed c a) as Hn end.
    by destruct (AuditLog.New _ _) as [[l|] a]; cbn in *; rewrite Hn. }
  by destruct (reload_audit newCfg n1) as [[[]|] n2].
Qed.

(** ** Properties *)

(** C22: In every state a daemon reaches, whatever turns its connections, signals,
    file changes and runs take: the tokens taken are the handlers that live, never
    more than the connections the configuration it was started with allows; a new
    connection is turned away exactly when that many live; the replay cache is
    within its bound; and once the listener is closed nothing reloads the
    configuration and no proxy runs. *)
Theorem service_invariant su io wn wa n s evs outs s' cfg :
  start_service su io wn wa n = Ok s → su_load su = Ok cfg → life resolve s evs = Some (outs, s') →
  d_connUsed (sv_daemon s') = Z.of_nat (length (sv_handlers s')) ∧
  Z.of_nat (length (sv_handlers s')) ≤ GetMaxConnections cfg ∧
  (∀ c, (step_connect s' c).1 ≠ [] ↔ Z.of_nat (length (sv_handlers s')) = GetMaxConnections cfg) ∧
  (∃ c, d_replayCache (sv_daemon s') = Some c ∧ replay_inv c) ∧
  (sv_listening s' = false → sv_signals s' = false ∧ sv_watcher s' = None ∧ d_httpProxy (sv_daemon s') = None).
Proof.
  intros (HI & _ & _ & _ & cfg' & Hl & _ & Hcap & _)%start_service_inv Hl' Hlife. assert (cfg' = cfg) as -> by congruence.
  destruct (life_inv _ _ _ _ HI Hlife) as ([S L C F O Cl] & (_ & _ & _ & Hcap')).
  rewrite Hcap', Hcap in L. split_and!; try done; [lia| |].
  - intros c. unfold step_connect, acquireConnSlot. rewrite Hcap', Hcap, S.
    destruct (Z.ltb_spec (Z.of_nat (length (sv_handlers s'))) (GetMaxConnections cfg)); cbn; split; try done; lia.
  - intros Hf. rewrite O, Hf. split; [done|by apply Cl].
Qed.

(** C4: Every tool a daemon runs in its life was admitted: by the secret made when it
    started, for the user and the executables it was made for, on a configuration
    that it loaded, at its start or in a reload. *)
Theorem every_run_admitted su io wn wa n s evs outs s' e :
  start_service su io wn wa n = Ok s → life resolve s evs = Some (outs, s') → e ∈ runs outs →
  ∃ d cfg c t1 t2, admitted d cfg c t1 t2 e ∧ su_secret su = Ok (d_secret d) ∧
    d_allowedUID d = d_allowedUID (n_daemon n) ∧ d_allowedBinaries d = d_allowedBinaries (n_daemon n) ∧
    (su_load su = Ok cfg ∨ cfg ∈ evs ≫= loads).
Proof.
  intros (HI & Hh & _ & _ & cfg & Hl & Hc & _ & Hsec & Huid & Hbin)%start_service_inv Hlife He.
  apply (life_keeps (λ x, su_load su = Ok x ∨ x ∈ evs ≫= loads)) in Hlife as (_ & _ & _ & HR); [|done| |].
  - apply (proj1 (Forall_forall _ _) HR) in He as (d & x & c & t1 & t2 & (S1 & S2 & S3 & _) & HP & Ha).
    exists d, x, c, t1, t2. rewrite S1, S2, S3. by split_and!.
  - split; [|by rewrite Hh]. intros x Hx. left. congruence.
  - apply Forall_forall. intros x Hx. by right.
Qed.

(** C18: No second run. After a daemon has run a request, no request with the same
    signature is run until the time to live of the replay cache is over, whatever
    connections, reloads and other events come in between, as long as the cache,
    at every size a reload gives it, has room for the requests decided. *)
Theorem no_second_run su io wn wa n s0 evs0 outs0 s i t1 t2 out e s1 evs outs s2 c N :
  start_service su io wn wa n = Ok s0 → life resolve s0 evs0 = Some (outs0, s) →
  service_step resolve s (EvHandle i t1 t2) = Some (out, s1) → e ∈ runs out →
  d_replayCache (sv_daemon s) = Some c →
  life resolve s1 evs = Some (outs, s2) → Forall (decided_before (t2 + rc_ttl c)) evs →
  N ≤ rc_maxEntries c → Forall (room N) evs →
  Z.of_nat (size (rc_entries c) + 1 + sum_list (decides <$> evs)) ≤ N →
  Forall (λ e', pr_hmac (e_req e') ≠ pr_hmac (e_req e)) (runs outs).
Proof.
  intros (HI & _)%start_service_inv Hlife0 Hstep He Hc Hlife HT HN HR Hsz.
  destruct (life_inv _ _ _ _ HI Hlife0) as (HI' & _).
  destruct (si_cache _ HI') as (c' & Hc' & Hinv). assert (c' = c) as -> by congruence.
  pose proof (handle_stores _ _ _ _ _ _ _ _ Hstep He Hc Hinv ltac:(lia)) as (c1 & M1 & M2 & M3 & M4 & M5).
  apply allowedUID_step in Hstep as [HI1 HU1]; [|done].
  assert (remembers s1 (proxy_replay_key (d_allowedUID (sv_daemon s1)) (e_req e)) (t2 + rc_ttl c) N
    (sum_list (decides <$> evs))) as Hm.
  { exists c1. rewrite HU1. split_and!; try done; [lia|]. destruct Hinv as (_ & Hmax & _). lia. }
  eapply Forall_impl; [exact (remembers_life _ _ _ _ _ _ _ HI1 Hm HT HR Hlife)|].
  intros e' Hne Heq. apply Hne. unfold proxy_replay_key. by rewrite Heq.
Qed.

(** C34: A reload with another audit section closes the audit file under the tools
    that are running: whatever happens until one of them ends, its audit entry is
    refused and written nowhere. (An entry for the system log is written, see
    [syslog_reconnects].) *)
Theorem reload_drops_audit s newCfg io h path o1 s1 evs outs s2 i e entry :
  d_auditLogger (sv_daemon s) = Some (Single h) → h_sink h = SinkFile path →
  auditConfigChanged (d_cfg (sv_daemon s)) (Some newCfg) = true → (reload_proxy newCfg io (sv_node s)).1 = Ok tt →
  service_step resolve s (EvHangup (Ok newCfg) io) = Some (o1, s1) → life resolve s1 evs = Some (outs, s2) →
  sv_exited s2 = false → sv_handlers s2 !! i = Some (HandlerRunning e) → e_auditLogger e = Some (Single h) →
  ∃ err s3, service_step resolve s2 (EvLog i entry) = Some ([OutLogged (Some err)], s3) ∧
    as_written (n_audit (sv_node s3)) = as_written (n_audit (sv_node s2)).
Proof.
  intros Hl Hs Hch Hp Hstep Hlife Hex Hi He. apply life_closed in Hlife.
  assert (h_id h ∈ as_closed (n_audit (sv_node s1))) as Hin.
  { revert Hstep. unfold service_step. destruct (sv_exited s); [done|]. destruct (sv_signals s); [|done].
    unfold step_reload. pose proof (reload_closes newCfg io (sv_node s) h path Hl Hs Hch Hp).
    destruct (reloadConfig _ _ _) as [r n]. by intros [= <- <-]. }
  unfold service_step, step_log. rewrite Hex, Hi, He. cbn [Log].
  destruct (log_one_closed_file h path entry (n_audit (sv_node s2)) Hs ltac:(set_solver)) as (err & a & -> & Hw).
  by do 2 eexists.
Qed.

(** *** The end, and the way there *)

Lemma closed_step s ev out s' :
  service_inv s → sv_listening s = false → service_step resolve s ev = Some (out, s') →
  match ev with EvConnect _ | EvHangup _ _ | EvTerminate _ | EvWatch _ _ _ => False | _ => True end ∧
  sv_listening s' = false ∧ d_cfg (sv_daemon s') = d_cfg (sv_daemon s).
Proof.
  intros HI Hl. pose proof (si_open _ HI) as Ho. rewrite Hl in Ho. destruct (si_closed _ HI Hl) as [Hw _].
  unfold service_step. rewrite Hl, Ho, Hw. destruct (sv_exited s); [done|].
  destruct ev as [c| |i|i t1 t2|i entry|i|loaded io|io|w loaded io]; try done.
  - by intros [= <- <-].
  - unfold step_begin. destruct (_ !! i) as [[]|]; try done. destruct (d_cfg _) eqn:E; [|done]. by intros [= <- <-].
  - unfold step_handle. destruct (_ !! i) as [[|c cfg| |]|]; try done.
    destruct (handled_same _ _ _ (handleConnection_handled (sv_daemon s) cfg c t1 t2)) as (_ & _ & H3 & _).
    by destruct (handleConnection _ _ _ _ _ _) as [[? [|]]]; intros [= <- <-].
  - unfold step_log. destruct (_ !! i) as [[| |e|]|]; try done. destruct (e_auditLogger e) as [l|]; [|done].
    destruct (Log _ _ _). by intros [= <- <-].
  - unfold step_finish, releaseConnSlot. destruct (_ !! i) as [[]|]; try done; intros [= <- <-]; by destruct (_ <? _).
Qed.

(** After SIGINT or SIGTERM no connection is taken, no reload happens and no proxy
    runs, whatever else happens; the configuration stays. *)
Theorem shutdown_final s io evs outs s' :
  service_inv s → life resolve s (EvTerminate io :: evs) = Some (outs, s') →
  Forall (λ ev, match ev with EvConnect _ | EvHangup _ _ | EvTerminate _ | EvWatch _ _ _ => False | _ => True end) evs ∧
  d_httpProxy (sv_daemon s') = None ∧ d_cfg (sv_daemon s') = d_cfg (sv_daemon s).
Proof.
  intros HI. cbn [life]. destruct (service_step resolve s (EvTerminate io)) as [[o1 s1]|] eqn:E1; [|done].
  cbn [mbind option_bind]. destruct (life resolve s1 evs) as [[o2 s2]|] eqn:E2; [|done]. intros [= <- <-].
  assert (service_inv s1) as HI1 by (by eapply allowedUID_step).
  assert (sv_listening s1 = false ∧ d_cfg (sv_daemon s1) = d_cfg (sv_daemon s)) as [Hl <-].
  { revert E1. unfold service_step. destruct (sv_exited s); [done|]. destruct (sv_signals s); [|done].
    unfold step_terminate. pose proof (stopHTTPProxy_same io (sv_daemon s)) as (_ & _ & H3 & _).
    destruct (stopHTTPProxy _ _). by intros [= <- <-]. }
  clear E1 HI. revert s1 o2 HI1 Hl E2. induction evs as [|ev evs IH]; intros s1 o2 HI1 Hl; cbn [life].
  { intros [= <- <-]. split; [done|]. split; [by apply (si_closed _ HI1)|done]. }
  destruct (service_step resolve s1 ev) as [[o3 s3]|] eqn:E3; [|done]. cbn [mbind option_bind].
  destruct (life resolve s3 evs) as [[o4 s4]|] eqn:E4; [|done]. intros [= <- <-].
  destruct (closed_step _ _ _ _ HI1 Hl E3) as (He & Hl3 & <-).
  apply allowedUID_step in E3 as [HI3 _]; [|done]. destruct (IH _ _ HI3 Hl3 E4) as (HF & H1 & H2).
  split; [by constructor|done].
Qed.

(** The steps a handler has left. *)
Definition steps_left (h : handler) : nat :=
  match h with HandlerNew _ => 3 | HandlerReading _ _ => 2 | _ => 1 end.
Definition total_left (s : service) : nat := sum_list (steps_left <$> sv_handlers s).
Definition handler_event (ev : service_event) : Prop :=
  match ev with EvBegin _ | EvHandle _ _ _ | EvFinish _ => True | _ => False end.

Lemma handler_progress s h hs (t : time) :
  service_inv s → sv_exited s = false → sv_handlers s = h :: hs →
  ∃ ev out s', service_step resolve s ev = Some (out, s') ∧ handler_event ev ∧ sv_exited s' = false ∧
    total_left s = S (total_left s').
Proof.
  intros HI Hex Hh. unfold total_left. rewrite Hh. unfold service_step.
  destruct h as [c|c cfg|e|].
  - destruct (si_cfg _ HI) as [cfg Hc]. exists (EvBegin 0). rewrite Hex. unfold step_begin. rewrite Hh, Hc.
    eexists _, _. split; [reflexivity|]. done.
  - exists (EvHandle 0 t t). rewrite Hex. unfold step_handle. rewrite Hh. cbn.
    destruct (handleConnection _ _ _ _ _ _) as [[answers [e|]] d]; (eexists _, _; split; [reflexivity|done]).
  - exists (EvFinish 0). rewrite Hex. unfold step_finish. rewrite Hh. eexists _, _. split; [reflexivity|done].
  - exists (EvFinish 0). rewrite Hex. unfold step_finish. rewrite Hh. eexists _, _. split; [reflexivity|done].
Qed.

(** From every state the handlers alone, each with at most three more steps, come to
    their end and give all slots back. *)
Theorem slots_return s (t : time) :
  service_inv s → sv_exited s = false →
  ∃ evs outs s', life resolve s evs = Some (outs, s') ∧ sv_handlers s' = [] ∧ d_connUsed (sv_daemon s') = 0 ∧
    Forall handler_event evs ∧ (length evs ≤ 3 * length (sv_handlers s))%nat.
Proof.
  intros HI Hex.
  assert (∃ evs outs s', life resolve s evs = Some (outs, s') ∧ sv_handlers s' = [] ∧ d_connUsed (sv_daemon s') = 0 ∧
    Forall handler_event evs ∧ length evs = total_left s) as (evs & outs & s' & H1 & H2 & H3 & H4 & H5).
  { remember (total_left s) as n eqn:En. revert s HI Hex En. induction n as [|n IH]; intros s HI Hex En;
      destruct (sv_handlers s) as [|h hs] eqn:Eh; unfold total_left in En; rewrite Eh in En; [| |done|].
    2: { by destruct h. }
    - exists [], [], s. pose proof (si_slots _ HI) as HS. rewrite Eh in HS. by split_and!.
    - destruct (handler_progress s h hs t HI Hex Eh) as (ev & o & s1 & Hs & He & Hex1 & Hw).
      assert (S n = total_left s) as En' by (unfold total_left; by rewrite Eh).
      destruct (IH s1) as (evs & outs & s' & L1 & L2 & L3 & L4 & L5); [by eapply allowedUID_step|done|lia|].
      exists (ev :: evs), (o ++ outs), s'. cbn [life]. rewrite Hs. cbn [mbind option_bind]. rewrite L1. cbn.
      split_and!; try done; [by constructor|lia]. }
  exists evs, outs, s'. split_and!; try done. rewrite H5. unfold total_left. clear.
  induction (sv_handlers s) as [|h hs IH]; cbn; [done|]. destruct h; cbn; lia.
Qed.
End laws.
