(* ===== verification/Witnesses.v ===== *)
(** Concrete inputs on which the hypotheses of the theorems hold: a small regular
    expression engine, a byte codec, sample configurations and runs. *)

From S2P Require Import Prelude GoStrings Base64 Json Protocol Framing GoTime Replay Auth Regexp ConfigTypes ArgsPolicy Interpolate Redactor GoPath World OutputBuffer Paths Config Settings ConfigLaws PathRules Env Runtime AuditLog Executor ExecutorLaws RunLaws RunSafety.
Local Open Scope Z_scope.

(** Equality of closed terms by evaluation, without normalizing their types. *)
Ltac vm_refl := match goal with |- _ = ?y => vm_cast_no_check (eq_refl y) end.

(** ** Instances *)

#[local] Existing Instance simple_regexp.

(** Messages that are their own encoding: lines of printable characters. *)
Definition printable (b : bytes) : bool :=
  negb (bool_decide (b = [])) && forallb (λ c, bool_decide (c ≠ "010"%char ∧ c ≠ "013"%char)) b.
Definition line_codec : Codec bytes.
Proof.
  refine {| marshal b := if printable b then Some b else None; unmarshal b := Some b |}; intros v b;
    destruct (printable v) eqn:E; try discriminate; intros Heq; injection Heq as <-; [done|..];
    unfold printable in E; apply andb_true_iff in E as [E1 E2].
  - intros ->. discriminate.
  - apply Forall_forall. intros c Hc. rewrite forallb_forall in E2.
    specialize (E2 c (proj1 (list_elem_of_In _ _) Hc)). by apply bool_decide_eq_true in E2.
Defined.
#[local] Existing Instance line_codec.

#[local] Instance no_durations : DurationParser.
Proof. refine {| parse_duration := λ _, None |}. discriminate. Defined.

#[local] Instance linux : OS :=
  {| os_darwin := false; os_env := {[ "PATH" := "/bin"; "HOME" := "/root"; "USER" := "root" ]};
     os_TempDir := "/tmp"; os_home := Some "/root"; os_executable := λ _, true |}.
#[local] Instance host : Host :=
  {| current_user := None; http_url := λ u p h, "http://" +:+ u +:+ ":" +:+ p +:+ "@" +:+ h |}.
#[local] Instance last_byte_hash : Hash := {| sha256 := λ b, take 32 b |}.

Definition prefix_hmac : bytes → bytes → bytes := λ secret m, secret ++ m.

(** ** Samples *)

Definition no_credentials (name : string) (c : CredentialDef) : result string := Err (Sentinel "none").
Definition const_credential (name : string) (c : CredentialDef) : result string := Ok "s3cret-value".

Definition gh_credential : CredentialDef :=
  {| cd_Source := "env:GH"; cd_Type := ""; cd_AppID := 0; cd_InstallationID := 0; cd_PrivateKey := "";
     cd_APIURL := ""; cd_Permissions := ∅; cd_Repositories := [] |}.

Definition delete_rule : BlockedArg :=
  {| ba_Pattern := "delete"; ba_Message := ""; ba_Match := "arg"; ba_Argv := [];
     ba_Compiled := Compile "delete"; ba_CompiledArgv := [] |}.
Definition list_rule : BlockedArg :=
  {| ba_Pattern := ""; ba_Message := ""; ba_Match := "argv"; ba_Argv := ["repo"; "list"];
     ba_Compiled := None; ba_CompiledArgv := omap (λ p, Compile ("^(?:" +:+ p +:+ ")$")) ["repo"; "list"] |}.

Definition gh_config_file : ConfigFileDef :=
  {| cf_XDGSubdir := "gh/conf"; cf_Filename := "hosts.yml"; cf_Template := "token: {{ .gh }}";
     cf_Credentials := ["gh"] |}.

Definition gh_tool (config : option ConfigFileDef) : ToolDef :=
  {| td_Binary := "/usr/bin/gh"; td_Timeout := ""; td_Env := {[ "GH_TOKEN" := "gh" ]}; td_ForcedEnv := ∅;
     td_Mode := "blocklist"; td_BlockedArgs := [delete_rule]; td_AllowedArgs := []; td_RedactOutput := [];
     td_ConfigFile := config; td_UseProxy := false; td_UsePTY := Some false; td_UseStdin := None;
     td_WorkingDir := "/srv"; td_RequestEnv := None |}.

Definition gh_config (config : option ConfigFileDef) : Config :=
  {| cfg_Proxy := None; cfg_Security := None; cfg_HTTPProxy := None;
     cfg_Audit := Some {| au_Enabled := true; au_File := "/var/log/a.jsonl"; au_Stdout := false;
       au_IncludeArgs := None; au_IncludeOutputHash := None; au_IncludeDuration := None; au_Syslog := false;
       au_SyslogFacility := "" |};
     cfg_Credentials := {[ "gh" := gh_credential ]}; cfg_Tools := {[ "gh" := gh_tool config ]} |}.

Definition gh_request : ProxyRequest :=
  {| pr_version := 4; pr_tool := "gh"; pr_args := Some ["repo"; "list"]; pr_cwd := "/home/u";
     pr_timestamp := "1"; pr_nonce := "n"; pr_hmac := ""; pr_env := {[ "LANG" := "C" ]};
     pr_use_pty := false; pr_window_size := None |}.

Definition gh_executor (config : option ConfigFileDef) : ToolExecutor :=
  {| e_req := gh_request; e_tool := gh_tool config; e_cfg := gh_config config; e_timeout := Minute;
     e_threshold := 16; e_maxOutSz := 0; e_readMsgTO := Second; e_writeTO := Second; e_msgSize := 1000;
     e_proxyAuthToken := ""; e_auditLogger := Some (Single {| h_id := 0; h_sink := SinkStdout |});
     e_callerPID := 7; e_callerExe := "/usr/bin/claw-wrap" |}.

Definition clean_world (root : bool) : world :=
  {| w_files := {[ "/tmp/other" := s2b "x" ]}; w_sent := []; w_calls := []; w_faults := []; w_dirs := ∅; w_root := root |}.
Definition empty_audit : audit_state :=
  {| as_next := 1; as_closed := ∅; as_broken := ∅; as_offline := ∅; as_written := []; as_faults := [] |}.

(** The tool prints twice its credential, the second time past the inline
    threshold, gets an interrupt, and exits with code 3. *)
Definition gh_schedule : schedule :=
  {| sd_start := Unix 1770546600; sd_elapsed := 5 * Second; sd_workdir_missing := false; sd_pid := 42;
     sd_running := [EvOutput Sout (s2b "a s3cret-value"); EvOutput Serr (s2b "warn");
       EvMessage {| wm_type := "signal"; wm_data := ""; wm_eof := false; wm_signal := "SIGINT"; wm_files := [];
         wm_rows := 0; wm_cols := 0 |}];
     sd_outcome := Exited 3; sd_grace := [];
     sd_drain := [EvOutput Sout (s2b "and s3cret-value"); EvOutputEnd Sout; EvOutputEnd Serr];
     sd_late := []; sd_after := [EvMessageEnd] |}.

Definition gh_run (config : option ConfigFileDef) (root : bool) : option error * run_state :=
  Run const_credential (gh_executor config) gh_schedule (init_state (clean_world root) empty_audit).

Definition run_types (r : option error * run_state) : list string := rm_type <$> w_sent (x_w r.2).
Example gh_run_messages :
  run_types (gh_run (Some gh_config_file) true) = ["stdout"; "stderr"; "stdout"; "done"].
Proof. vm_compute. reflexivity. Qed.

(** ** Framing *)

Definition two_lines : list bytes := [s2b "{1}"; s2b "{22}"].

Lemma Decode_Encode_stream_witness :
  ∃ sent, EncodeAll [] two_lines = (sent, Ok tt) ∧
    (DecodeMany 2 {| rd_data := sent ++ s2b "rest"; rd_fin := io_EOF |}).1 = Ok <$> two_lines.
Proof.
  assert (EncodeAll [] two_lines = ((EncodeAll [] two_lines).1, Ok tt)) as HE by (vm_compute; reflexivity).
  destruct (Decode_Encode_stream two_lines [] _ (s2b "rest") io_EOF HE) as (sent & E & D).
  exists sent. split; [|exact (f_equal fst D)]. rewrite HE. f_equal. exact E.
Defined.

Lemma Decode_truncated_witness :
  (Decode (T := bytes) {| rd_data := take 5 (frame (s2b "{1}")); rd_fin := io_EOF |}).1 =
    Err (Errorf "truncated message: expected %d bytes" [FZ 3]).
Proof.
  apply (Decode_truncated (T := bytes) (s2b "{1}") (take 5 (frame (s2b "{1}"))) (drop 5 (frame (s2b "{1}"))));
    [vm_compute; split; congruence|vm_compute; reflexivity|vm_compute; congruence].
Defined.

Lemma NDJSON_roundtrip_witness :
  let out := (WriteAll [] two_lines).1 in
  (ReadMany (T := bytes) 3 (NewNDJSONReaderWithLimit {| rd_data := out; rd_fin := io_EOF |} 64)).1 =
    (Ok <$> two_lines) ++ [Err io_EOF].
Proof.
  apply (NDJSON_roundtrip (T := bytes) two_lines (WriteAll [] two_lines).1 64); [vm_compute; reflexivity|].
  repeat constructor; intros data Hd; vm_compute in Hd; injection Hd as <-; vm_compute; reflexivity.
Defined.

(** ** Replay cache *)

Lemma replay_inv_preserved_witness :
  replay_inv (SeenOrStore (NewReplayCache (2 * Minute) 2) "k" 5).2.
Proof.
  destruct (replay_inv_preserved (NewReplayCache (2 * Minute) 2) "k" 5 (2 * Minute) 2) as (H1 & H2 & _).
  apply H2; [exact H1|done].
Defined.

Lemma replay_rejected_witness :
  let c := NewReplayCache (2 * Minute) 4 in
  (SeenOrStore (replay_run (SeenOrStore c "a" 0).2 [("b", 1); ("c", 2)]).2 "a" 3).1 = true.
Proof.
  apply (replay_rejected (NewReplayCache (2 * Minute) 4) "a" 0 [("b", 1); ("c", 2)] 3).
  - split; [done|]. split; [done|]. by vm_compute.
  - done.
  - vm_compute. reflexivity.
  - repeat constructor; by vm_compute.
  - vm_compute. reflexivity.
  - vm_compute. lia.
Defined.

(** ** Authentication *)

Definition sample_signed : signed :=
  {| sg_timestamp := "1770546600"; sg_tool := "gh"; sg_args := Some ["repo"]; sg_cwd := "/w";
     sg_env := {[ "A" := "b" ]}; sg_nonce := "n1"; sg_pty := false |}.

Lemma no_newline s : forallb (λ c, negb (bool_decide (c = newline))) (s2b s) = true → newline ∉ s2b s.
Proof.
  intros HF Hin. rewrite forallb_forall in HF. apply list_elem_of_In, HF in Hin.
  by rewrite bool_decide_eq_true_2 in Hin.
Qed.

Lemma sample_plain : plain sample_signed.
Proof.
  unfold plain. do 4 (split; [apply no_newline; reflexivity|]). split; [vm_compute; reflexivity|].
  intros k v Hk. change (sg_env sample_signed) with ({["A" := "b"]} : gmap string string) in Hk.
  apply lookup_singleton_Some in Hk as [<- <-]. split; vm_compute; reflexivity.
Qed.

(** The signature of a request that lists its environment in another order. *)
Definition same_signed : signed :=
  {| sg_timestamp := "1770546600"; sg_tool := "gh"; sg_args := Some ["repo"]; sg_cwd := "/w";
     sg_env := delete "B" {[ "B" := "c"; "A" := "b" ]}; sg_nonce := "n1"; sg_pty := false |}.

Lemma signature_binds_request_witness :
  VerifyHMACWithPTY prefix_hmac (Unix 1770546600) (s2b "k") same_signed
    (ComputeHMACWithPTY prefix_hmac (s2b "k") sample_signed) = Ok tt ∧ sample_signed = same_signed.
Proof.
  assert (VerifyHMACWithPTY prefix_hmac (Unix 1770546600) (s2b "k") same_signed
    (ComputeHMACWithPTY prefix_hmac (s2b "k") sample_signed) = Ok tt) as E by vm_refl.
  assert (plain same_signed) as Hp.
  { unfold plain. do 4 (split; [apply no_newline; reflexivity|]). split; [vm_compute; reflexivity|].
    intros k v Hk. change (sg_env same_signed) with (delete "B" {["B" := "c"; "A" := "b"]} : gmap string string) in Hk.
    apply lookup_delete_Some in Hk as [Hn Hk]. rewrite lookup_insert_ne in Hk by done.
    apply lookup_singleton_Some in Hk as [<- <-]. split; vm_compute; reflexivity. }
  split; [exact E|].
  destruct (signature_binds_request prefix_hmac (Unix 1770546600) (Unix 1770546600) (s2b "k") sample_signed
    same_signed (ComputeHMACWithPTY prefix_hmac (s2b "k") sample_signed) sample_plain Hp ltac:(vm_refl) E)
    as [Hr|[Hne Hc]]; [exact Hr|].
  exfalso. apply Hne. by apply app_inv_head in Hc.
Defined.

Lemma ValidateTimestamp_fresh_witness :
  ValidateTimestamp (Unix 1770546604) "1770546600" = Ok tt.
Proof.
  apply (ValidateTimestamp_fresh (Unix 1770546604) "1770546600" 1770546600);
    [vm_compute; reflexivity|vm_compute; split; congruence|vm_compute; congruence].
Defined.

(** ** Argument policy *)

Lemma gh_compiled : compiled_tool (gh_tool None).
Proof.
  split; [|split; [constructor|by left]]. constructor; [|constructor]. left. split; [by left|]. vm_compute. by eexists.
Qed.

Lemma checkToolArgs_iff_witness :
  let '(ok, _) := checkToolArgs ["repo"; "list"] (gh_tool None) in
  ok = true ∧ Forall (λ r, ¬ rule_holds ["repo"; "list"] r) (td_BlockedArgs (gh_tool None)).
Proof.
  pose proof (checkToolArgs_iff ["repo"; "list"] (gh_tool None) gh_compiled) as H.
  assert ((checkToolArgs ["repo"; "list"] (gh_tool None)).1 = true) as E by (vm_compute; reflexivity).
  destruct (checkToolArgs _ _) as [ok msg]. split; [exact E|]. by apply H.
Defined.

Lemma checkToolArgs_fail_closed_witness :
  Forall (λ r, is_Some (ba_Compiled r) ∧ ba_Match r ≠ BlockedArgMatchArgv ∧ ¬ rule_holds ["repo"] r)
    (td_BlockedArgs (gh_tool None)).
Proof.
  apply (checkToolArgs_fail_closed ["repo"] (gh_tool None)). vm_compute. reflexivity.
Defined.

Definition argv_rule : BlockedArg :=
  {| ba_Pattern := ""; ba_Message := ""; ba_Match := "argv"; ba_Argv := []; ba_Compiled := None;
     ba_CompiledArgv := [] |}.

(** ** Interpolation *)

Lemma ResolveEnvValue_validated_witness :
  is_ok (ResolveEnvValue "user:{{ gh }}" {[ "gh" ]} (λ _, Ok "v")) = true.
Proof.
  apply (ResolveEnvValue_validated "user:{{ gh }}" {[ "gh" ]} (λ _, Ok "v")); [vm_compute; reflexivity|done].
Defined.

(** ** Redaction *)

Definition redactor_of (secrets : list string) : OutputRedactor :=
  default {| r_secrets := []; r_secretCarry := []; r_rules := []; r_carry := []; r_overlap := 0 |} (NewOutputRedactorWithSecrets [] secrets).

Definition sample_redactor : OutputRedactor := redactor_of ["s3cret-value"].
Lemma sample_redactor_made : NewOutputRedactorWithSecrets [] ["s3cret-value"] = Some sample_redactor.
Proof. vm_refl. Qed.

Lemma redact_chunk_independent_witness :
  b2s (redact_stream sample_redactor [s2b "x s3cre"; s2b "t-value y"]) = "x [REDACTED] y".
Proof.
  rewrite (redact_chunk_independent ["s3cret-value"] sample_redactor
    [s2b "x s3cre"; s2b "t-value y"] sample_redactor_made).
  vm_compute. reflexivity.
Defined.

Lemma redact_no_secret_witness :
  let b := s2b "s3crets3cret-value!" in
  redact_tokens (length b) (r_secrets sample_redactor) b ≠ [] ++ (Some <$> s2b "s3cret-value") ++ [Some "!"%char].
Proof.
  intros b.
  refine (redact_no_secret [] ["s3cret-value"] sample_redactor "s3cret-value" b [] [Some "!"%char] sample_redactor_made _ _);
    [by left|vm_compute; congruence].
Defined.

Lemma redactRules_carry_witness :
  blen (r_carry (redactRules sample_redactor (s2b "abc") true).2) = 0.
Proof.
  pose proof (redactRules_carry sample_redactor (s2b "abc") true ltac:(vm_compute; congruence)
    ltac:(vm_compute; congruence)) as H.
  destruct (redactRules sample_redactor (s2b "abc") true) as [out r'].
  destruct H as (_ & _ & H). simpl. by rewrite H.
Defined.

(** ** Output buffers *)

Definition small_buffer : OutputBuffer :=
  SetTee (SetRedactor (NewOutputBuffer "stdout" 8 100) (Some sample_redactor)).
Definition small_chunks : list bytes := [s2b "a s3cret"; s2b "-value b"; s2b "longer tail"].
Definition buffer_world : world := clean_world false.

Lemma small_buffer_inv : buffer_inv small_buffer buffer_world.
Proof. split; [reflexivity|]. split; [by intros t [= <-]|]. split; [done|]. split; [done|]. done. Qed.

Lemma small_bound :
  blen (byte_log small_buffer buffer_world) + blen (emitted (ob_redactor small_buffer) small_chunks) ≤ max_int64.
Proof. apply Z.leb_le. vm_compute. reflexivity. Qed.

Lemma triple_eq {A B C} (x : A * B * C) a : x.1.1 = a → x = (a, x.1.2, x.2).
Proof. by intros <-; destruct x as [[? ?] ?]. Qed.

Definition small_run := write_all small_buffer small_chunks buffer_world.
Definition small_final := Finalize small_run.1.2 small_run.2.

Lemma output_transparent_witness :
  small_run.1.1 = Ok tt ∧ small_final.1.1 = Ok "/tmp/claw-wrap-stdout-" ∧
  b2s (byte_log small_final.1.2 small_final.2) = "a [REDACTED] blonger tail".
Proof.
  assert (small_run.1.1 = Ok tt) as E1 by vm_refl.
  assert (small_final.1.1 = Ok "/tmp/claw-wrap-stdout-") as E2 by vm_refl.
  split; [exact E1|]. split; [exact E2|].
  destruct (output_transparent small_buffer buffer_world small_chunks _ _ _ _ _
    small_buffer_inv small_bound (triple_eq _ _ E1) (triple_eq _ _ E2)) as (-> & _ & _ & _).
  vm_refl.
Defined.

Lemma output_bounded_witness :
  let '(_, b', w') := write_all small_buffer small_chunks buffer_world in
  blen (byte_log b' w') ≤ 100.
Proof.
  destruct (write_all small_buffer small_chunks buffer_world) as [[r b'] w'] eqn:E.
  destruct (output_bounded small_buffer buffer_world small_chunks r b' w' small_buffer_inv small_bound E)
    as (_ & H & _ & _). by apply H.
Defined.

(** ** Configuration *)

Lemma ok_ex {A} (r : result A) : is_ok r = true → ∃ a, r = Ok a.
Proof. destruct r; [by eexists|done]. Qed.

Lemma Validate_good_tools_witness :
  ∃ c', Validate (gh_config (Some gh_config_file)) = Ok c' ∧
    ∀ name t, cfg_Tools c' !! name = Some t → good_tool (cfg_Credentials c') name t.
Proof.
  destruct (ok_ex (Validate (gh_config (Some gh_config_file))) ltac:(vm_refl)) as [c' E].
  exists c'. split; [exact E|]. exact (proj1 (Validate_good_tools _ _ E)).
Defined.

Lemma safe_path_contained_witness :
  PathJoin [root_path [s2b "tmp"; s2b "d"]; "gh/conf"] = root_path [s2b "tmp"; s2b "d"] +:+ "/gh/conf".
Proof.
  apply (safe_path_contained "gh/conf" true [s2b "tmp"; s2b "d"]); [vm_compute; reflexivity|].
  split; [done|]. split; repeat constructor; by apply (bool_decide_eq_true_1 _); vm_compute.
Defined.

Lemma compileHostPattern_exact_witness :
  ∃ re, compileHostPattern "*.GitHub.com" = Ok re ∧
    (MatchString re "api.github.com" = true ↔
     ∃ label, runes "api.github.com" = label ++ runes ".github.com" ∧ label ≠ [] ∧ Forall (λ r, r ≠ 46) label).
Proof.
  destruct (ok_ex (compileHostPattern "*.GitHub.com") ltac:(vm_refl)) as [re E].
  exists re. split; [exact E|].
  exact (compileHostPattern_exact "*.GitHub.com" re E ltac:(vm_refl) "api.github.com").
Defined.

Lemma compilePathRule_exact_witness :
  ∃ rule, compilePathRule "get /repos/*/**" = Ok rule ∧ rule_Method rule = "GET" ∧
    (MatchString (rule_Pattern rule) "/repos/a/x/y" = true ↔
     path_glob any_rune (runes "/repos/*/**") (runes "/repos/a/x/y")) ∧
    MatchString (rule_Pattern rule) "/repos/a/x/y" = true ∧ MatchString (rule_Pattern rule) "/repos//x" = false.
Proof.
  destruct (compilePathRule_exact "get /repos/*/**" "GET" "/repos/*/**") as (rule & E & M & H).
  - vm_refl.
  - discriminate.
  - right. left.
  - vm_refl.
  - assert (MatchString (rule_Pattern rule) "/repos/a/x/y" = true ∧ MatchString (rule_Pattern rule) "/repos//x" = false) as [E1 E2].
    { apply (f_equal (λ r, match r with Ok r => MatchString (rule_Pattern r) "/repos/a/x/y"
        && negb (MatchString (rule_Pattern r) "/repos//x") | Err _ => false end)) in E.
      match type of E with ?a = _ => assert (a = true) as Ht by vm_refl; rewrite Ht in E end.
      symmetry in E. by apply andb_true_iff in E as [E1 E2%negb_true_iff]. }
    assert (newline_rune ∉ runes "/repos/a/x/y") as Hn.
    { intros Hin%(bool_decide_eq_true_2 (newline_rune ∈ runes "/repos/a/x/y")). revert Hin. vm_compute. discriminate. }
    destruct (H "/repos/a/x/y") as (H1 & _ & _). exists rule. split_and!; [exact E|exact M|exact (H1 Hn)|exact E1|exact E2].
Defined.

Lemma argv_rule_exact_witness :
  ∃ r, compileArgRule list_rule "allowed_args" true = Ok r ∧ rule_holds ["repo"; "list"] r ∧
    ¬ rule_holds ["repo"; "list"; "x"] r.
Proof.
  destruct (ok_ex (compileArgRule list_rule "allowed_args" true) ltac:(vm_refl)) as [r E].
  assert (is_ok (compileArgRule list_rule "allowed_args" true ≫= λ r,
    if bool_decide (ba_Match r = BlockedArgMatchArgv) then Ok tt else Err io_EOF) = true) as Em by vm_refl.
  rewrite E in Em. simpl in Em. destruct (bool_decide_reflect (ba_Match r = BlockedArgMatchArgv)) as [Hm|]; [|done].
  destruct (mapM Compile (ba_Argv list_rule)) as [res|] eqn:Ec.
  2: { assert (bool_decide (is_Some (mapM Compile (ba_Argv list_rule))) = true) as Hc by vm_refl.
       rewrite Ec in Hc. discriminate. }
  assert (∀ args, rule_holds args r ↔ Forall2 (λ re a, FullMatch re a = true) res args) as HR.
  { intros args. exact (argv_rule_exact list_rule "allowed_args" r args res E Hm Ec). }
  assert (res = default [] (mapM Compile (ba_Argv list_rule))) as -> by by rewrite Ec.
  exists r. split; [exact E|]. rewrite !HR. split.
  - cbn [default list_rule ba_Argv mapM]. do 2 (constructor; [vm_refl|]). constructor.
  - intros HF%Forall2_length. assert (length (default [] (mapM Compile (ba_Argv list_rule))) = 2%nat) as Hl by vm_refl.
    rewrite Hl in HF. discriminate.
Defined.

(** ** The environment of a tool *)

Lemma plain_singleton k v : forallb (λ c, negb (bool_decide (c = "="%char))) (s2b k) = true →
  plain_keys {[k := v]}.
Proof.
  intros HF k' v' Hk. apply lookup_singleton_Some in Hk as [<- _]. intros Hin.
  rewrite forallb_forall in HF. apply list_elem_of_In, HF in Hin. by rewrite bool_decide_eq_true_2 in Hin.
Qed.

Lemma plain_empty : plain_keys ∅.
Proof. intros k v Hk. by apply lookup_empty_Some in Hk. Qed.

Definition gh_env : env_input :=
  {| ei_tool := gh_tool None; ei_cfg := gh_config None; ei_req_env := {[ "LD_PRELOAD" := "/tmp/e.so" ]};
     ei_req_pty := false; ei_configDir := ""; ei_proxyAuthToken := "" |}.

Lemma request_env_noninterference_witness :
  match buildEnvironment const_credential gh_env [],
        buildEnvironment const_credential (with_request gh_env ∅) [] with
  | Ok (env1, s1), Ok (env2, s2) =>
      child_getenv env1 "LD_PRELOAD" = child_getenv env2 "LD_PRELOAD" ∧
      child_getenv env1 "GH_TOKEN" = child_getenv env2 "GH_TOKEN"
  | _, _ => False
  end.
Proof.
  pose proof (request_env_noninterference const_credential gh_env []
    (plain_singleton "GH_TOKEN" "gh" ltac:(vm_refl)) plain_empty
    (plain_singleton "LD_PRELOAD" "/tmp/e.so" ltac:(vm_refl))) as H.
  assert (is_ok (buildEnvironment const_credential gh_env []) = true) as E by vm_refl.
  destruct (buildEnvironment const_credential gh_env []) as [[env1 s1]|e1]; [|discriminate].
  destruct (buildEnvironment _ (with_request gh_env ∅) []) as [[env2 s2]|e2]; [|done].
  destruct H as [_ H]. split; apply H.
  - intros Hin. apply list_elem_of_In in Hin. by repeat destruct Hin as [Hin|Hin].
  - left. vm_refl.
  - intros Hin. apply list_elem_of_In in Hin. by repeat destruct Hin as [Hin|Hin].
  - right; left. apply (bool_decide_eq_true_1 ("GH_TOKEN" ∈ admin_keys (gh_tool None))). vm_refl.
Defined.

Definition bypass_env : env_input :=
  {| ei_tool := gh_tool None; ei_cfg := gh_config None; ei_req_env := {[ "BASH_ENV=/tmp/x" := "y" ]};
     ei_req_pty := false; ei_configDir := ""; ei_proxyAuthToken := "" |}.

Lemma request_env_bypass_witness :
  ∃ env s, buildEnvironment const_credential bypass_env [] = Ok (env, s) ∧
    child_getenv env "BASH_ENV" = Some "/tmp/x=y".
Proof.
  destruct (ok_ex (buildEnvironment const_credential bypass_env []) ltac:(vm_refl)) as [[env s] E].
  exists env, s. split; [exact E|].
  refine (proj2 (request_env_bypass const_credential bypass_env [] env s "y" eq_refl eq_refl
    (plain_singleton "GH_TOKEN" "gh" ltac:(vm_refl)) plain_empty _ E)).
  apply (bool_decide_eq_false_1 ("BASH_ENV" ∈ admin_keys (gh_tool None))). vm_refl.
Defined.

(** ** Audit *)

Definition two_sinks : list handle :=
  [{| h_id := 0; h_sink := SinkFile "/var/log/a" |}; {| h_id := 1; h_sink := SinkStdout |}].
Definition sample_entry : Entry :=
  {| en_Timestamp := ""; en_Tool := "gh"; en_Args := None; en_Cwd := "/"; en_CallerPID := 1; en_CallerExe := "";
     en_ExitCode := 0; en_Timeout := false; en_DurationMs := 0; en_OutputHash := ""; en_OutputBytes := 0 |}.

Lemma MultiLogger_all_sinks_witness :
  let s := {| as_next := 2; as_closed := {[0%nat]}; as_broken := ∅; as_offline := ∅; as_written := []; as_faults := [] |} in
  as_written (Log (MultiLogger two_sinks) sample_entry s).2 = [({| h_id := 1; h_sink := SinkStdout |}, sample_entry)].
Proof.
  intros s. pose proof (MultiLogger_all_sinks two_sinks sample_entry s eq_refl
    (bool_decide_eq_true_1 (NoDup (h_id <$> two_sinks)) eq_refl)) as H.
  destruct (Log (MultiLogger two_sinks) sample_entry s) as [err s']. destruct H as [H _].
  cbn [snd]. rewrite H. vm_refl.
Defined.

(** ** Runs *)

Lemma gh_valid config : config = None ∨ config = Some gh_config_file → valid_config_file (gh_executor config).
Proof. intros [-> | ->] def Hd; [discriminate|]. injection Hd as <-. vm_refl. Qed.

Lemma Run_one_terminal_witness :
  reports gh_schedule (clean_world true) (gh_run (Some gh_config_file) true).2.
Proof.
  exact (Run_one_terminal const_credential (gh_executor (Some gh_config_file)) gh_schedule (clean_world true)
    empty_audit _ _ (surjective_pairing _) (gh_valid _ (or_intror eq_refl))).
Defined.

Lemma Run_cleans_up_witness :
  let s := (gh_run (Some gh_config_file) true).2 in
  (∀ p, is_Some (w_files (x_w s) !! p) → is_Some (w_files (clean_world true) !! p)) ∧
  p_signals (x_proc s) = [SIGINT; SIGKILL].
Proof.
  intros s.
  destruct (Run_cleans_up const_credential (gh_executor (Some gh_config_file)) gh_schedule (clean_world true)
    empty_audit _ _ (surjective_pairing _) (gh_valid _ (or_intror eq_refl)))
    as (_ & _ & _ & _ & _ & _ & cs & _ & HF & _ & _ & HN).
  split; [|vm_refl]. intros p Hp. destruct (HF p Hp) as [H|H]; [exact H|].
  by destruct (removal_not_refused cs p (HN eq_refl)).
Defined.

Lemma Run_launches_witness :
  ∃ l, p_launch (x_proc (gh_run None false).2) = Some l ∧ l_binary l = "/usr/bin/gh" ∧
    l_args l = ["repo"; "list"] ∧ l_dir l = "/srv".
Proof.
  destruct (p_launch (x_proc (gh_run None false).2)) as [l|] eqn:El.
  - exists l. split; [done|].
    destruct (Run_launches const_credential (gh_executor None) gh_schedule (clean_world false)
      empty_audit _ _ l (surjective_pairing _) (gh_valid _ (or_introl eq_refl)) El) as (H1 & H2 & H3 & _).
    split; [exact H1|]. split; [exact H2|exact H3].
  - assert (bool_decide (is_Some (p_launch (x_proc (gh_run None false).2))) = true) as E by vm_refl.
    rewrite El in E. discriminate.
Defined.

Lemma Run_audited_witness :
  ∃ a en, cfg_Audit (gh_config None) = Some a ∧ entry_of (gh_executor None) a 3 false en ∧
    as_written (x_audit (gh_run None false).2) = [({| h_id := 0; h_sink := SinkStdout |}, en)].
Proof.
  pose proof (Run_audited const_credential (gh_executor None) gh_schedule (clean_world false)
    empty_audit _ _ (surjective_pairing _) (gh_valid _ (or_introl eq_refl))) as H.
  fold (gh_run None false) in H. unfold audited in H.
  destruct (p_launch (x_proc (gh_run None false).2)) as [l|] eqn:El.
  - destruct H as (en & He & Ha). eexists _, en. split; [reflexivity|]. split; [exact He|]. rewrite Ha. reflexivity.
  - assert (bool_decide (is_Some (p_launch (x_proc (gh_run None false).2))) = true) as E by vm_refl.
    rewrite El in E. discriminate.
Defined.

Lemma config_file_needs_root_witness :
  p_launch (x_proc (gh_run (Some gh_config_file) false).2) = None ∧
  w_sent (x_w (gh_run (Some gh_config_file) false).2) = [error_msg "internal error"].
Proof.
  refine (proj2 (config_file_needs_root const_credential (gh_executor (Some gh_config_file)) gh_schedule
    (clean_world false) empty_audit gh_config_file _ _ (surjective_pairing _) eq_refl _ eq_refl eq_refl eq_refl _ eq_refl)).
  - vm_refl.
  - vm_refl.
Defined.
