(* ===== verification/ServiceWitnesses.v ===== *)
(** Concrete inputs for the theorems on the daemon's service: its connections,
    reloads, credentials and HTTP proxy. *)

From S2P Require Import Prelude GoStrings Base64 Json Protocol Framing GoTime GoNet Replay Auth Regexp ConfigTypes GoPath.
From S2P Require Import Paths CredCache Sources Fetch Resolve ResolveLaws ArgsPolicy Interpolate World Config Settings.
From S2P Require Import ConfigLaws PathRules HttpProxy HttpProxyLaws SecretFile Env Runtime AuditLog Executor Daemon.
From S2P Require Import DaemonLaws ReloadLaws Witnesses.
Local Open Scope Z_scope.

#[local] Existing Instance simple_regexp.
#[local] Existing Instance no_durations.
#[local] Existing Instance linux.
#[local] Existing Instance host.
#[local] Existing Instance last_byte_hash.

(** ** Messages *)

(** A codec that reads a few given texts. *)
Fixpoint read_text {T} (texts : list (string * T)) (b : bytes) : option T :=
  match texts with
  | [] => None
  | (text, v) :: texts => if bool_decide (b = s2b text) then Some v else read_text texts b
  end.
Definition table_codec {T} (texts : list (string * T)) : Codec T.
Proof. refine {| marshal v := None; unmarshal := read_text texts |}; discriminate. Defined.

(** The request of [Witnesses.v], signed with the daemon's secret. *)
Definition secret_key : bytes := s2b "k".
Definition signed_request : ProxyRequest :=
  with_hmac gh_request (ComputeHMACWithPTY prefix_hmac secret_key (signed_of gh_request)).
Definition proxy_codec : Codec ProxyRequest :=
  table_codec [("run", signed_request); ("again", with_hmac signed_request (pr_hmac signed_request +:+ line_break))].
#[local] Existing Instance proxy_codec.

Definition check_request : AdminRequest :=
  {| ar_admin := "check"; ar_version := 4; ar_timestamp := "1"; ar_nonce := "n";
     ar_hmac := ComputeHMAC prefix_hmac secret_key "1" "admin:check" "" None "n" |}.
Definition admin_codec : Codec AdminRequest := table_codec [("check", check_request)].
#[local] Existing Instance admin_codec.

(** Every process is [/usr/bin/claw-wrap], process 9 excepted. *)
#[local] Instance peers : Peers :=
  {| readlink_exe pid := if pid =? 9 then Ok "/bin/sh" else Ok "/usr/bin/claw-wrap";
     read_cmdline _ := Ok (s2b ("/usr/bin/claw-wrap" +:+ NULs +:+ "check"));
     EvalSymlinks p := Ok p; filepath_Abs p := Ok p; hmac_sha256 := prefix_hmac;
     json_object b := if bool_decide (b = s2b "check") then Some {["hmac"; "admin"]}
                      else if bool_decide (b = s2b "run") then Some {["hmac"]} else None |}.

Definition sample_daemon : Daemon :=
  let d := daemon_New (Ok "/usr/bin/claw-wrap") ["/usr/bin/claw-wrap"] 1000 [WithVersion "1.0"] in
  {| d_socketPath := d_socketPath d; d_configPath := d_configPath d; d_allowedUID := d_allowedUID d;
     d_runtimeGID := d_runtimeGID d; d_authFileMode := d_authFileMode d; d_socketFileMode := d_socketFileMode d;
     d_allowedBinaries := d_allowedBinaries d; d_version := d_version d; d_secret := secret_key;
     d_cfg := Some (gh_config None); d_connCap := 2; d_connUsed := 0;
     d_replayCache := Some (NewReplayCache (2 * Minute) 100); d_metrics := ∅; d_httpProxy := None;
     d_proxyAuthToken := ""; d_proxyAuthTokenPath := "/run/openclaw/proxy-token"; d_auditLogger := None |}.

Definition conn_of (text : string) (pid uid : Z) : conn :=
  {| cn_read := ReadData (s2b text); cn_unix := true;
     cn_peer := Ok {| uc_PID := pid; uc_UID := uid; uc_GID := uid |} |}.
Definition at1 : time := Unix 1.

Lemma admin_check_guarded_witness :
  let '(answers, _, _) := handleConnection const_credential sample_daemon (gh_config None) (conn_of "check" 7 1000) at1 at1 in
  (∃ resp, answers = [AnswerCheck resp]) ∧
  ∃ argv0, resolvePeerArgv0 7 = Ok argv0 ∧ Base argv0 = "claw-wrap".
Proof.
  set (r := handleConnection _ _ _ _ _ _).
  assert (r.1.1 = [AnswerCheck (admin_check const_credential sample_daemon (gh_config None))]) as E by vm_refl.
  destruct (admin_check_guarded const_credential sample_daemon (gh_config None) (conn_of "check" 7 1000) at1 at1
    (admin_check const_credential sample_daemon (gh_config None))) as (payload & keys & ucred & exe & req & H).
  { fold r. rewrite E. left. }
  destruct H as (Hc & (_ & Hp & _) & _ & _ & _ & _ & _ & Hargv & _).
  change (cn_peer (conn_of "check" 7 1000)) with (Ok (A := Ucred) {| uc_PID := 7; uc_UID := 1000; uc_GID := 1000 |}) in Hp.
  injection Hp as <-. destruct r as [[answers o] d]. cbn [fst] in E. split; [by eexists|exact Hargv].
Defined.

Lemma unverified_denied_witness :
  ∃ msg, handleConnection const_credential sample_daemon (gh_config None) (conn_of "run" 9 1000) at1 at1
    = ([FramedError msg], None, inc_metric "caller_verify_fail" sample_daemon).
Proof.
  destruct (unverified_denied const_credential sample_daemon (gh_config None) (conn_of "run" 9 1000) at1 at1 (s2b "run")
    {["hmac"]}) as (msg & _ & E).
  - exists (s2b "run"). do 4 (split; [by vm_compute|]). vm_refl.
  - intros ucred exe (_ & Hp & _ & Hx).
    change (cn_peer (conn_of "run" 9 1000)) with (Ok (A := Ucred) {| uc_PID := 9; uc_UID := 1000; uc_GID := 1000 |}) in Hp.
    injection Hp as <-. destruct Hx as [[[= <-] Hx]|[Hx _]]; [|done].
    assert (isAllowedBinary sample_daemon "/bin/sh" = false) as Hn by vm_refl. congruence.
  - exists msg. rewrite E. by rewrite bool_decide_eq_true_2.
Defined.

Definition first_run := handleProxyRequest sample_daemon (s2b "run") (gh_config None) 7 "/usr/bin/claw-wrap" 1000 at1 at1.

Lemma some_ex {A} (o : option A) : bool_decide (is_Some o) = true → ∃ a, o = Some a.
Proof. destruct o; [by eexists|done]. Qed.

Lemma fresh_cache d ttl mx key now : d_replayCache d = Some (NewReplayCache ttl mx) → not_replayed d key now.
Proof. unfold not_replayed. intros ->. intros exp Hexp. cbn in Hexp. by rewrite lookup_empty in Hexp. Qed.

Lemma replay_bypass_witness :
  ∃ e, first_run.1.2 = Some e ∧
    (handleProxyRequest first_run.2 (s2b "again") (gh_config None) 7 "/usr/bin/claw-wrap" 1000 at1 at1).1.2
      = Some (with_request e (with_hmac signed_request (pr_hmac signed_request +:+ line_break))).
Proof.
  destruct (some_ex first_run.1.2 ltac:(vm_refl)) as [e E]. exists e. split; [exact E|].
  refine (replay_bypass sample_daemon (s2b "run") (s2b "again") signed_request (gh_config None) 7
    "/usr/bin/claw-wrap" 1000 at1 at1 at1 at1 e _ _ E _ _); [vm_refl..|exact (fresh_cache sample_daemon (2 * Minute) 100 _ _ eq_refl)].
Defined.

Lemma connection_slots_witness :
  let r := accept_step sample_daemon 0 Accepted in
  r.1.1 = Started ∧ d_connUsed r.1.2 = 1 ∧ 0 ≤ r.2 ≤ 2.
Proof.
  destruct (connection_slots sample_daemon ([] ++ [Accepted]) (accept_step sample_daemon 0 Accepted).1.2
    (accept_step sample_daemon 0 Accepted).2) as (Hu & Hb & _).
  - by vm_compute.
  - reflexivity.
  - apply accept_cons; [constructor|done].
  - split; [reflexivity|]. split; [exact Hu|exact Hb].
Defined.

(** ** Credentials *)

Lemma fetchCached_fresh_witness :
  let cred := {| c_Value := "v"; c_ExpiresAt := zero_time |} in
  let c := run_ops [OpSetTTL Minute; OpSet "k" cred 5] in
  (fetchCached c "k" 6 6 6 6 (λ s, (Err io_EOF, s)) tt).1.1 = Ok cred ∧
  ∃ t0, stored [OpSetTTL Minute; OpSet "k" cred 5] "k" cred t0 ∧ 6 < t0 + Minute.
Proof.
  intros cred c.
  assert ((fetchCached c "k" 6 6 6 6 (λ s : (), (Err io_EOF, s)) tt).1.1 = Ok cred) as E by vm_refl.
  split; [exact E|].
  destruct (fetchCached_fresh [OpSetTTL Minute; OpSet "k" cred 5] "k" 6 6 6 6 (λ s : (), (Err io_EOF, s)) tt cred E)
    as [|(t0 & Hs & _ & Ht)]; [discriminate|]. exists t0. split; [exact Hs|]. destruct Ht; assumption.
Defined.

Lemma ParseSource_text_witness :
  ParseSource "vault:secret/gh | .data.token" =
    Ok {| ps_Backend := BackendVault; ps_Path := "secret/gh"; ps_JQExpr := ".data.token";
          ps_Original := "vault:secret/gh | .data.token" |}.
Proof.
  apply (ParseSource_text BackendVault "secret/gh" ".data.token"); try discriminate; [|vm_refl..].
  apply (bool_decide_eq_true_1 _). vm_refl.
Defined.

(** ** The HTTP proxy *)

#[local] Instance no_files : Files :=
  {| open_nofollow _ := Err ENOENT; open_follow _ := Err ENOENT; stat_ok _ := true; lstat _ := None; euid := 0 |}.
#[local] Instance no_libraries : Libraries :=
  {| jq_query := unit; json_any := unit; jq_Parse _ := Err io_EOF; json_Unmarshal _ := Err io_EOF;
     jq_Next _ _ := JqDone; age_identities := unit; age_ParseIdentities _ := Err io_EOF; age_Decrypt _ _ := Err io_EOF;
     json_raw _ _ := Err io_EOF; json_texts _ _ := Err io_EOF; parse_RFC3339 _ := Err io_EOF; duration_text _ := "" |}.
#[local] Instance no_github : GitHubLib :=
  {| rsa_key := unit; pem_Decode _ := None; ParsePKCS1PrivateKey _ := Err io_EOF; ParsePKCS8PrivateKey _ := Err io_EOF;
     SignPKCS1v15 _ _ := Err io_EOF; http_post _ _ _ := Err io_EOF |}.
#[local] Instance plain_hosts : UrlHostname := {| url_hostname := Some |}.

Definition github_route : ProxyRoute :=
  {| rt_Host := "api.github.com"; rt_Inject := {| is_Header := "Authorization"; is_Value := "token {{ gh }}" |};
     rt_Allow := []; rt_Deny := []; rt_HostRegex := match compileHostPattern "api.github.com" with Ok re => Some re | Err _ => None end;
     rt_AllowRules := []; rt_DenyRules := [] |}.
Definition github_proxy_config (auth : option bool) : HTTPProxyConfig :=
  {| hp_Enabled := true; hp_Listen := "127.0.0.1:9000"; hp_RequireAuth := auth; hp_LogLevel := "";
     hp_CA := {| ca_Path := ""; ca_CertFile := ""; ca_KeyFile := ""; ca_External := false; ca_ValidityDays := 0; ca_Organization := "" |};
     hp_StripResponseHeaders := []; hp_Routes := [github_route] |}.
Definition pass_credential : CredentialDef :=
  {| cd_Source := "pass:gh"; cd_Type := ""; cd_AppID := 0; cd_InstallationID := 0; cd_PrivateKey := "";
     cd_APIURL := ""; cd_Permissions := ∅; cd_Repositories := [] |}.
Definition github_proxy : Proxy :=
  HttpProxy.New (github_proxy_config None) {[ "gh" := pass_credential ]}
    [proxy_WithPassBinary "/usr/bin/pass"; WithAuthToken "tok"; WithRequireAuth true].
Definition helper_state : sys :=
  {| s_log := []; s_replies := [Output (s2b "s3cret-value")]; s_clock := []; s_cache := newCredentialCache; s_bw := None;
     s_tempdir := Err io_EOF;
     s_vault := {| vaultAddr := ""; vaultSkipVerify := None; vaultCACert := ""; vaultNamespace := ""; vaultTokenFile := "" |};
     s_opTokenFile := ""; s_ageIdentityFile := "" |}.
Definition github_request (auth : string) : Request :=
  {| rq_Method := "GET"; rq_URL := Some {| u_Scheme := "https"; u_Host := "api.github.com"; u_Path := "/user" |};
     rq_Host := "api.github.com"; rq_Header := Header_Set ∅ "Proxy-Authorization" auth; rq_ContentLength := 0 |}.
Definition good_request : Request := github_request (basic_credentials "tok").

Definition injected := handleRequest github_proxy good_request new_ctx helper_state.

Lemma github_compiled : Forall compiled_route [github_route].
Proof.
  constructor; [|constructor]. destruct (ok_ex (compileHostPattern "api.github.com") ltac:(vm_refl)) as [re E].
  exists re. split; [exact E|]. split; [|vm_refl]. unfold github_route. cbn [rt_HostRegex]. by rewrite E.
Qed.

Lemma injected_log : length (s_log injected.2) = 1%nat.
Proof. vm_refl. Qed.

Lemma injection_guarded_witness :
  Header_Get (rq_Header injected.1.1) "Authorization" = "token s3cret-value" ∧ presents_token github_proxy good_request.
Proof.
  pose proof (injection_guarded github_proxy good_request new_ctx helper_state (github_proxy_config None) eq_refl github_compiled) as H.
  fold injected in H. split; [vm_refl|].
  assert (isAuthenticatedProxyRequest github_proxy (Some good_request) new_ctx = true) as Ha.
  { rewrite (surjective_pairing injected), (surjective_pairing injected.1) in H. apply H. left.
    intros Hs. apply (f_equal (λ s, length (s_log s))) in Hs. by rewrite injected_log in Hs. }
  apply authenticated_iff in Ha as [Hf|[Hf|Hp]]; [discriminate..|exact Hp].
Defined.

Lemma injected_forwarded : injected = ((injected.1.1, None), injected.2).
Proof.
  rewrite (surjective_pairing injected) at 1. rewrite (surjective_pairing injected.1) at 1.
  assert (injected.1.2 = None) as -> by vm_refl. done.
Qed.

Lemma proxy_authenticated_witness :
  presents_token github_proxy good_request ∧ serve_tunnel github_proxy (github_request "") [good_request] helper_state = ([], helper_state) ∧
  Header_Get (rq_Header good_request) "Proxy-Authorization" ≠ "" ∧
  no_client_header github_proxy helper_state injected.1.1 "Proxy-Authorization".
Proof.
  destruct (proxy_authenticated github_proxy good_request [] helper_state eq_refl) as (_ & _ & H & Hn).
  split; [apply H; vm_refl|]. split; [vm_refl|]. split; [by vm_compute|].
  refine (Hn good_request new_ctx injected.1.1 injected.2 injected_forwarded _ _). left.
Defined.

Lemma ssrfControl_v4_witness :
  ssrfControl "tcp" "93.184.216.34:443" = Ok tt ∧ ¬ reserved_v4 93 184 216.
Proof.
  assert (ssrfControl "tcp" "93.184.216.34:443" = Ok tt) as E by vm_refl. split; [exact E|].
  refine (proj2 (proj1 (ssrfControl_v4 "tcp" "93.184.216.34:443" "93.184.216.34" "443" 93 184 216 34 _ _ _ _ _ _) E));
    first [vm_refl|split; by vm_compute].
Defined.

(** ** Reloads *)

Definition audit_file (file : string) : AuditConfig :=
  {| au_Enabled := true; au_File := file; au_Stdout := false; au_IncludeArgs := None; au_IncludeOutputHash := None;
     au_IncludeDuration := None; au_Syslog := false; au_SyslogFacility := "" |}.
Definition service_config (auth : option bool) (file : string) : Config :=
  {| cfg_Proxy := None; cfg_Security := None; cfg_HTTPProxy := Some (github_proxy_config auth);
     cfg_Audit := Some (audit_file file); cfg_Credentials := {[ "gh" := pass_credential ]}; cfg_Tools := ∅ |}.
Definition old_config : Config := service_config None "/var/log/a.jsonl".
Definition new_config : Config := service_config (Some false) "/no/such/dir/a.jsonl".

Definition ok_io : proxy_io :=
  {| io_mitm := Ok tt; io_watch := Ok tt; io_listen := Ok tt; io_close := Ok tt; io_random := Ok (repeat "a"%char 32); io_euid := 0 |}.
Definition audit_handle : handle := {| h_id := 0; h_sink := SinkFile "/var/log/a.jsonl" |}.

(** The daemon after its start, the next file it opens being refused. *)
Definition running_node (faults : list bool) : node :=
  let n := {| n_daemon := set_auditLogger (set_cfg sample_daemon old_config) (Some (Single audit_handle));
              n_fs := {| fs_nodes := ∅; fs_faults := [] |};
              n_audit := {| as_next := 1; as_closed := ∅; as_broken := ∅; as_offline := ∅; as_written := []; as_faults := faults |} |} in
  (startHTTPProxy old_config ok_io n).2.

Definition started_proxy : Proxy := default github_proxy (d_httpProxy (n_daemon (running_node []))).

Lemma running_proxy faults : d_httpProxy (n_daemon (running_node faults)) = Some started_proxy ∧ proxy_of old_config (github_proxy_config None) started_proxy.
Proof.
  set (n := {| n_daemon := set_auditLogger (set_cfg sample_daemon old_config) (Some (Single audit_handle));
              n_fs := {| fs_nodes := ∅; fs_faults := [] |};
              n_audit := {| as_next := 1; as_closed := ∅; as_broken := ∅; as_offline := ∅; as_written := []; as_faults := faults |} |}).
  destruct (startHTTPProxy old_config ok_io n) as [r n'] eqn:E.
  assert (d_httpProxy (n_daemon (running_node faults)) = Some started_proxy) as Hp by vm_refl.
  split; [exact Hp|]. pose proof (startHTTPProxy_spec _ _ _ _ _ E) as (_ & _ & _ & _ & _ & H & _).
  assert (r = Ok tt) as ->.
  { assert ((startHTTPProxy old_config ok_io n).1 = Ok tt) as Hr by vm_refl. by rewrite E in Hr. }
  assert (GetHTTPProxyEnabled old_config = true) as Hen by vm_refl.
  destruct (H (conj eq_refl Hen)) as (h & p & Hh & Hpp & _ & Hof).
  assert (h = github_proxy_config None) as -> by exact (Some_inj _ _ (eq_sym Hh)).
  assert (p = started_proxy) as <-; [|exact Hof]. apply Some_inj. rewrite <- Hpp, <- Hp.
  unfold running_node. fold n. by rewrite E.
Qed.

Lemma running_sync faults : in_sync (n_daemon (running_node faults)).
Proof.
  exists old_config. split; [vm_refl|]. destruct (running_proxy faults) as [-> Hp]. by exists (github_proxy_config None).
Qed.

Lemma running_audit : audit_in_sync (running_node []).
Proof.
  split; [|intros i Hi; exfalso; revert Hi; apply not_elem_of_empty].
  exists old_config, (Single audit_handle). split_and!; [vm_refl|vm_refl|by left|].
  constructor; [|done]. split; [by vm_compute; lia|apply not_elem_of_empty].
Qed.

Lemma reload_outcome_witness :
  (∃ n', reloadConfig (Ok new_config) ok_io (running_node []) = (Ok tt, n') ∧
    d_cfg (n_daemon n') = Some new_config ∧ in_sync (n_daemon n') ∧ audit_in_sync n') ∧
  (∃ e n', reloadConfig (Ok new_config) ok_io (running_node [true]) = (Err e, n') ∧
    failed_on_audit new_config (running_node [true]) n').
Proof.
  split.
  - destruct (reloadConfig (Ok new_config) ok_io (running_node [])) as [r n'] eqn:E.
    assert (is_ok (reloadConfig (Ok new_config) ok_io (running_node [])).1 = true) as Hr by vm_refl.
    rewrite E in Hr. pose proof (reload_outcome _ _ _ _ _ E) as H. destruct r as [[]|]; [|discriminate].
    destruct H as (c & [= <-] & [Hc Hs Ha _ _ _]). exists n'. split; [done|]. split; [exact Hc|].
    split; [apply Hs, running_sync|apply Ha, running_audit].
  - destruct (reloadConfig (Ok new_config) ok_io (running_node [true])) as [r n'] eqn:E.
    assert (is_ok (reloadConfig (Ok new_config) ok_io (running_node [true])).1 = false ∧
      bool_decide (as_faults (n_audit (reloadConfig (Ok new_config) ok_io (running_node [true])).2) = []) = true) as [Hr Hq]
      by (split; vm_refl).
    rewrite E in Hr, Hq. pose proof (reload_outcome _ _ _ _ _ E) as H. destruct r as [[]|e]; [discriminate|].
    exists e, n'. split; [done|]. destruct H as (_ & _ & _ & [[Ha _]|H]); [|exact H].
    exfalso. cbn [snd] in Hq. rewrite Ha in Hq. vm_compute in Hq. discriminate.
Defined.

Lemma reload_half_applied_witness :
  let '(r1, n1) := reloadConfig (Ok new_config) ok_io (running_node [true]) in
  let '(r2, n2) := reloadConfig (Ok old_config) ok_io n1 in
  is_ok r1 = false ∧ r2 = Ok tt ∧ (p_requireAuth <$> d_httpProxy (n_daemon n2)) = Some false.
Proof.
  pose proof (reload_half_applied ok_io (running_node [true]) old_config (github_proxy_config None) new_config
    (github_proxy_config (Some false)) audit_handle "/var/log/a.jsonl" (audit_file "/no/such/dir/a.jsonl") [] started_proxy
    (running_sync [true])) as H.
  destruct (reloadConfig (Ok new_config) ok_io (running_node [true])) as [r1 n1].
  destruct (reloadConfig (Ok old_config) ok_io n1) as [r2 n2].
  destruct H as (H1 & _ & H2 & _ & (p' & Hp & _ & Ha & _) & _); try reflexivity; try discriminate; [vm_refl..|].
  split; [exact H1|]. split; [exact H2|]. rewrite Hp. cbn. by rewrite Ha.
Defined.
