(* ===== verification/ClientWitnesses.v ===== *)
(** Concrete inputs for the theorems on the client and its sessions, the
    certificate authority and the command line. *)

From S2P Require Import Prelude GoStrings Base64 Json Protocol Framing GoTime GoNet Replay Auth Regexp ConfigTypes GoPath.
From S2P Require Import Paths Sources ArgsPolicy Interpolate Redactor World OutputBuffer Config Settings SecretFile Env Runtime AuditLog.
From S2P Require Import Executor Drain Daemon ExecutorLaws RunLaws RunSafety StreamLaws DrainLaws DaemonLaws CaManager CaLaws Cli CliLaws.
From S2P Require Import Wrapper WrapperLaws SessionLaws EndToEnd InputLaws Witnesses ServiceWitnesses.
Local Open Scope Z_scope.

#[local] Existing Instance simple_regexp.
#[local] Existing Instance no_durations.
#[local] Existing Instance linux.
#[local] Existing Instance host.
#[local] Existing Instance last_byte_hash.
#[local] Existing Instance admin_codec.

(** ** Messages *)

(** A codec whose values are listed, each with its text. *)
Definition texts_ok {T} (texts : list (string * T)) : bool :=
  bool_decide (NoDup (fst <$> texts)) &&
  forallb (λ p : string * T, printable (s2b p.1)) texts.

Fixpoint text_of {T} `{EqDecision T} (texts : list (string * T)) (v : T) : option bytes :=
  match texts with
  | [] => None
  | (text, v') :: texts => if bool_decide (v = v') then Some (s2b text) else text_of texts v
  end.

Lemma text_of_Some {T} `{EqDecision T} (texts : list (string * T)) v b :
  text_of texts v = Some b → ∃ text, (text, v) ∈ texts ∧ b = s2b text.
Proof.
  induction texts as [|[text v'] texts IH]; [done|]. cbn. destruct (bool_decide_reflect (v = v')) as [<-|].
  - intros [= <-]. exists text. split; [left|done].
  - intros (t & Ht & ->)%IH. exists t. split; [by right|done].
Qed.

Lemma read_text_Some {T} (texts : list (string * T)) text v :
  NoDup (fst <$> texts) → (text, v) ∈ texts → read_text texts (s2b text) = Some v.
Proof.
  induction texts as [|[text' v'] texts IH]; [by intros _ ?%elem_of_nil|]. cbn.
  intros [Hn Hnd]%NoDup_cons [[= -> ->]|Hin]%elem_of_cons; [by rewrite bool_decide_eq_true_2|].
  rewrite bool_decide_eq_false_2; [by apply IH|]. intros E%(f_equal b2s). rewrite !b2s_s2b in E. subst. apply Hn.
  apply list_elem_of_fmap. by exists (text', v).
Qed.

Lemma text_of_printable {T} `{EqDecision T} (texts : list (string * T)) v b :
  texts_ok texts = true → text_of texts v = Some b → read_text texts b = Some v ∧ printable b = true.
Proof.
  intros [Hnd%bool_decide_eq_true Hp]%andb_true_iff (text & Hin & ->)%text_of_Some. split; [by apply read_text_Some|].
  rewrite forallb_forall in Hp. by apply list_elem_of_In, Hp in Hin.
Qed.

Definition listed_codec {T} `{EqDecision T} (texts : list (string * T)) (Hok : texts_ok texts = true) : Codec T.
Proof.
  refine {| marshal := text_of texts; unmarshal := read_text texts |}; intros v b Hb;
    apply (text_of_printable _ _ _ Hok) in Hb as [Hr Hb]; [done| |].
  - intros ->. discriminate.
  - exact (marshal_no_newline (Codec := line_codec) b b ltac:(cbn; by rewrite Hb)).
Defined.

(** What the run of [Witnesses.v] sends. *)
Definition gh_sent : list ResponseMessage := w_sent (x_w (gh_run None false).2).
Definition response_texts : list (string * ResponseMessage) :=
  zip ["{0}"; "{1}"; "{2}"; "{3}"] gh_sent ++ [("{busy}", error_msg "daemon busy")].
#[local] Instance response_codec : Codec ResponseMessage.
Proof. refine (listed_codec response_texts _). vm_refl. Defined.

Definition hello : bytes := s2b "hello".
Definition wrapper_texts : list (string * WrapperMessage) :=
  [("{in}", stdin_msg (EncodeToString StdEncoding hello) false); ("{eof}", stdin_msg "" true);
   ("{int}", signal_msg "SIGINT"); ("{size}", winsize_msg {| ws_rows := 24; ws_cols := 80 |})].
#[local] Instance wrapper_codec : Codec WrapperMessage.
Proof. refine (listed_codec wrapper_texts _). vm_refl. Defined.

#[local] Instance piped : Terminal := {| isTerminal _ := false; getSize _ := Err io_EOF |}.

(** ** The client *)

Definition sent_over (ms : list ResponseMessage) : bytes := (EncodeAll [] ms).1.
Local Notation client_of wire := (client_start (W := bytes) [] {| rd_data := wire; rd_fin := io_EOF |} false).
(** Input, a signal and the responses come in turn. *)
Definition mixed : list choice :=
  [StdinRead hello; PickResponse; PickSignal SigInt; PickStdin; PickResponse; StdinEnd; PickResponse; PickEOF; PickResponse].

(** How a run of the client ended, or that it goes on. *)
Definition exited_with {W} (r : option (client W * option outcome)) (code : Z) : bool :=
  match r with Some (_, Some (Exited c)) => c =? code | _ => false end.
Definition goes_on {W} (r : option (client W * option outcome)) : bool :=
  match r with Some (_, None) => true | _ => false end.

Lemma exited_ex {W} (r : option (client W * option outcome)) code :
  exited_with r code = true → ∃ c, r = Some (c, Some (Exited code)).
Proof. destruct r as [[c [[code'|e]|]]|]; try done. cbn. intros ->%Z.eqb_eq. by exists c. Qed.
Lemma goes_on_ex {W} (r : option (client W * option outcome)) : goes_on r = true → ∃ c, r = Some (c, None).
Proof. destruct r as [[c [o|]]|]; try done. by exists c. Qed.

Lemma ok_pair {A B} (x : A * result B) b : x.2 = Ok b → x = (x.1, Ok b).
Proof. destruct x as [a r]. cbn. by intros ->. Qed.

Definition gh_outs : list ResponseMessage := take 3 gh_sent.
Lemma gh_outs_carry : Forall carries_output gh_outs.
Proof.
  unfold carries_output. apply Forall_forall. intros m Hm.
  assert (forallb (λ m, (bool_decide (rm_type m = MsgTypeStdout) || bool_decide (rm_type m = MsgTypeStderr))
    && bool_decide (is_Some (DecodeString StdEncoding (rm_data m)))) gh_outs = true) as HF by vm_refl.
  rewrite forallb_forall in HF. apply list_elem_of_In, HF, andb_true_iff in Hm as [H1 H2%bool_decide_eq_true].
  split; [|done]. by apply orb_true_iff in H1 as [?%bool_decide_eq_true|?%bool_decide_eq_true]; [left|right].
Qed.

Lemma client_relays_witness :
  ∃ c, client_run false mixed (client_of (sent_over (gh_outs ++ [done_msg 3 false]))) = Some (c, Some (Exited 3)) ∧
    b2s (cl_stdout c) = "a [REDACTED]and [REDACTED]" ∧ b2s (cl_stderr c) = "warn".
Proof.
  destruct (exited_ex (client_run false mixed (client_of (sent_over (gh_outs ++ [done_msg 3 false])))) 3 ltac:(vm_refl))
    as [c E]. exists c. split; [exact E|].
  destruct (client_relays false gh_outs 3 false (sent_over (gh_outs ++ [done_msg 3 false])) [] false mixed c
    (Some (Exited 3)) gh_outs_carry (ok_pair _ _ ltac:(vm_refl)) E) as (_ & -> & -> & _).
  split; vm_refl.
Defined.

Lemma client_terminates_witness :
  ∃ c o, client_run false mixed (client_of (sent_over (gh_outs ++ [done_msg 3 false]))) = Some (c, o) ∧ is_Some o.
Proof.
  destruct (exited_ex (client_run false mixed (client_of (sent_over (gh_outs ++ [done_msg 3 false])))) 3 ltac:(vm_refl))
    as [c E]. exists c, (Some (Exited 3)). split; [exact E|].
  destruct (client_terminates false gh_outs 3 false (sent_over (gh_outs ++ [done_msg 3 false])) [] false mixed c
    (Some (Exited 3)) gh_outs_carry (ok_pair _ _ ltac:(vm_refl)) E) as (x & Hx & _); [|by exists x].
  apply Nat.ltb_lt. vm_refl.
Defined.

Definition waiting : list choice := [PickResponse; StdinRead hello; PickResponse; PickStdin; PickResponse; PickResponse].
Lemma client_abandoned_witness :
  ∃ c, client_run false waiting (client_of (sent_over gh_outs)) = Some (c, None) ∧
  ∀ code, client_run false waiting (client_of (sent_over gh_outs)) ≠ Some (c, Some (Exited code)).
Proof.
  destruct (goes_on_ex (client_run false waiting (client_of (sent_over gh_outs))) ltac:(vm_refl)) as [c E].
  exists c. split; [exact E|].
  intros code Ho. pose proof (client_abandoned false gh_outs (sent_over gh_outs) [] false waiting c (Some (Exited code))
    gh_outs_carry (ok_pair _ _ ltac:(vm_refl)) Ho) as [e [H|H]]; discriminate.
Defined.

Definition queued : list choice := [StdinRead hello; PickSignal SigInt; StdinRead hello; PickStdin].
Lemma stdin_in_order_witness :
  ∃ c, client_run false queued (client_of []) = Some (c, None) ∧
    ∃ msgs, WriteAll [] msgs = (cl_conn c, Ok tt) ∧ stdin_bytes msgs ++ mjoin (cl_stdinCh c) = hello ++ hello.
Proof.
  destruct (goes_on_ex (client_run false queued (client_of [])) ltac:(vm_refl)) as [c E]. exists c. split; [exact E|].
  exact (stdin_in_order false [] {| rd_data := []; rd_fin := io_EOF |} false queued c E).
Defined.

Lemma stdin_overtaken_witness :
  ∃ c, client_run true [StdinRead hello; StdinEnd; PickEOF; PickStdin] (client_of []) = Some (c, None) ∧
    b2s (cl_conn c) = "{eof}" +:+ line_break +:+ "{in}" +:+ line_break.
Proof.
  destruct (stdin_overtaken [] {| rd_data := []; rd_fin := io_EOF |} false true hello
    (WriteAll [] [stdin_msg "" true; stdin_msg (EncodeToString StdEncoding hello) false]).1) as (c & E & Ec & _).
  - discriminate.
  - vm_compute. discriminate.
  - apply ok_pair. vm_refl.
  - exists c. split; [exact E|]. rewrite Ec. vm_refl.
Defined.

(** ** From the tool to the terminal *)

Lemma output_end_to_end_witness :
  ∃ c, client_run false mixed (client_of (sent_over gh_sent)) = Some (c, Some (Exited 3)) ∧
    b2s (cl_stdout c) = "a [REDACTED]and [REDACTED]".
Proof.
  destruct (exited_ex (client_run false mixed (client_of (sent_over gh_sent))) 3 ltac:(vm_refl)) as [c E].
  exists c. split; [exact E|].
  set (st := set_workDir (init_state (clean_world false) empty_audit) (work_dir (gh_executor None))).
  assert ((setupConfigFile const_credential (gh_executor None) st).1 = Ok tt) as Es by vm_refl.
  set (s1 := (setupConfigFile const_credential (gh_executor None) st).2).
  set (be := buildEnvironment const_credential (env_of (gh_executor None) s1) (x_secretValues s1)).
  assert ((snd <$> be) = Ok ["s3cret-value"]) as Eb by vm_refl.
  destruct (output_end_to_end const_credential (gh_executor None) gh_schedule (clean_world false) empty_audit _ _
    (sent_over gh_sent) false [] false mixed c 3 (surjective_pairing _) (gh_valid _ (or_introl eq_refl)) eq_refl eq_refl)
    as (_ & s1' & env & secrets & Hs & Hb & H).
  - split; [|split]; [by repeat constructor..|discriminate].
  - intros Hn. apply (f_equal (λ o, bool_decide (is_Some o))) in Hn. revert Hn. vm_compute. discriminate.
  - reflexivity.
  - apply ok_pair. vm_refl.
  - exact E.
  - assert (s1' = s1) as ->. { apply (f_equal snd) in Hs. by symmetry. }
    change (be = Ok (env, secrets)) in Hb. rewrite Hb in Eb. cbn in Eb. injection Eb as ->.
    cbv zeta in H. destruct H as [_ H].
    destruct H as [-> _].
    + intros k. split; [apply Z.leb_le; destruct k; vm_refl|]. intros Hgt. change (0 > 0) in Hgt. lia.
    + vm_refl.
Defined.

(** The tool exits with output in its pipes, also in the one a process it left
    behind holds. *)
Definition last_words (k : stream) : pipe :=
  {| pi_data := s2b match k with Sout => "et-value" | _ => "bye" end; pi_later := [];
     pi_held := match k with Serr => true | _ => false end; pi_deadline := None |}.
Definition exit_schedule : schedule :=
  {| sd_start := Unix 1770546600; sd_elapsed := 5 * Second; sd_workdir_missing := false; sd_pid := 42;
     sd_running := [EvOutput Sout (s2b "it is s3cr")]; sd_outcome := Executor.Exited 0; sd_grace := [];
     sd_drain := [EvOutput Serr (s2b "bye"); EvOutput Sout (s2b "et-value"); EvOutputEnd Sout; EvOutputEnd Serr];
     sd_late := []; sd_after := [EvMessageEnd] |}.

Lemma exit_in_time k : k ∈ [Sout; Serr] →
  EvOutputEnd k ∉ sd_running exit_schedule ∧ drained_in_time k false (last_words k) (sd_drain exit_schedule).
Proof.
  intros Hk. split; [by intros Hin%list_elem_of_singleton|].
  exists 7, (Some (Second, 5)), [(2 * Second, 1)].
  assert (prompt (2 * Second, 1)) as Hp by (split; done). assert (prompt (Second, 5)) as Hb by (split; done).
  assert (∀ data, (length (chunks data) <=? 1)%nat = true →
    (length (chunks data) ≤ length [(2 * Second, 1)%Z])%nat) as Hn by (intros data ?%Nat.leb_le; done).
  assert (k = Sout ∨ k = Serr) as [-> | ->] by (apply elem_of_cons in Hk as [?|?%list_elem_of_singleton]; [by left|by right]);
    (split; [vm_refl|]); (split; [reflexivity|]); (split; [constructor; [exact Hp|constructor]|]); (split; [exact Hb|]);
    (split; [apply Hn; vm_refl|apply Z.ltb_lt; vm_refl]).
Qed.

Lemma prompt_run_output_witness :
  b2s (mjoin ((λ m, default [] (DecodeString StdEncoding (rm_data m))) <$>
    filter (λ m, rm_type m = MsgTypeStdout)
      (w_sent (x_w (Run const_credential (gh_executor None) exit_schedule (init_state (clean_world false) empty_audit)).2)))) =
  "it is [REDACTED]" ∧
  ∃ secrets, inline_bytes "stdout"
    (w_sent (x_w (Run const_credential (gh_executor None) exit_schedule (init_state (clean_world false) empty_audit)).2)) =
  emitted (StreamLaws.redactor_of (gh_executor None) secrets) [s2b "it is s3cr"; s2b "et-value"].
Proof.
  split; [vm_refl|].
  set (st := set_workDir (init_state (clean_world false) empty_audit) (work_dir (gh_executor None))).
  set (s1 := (setupConfigFile const_credential (gh_executor None) st).2).
  set (be := buildEnvironment const_credential (env_of (gh_executor None) s1) (x_secretValues s1)).
  assert ((snd <$> be) = Ok ["s3cret-value"]) as Eb by vm_refl.
  destruct (prompt_run_output const_credential (gh_executor None) exit_schedule (clean_world false) empty_audit _ _
    0 last_words (surjective_pairing _) (gh_valid _ (or_introl eq_refl)) eq_refl eq_refl)
    as (s1' & env & secrets & Hs & Hb & H).
  - reflexivity.
  - reflexivity.
  - constructor.
  - by repeat constructor.
  - intros Hn. apply (f_equal (λ o, bool_decide (is_Some o))) in Hn. revert Hn. vm_compute. discriminate.
  - exact exit_in_time.
  - assert (s1' = s1) as ->. { apply (f_equal snd) in Hs. by symmetry. }
    change (be = Ok (env, secrets)) in Hb. rewrite Hb in Eb. cbn in Eb. injection Eb as ->.
    exists ["s3cret-value"]. refine (H _ Sout _); [|by left].
    intros k. split; [apply Z.leb_le; destruct k; vm_refl|]. intros Hgt. change (0 > 0) in Hgt. lia.
Defined.

(** ** From the keyboard to the tool *)

(** The user types, the client sends it and the end; the tool prints meanwhile. *)
Definition typed : list choice := [StdinRead hello; PickSignal SigInt; PickStdin; StdinEnd; PickEOF].
Definition typed_msgs : list WrapperMessage :=
  [signal_msg "SIGINT"; stdin_msg (EncodeToString StdEncoding hello) false; stdin_msg "" true].
Definition typed_bytes : bytes := (WriteAll [] typed_msgs).1.
Definition typed_schedule : schedule :=
  {| sd_start := Unix 1770546600; sd_elapsed := 5 * Second; sd_workdir_missing := false; sd_pid := 42;
     sd_running := EvOutput Sout (s2b "> ") :: (EvMessage <$> typed_msgs);
     sd_outcome := Executor.Exited 0; sd_grace := []; sd_drain := [EvOutputEnd Sout; EvOutputEnd Serr]; sd_late := [];
     sd_after := [EvMessageEnd] |}.

Lemma input_end_to_end_witness :
  stdin_of (Run const_credential (gh_executor None) typed_schedule (init_state (clean_world false) empty_audit)).2 = hello.
Proof.
  set (r := Run const_credential (gh_executor None) typed_schedule (init_state (clean_world false) empty_audit)).
  destruct (goes_on_ex (client_run false typed (client_of [])) ltac:(vm_refl)) as [c E].
  assert (cl_conn <$> (fst <$> client_run false typed (client_of [])) = Some typed_bytes) as Ec by vm_refl.
  assert (cl_stdinCh <$> (fst <$> client_run false typed (client_of [])) = Some []) as Eq by vm_refl.
  rewrite E in Ec, Eq. cbn in Ec, Eq. apply Some_inj in Ec, Eq.
  destruct (input_end_to_end const_credential (gh_executor None) typed_schedule (clean_world false) empty_audit r.1 r.2
    false [] {| rd_data := []; rd_fin := io_EOF |} false typed c None typed_bytes io_EOF [0; 0; 0; 0]
    (surjective_pairing _) (gh_valid _ (or_introl eq_refl)) eq_refl) as [_ H].
  - intros Hn. apply (f_equal (λ o, bool_decide (is_Some o))) in Hn. revert Hn. vm_compute. discriminate.
  - reflexivity.
  - exact E.
  - exact Ec.
  - exists []. vm_refl.
  - specialize (H typed_msgs). rewrite Eq in H. cbn [mjoin list_join] in H. rewrite app_nil_r in H. rewrite H; [done|..].
    + rewrite Ec. apply ok_pair. vm_refl.
    + reflexivity.
    + unfold typed_msgs. intros before m after Hb Ht He.
      destruct before as [|x [|y [|z before]]]; cbn [app] in Hb.
      * apply (f_equal head) in Hb. apply Some_inj in Hb. by subst m.
      * apply (f_equal (λ l, l !! 1%nat)) in Hb. apply Some_inj in Hb. by subst m.
      * apply (f_equal (λ l, drop 3 l)) in Hb. change ([] = after) in Hb. by subst after.
      * apply (f_equal length) in Hb. cbn in Hb. rewrite length_app in Hb. cbn in Hb. lia.
    + reflexivity.
Defined.

Lemma idle_cuts_control_witness :
  ∃ used, stdinPumper (15 * Second) [0; 16 * Second; 0]
      (NewNDJSONReader {| rd_data := typed_bytes; rd_fin := io_EOF |}) = (EvMessage <$> used) ++ [EvMessageEnd] ∧
    (length used ≤ 1)%nat.
Proof.
  destruct (ok_ex (NewToolExecutor gh_request (gh_tool None) (gh_config None) "" None 7 "/usr/bin/claw-wrap") ltac:(vm_refl))
    as [e He].
  assert (e_readMsgTO <$> NewToolExecutor gh_request (gh_tool None) (gh_config None) "" None 7 "/usr/bin/claw-wrap"
    = Ok (15 * Second)) as Ht by vm_refl.
  rewrite He in Ht. injection Ht as Ht.
  destruct (idle_cuts_control gh_request (gh_tool None) (gh_config None) "" None 7 "/usr/bin/claw-wrap" e [0] (16 * Second) [0]
    (NewNDJSONReader {| rd_data := typed_bytes; rd_fin := io_EOF |}) He eq_refl ltac:(by vm_compute)) as (used & E & Hl & _).
  exists used. rewrite Ht in E. split; [exact E|exact Hl].
Defined.

(** ** From the command line to the tool *)

#[local] Instance WinSize_eq_dec : EqDecision WinSize.
Proof. solve_decision. Defined.
#[local] Instance ProxyRequest_eq_dec : EqDecision ProxyRequest.
Proof. solve_decision. Defined.

(** The process of [ServiceWitnesses.v], and one text that is an object. *)
#[local] Instance json_peers : Peers :=
  {| readlink_exe pid := if pid =? 9 then Ok "/bin/sh" else Ok "/usr/bin/claw-wrap";
     read_cmdline _ := Ok (s2b ("/usr/bin/claw-wrap" +:+ NULs +:+ "check"));
     EvalSymlinks p := Ok p; filepath_Abs p := Ok p; hmac_sha256 := prefix_hmac;
     json_object b := if bool_decide (b = s2b "{run}") then Some {["hmac"]} else None |}.

Definition installed_client : Wrapper := {| wr_socketPath := "/run/s"; wr_authPath := "/run/auth" |}.
Definition secret_file : fs :=
  {| fs_nodes := {[ "/run/auth" := {| nd_symlink := false; nd_regular := true; nd_mode := 0x1A0; nd_uid := 0;
       nd_data := s2b ("aw==" +:+ line_break) |} ]}; fs_faults := [] |}.
Definition made_request : result ProxyRequest :=
  tool_request prefix_hmac installed_client secret_file (Ok "/home/u") (Unix 1770546600) (Ok (s2b "0123456789abcdef")) "gh"
    ["repo"; "list"].
Definition request_texts : list (string * ProxyRequest) :=
  match made_request with Ok req => [("{run}", req)] | Err _ => [] end.
#[local] Instance request_codec : Codec ProxyRequest.
Proof. refine (listed_codec request_texts _). vm_refl. Defined.

Lemma json_keys : json_object (s2b "{run}") = Some {["hmac"]}.
Proof. vm_refl. Qed.

Definition client_conn : conn :=
  {| cn_read := ReadData (s2b "{run}" ++ [newline]); cn_unix := true;
     cn_peer := Ok {| uc_PID := 7; uc_UID := 1000; uc_GID := 1000 |} |}.

Lemma client_verified : verified_caller sample_daemon (gh_config None) client_conn
  {| uc_PID := 7; uc_UID := 1000; uc_GID := 1000 |} "/usr/bin/claw-wrap".
Proof. do 3 (split; [reflexivity|]). left. split; vm_refl. Qed.

Lemma client_request_runs_witness :
  ∃ e, (handleConnection const_credential sample_daemon (gh_config None) client_conn (Unix 1770546602) (Unix 1770546602)).1.2
    = Some e ∧ pr_args (e_req e) = Some ["repo"; "list"].
Proof.
  destruct (ok_ex made_request ltac:(vm_refl)) as [req E].
  assert (made_request = Ok req → marshal req = Some (s2b "{run}")) as Hm.
  { unfold marshal, request_codec, listed_codec, request_texts. intros ->. cbn. by rewrite bool_decide_eq_true_2. }
  destruct (ok_ex (made_request ≫= λ req, NewToolExecutor req (gh_tool None) (gh_config None) (d_proxyAuthToken sample_daemon)
    (d_auditLogger sample_daemon) 7 "/usr/bin/claw-wrap") ltac:(vm_refl)) as [e He].
  rewrite E in He. cbn [mbind result_bind] in He.
  destruct (client_request_runs const_credential sample_daemon (gh_config None) client_conn (Unix 1770546602)
    (Unix 1770546602) installed_client secret_file (Ok "/home/u") (Unix 1770546600) (Ok (s2b "0123456789abcdef")) "gh"
    ["repo"; "list"] req (s2b "{run}") (gh_tool None) {| uc_PID := 7; uc_UID := 1000; uc_GID := 1000 |}
    "/usr/bin/claw-wrap" e) as (H1 & H2 & _).
  - exact E.
  - vm_refl.
  - by vm_compute.
  - by vm_compute.
  - split; [exact (Hm E)|]. split; [by exists (s2b "run")|]. exists {["hmac"]}. split; [exact json_keys|]. split; [set_solver|].
    apply (bool_decide_eq_false_1 _). vm_refl.
  - reflexivity.
  - by vm_compute.
  - exact client_verified.
  - exact (fresh_cache sample_daemon (2 * Minute) 100 _ _ eq_refl).
  - vm_refl.
  - vm_refl.
  - exact He.
  - exists e. split; [exact H1|exact H2].
Defined.

Lemma first_read_decides_witness :
  (handleConnection const_credential sample_daemon (gh_config None)
     (with_read client_conn (s2b "{run}" ++ newline :: s2b "{size}" ++ [newline])) at1 at1).1 = ([RawError "invalid json"], None).
Proof.
  refine (proj2 (proj2 (first_read_decides const_credential sample_daemon (gh_config None) client_conn at1 at1 (s2b "run")
    (winsize_msg {| ws_rows := 24; ws_cols := 80 |}) (s2b "size") [] 100 _ _ _ _ _))).
  - vm_refl.
  - by vm_compute.
  - by vm_compute.
  - intros a b Ha. cbn [json_object json_peers] in *. destruct (bool_decide_reflect (a = s2b "{run}")) as [->|]; [|by destruct Ha].
    rewrite bool_decide_eq_false_2; [done|]. by intros Hl%(f_equal length).
  - exact (ex_intro _ _ json_keys).
Defined.

(** ** The certificate authority *)

#[local] Instance cert_template_eq_dec : EqDecision cert_template.
Proof. solve_decision. Defined.

(** A library that makes one certificate: it signs the template of a start at
    [born] and reads it back. *)
Definition born : time := Unix 1770546600.
Definition own_ca : CAConfig :=
  {| ca_Path := "/ca"; ca_CertFile := ""; ca_KeyFile := ""; ca_External := false; ca_ValidityDays := 0;
     ca_Organization := "" |}.
Definition own_template : cert_template :=
  {| ct_SerialNumber := 5; ct_Organization := ["claw-wrap"]; ct_CommonName := "claw-wrap CA"; ct_NotBefore := born;
     ct_NotAfter := AddDays born 365 |}.
Definition own_cert : x509_cert :=
  {| xc_IsCA := true; xc_CertSign := true; xc_NotBefore := born; xc_NotAfter := AddDays born 365 |}.

#[local] Instance one_certificate : X509.
Proof.
  refine {| certificate := bytes; chain der := [der]; CaManager.rsa_key := unit; X509KeyPair cert _ := Ok cert;
    ParseCertificate der := if bool_decide (der = s2b "der") then Ok own_cert else Err (Sentinel "asn1");
    CreateCertificate t _ := if bool_decide (t = own_template) then Ok (s2b "der") else Err (Sentinel "rsa");
    EncodeToMemory _ b := b; MarshalPKCS1PrivateKey _ := s2b "key" |}.
  - intros t k der. destruct (bool_decide_reflect (t = own_template)) as [->|]; [|done]. intros [= <-]. vm_refl.
  - intros t k der _. by eexists.
  - by intros der key c [= <-].
Defined.

Definition manager : CAManager := NewCAManager own_ca.
Definition own_io : ca_io := {| ci_key := Ok tt; ci_serial := Ok 5; ci_uid := 0; ci_umask := 18 |}.
Definition no_ca (faults : list bool) : fs := {| fs_nodes := ∅; fs_faults := faults |}.
Definition started (faults : list bool) := EnsureCA manager own_io born born born (no_ca faults).

Lemma own_generates : can_generate manager own_io born (s2b "der").
Proof. exists tt, 5. split; [done|]. split; [done|]. vm_refl. Qed.
Lemma own_paths : m_certPath manager ≠ m_keyPath manager.
Proof. intros E%(bool_decide_eq_true_2 _). revert E. vm_compute. discriminate. Qed.

Lemma served_certificate_valid_witness :
  let evs := [CaEnsure own_io born born born; CaOutside (no_ca []); CaWatch {| ev_name := "/ca/ca.crt"; ev_relevant_op := true |} 0] in
  makeLazyTLSConfig (ca_run (manager, no_ca []) evs).1 = Ok (s2b "der") ∧
  ∃ before ev after now, evs = before ++ ev :: after ∧ takes_ca (ca_run (manager, no_ca []) before) ev (s2b "der") now ∧
    valid_authority (s2b "der") now.
Proof.
  intros evs. assert (makeLazyTLSConfig (ca_run (manager, no_ca []) evs).1 = Ok (s2b "der")) as E by vm_refl. split; [exact E|].
  destruct (served_certificate_valid own_ca (no_ca []) evs (s2b "der") own_paths E)
    as ((before & ev & after & now & Hevs & Ht & Hv & _) & _).
  exists before, ev, after, now. split; [exact Hevs|]. split; [exact Ht|exact Hv].
Defined.

Lemma ca_lifecycle_witness :
  ∃ c m' f', started [] = (Ok c, m', f') ∧
    EnsureCA manager own_io (AddDays born 100) (AddDays born 100) born f' = (Ok c, m', f') ∧
    ∃ e, (EnsureCA manager own_io (AddDays born 400) (AddDays born 400) born f').1.1 = Err e.
Proof.
  destruct (ca_lifecycle manager own_io born born born (s2b "der") (no_ca []) eq_refl own_paths eq_refl eq_refl own_generates)
    as (c & m' & f' & nk & E & _ & _ & _ & H).
  exists c, m', f'. split; [exact E|]. split.
  - apply (proj1 (H own_io (AddDays born 100) born ltac:(by vm_compute))). by vm_compute.
  - destruct (proj2 (proj2 (H own_io (AddDays born 400) born ltac:(by vm_compute))) ltac:(by vm_compute)) as [e He].
    exists (Wrapf "CA validation failed: %w" [] e). by rewrite He.
Defined.

(** The third call, the write of the certificate, is refused. *)
Lemma ca_repaired_witness :
  is_ok (started [false; false; true]).1.1 = false ∧
  ∃ c m'' f'', EnsureCA manager own_io born born born (at_ease (started [false; false; true]).2) = (Ok c, m'', f'').
Proof.
  split; [vm_refl|].
  destruct (ca_repaired manager own_io own_io born born born (s2b "der") born born born (s2b "der") (no_ca [false; false; true])
    (started [false; false; true]).1.1 (started [false; false; true]).1.2 (started [false; false; true]).2 eq_refl own_paths
    eq_refl own_generates own_generates) as (c & m'' & f'' & E & _).
  - by vm_compute.
  - unfold started. by rewrite <- !surjective_pairing.
  - by exists c, m'', f''.
Defined.

(** ** The command line *)

(** A tree without links among its directories. *)
#[local] Instance plain_tree : Install :=
  {| evalSymlinks m p :=
       match m !! p with
       | Some (ELink t) => if bool_decide (is_Some (m !! t)) then Ok t else Err if_not_exist
       | Some _ => Ok p
       | None => Err if_not_exist
       end;
     abs_path p := Ok p; os_Executable := Ok "/usr/bin/claw-wrap"; os_uid := 0; look_path _ := Err if_not_exist |}.

Definition bin_dir : gmap string entry :=
  {[ "/usr/local/bin" := EDir; "/usr/local/bin/gh" := EFile (s2b "old"); "/usr/local/bin/vault" := EDir;
     "/usr/bin/claw-wrap" := EFile (s2b "elf") ]}.
Definition bin_tree (faults : list bool) : ifs := {| if_entries := bin_dir; if_faults := faults |}.

(** A configuration with three tools. *)
Definition three_tools (path : string) : result Config :=
  Ok {| cfg_Proxy := None; cfg_Security := None; cfg_HTTPProxy := None; cfg_Audit := None; cfg_Credentials := ∅;
        cfg_Tools := {[ "gh" := gh_tool None; "jq" := gh_tool None; "vault" := gh_tool None ]} |}.
Definition in_order (tools : gmap string ToolDef) : list string := (map_to_list tools).*1.

Lemma install_conservative_witness :
  let r := runInstall three_tools in_order ["claw-wrap"; "install"] (bin_tree []) in
  if_entries r.2 !! "/usr/local/bin/gh" = Some (EFile (s2b "old")) ∧
  if_entries r.2 !! "/usr/local/bin/jq" = Some (ELink "/usr/bin/claw-wrap").
Proof.
  intros r. split; [|vm_refl].
  destruct (install_conservative three_tools in_order ["claw-wrap"; "install"] (bin_tree []) r.1 r.2
    (surjective_pairing _)) as (H & _).
  destruct (H "/usr/local/bin/gh" (EFile (s2b "old")) ltac:(vm_refl)) as [E|[[E|E]|[E _]]]; [exact E|..];
    exfalso; revert E; vm_compute; discriminate.
Defined.

Lemma install_tool_outcome_witness :
  let p := "/usr/local/bin/gh" in
  install_tool "/usr/bin/claw-wrap" "/usr/local/bin" true "gh" (bin_tree [])
    = (Replaced, {| if_entries := <[p := ELink "/usr/bin/claw-wrap"]> bin_dir; if_faults := [] |}).
Proof.
  intros p.
  assert (link_of "/usr/local/bin" "gh" = p) as Hp by vm_refl.
  assert (bin_dir !! p = Some (EFile (s2b "old"))) as He by vm_refl.
  destruct (install_tool_outcome "/usr/bin/claw-wrap" "/usr/local/bin" true "gh" (bin_tree []) eq_refl
    ltac:(vm_refl) ltac:(vm_refl)) as [H _].
  rewrite H, Hp. cbn [if_entries bin_tree]. by rewrite He.
Defined.
