(* ===== verification/LifeWitnesses.v ===== *)
(** Concrete inputs for the theorems on a daemon's life. *)

From S2P Require Import Prelude GoStrings Json Protocol GoTime Replay Auth Regexp ConfigTypes GoPath Paths World Config.
From S2P Require Import Sources Settings HttpProxy SecretFile Env Runtime AuditLog AuditFile Executor Daemon DaemonLaws ReloadLaws Service.
From S2P Require Import ServiceLaws Witnesses ServiceWitnesses.
Local Open Scope Z_scope.

#[local] Existing Instance simple_regexp.
#[local] Existing Instance no_durations.
#[local] Existing Instance linux.
#[local] Existing Instance host.
#[local] Existing Instance last_byte_hash.
#[local] Existing Instance proxy_codec.
#[local] Existing Instance admin_codec.
#[local] Existing Instance peers.

(** A start on which every call succeeds. *)
Definition ok_path : path_io :=
  {| pi_stat_gid := Ok 0; pi_chown := Ok tt; pi_stat_perm := Ok 0x1C0; pi_chmod := Ok tt |}.
Definition ok_startup : startup_io :=
  {| su_load := Ok (gh_config None); su_secret := Ok secret_key; su_write_secret := Ok tt; su_secret_path := ok_path;
     su_mkdir := Ok tt; su_dir := ok_path; su_remove_socket := Some ENOENT; su_listen := Ok tt;
     su_chmod_socket := Ok tt; su_socket_path := ok_path |}.
Definition fresh_node : node :=
  {| n_daemon := daemon_New (Ok "/usr/bin/claw-wrap") ["/usr/bin/claw-wrap"] 1000 [];
     n_fs := {| fs_nodes := ∅; fs_faults := [] |};
     n_audit := {| as_next := 0; as_closed := ∅; as_broken := ∅; as_offline := ∅; as_written := []; as_faults := [] |} |}.
Definition started : service :=
  {| sv_node := (Run_startup ok_startup ok_io fresh_node).2; sv_handlers := [];
     sv_watcher := Some (Dir (d_configPath (n_daemon fresh_node))); sv_debounce := None; sv_signals := true;
     sv_listening := true; sv_deferred := Some (Single audit_handle); sv_exited := false |}.

Lemma starts : start_service ok_startup ok_io (Ok tt) (λ _, Ok tt) fresh_node = Ok started.
Proof. vm_refl. Qed.

(** What happens, or nothing where it cannot. *)
Definition lived (s : service) (evs : list service_event) : list service_output * service :=
  default ([], s) (life const_credential s evs).
Definition stepped (s : service) (ev : service_event) : list service_output * service :=
  default ([], s) (service_step const_credential s ev).

Lemma lived_life s evs : bool_decide (is_Some (life const_credential s evs)) = true →
  life const_credential s evs = Some ((lived s evs).1, (lived s evs).2).
Proof. unfold lived. destruct (life _ s evs) as [[]|]; [done|]. intros H. by apply bool_decide_eq_true in H as []. Qed.
Lemma stepped_step s ev : bool_decide (is_Some (service_step const_credential s ev)) = true →
  service_step const_credential s ev = Some ((stepped s ev).1, (stepped s ev).2).
Proof. unfold stepped. destruct (service_step _ s ev) as [[]|]; [done|]. intros H. by apply bool_decide_eq_true in H as []. Qed.

Definition caller : conn := conn_of "run" 7 1000.

(** Two connections with the same request, the first one decided. *)
Definition two_accepted : list service_event := [EvConnect caller; EvBegin 0; EvConnect caller; EvBegin 1].
Definition waiting : service := (lived started two_accepted).2.
Definition ran : list service_output * service := stepped waiting (EvHandle 0 at1 at1).

Lemma service_invariant_witness :
  let s := (lived started (two_accepted ++ [EvHandle 0 at1 at1; EvFinish 0; EvHangup (Ok (gh_config None)) ok_io])).2 in
  d_connUsed (sv_daemon s) = 1 ∧ (step_connect s caller).1 = [].
Proof.
  intros s.
  destruct (service_invariant const_credential ok_startup ok_io (Ok tt) (λ _, Ok tt) fresh_node started _ _ s (gh_config None)
    starts eq_refl (lived_life started (two_accepted ++ [EvHandle 0 at1 at1; EvFinish 0; EvHangup (Ok (gh_config None)) ok_io])
      ltac:(vm_refl))) as (Hu & _ & Hb & _).
  assert (length (sv_handlers s) = 1%nat) as Hl by vm_refl. rewrite Hl in Hu, Hb. split; [exact Hu|].
  destruct (step_connect s caller).1 as [|o os] eqn:E; [done|]. exfalso.
  assert (1 = GetMaxConnections (gh_config None)) as Hm.
  { apply (proj1 (Hb caller)). by rewrite E. }
  vm_compute in Hm. discriminate.
Defined.

Definition run_of (outs : list service_output) : ToolExecutor := default (gh_executor None) (head (runs outs)).

Lemma nil_dec {A} (l : list A) : match l with [] => false | _ => true end = true → l ≠ [].
Proof. by destruct l. Qed.

Lemma every_run_admitted_witness :
  let outs := (lived started (two_accepted ++ [EvHandle 0 at1 at1])).1 in
  runs outs ≠ [] ∧
  ∃ d cfg c t1 t2, admitted d cfg c t1 t2 (run_of outs) ∧ d_secret d = secret_key ∧ d_allowedUID d = 1000.
Proof.
  intros outs. assert (runs outs ≠ []) as Hne by (apply nil_dec; vm_refl). split; [exact Hne|].
  destruct (every_run_admitted const_credential ok_startup ok_io (Ok tt) (λ _, Ok tt) fresh_node started _ outs _ (run_of outs)
    starts (lived_life started (two_accepted ++ [EvHandle 0 at1 at1]) ltac:(vm_refl)))
    as (d & cfg & c & t1 & t2 & Ha & Hs & Hu & _).
  { unfold run_of. destruct (runs outs) as [|e es]; [done|left]. }
  exists d, cfg, c, t1, t2. split; [exact Ha|]. split; [|exact Hu].
  change (su_secret ok_startup) with (Ok secret_key) in Hs. by injection Hs as ->.
Defined.

(** The same request again, after a reload. *)
Definition again : list service_event := [EvHangup (Ok (gh_config None)) ok_io; EvHandle 1 at1 at1].

Lemma no_second_run_witness :
  runs ran.1 ≠ [] ∧ Forall (λ e', pr_hmac (e_req e') ≠ pr_hmac (e_req (run_of ran.1))) (runs (lived ran.2 again).1) ∧
  length (lived ran.2 again).1 = 2%nat.
Proof.
  assert (runs ran.1 ≠ []) as Hne by (apply nil_dec; vm_refl). split; [exact Hne|]. split; [|vm_refl].
  apply (no_second_run const_credential ok_startup ok_io (Ok tt) (λ _, Ok tt) fresh_node started two_accepted _ waiting 0 at1 at1
    ran.1 (run_of ran.1) ran.2 again _ (lived ran.2 again).2 (NewReplayCache (GetReplayCacheTTL (gh_config None))
      (GetReplayCacheMaxEntries (gh_config None))) 3 starts (lived_life started two_accepted ltac:(vm_refl))
    (stepped_step waiting (EvHandle 0 at1 at1) ltac:(vm_refl))).
  - unfold run_of. destruct (runs ran.1) as [|e es]; [done|left].
  - vm_refl.
  - exact (lived_life ran.2 again ltac:(vm_refl)).
  - repeat constructor.
  - vm_compute. discriminate.
  - repeat constructor. vm_compute. discriminate.
  - vm_compute. discriminate.
Defined.

(** A configuration with another audit file. *)
Definition moved_config : Config :=
  {| cfg_Proxy := None; cfg_Security := None; cfg_HTTPProxy := None; cfg_Audit := Some (audit_file "/var/log/b.jsonl");
     cfg_Credentials := cfg_Credentials (gh_config None); cfg_Tools := cfg_Tools (gh_config None) |}.
Definition moved : service := (stepped ran.2 (EvHangup (Ok moved_config) ok_io)).2.
Definition gh_entry : Entry :=
  {| en_Timestamp := "t"; en_Tool := "gh"; en_Args := None; en_Cwd := "/"; en_CallerPID := 7; en_CallerExe := "";
     en_ExitCode := 0; en_Timeout := false; en_DurationMs := 0; en_OutputHash := ""; en_OutputBytes := 0 |}.

Lemma reload_drops_audit_witness :
  ∃ err s3, service_step const_credential moved (EvLog 0 gh_entry) = Some ([OutLogged (Some err)], s3) ∧
    as_written (n_audit (sv_node s3)) = as_written (n_audit (sv_node moved)).
Proof.
  apply (reload_drops_audit const_credential ran.2 moved_config ok_io audit_handle "/var/log/a.jsonl"
    (stepped ran.2 (EvHangup (Ok moved_config) ok_io)).1 moved [] [] moved 0 (run_of ran.1) gh_entry).
  - vm_refl.
  - reflexivity.
  - vm_refl.
  - vm_refl.
  - exact (stepped_step ran.2 (EvHangup (Ok moved_config) ok_io) ltac:(vm_refl)).
  - reflexivity.
  - vm_refl.
  - vm_refl.
  - vm_refl.
Defined.

(** ** The audit file *)

(** An argument that looks like the end of a line and another entry. *)
Definition forged_entry : Entry :=
  {| en_Timestamp := "2026-02-08T10:30:00Z"; en_Tool := "gh";
     en_Args := Some [b2s (newline :: s2b "{" ++ json_key "ts" ++ json_qstring false "x" ++ s2b "}")]; en_Cwd := "/"; en_CallerPID := 7; en_CallerExe := "";
     en_ExitCode := 0; en_Timeout := true; en_DurationMs := 12; en_OutputHash := ""; en_OutputBytes := 3 |}.

(** The second write is cut short after three bytes; nothing is written from then on. *)
Lemma audit_file_read_back_witness :
  let f := {| fs_nodes := ∅; fs_faults := [false; false; false; false; true] |} in
  let r := NewFileLogger f 0 0x12 "/var/log/a.jsonl" in
  let lg := default {| fl_path := ""; fl_err := None |} (match r.1 with Ok lg => Some lg | Err _ => None end) in
  let l := log_all 3 lg r.2 [forged_entry; gh_entry; gh_entry] in
  r.1 = Ok lg ∧ logged l.1 = [forged_entry] ∧
  ∃ n, fs_nodes l.2 !! "/var/log/a.jsonl" = Some n ∧ length (lines_of (nd_data n) []) = 2%nat.
Proof.
  intros f r lg l. assert (r.1 = Ok lg) as Hr by vm_refl. split; [exact Hr|].
  assert (logged l.1 = [forged_entry]) as Hlog by vm_refl. split; [exact Hlog|].
  destruct (audit_file_read_back 3 f 0 0x12 "/var/log/a.jsonl" lg r.2 [forged_entry; gh_entry; gh_entry] l.1 l.2)
    as (n & text & bad & Hf & _ & _ & Hd & _ & [Hb _] & _ & Hlines & _).
  - rewrite <- Hr. apply surjective_pairing.
  - apply surjective_pairing.
  - assert (l.1 = [(forged_entry, None); (gh_entry, Some fs_error); (gh_entry, Some fs_error)]) as Hl by vm_refl.
    rewrite Hlog, Hl in Hb. cbn [fmap list_fmap app] in Hb. injection Hb as <-.
    exists n. rewrite Hf, lookup_insert_eq. split; [done|].
    change (nd_data n = text ++ part_of 3 [(gh_entry, Some fs_error); (gh_entry, Some fs_error)]) in Hd.
    rewrite Hd, Hlines, Hlog. vm_refl.
Defined.
